(** * Tyler: a tile-based software rasterizer — verification of the pipeline core

    Shallow embedding of [Tyler/PipelineThread.cpp] and [Tyler/RenderEngine.cpp].

    - [float] is IEEE-754 binary32, modelled with the Standard Library's
      [spec_float] at precision 24 and maximal exponent 128 (round to nearest,
      ties to even, which is the default rounding mode of C++ and of MXCSR).
    - [uint32_t] is [Z] with wrap-around modulo 2^32 written out.
    - [__m128] is a record of four binary32 lanes, [__m128i] of four 32-bit lanes.
    - arrays ([new T[n]], [std::vector]) are lists, read with [!!] and written
      with [<[i:=x]>]; fallible reads return [option].
    - the worker threads of the geometry phase are a step relation whose steps
      are the atomic operations of the source. *)

From Stdlib Require Import ZArith List Bool Lia.
From Stdlib Require Import Floats.SpecFloat.
From stdpp Require Import base option list gmap.

Open Scope Z_scope.

(** ** binary32 arithmetic *)

Module F32.

Definition prec : Z := 24.
Definition emax : Z := 128.

Definition f32 : Type := spec_float.

Definition add : f32 -> f32 -> f32 := SFadd prec emax.
Definition sub : f32 -> f32 -> f32 := SFsub prec emax.
Definition mul : f32 -> f32 -> f32 := SFmul prec emax.
Definition div : f32 -> f32 -> f32 := SFdiv prec emax.
Definition neg : f32 -> f32 := SFopp.

(** [a < b], [a <= b], [a > b], [a >= b], [a == b] of C++: all false on NaN. *)
Definition ltb (a b : f32) : bool := SFltb a b.
Definition leb (a b : f32) : bool := SFleb a b.
Definition gtb (a b : f32) : bool := SFltb b a.
Definition geb (a b : f32) : bool := SFleb b a.
Definition eqb (a b : f32) : bool := SFeqb a b.

(** The binary32 nearest to [m * 2^e]. *)
Definition make (m e : Z) : f32 := binary_normalize prec emax m e false.

(** [static_cast<float>(n)] for an integer [n]. *)
Definition of_Z (n : Z) : f32 := make n 0.

Definition zero : f32 := S754_zero false.
Definition one : f32 := of_Z 1.
Definition half : f32 := make 1 (-1).

(** Integer nearest to [m * 2^e], ties to even. *)
Definition Zround_ne (m : positive) (e : Z) : Z :=
  match e with
  | Z0 => Zpos m
  | Zpos _ => Zpos m * 2 ^ e
  | Zneg p =>
      let d := 2 ^ Zpos p in
      let q := Zpos m / d in
      let r := Zpos m mod d in
      match 2 * r ?= d with
      | Lt => q
      | Gt => q + 1
      | Eq => if Z.even q then q else q + 1
      end
  end.

(** Integer part of [m * 2^e] (rounding toward zero) and whether
    [m * 2^e] is an integer. *)
Definition Ztrunc_pos (m : positive) (e : Z) : Z :=
  match e with
  | Z0 => Zpos m
  | Zpos _ => Zpos m * 2 ^ e
  | Zneg p => Zpos m / 2 ^ Zpos p
  end.

Definition is_integral (m : positive) (e : Z) : bool :=
  match e with
  | Zneg p => Zpos m mod 2 ^ Zpos p =? 0
  | _ => true
  end.

(** Rounding of a float to an integer, in the three directions the source
    uses.  [None] on NaN and the infinities. *)
Definition to_Z_nearest (x : f32) : option Z :=
  match x with
  | S754_zero _ => Some 0
  | S754_finite s m e => Some (cond_Zopp s (Zround_ne m e))
  | _ => None
  end.

Definition to_Z_trunc (x : f32) : option Z :=
  match x with
  | S754_zero _ => Some 0
  | S754_finite s m e => Some (cond_Zopp s (Ztrunc_pos m e))
  | _ => None
  end.

Definition to_Z_floor (x : f32) : option Z :=
  match x with
  | S754_zero _ => Some 0
  | S754_finite false m e => Some (Ztrunc_pos m e)
  | S754_finite true m e =>
      Some (if is_integral m e then - Ztrunc_pos m e else - Ztrunc_pos m e - 1)
  | _ => None
  end.

Definition to_Z_ceil (x : f32) : option Z :=
  match x with
  | S754_zero _ => Some 0
  | S754_finite true m e => Some (- Ztrunc_pos m e)
  | S754_finite false m e =>
      Some (if is_integral m e then Ztrunc_pos m e else Ztrunc_pos m e + 1)
  | _ => None
  end.

Definition sign_of (x : f32) : bool :=
  match x with
  | S754_zero s | S754_infinity s | S754_finite s _ _ => s
  | S754_nan => false
  end.

(** [glm::floor] and [glm::ceil]: a float again; NaN and the infinities are
    returned as they are. *)
Definition floor (x : f32) : f32 :=
  match to_Z_floor x with
  | Some n => binary_normalize prec emax n 0 (sign_of x)
  | None => x
  end.

Definition ceil (x : f32) : f32 :=
  match to_Z_ceil x with
  | Some n => binary_normalize prec emax n 0 (sign_of x)
  | None => x
  end.

(** [glm::min(x, y)] is [(y < x) ? y : x] and [glm::max(x, y)] is
    [(x < y) ? y : x]. *)
Definition min (x y : f32) : f32 := if ltb y x then y else x.
Definition max (x y : f32) : f32 := if ltb x y then y else x.

End F32.

Abbreviation f32 := F32.f32.

Declare Scope f32_scope.
Delimit Scope f32_scope with f32.
Infix "+" := F32.add : f32_scope.
Infix "-" := F32.sub : f32_scope.
Infix "*" := F32.mul : f32_scope.
Infix "/" := F32.div : f32_scope.
Notation "- x" := (F32.neg x) : f32_scope.
Infix "<?" := F32.ltb : f32_scope.
Infix "<=?" := F32.leb : f32_scope.
Infix ">?" := F32.gtb : f32_scope.
Infix ">=?" := F32.geb : f32_scope.

(** ** 32-bit unsigned integers *)

Definition u32_mod : Z := 2 ^ 32.
Definition u32 (n : Z) : Z := n mod u32_mod.
Definition UINT32_MAX : Z := u32_mod - 1.

(** [static_cast<float>(n)] for [uint32_t n]. *)
Definition float_of_u32 (n : Z) : f32 := F32.of_Z (u32 n).

(** [static_cast<uint32_t>(x)]: the fractional part is discarded.  C++ leaves
    the result undefined when the truncated value is not representable; the
    model wraps it (and gives 0 on NaN and the infinities). *)
Definition u32_of_float (x : f32) : Z :=
  match F32.to_Z_trunc x with
  | Some n => u32 n
  | None => 0
  end.

(** ** glm vectors and SSE registers *)

Record vec2 := mk_vec2 { x2 : f32; y2 : f32 }.
Record vec3 := mk_vec3 { x3 : f32; y3 : f32; z3 : f32 }.
Record vec4 := mk_vec4 { x4 : f32; y4 : f32; z4 : f32; w4 : f32 }.

Definition vec3_zero : vec3 := mk_vec3 F32.zero F32.zero F32.zero.

(** [__m128]: four binary32 lanes, lane 0 first (the order of [_mm_setr_ps]). *)
Record m128 := mk_m128 { ps0 : f32; ps1 : f32; ps2 : f32; ps3 : f32 }.

(** [__m128i] seen as four 32-bit lanes.  The results of the SSE comparisons
    are kept in this type: a lane is [0] or [0xFFFFFFFF]. *)
Record m128i := mk_m128i { epi0 : Z; epi1 : Z; epi2 : Z; epi3 : Z }.

Definition ps_lane (v : m128) (k : nat) : f32 :=
  match k with
  | O => ps0 v
  | 1%nat => ps1 v
  | 2%nat => ps2 v
  | _ => ps3 v
  end.

Definition epi_lane (v : m128i) (k : nat) : Z :=
  match k with
  | O => epi0 v
  | 1%nat => epi1 v
  | 2%nat => epi2 v
  | _ => epi3 v
  end.

Definition m128_map2 (f : f32 -> f32 -> f32) (a b : m128) : m128 :=
  mk_m128 (f (ps0 a) (ps0 b)) (f (ps1 a) (ps1 b)) (f (ps2 a) (ps2 b)) (f (ps3 a) (ps3 b)).

Definition _mm_set_ps1 (a : f32) : m128 := mk_m128 a a a a.
Definition _mm_setr_ps (a b c d : f32) : m128 := mk_m128 a b c d.
Definition _mm_add_ps : m128 -> m128 -> m128 := m128_map2 F32.add.
Definition _mm_mul_ps : m128 -> m128 -> m128 := m128_map2 F32.mul.

Definition all_ones : Z := 4294967295.
Definition cmp_mask (b : bool) : Z := if b then all_ones else 0.

Definition m128_cmp (f : f32 -> f32 -> bool) (a b : m128) : m128i :=
  mk_m128i (cmp_mask (f (ps0 a) (ps0 b))) (cmp_mask (f (ps1 a) (ps1 b)))
           (cmp_mask (f (ps2 a) (ps2 b))) (cmp_mask (f (ps3 a) (ps3 b))).

Definition _mm_cmple_ps : m128 -> m128 -> m128i := m128_cmp F32.leb.
Definition _mm_cmplt_ps : m128 -> m128 -> m128i := m128_cmp F32.ltb.
Definition _mm_cmpge_ps : m128 -> m128 -> m128i := m128_cmp F32.geb.
Definition _mm_cmpgt_ps : m128 -> m128 -> m128i := m128_cmp F32.gtb.

Definition _mm_and_ps (a b : m128i) : m128i :=
  mk_m128i (Z.land (epi0 a) (epi0 b)) (Z.land (epi1 a) (epi1 b))
           (Z.land (epi2 a) (epi2 b)) (Z.land (epi3 a) (epi3 b)).

Definition _mm_setr_epi32 (a b c d : Z) : m128i := mk_m128i a b c d.

Definition _mm_cmpeq_epi32 (a b : m128i) : m128i :=
  mk_m128i (cmp_mask (epi0 a =? epi0 b)) (cmp_mask (epi1 a =? epi1 b))
           (cmp_mask (epi2 a =? epi2 b)) (cmp_mask (epi3 a =? epi3 b)).

(** [_mm_set_epi64x(hi, lo)]: the low quadword holds lanes 0 and 1. *)
Definition _mm_set_epi64x (hi lo : Z) : m128i :=
  mk_m128i (lo mod u32_mod) (lo / u32_mod mod u32_mod)
           (hi mod u32_mod) (hi / u32_mod mod u32_mod).

(** [_mm_movemask_ps]: bit [k] of the result is the sign bit of lane [k]. *)
Definition _mm_movemask_ps (m : m128i) : Z :=
  Z.b2z (Z.testbit (epi0 m) 31) + 2 * Z.b2z (Z.testbit (epi1 m) 31)
  + 4 * Z.b2z (Z.testbit (epi2 m) 31) + 8 * Z.b2z (Z.testbit (epi3 m) 31).

(** [_mm_cvtps_epi32] on one lane, as a signed 32-bit value: conversion in the
    current rounding mode of MXCSR (round to nearest even unless the program
    changes it, which this one does not); the "integer indefinite" value
    [0x80000000] when the result does not fit or the input is NaN. *)
Definition INT32_MIN : Z := - 2 ^ 31.

Definition cvtps_epi32_lane (x : f32) : Z :=
  match F32.to_Z_nearest x with
  | Some n => if (INT32_MIN <=? n) && (n <? 2 ^ 31) then n else INT32_MIN
  | None => INT32_MIN
  end.

(** [_mm_packus_epi32] on one lane: signed 32-bit to unsigned 16-bit with
    saturation. *)
Definition packus_epi32_lane (n : Z) : Z :=
  if n <? 0 then 0 else if 65535 <? n then 65535 else n.

(** [_mm_packus_epi16] on one lane: the 16-bit lane is read as a signed
    value and saturated to an unsigned byte. *)
Definition int16_of_bits (n : Z) : Z := if n <? 32768 then n else n - 65536.

Definition packus_epi16_lane (n : Z) : Z :=
  let s := int16_of_bits n in
  if s <? 0 then 0 else if 255 <? s then 255 else s.

Definition f255 : f32 := F32.of_Z 255.

(** The byte that [UpdateColorBuffer] computes for one color channel:
    [_mm_mul_ps] by 255, [_mm_cvtps_epi32], then the two packs. *)
Definition color_channel_byte (v : f32) : Z :=
  packus_epi16_lane (packus_epi32_lane (cvtps_epi32_lane (v * f255)%f32)).

(** [FragmentOutput]: [m_FragmentColors[k]] holds the RGBA of sample [k]. *)
Record FragmentOutput := mk_FragmentOutput {
  m_FragmentColors0 : m128;
  m_FragmentColors1 : m128;
  m_FragmentColors2 : m128;
  m_FragmentColors3 : m128
}.

Definition m_FragmentColors (o : FragmentOutput) (k : nat) : m128 :=
  match k with
  | O => m_FragmentColors0 o
  | 1%nat => m_FragmentColors1 o
  | 2%nat => m_FragmentColors2 o
  | _ => m_FragmentColors3 o
  end.

(** The four bytes of sample [k] after the packs: R, G, B, A in memory order
    ([_mm_cvtsi128_si32] takes the low 32 bits, little endian). *)
Definition sample_bytes (c : m128) : list Z :=
  [color_channel_byte (ps0 c); color_channel_byte (ps1 c);
   color_channel_byte (ps2 c); color_channel_byte (ps3 c)].

(** [sseFragmentOut] of [UpdateColorBuffer] as the 16 bytes it occupies. *)
Definition sseFragmentOut_bytes (o : FragmentOutput) : list Z :=
  sample_bytes (m_FragmentColors0 o) ++ sample_bytes (m_FragmentColors1 o) ++
  sample_bytes (m_FragmentColors2 o) ++ sample_bytes (m_FragmentColors3 o).

(** Byte [j] (0..15) of a mask register has its high bit set. *)
Definition mask_byte_selected (mask : m128i) (j : nat) : bool :=
  Z.testbit (epi_lane mask (j / 4)) (8 * Z.of_nat (j mod 4) + 7).

(** [_mm_maskmoveu_si128(data, mask, p)]: element [j] of [data] is stored at
    [p + j] when it is selected by the mask. *)
Fixpoint masked_store {A} (selected : nat -> bool) (j : nat) (data : list A) (p : nat)
    (buf : list A) : list A :=
  match data with
  | [] => buf
  | d :: data' =>
      masked_store selected (S j) data' p
        (if selected j then <[(p + j)%nat := d]> buf else buf)
  end.

(** On a byte buffer, byte [j] is selected when the high bit of byte [j] of
    the mask is set. *)
Definition maskmove_bytes (mask : m128i) (data : list Z) (p : nat) (buf : list Z) : list Z :=
  masked_store (mask_byte_selected mask) 0 data p buf.

(** On a buffer of floats the store works lane by lane: the masks of the
    source come from comparisons, so the four bytes of a lane are selected
    together, and the high bit of the lane tells. *)
Definition lane_selected (mask : m128i) (k : nat) : bool :=
  Z.testbit (epi_lane mask k) 31.

Definition maskmove_ps (data : m128) (mask : m128i) (p : nat) (buf : list f32)
    : list f32 :=
  masked_store (lane_selected mask) 0 [ps0 data; ps1 data; ps2 data; ps3 data] p buf.

(** [_mm_maskmoveu_si128] stores the selected elements and touches no other:
    the store stays inside the buffer when every selected element [j < n]
    has its address [p + j] in it. *)
Definition masked_store_in_bounds {A} (selected : nat -> bool) (n p : nat) (buf : list A)
    : bool :=
  forallb (fun j => implb (selected j) (p + j <? length buf)%nat) (seq 0 n).

(** [PipelineThread::UpdateColorBuffer]; [pColorBufferAddress] is the offset
    of the first byte in the color buffer. *)
Definition UpdateColorBuffer (sseColorWriteMask : m128i) (fragmentOutput : FragmentOutput)
    (pColorBufferAddress : nat) (colorBuffer : list Z) : list Z :=
  maskmove_bytes sseColorWriteMask (sseFragmentOut_bytes fragmentOutput)
                 pColorBufferAddress colorBuffer.

(** [PipelineThread::UpdateDepthBuffer]; the address is the index of the first
    float in the depth buffer. *)
Definition UpdateDepthBuffer (sseDepthRes : m128i) (sseDepthValues : m128)
    (pDepthBufferAddress : nat) (depthBuffer : list f32) : list f32 :=
  maskmove_ps sseDepthValues sseDepthRes pDepthBufferAddress depthBuffer.

(** [RenderEngine::ClearRenderTargets] converts a clear color channel with
    [static_cast<uint8_t>(c * 255.f)]: the fraction is discarded. *)
Definition clear_color_byte (c : f32) : Z := u32_of_float (c * f255)%f32 mod 256.

(** What the specification asks of a stored channel: [cast<uint>(v * 255.f)]
    by truncation toward zero, kept in 8 bits, without any clamping. *)
Definition spec_color_channel_byte (v : f32) : Z := u32_of_float (v * f255)%f32 mod 256.

(** ** Arrays

    [a[i]] on a C++ array is undefined outside the allocation; reads and
    writes are checked here and [None] stands for such an access. *)

Definition array_get {A} (a : list A) (i : Z) : option A := a !! Z.to_nat i.

Definition array_set {A} (a : list A) (i : Z) (x : A) : option (list A) :=
  if decide (Z.to_nat i < length a)%nat then Some (<[Z.to_nat i := x]> a) else None.

(** ** Setup buffers (RenderEngine.cpp, constructor) *)

Record Rect2D := mk_Rect2D { m_MinX : f32; m_MinY : f32; m_MaxX : f32; m_MaxY : f32 }.

Definition Rect2D_zero : Rect2D := mk_Rect2D F32.zero F32.zero F32.zero F32.zero.

Record SetupBuffers := mk_SetupBuffers {
  m_pEdgeCoefficients : list vec3;
  m_pInterpolatedZValues : list vec3;
  m_pPrimBBoxes : list Rect2D;
  m_Attribute4Deltas : list (list vec3);
  m_Attribute3Deltas : list (list vec3);
  m_Attribute2Deltas : list (list vec3)
}.

Definition set_EdgeCoefficients (sb : SetupBuffers) (e : list vec3) : SetupBuffers :=
  mk_SetupBuffers e (m_pInterpolatedZValues sb) (m_pPrimBBoxes sb)
    (m_Attribute4Deltas sb) (m_Attribute3Deltas sb) (m_Attribute2Deltas sb).

Definition set_InterpolatedZValues (sb : SetupBuffers) (z : list vec3) : SetupBuffers :=
  mk_SetupBuffers (m_pEdgeCoefficients sb) z (m_pPrimBBoxes sb)
    (m_Attribute4Deltas sb) (m_Attribute3Deltas sb) (m_Attribute2Deltas sb).

Definition set_PrimBBoxes (sb : SetupBuffers) (b : list Rect2D) : SetupBuffers :=
  mk_SetupBuffers (m_pEdgeCoefficients sb) (m_pInterpolatedZValues sb) b
    (m_Attribute4Deltas sb) (m_Attribute3Deltas sb) (m_Attribute2Deltas sb).

Definition set_Attribute4Deltas (sb : SetupBuffers) (d : list (list vec3)) : SetupBuffers :=
  mk_SetupBuffers (m_pEdgeCoefficients sb) (m_pInterpolatedZValues sb) (m_pPrimBBoxes sb)
    d (m_Attribute3Deltas sb) (m_Attribute2Deltas sb).

Definition set_Attribute3Deltas (sb : SetupBuffers) (d : list (list vec3)) : SetupBuffers :=
  mk_SetupBuffers (m_pEdgeCoefficients sb) (m_pInterpolatedZValues sb) (m_pPrimBBoxes sb)
    (m_Attribute4Deltas sb) d (m_Attribute2Deltas sb).

Definition set_Attribute2Deltas (sb : SetupBuffers) (d : list (list vec3)) : SetupBuffers :=
  mk_SetupBuffers (m_pEdgeCoefficients sb) (m_pInterpolatedZValues sb) (m_pPrimBBoxes sb)
    (m_Attribute4Deltas sb) (m_Attribute3Deltas sb) d.

(** The allocations of [RenderEngine::RenderEngine]: [new glm::vec3[n]] for
    each buffer, [g_scMaxVertexAttributes] buffers per attribute width. *)
Definition AllocateSetupBuffers (m_MaxDrawIterationSize g_scMaxVertexAttributes : nat)
    : SetupBuffers :=
  mk_SetupBuffers
    (replicate (m_MaxDrawIterationSize * 3) vec3_zero)
    (replicate m_MaxDrawIterationSize vec3_zero)
    (replicate m_MaxDrawIterationSize Rect2D_zero)
    (replicate g_scMaxVertexAttributes (replicate (m_MaxDrawIterationSize * 4) vec3_zero))
    (replicate g_scMaxVertexAttributes (replicate (m_MaxDrawIterationSize * 3) vec3_zero))
    (replicate g_scMaxVertexAttributes (replicate (m_MaxDrawIterationSize * 2) vec3_zero)).

(** ** Clipping (PipelineThread.cpp, ExecuteFullTriangleClipping) *)

Section Clipper.

(** [g_scFullTriangleClippingEnabled] is a compile-time constant of a header. *)
Variable g_scFullTriangleClippingEnabled : bool.

Definition ExecuteFullTriangleClipping (v0Clip v1Clip v2Clip : vec4) : bool :=
  if g_scFullTriangleClippingEnabled then
    let allOutsideLeftPlane :=
      (x4 v0Clip <? - w4 v0Clip)%f32 && (x4 v1Clip <? - w4 v1Clip)%f32
      && (x4 v2Clip <? - w4 v2Clip)%f32 in
    let allOutsideRightPlane :=
      (x4 v0Clip >? w4 v0Clip)%f32 && (x4 v1Clip >? w4 v1Clip)%f32
      && (x4 v2Clip >? w4 v2Clip)%f32 in
    let allOutsideBottomPlane :=
      (y4 v0Clip <? - w4 v0Clip)%f32 && (y4 v1Clip <? - w4 v1Clip)%f32
      && (y4 v2Clip <? - w4 v2Clip)%f32 in
    let allOutsideTopPlane :=
      (y4 v0Clip >? w4 v0Clip)%f32 && (y4 v1Clip >? w4 v1Clip)%f32
      && (y4 v2Clip >? w4 v2Clip)%f32 in
    let allOutsideNearPlane :=
      (z4 v0Clip <? F32.zero)%f32 && (z4 v1Clip <? F32.zero)%f32
      && (z4 v2Clip <? F32.zero)%f32 in
    let allOutsideFarPlane :=
      (z4 v0Clip >? w4 v0Clip)%f32 && (z4 v1Clip >? w4 v1Clip)%f32
      && (z4 v2Clip >? w4 v2Clip)%f32 in
    if allOutsideLeftPlane || allOutsideRightPlane || allOutsideBottomPlane
       || allOutsideTopPlane || allOutsideNearPlane || allOutsideFarPlane
    then false
    else true
  else true.

End Clipper.

(** The six clip planes as the specification lists them, and what it means
    for a clip-space vertex to lie strictly outside one, tested against the
    vertex's own [w]. *)
Inductive ClipPlane :=
  | PlaneLeft | PlaneRight | PlaneBottom | PlaneTop | PlaneNear | PlaneFar.

Definition strictly_outside (p : ClipPlane) (v : vec4) : Prop :=
  match p with
  | PlaneLeft => (x4 v <? - w4 v)%f32 = true
  | PlaneRight => (x4 v >? w4 v)%f32 = true
  | PlaneBottom => (y4 v <? - w4 v)%f32 = true
  | PlaneTop => (y4 v >? w4 v)%f32 = true
  | PlaneNear => (z4 v <? F32.zero)%f32 = true
  | PlaneFar => (z4 v >? w4 v)%f32 = true
  end.

(** ** Triangle setup and culling (PipelineThread.cpp, ExecuteTriangleSetupAndCull) *)

(** The macro [TO_HOMOGEN(clipPos, width, height)]; [width] and [height] are
    [uint32_t] and are converted to [float] by the multiplication. *)
Definition TO_HOMOGEN (clipPos : vec4) (width height : Z) : vec4 :=
  mk_vec4 (float_of_u32 width * (x4 clipPos + w4 clipPos) * F32.half)%f32
          (float_of_u32 height * (y4 clipPos + w4 clipPos) * F32.half)%f32
          (z4 clipPos) (w4 clipPos).

(** The adjoint of the vertex matrix and its determinant, as computed from
    the three homogeneous vertices. *)
Record Adjoint := mk_Adjoint {
  adj_a0 : f32; adj_a1 : f32; adj_a2 : f32;
  adj_b0 : f32; adj_b1 : f32; adj_b2 : f32;
  adj_c0 : f32; adj_c1 : f32; adj_c2 : f32
}.

Definition ComputeAdjoint (v0Homogen v1Homogen v2Homogen : vec4) : Adjoint :=
  let a0 := ((y4 v2Homogen * w4 v1Homogen) - (y4 v1Homogen * w4 v2Homogen))%f32 in
  let a1 := ((y4 v0Homogen * w4 v2Homogen) - (y4 v2Homogen * w4 v0Homogen))%f32 in
  let a2 := ((y4 v1Homogen * w4 v0Homogen) - (y4 v0Homogen * w4 v1Homogen))%f32 in
  let b0 := ((x4 v1Homogen * w4 v2Homogen) - (x4 v2Homogen * w4 v1Homogen))%f32 in
  let b1 := ((x4 v2Homogen * w4 v0Homogen) - (x4 v0Homogen * w4 v2Homogen))%f32 in
  let b2 := ((x4 v0Homogen * w4 v1Homogen) - (x4 v1Homogen * w4 v0Homogen))%f32 in
  let c0 := ((x4 v2Homogen * y4 v1Homogen) - (x4 v1Homogen * y4 v2Homogen))%f32 in
  let c1 := ((x4 v0Homogen * y4 v2Homogen) - (x4 v2Homogen * y4 v0Homogen))%f32 in
  let c2 := ((x4 v1Homogen * y4 v0Homogen) - (x4 v0Homogen * y4 v1Homogen))%f32 in
  mk_Adjoint a0 a1 a2 b0 b1 b2 c0 c1 c2.

Definition detM (A : Adjoint) (v0Homogen v1Homogen v2Homogen : vec4) : f32 :=
  ((adj_c0 A * w4 v0Homogen) + (adj_c1 A * w4 v1Homogen) + (adj_c2 A * w4 v2Homogen))%f32.

(** Returns the [bool] of the source and the setup buffers after the call. *)
Definition ExecuteTriangleSetupAndCull (fbWidth fbHeight : Z) (primIdx : Z)
    (v0Clip v1Clip v2Clip : vec4) (sb : SetupBuffers) : option (bool * SetupBuffers) :=
  let v0Homogen := TO_HOMOGEN v0Clip fbWidth fbHeight in
  let v1Homogen := TO_HOMOGEN v1Clip fbWidth fbHeight in
  let v2Homogen := TO_HOMOGEN v2Clip fbWidth fbHeight in
  let A := ComputeAdjoint v0Homogen v1Homogen v2Homogen in
  if (detM A v0Homogen v1Homogen v2Homogen >? F32.zero)%f32 then
    e0 ← array_set (m_pEdgeCoefficients sb) (u32 (3 * primIdx + 0))
           (mk_vec3 (adj_a0 A) (adj_b0 A) (adj_c0 A));
    e1 ← array_set e0 (u32 (3 * primIdx + 1)) (mk_vec3 (adj_a1 A) (adj_b1 A) (adj_c1 A));
    e2 ← array_set e1 (u32 (3 * primIdx + 2)) (mk_vec3 (adj_a2 A) (adj_b2 A) (adj_c2 A));
    z ← array_set (m_pInterpolatedZValues sb) primIdx
          (mk_vec3 (z4 v0Clip - z4 v2Clip)%f32 (z4 v1Clip - z4 v2Clip)%f32 (z4 v2Clip));
    Some (true, set_InterpolatedZValues (set_EdgeCoefficients sb e2) z)
  else Some (false, sb).

(** ** The hierarchical coverage test

    [ExecuteBinner] (tiles) and [ExecuteRasterizer] (8x8 blocks) contain the
    same code: the corner selection, the evaluation of the edge function at
    the first region and the stepping.  It is written once here, over the
    arithmetic it uses, so that it can be run in binary32 (the program) and in
    exact integer arithmetic (to tell rounding from logic). *)

Class EdgeArith (R : Type) := {
  ea_zero : R;
  ea_add : R -> R -> R;
  ea_mul : R -> R -> R;
  ea_neg : R -> R;
  ea_ltb : R -> R -> bool;
  ea_geb : R -> R -> bool;
  ea_of_u32 : Z -> R
}.

#[export] Instance f32_EdgeArith : EdgeArith f32 := {|
  ea_zero := F32.zero;
  ea_add := F32.add;
  ea_mul := F32.mul;
  ea_neg := F32.neg;
  ea_ltb := F32.ltb;
  ea_geb := F32.geb;
  ea_of_u32 := float_of_u32
|}.

#[export] Instance Z_EdgeArith : EdgeArith Z := {|
  ea_zero := 0;
  ea_add := Z.add;
  ea_mul := Z.mul;
  ea_neg := Z.opp;
  ea_ltb := Z.ltb;
  ea_geb := Z.geb;
  ea_of_u32 := u32
|}.

Inductive Coverage := TrivialReject | TrivialAccept | Overlap.

#[export] Instance Coverage_eq_dec : EqDecision Coverage.
Proof. solve_decision. Defined.

Section HierarchicalTest.

Context {R : Type} `{EdgeArith R}.

(** Side of the region: [m_RenderConfig.m_TileSize] or [g_scPixelBlockSize]. *)
Variable S : Z.

(** [edgeNTRCorner]: LL -> 0, LR -> 1, UL -> 2, UR -> 3, from the signs of
    [a] ([ee.x]) and [b] ([ee.y]). *)
Definition TRCorner (a b : R) : Z :=
  if ea_geb b ea_zero then (if ea_geb a ea_zero then 3 else 2)
  else if ea_geb a ea_zero then 1 else 0.

(** [scTileTRCornerOffsets] / [scBlockTRCornerOffsets]. *)
Definition TRCornerOffsets (corner : Z) : R * R :=
  match corner with
  | 0 => (ea_zero, ea_zero)
  | 1 => (ea_of_u32 S, ea_zero)
  | 2 => (ea_zero, ea_of_u32 S)
  | _ => (ea_of_u32 S, ea_of_u32 S)
  end.

(** [scTileTACornerOffsets] / [scBlockTACornerOffsets], indexed by the TA
    corner: the step from the TR corner to the TA corner. *)
Definition TACornerOffsets (corner : Z) : R * R :=
  match corner with
  | 0 => (ea_neg (ea_of_u32 S), ea_neg (ea_of_u32 S))
  | 1 => (ea_of_u32 S, ea_neg (ea_of_u32 S))
  | 2 => (ea_neg (ea_of_u32 S), ea_of_u32 S)
  | _ => (ea_of_u32 S, ea_of_u32 S)
  end.

Definition TACorner (a b : R) : Z := 3 - TRCorner a b.

Definition edgeTACornerXOffset (a b : R) : R :=
  ea_mul a (fst (TACornerOffsets (TACorner a b))).

Definition edgeTACornerYOffset (a b : R) : R :=
  ea_mul b (snd (TACornerOffsets (TACorner a b))).

(** [edgeFuncN]: the edge function at the TR corner of the first region,
    whose origin is [(posX, posY)]. *)
Definition edgeFunc (a b c : R) (posX posY : R) : R :=
  ea_add
    (ea_add (ea_mul a (ea_add posX (fst (TRCornerOffsets (TRCorner a b)))))
            (ea_mul b (ea_add posY (snd (TRCornerOffsets (TRCorner a b))))))
    c.

(** [edgeFuncTRN]: stepped from [edgeFuncN] by [xx] regions in x and [yy]
    in y; [xx * S] is a [uint32_t] product. *)
Definition edgeFuncTR (a b c : R) (posX posY : R) (xx yy : Z) : R :=
  ea_add (ea_add (edgeFunc a b c posX posY) (ea_mul a (ea_of_u32 (xx * S))))
         (ea_mul b (ea_of_u32 (yy * S))).

(** The value tested for trivial accept: stepped once more, from the TR
    corner to the TA corner. *)
Definition edgeFuncTA (a b c : R) (posX posY : R) (xx yy : Z) : R :=
  ea_add (ea_add (edgeFuncTR a b c posX posY xx yy) (edgeTACornerXOffset a b))
         (edgeTACornerYOffset a b).

Definition TRForEdge (a b c : R) (posX posY : R) (xx yy : Z) : bool :=
  ea_ltb (edgeFuncTR a b c posX posY xx yy) ea_zero.

Definition TAForEdge (a b c : R) (posX posY : R) (xx yy : Z) : bool :=
  ea_geb (edgeFuncTA a b c posX posY xx yy) ea_zero.

(** The three-way decision of the loop body, for the edges
    [(a0,b0,c0)], [(a1,b1,c1)], [(a2,b2,c2)]. *)
Definition ClassifyRegion (e0 e1 e2 : R * R * R) (posX posY : R) (xx yy : Z)
    : Coverage :=
  let '(a0, b0, c0) := e0 in
  let '(a1, b1, c1) := e1 in
  let '(a2, b2, c2) := e2 in
  if TRForEdge a0 b0 c0 posX posY xx yy || TRForEdge a1 b1 c1 posX posY xx yy
     || TRForEdge a2 b2 c2 posX posY xx yy
  then TrivialReject
  else if TAForEdge a0 b0 c0 posX posY xx yy && TAForEdge a1 b1 c1 posX posY xx yy
          && TAForEdge a2 b2 c2 posX posY xx yy
  then TrivialAccept
  else Overlap.

(** Direct evaluation of [E(x, y) = a*x + b*y + c]. *)
Definition EvalEdge (a b c : R) (x y : R) : R :=
  ea_add (ea_add (ea_mul a x) (ea_mul b y)) c.

(** Origin of the region [xx] steps right and [yy] steps down of the first
    one, and its TR and TA corners for the edge [(a, b, _)]. *)
Definition RegionOrigin (posX posY : R) (xx yy : Z) : R * R :=
  (ea_add posX (ea_of_u32 (xx * S)), ea_add posY (ea_of_u32 (yy * S))).

Definition RegionTRCorner (a b : R) (posX posY : R) (xx yy : Z) : R * R :=
  let o := RegionOrigin posX posY xx yy in
  (ea_add (fst o) (fst (TRCornerOffsets (TRCorner a b))),
   ea_add (snd o) (snd (TRCornerOffsets (TRCorner a b)))).

Definition RegionTACorner (a b : R) (posX posY : R) (xx yy : Z) : R * R :=
  let o := RegionOrigin posX posY xx yy in
  (ea_add (fst o) (fst (TRCornerOffsets (TACorner a b))),
   ea_add (snd o) (snd (TRCornerOffsets (TACorner a b)))).

Definition DirectTR (a b c : R) (posX posY : R) (xx yy : Z) : R :=
  let p := RegionTRCorner a b posX posY xx yy in EvalEdge a b c (fst p) (snd p).

Definition DirectTA (a b c : R) (posX posY : R) (xx yy : Z) : R :=
  let p := RegionTACorner a b posX posY xx yy in EvalEdge a b c (fst p) (snd p).

End HierarchicalTest.

Definition edge_of_vec3 (ee : vec3) : f32 * f32 * f32 := (x3 ee, y3 ee, z3 ee).

(** ** Configuration, tiles, coverage masks *)

Record RasterizerConfig := mk_RasterizerConfig {
  m_TileSize : Z;
  m_MaxDrawIterationSize : Z;
  m_NumPipelineThreads : Z
}.

(** Modelled from the spec: the constants [g_scPixelBlockSize], [g_scSIMDWidth]
    and [g_scNumEdgeTestsPerRow] are declared in a header; the specification
    fixes the block size at 8 and the SIMD width at 4, and a row of a block
    is covered by groups of four contiguous samples. *)
Definition g_scPixelBlockSize : Z := 8.
Definition g_scSIMDWidth : Z := 4.
Definition g_scNumEdgeTestsPerRow : Z := g_scPixelBlockSize / g_scSIMDWidth.

(** Modelled from the spec: [g_scQuadMask0] .. [g_scQuadMask3] are declared in
    a header; bit [k] of a quad mask stands for sample [k] of the group, as
    [_mm_movemask_ps] produces it. *)
Definition g_scQuadMask0 : Z := 1.
Definition g_scQuadMask1 : Z := 2.
Definition g_scQuadMask2 : Z := 4.
Definition g_scQuadMask3 : Z := 8.

Record Tile := mk_Tile {
  m_PosX : f32;
  m_PosY : f32;
  m_IsTileQueued : bool
}.

Inductive CoverageMaskType := TILE | BLOCK | QUAD.

#[export] Instance CoverageMaskType_eq_dec : EqDecision CoverageMaskType.
Proof. solve_decision. Defined.

Record CoverageMask := mk_CoverageMask {
  m_SampleX : Z;
  m_SampleY : Z;
  m_PrimIdx : Z;
  m_Type : CoverageMaskType;
  m_QuadMask : Z
}.

(** Modelled from the spec: [RenderEngine::GetGlobalTileIndex] is defined in a
    header; the global tile index is [y * tilesPerRow + x]. *)
Definition GetGlobalTileIndex (m_NumTilePerRow : Z) (x y : Z) : Z :=
  u32 (y * m_NumTilePerRow + x).

(** ** Binning (PipelineThread.cpp, ComputeBoundingBox and ExecuteBinner) *)

Definition ComputeBoundingBox (v0Clip v1Clip v2Clip : vec4) (width height : Z) : Rect2D :=
  let v0NDC := mk_vec2 (x4 v0Clip / w4 v0Clip)%f32 (y4 v0Clip / w4 v0Clip)%f32 in
  let v1NDC := mk_vec2 (x4 v1Clip / w4 v1Clip)%f32 (y4 v1Clip / w4 v1Clip)%f32 in
  let v2NDC := mk_vec2 (x4 v2Clip / w4 v2Clip)%f32 (y4 v2Clip / w4 v2Clip)%f32 in
  let raster (v : vec2) :=
    mk_vec2 (float_of_u32 width * (x2 v + F32.one) * F32.half)%f32
            (float_of_u32 height * (y2 v + F32.one) * F32.half)%f32 in
  let v0Raster := raster v0NDC in
  let v1Raster := raster v1NDC in
  let v2Raster := raster v2NDC in
  let xmin := F32.min (x2 v0Raster) (F32.min (x2 v1Raster) (x2 v2Raster)) in
  let xmax := F32.max (x2 v0Raster) (F32.max (x2 v1Raster) (x2 v2Raster)) in
  let ymin := F32.min (y2 v0Raster) (F32.min (y2 v1Raster) (y2 v2Raster)) in
  let ymax := F32.max (y2 v0Raster) (F32.max (y2 v1Raster) (y2 v2Raster)) in
  mk_Rect2D xmin ymin xmax ymax.

(** What the loop body of [ExecuteBinner] does to the shared structures for
    one tile: nothing (trivial reject), [EnqueueTileForRasterization] followed
    by [AppendCoverageMask] (trivial accept), or [BinPrimitiveForTile]. *)
Inductive BinnerAction :=
  | EmitTile (tileIdx : nat) (mask : CoverageMask)
  | BinPrim (tileIdx : nat) (primIdx : Z).

Definition action_tile (a : BinnerAction) : nat :=
  match a with
  | EmitTile t _ => t
  | BinPrim t _ => t
  end.

(** Counters [lo, lo+1, ...] paired with the step count [0, 1, ...] of a loop
    [for (i = lo, ii = 0; i < hi; i++, ii++)] over [uint32_t]. *)
Definition loop_range (lo hi : Z) : list (Z * Z) :=
  map (fun k => (lo + Z.of_nat k, Z.of_nat k)) (seq 0 (Z.to_nat (hi - lo))).

Section Binner.

Variable m_RenderConfig : RasterizerConfig.
Variables fbWidth fbHeight : Z.
Variable m_NumTilePerRow : Z.
Variable m_TileList : list Tile.

Definition TileSizeF : f32 := float_of_u32 (m_TileSize m_RenderConfig).

(** The body of the two nested loops for the tile [(tx, ty)], reached after
    [(txx, tyy)] steps. *)
Definition BinnerTile (primIdx : Z) (ee0 ee1 ee2 : vec3) (tilePosX tilePosY : f32)
    (tx ty txx tyy : Z) : list BinnerAction :=
  match ClassifyRegion (m_TileSize m_RenderConfig)
          (edge_of_vec3 ee0) (edge_of_vec3 ee1) (edge_of_vec3 ee2)
          tilePosX tilePosY txx tyy with
  | TrivialReject => []
  | TrivialAccept =>
      let mask :=
        mk_CoverageMask
          (u32_of_float (tilePosX + float_of_u32 (txx * m_TileSize m_RenderConfig))%f32)
          (u32_of_float (tilePosY + float_of_u32 (tyy * m_TileSize m_RenderConfig))%f32)
          primIdx TILE 0 in
      [EmitTile (Z.to_nat (GetGlobalTileIndex m_NumTilePerRow tx ty)) mask]
  | Overlap => [BinPrim (Z.to_nat (GetGlobalTileIndex m_NumTilePerRow tx ty)) primIdx]
  end.

(** The tile range of a clamped bounding box. *)
Definition TileRange (bbox : Rect2D) : Z * Z * Z * Z :=
  (u32_of_float (F32.floor (m_MinX bbox / TileSizeF)%f32),
   u32_of_float (F32.ceil (m_MaxX bbox / TileSizeF)%f32),
   u32_of_float (F32.floor (m_MinY bbox / TileSizeF)%f32),
   u32_of_float (F32.ceil (m_MaxY bbox / TileSizeF)%f32)).

Definition ClampToScreen (bbox : Rect2D) : Rect2D :=
  mk_Rect2D (F32.max F32.zero (m_MinX bbox))
            (F32.max F32.zero (m_MinY bbox))
            (F32.min (float_of_u32 fbWidth) (m_MaxX bbox))
            (F32.min (float_of_u32 fbHeight) (m_MaxY bbox)).

(** [ExecuteBinner]: the setup buffers after the call (the bounding box is
    cached there) and the actions on the shared structures, in order. *)
Definition ExecuteBinner (primIdx : Z) (v0Clip v1Clip v2Clip : vec4) (sb : SetupBuffers)
    : option (SetupBuffers * list BinnerAction) :=
  let bbox := ComputeBoundingBox v0Clip v1Clip v2Clip fbWidth fbHeight in
  if (m_MinX bbox >=? float_of_u32 fbWidth)%f32 || (m_MaxX bbox <? F32.zero)%f32
     || (m_MinY bbox >=? float_of_u32 fbHeight)%f32 || (m_MaxY bbox <? F32.zero)%f32
  then Some (sb, [])
  else
    let bbox := ClampToScreen bbox in
    boxes ← array_set (m_pPrimBBoxes sb) primIdx bbox;
    let sb := set_PrimBBoxes sb boxes in
    let '(minTileX, maxTileX, minTileY, maxTileY) := TileRange bbox in
    ee0 ← array_get (m_pEdgeCoefficients sb) (u32 (3 * primIdx + 0));
    ee1 ← array_get (m_pEdgeCoefficients sb) (u32 (3 * primIdx + 1));
    ee2 ← array_get (m_pEdgeCoefficients sb) (u32 (3 * primIdx + 2));
    first ← array_get m_TileList (GetGlobalTileIndex m_NumTilePerRow minTileX minTileY);
    let tilePosX := m_PosX first in
    let tilePosY := m_PosY first in
    Some (sb,
          flat_map (fun '(ty, tyy) =>
            flat_map (fun '(tx, txx) =>
              BinnerTile primIdx ee0 ee1 ee2 tilePosX tilePosY tx ty txx tyy)
              (loop_range minTileX maxTileX))
            (loop_range minTileY maxTileY)).

End Binner.

(** ** Rasterization of one binned primitive in a tile
       (PipelineThread.cpp, ExecuteRasterizer, body of the loop over a bin) *)

Section Rasterizer.

Variable m_RenderConfig : RasterizerConfig.

(** Whether the source is compiled with [EDGE_TEST_SHARED_EDGES]. *)
Variable EDGE_TEST_SHARED_EDGES : bool.

Definition BlockSizeF : f32 := float_of_u32 g_scPixelBlockSize.

(** The sample test of one edge on one lane. *)
Definition EdgeFuncMask (ee : vec3) (x y : f32) : bool :=
  let e := (z3 ee + (x * x3 ee + y * y3 ee))%f32 in
  if EDGE_TEST_SHARED_EDGES then
    (e >? F32.zero)%f32
    || (negb (e <? F32.zero)%f32
        && ((x3 ee >? F32.zero)%f32
            || ((y3 ee >=? F32.zero)%f32 && F32.eqb (x3 ee) F32.zero)))
  else (e >=? F32.zero)%f32.

(** The group of four samples starting at column [4 * px] of row [py] of the
    block at [(blockPosX, blockPosY)]: its quad mask. *)
Definition QuadMaskInt (ee0 ee1 ee2 : vec3) (blockPosX blockPosY : f32) (px py : Z) : Z :=
  let y := (blockPosY + float_of_u32 py + F32.half)%f32 in
  let x (k : Z) :=
    (blockPosX + float_of_u32 (g_scSIMDWidth * px) + F32.make (2 * k + 1) (-1))%f32 in
  let inside (k : Z) :=
    EdgeFuncMask ee0 (x k) y && (EdgeFuncMask ee1 (x k) y && EdgeFuncMask ee2 (x k) y) in
  Z.b2z (inside 0) + 2 * Z.b2z (inside 1) + 4 * Z.b2z (inside 2) + 8 * Z.b2z (inside 3).

Definition RasterizeQuads (primIdx : Z) (ee0 ee1 ee2 : vec3) (blockPosX blockPosY : f32)
    : list CoverageMask :=
  flat_map (fun '(py, _) =>
    flat_map (fun '(px, _) =>
      let maskInt := QuadMaskInt ee0 ee1 ee2 blockPosX blockPosY px py in
      if maskInt =? 0 then []
      else [mk_CoverageMask
              (u32_of_float (blockPosX + float_of_u32 (g_scSIMDWidth * px))%f32)
              (u32_of_float (blockPosY + float_of_u32 py)%f32)
              primIdx QUAD maskInt])
      (loop_range 0 g_scNumEdgeTestsPerRow))
    (loop_range 0 g_scPixelBlockSize).

(** The body of the two nested block loops. *)
Definition RasterizeBlock (primIdx : Z) (ee0 ee1 ee2 : vec3)
    (firstBlockWithinBBoxX firstBlockWithinBBoxY : f32) (bxx byy : Z)
    : list CoverageMask :=
  match ClassifyRegion g_scPixelBlockSize
          (edge_of_vec3 ee0) (edge_of_vec3 ee1) (edge_of_vec3 ee2)
          firstBlockWithinBBoxX firstBlockWithinBBoxY bxx byy with
  | TrivialReject => []
  | TrivialAccept =>
      [mk_CoverageMask
         (u32_of_float (firstBlockWithinBBoxX + float_of_u32 (bxx * g_scPixelBlockSize))%f32)
         (u32_of_float (firstBlockWithinBBoxY + float_of_u32 (byy * g_scPixelBlockSize))%f32)
         primIdx BLOCK 0]
  | Overlap =>
      RasterizeQuads primIdx ee0 ee1 ee2
        (firstBlockWithinBBoxX + float_of_u32 (bxx * g_scPixelBlockSize))%f32
        (firstBlockWithinBBoxY + float_of_u32 (byy * g_scPixelBlockSize))%f32
  end.

(** One primitive of a bin of the tile at [(tilePosX, tilePosY)]: the
    coverage masks it appends, in order. *)
Definition RasterizePrimitive (tilePosX tilePosY : f32) (primIdx : Z) (sb : SetupBuffers)
    : option (list CoverageMask) :=
  bbox ← array_get (m_pPrimBBoxes sb) primIdx;
  let tileSize := float_of_u32 (m_TileSize m_RenderConfig) in
  let bbox :=
    mk_Rect2D (F32.max (m_MinX bbox) tilePosX) (F32.max (m_MinY bbox) tilePosY)
              (F32.min (m_MaxX bbox) (tilePosX + tileSize)%f32)
              (F32.min (m_MaxY bbox) (tilePosY + tileSize)%f32) in
  let minBlockX := u32_of_float (F32.floor ((m_MinX bbox - tilePosX) / BlockSizeF)%f32) in
  let maxBlockX := u32_of_float (F32.ceil ((m_MaxX bbox - tilePosX) / BlockSizeF)%f32) in
  let minBlockY := u32_of_float (F32.floor ((m_MinY bbox - tilePosY) / BlockSizeF)%f32) in
  let maxBlockY := u32_of_float (F32.ceil ((m_MaxY bbox - tilePosY) / BlockSizeF)%f32) in
  ee0 ← array_get (m_pEdgeCoefficients sb) (u32 (3 * primIdx + 0));
  ee1 ← array_get (m_pEdgeCoefficients sb) (u32 (3 * primIdx + 1));
  ee2 ← array_get (m_pEdgeCoefficients sb) (u32 (3 * primIdx + 2));
  let firstBlockWithinBBoxX :=
    (tilePosX + float_of_u32 (minBlockX * g_scPixelBlockSize))%f32 in
  let firstBlockWithinBBoxY :=
    (tilePosY + float_of_u32 (minBlockY * g_scPixelBlockSize))%f32 in
  Some (flat_map (fun '(by_, byy) =>
          flat_map (fun '(bx, bxx) =>
            RasterizeBlock primIdx ee0 ee1 ee2
              firstBlockWithinBBoxX firstBlockWithinBBoxY bxx byy)
            (loop_range minBlockX maxBlockX))
          (loop_range minBlockY maxBlockY)).

End Rasterizer.

(** ** Vertex attributes and their interpolation deltas *)

(** [VertexAttributes]: fixed arrays of [g_scMaxVertexAttributes] slots. *)
Record VertexAttributes := mk_VertexAttributes {
  m_Attributes4 : list vec4;
  m_Attributes3 : list vec3;
  m_Attributes2 : list vec2
}.

Record ShaderMetadata := mk_ShaderMetadata {
  m_NumVec4Attributes : Z;
  m_NumVec3Attributes : Z;
  m_NumVec2Attributes : Z
}.

(** [for (uint32_t i = 0; i < n; i++)] over a fallible body. *)
Definition for_u32 {St} (n : Z) (body : Z -> St -> option St) (st : St) : option St :=
  foldl (fun acc i => acc ≫= body (Z.of_nat i)) (Some st) (seq 0 (Z.to_nat n)).

(** [bufs[slot][idx] = d]. *)
Definition store_delta (bufs : list (list vec3)) (slot idx : Z) (d : vec3)
    : option (list (list vec3)) :=
  buf ← array_get bufs slot;
  buf' ← array_set buf idx d;
  array_set bufs slot buf'.

(** [bufs[slot][idx]]. *)
Definition load_delta (bufs : list (list vec3)) (slot idx : Z) : option vec3 :=
  buf ← array_get bufs slot;
  array_get buf idx.

Definition delta (c0 c1 c2 : f32) : vec3 := mk_vec3 (c0 - c2)%f32 (c1 - c2)%f32 c2.

Section Interpolation.

Variable m_ShaderMetadata : ShaderMetadata.

(** [PipelineThread::CalculateInterpolationCoefficients]. *)
Definition CalculateInterpolationCoefficients (drawIDx : Z)
    (vertexAttribs0 vertexAttribs1 vertexAttribs2 : VertexAttributes)
    (sb : SetupBuffers) : option SetupBuffers :=
  sb ← for_u32 (m_NumVec4Attributes m_ShaderMetadata) (fun i sb =>
    attrib0 ← array_get (m_Attributes4 vertexAttribs0) i;
    attrib1 ← array_get (m_Attributes4 vertexAttribs1) i;
    attrib2 ← array_get (m_Attributes4 vertexAttribs2) i;
    d ← store_delta (m_Attribute4Deltas sb) i (u32 (drawIDx * 4 + 0))
          (delta (x4 attrib0) (x4 attrib1) (x4 attrib2));
    d ← store_delta d i (u32 (drawIDx * 4 + 1)) (delta (y4 attrib0) (y4 attrib1) (y4 attrib2));
    d ← store_delta d i (u32 (drawIDx * 4 + 2)) (delta (z4 attrib0) (z4 attrib1) (z4 attrib2));
    d ← store_delta d i (u32 (drawIDx * 4 + 3)) (delta (w4 attrib0) (w4 attrib1) (w4 attrib2));
    Some (set_Attribute4Deltas sb d)) sb;
  sb ← for_u32 (m_NumVec3Attributes m_ShaderMetadata) (fun i sb =>
    attrib0 ← array_get (m_Attributes3 vertexAttribs0) i;
    attrib1 ← array_get (m_Attributes3 vertexAttribs1) i;
    attrib2 ← array_get (m_Attributes3 vertexAttribs2) i;
    d ← store_delta (m_Attribute3Deltas sb) i (u32 (drawIDx * 3 + 0))
          (delta (x3 attrib0) (x3 attrib1) (x3 attrib2));
    d ← store_delta d i (u32 (drawIDx * 3 + 1)) (delta (y3 attrib0) (y3 attrib1) (y3 attrib2));
    d ← store_delta d i (u32 (drawIDx * 3 + 2)) (delta (z3 attrib0) (z3 attrib1) (z3 attrib2));
    Some (set_Attribute3Deltas sb d)) sb;
  for_u32 (m_NumVec2Attributes m_ShaderMetadata) (fun i sb =>
    attrib0 ← array_get (m_Attributes2 vertexAttribs0) i;
    attrib1 ← array_get (m_Attributes2 vertexAttribs1) i;
    attrib2 ← array_get (m_Attributes2 vertexAttribs2) i;
    d ← store_delta (m_Attribute2Deltas sb) i (u32 (drawIDx * 2 + 0))
          (delta (x2 attrib0) (x2 attrib1) (x2 attrib2));
    d ← store_delta d i (u32 (drawIDx * 2 + 1)) (delta (y2 attrib0) (y2 attrib1) (y2 attrib2));
    Some (set_Attribute2Deltas sb d)) sb.

(** [InterpolatedAttributes], as the values computed for each slot [i].
    The source addresses the destination of slot [i] as
    [pInterpolatedAttributes[i].m_VecNAttributes->...];
    [InterpolateVertexAttributes] below returns the values by slot, and where
    the stores land is settled where the destination is known, in the
    shading functions that call it ([StoreInLocalRecord]). *)
Record Vec4Lanes := mk_Vec4Lanes { m4_SSEX : m128; m4_SSEY : m128; m4_SSEZ : m128; m4_SSEW : m128 }.
Record Vec3Lanes := mk_Vec3Lanes { m3_SSEX : m128; m3_SSEY : m128; m3_SSEZ : m128 }.
Record Vec2Lanes := mk_Vec2Lanes { m2_SSEX : m128; m2_SSEY : m128 }.

Record InterpolatedAttributes := mk_InterpolatedAttributes {
  m_Vec4Attributes : list Vec4Lanes;
  m_Vec3Attributes : list Vec3Lanes;
  m_Vec2Attributes : list Vec2Lanes
}.

(** [_mm_add_ps(_mm_mul_ps(sseAttrib0, ssef0XY),
                _mm_add_ps(_mm_mul_ps(sseAttrib1, ssef1XY), sseAttrib2))]
    with the three registers broadcast from one delta triple. *)
Definition InterpolateDelta (d : vec3) (ssef0XY ssef1XY : m128) : m128 :=
  let sseAttrib0 := _mm_set_ps1 (x3 d) in
  let sseAttrib1 := _mm_set_ps1 (y3 d) in
  let sseAttrib2 := _mm_set_ps1 (z3 d) in
  _mm_add_ps (_mm_mul_ps sseAttrib0 ssef0XY)
             (_mm_add_ps (_mm_mul_ps sseAttrib1 ssef1XY) sseAttrib2).

(** Accumulating loop: the results of slots [0 .. n-1], in order. *)
Definition collect_u32 {A} (n : Z) (body : Z -> option A) : option (list A) :=
  mapM (fun i => body (Z.of_nat i)) (seq 0 (Z.to_nat n)).

(** [PipelineThread::InterpolateVertexAttributes].  Every [const glm::vec3&]
    bound to an element of a delta buffer is an access to that element. *)
Definition InterpolateVertexAttributes (primIdx : Z) (ssef0XY ssef1XY : m128)
    (sb : SetupBuffers) : option InterpolatedAttributes :=
  v4 ← collect_u32 (m_NumVec4Attributes m_ShaderMetadata) (fun i =>
    attrib0Vec3 ← load_delta (m_Attribute4Deltas sb) i (u32 (primIdx * 4 + 0));
    attrib1Vec3 ← load_delta (m_Attribute4Deltas sb) i (u32 (primIdx * 4 + 1));
    attrib2Vec3 ← load_delta (m_Attribute4Deltas sb) i (u32 (primIdx * 4 + 2));
    attrib3Vec3 ← load_delta (m_Attribute4Deltas sb) i (u32 (primIdx * 4 + 3));
    let sseVec4AttribX := InterpolateDelta attrib0Vec3 ssef0XY ssef1XY in
    let sseVec4AttribY := InterpolateDelta attrib1Vec3 ssef0XY ssef1XY in
    let sseVec4AttribZ := InterpolateDelta attrib2Vec3 ssef0XY ssef1XY in
    let sseVec3AttribW := InterpolateDelta attrib2Vec3 ssef0XY ssef1XY in
    Some (mk_Vec4Lanes sseVec4AttribX sseVec4AttribY sseVec4AttribZ sseVec3AttribW));
  v3 ← collect_u32 (m_NumVec3Attributes m_ShaderMetadata) (fun i =>
    attrib0Vec3 ← load_delta (m_Attribute3Deltas sb) i (u32 (primIdx * 3 + 0));
    attrib1Vec3 ← load_delta (m_Attribute3Deltas sb) i (u32 (primIdx * 3 + 1));
    attrib2Vec3 ← load_delta (m_Attribute3Deltas sb) i (u32 (primIdx * 3 + 2));
    let sseVec3AttribX := InterpolateDelta attrib0Vec3 ssef0XY ssef1XY in
    let sseVec3AttribY := InterpolateDelta attrib1Vec3 ssef0XY ssef1XY in
    let sseVec3AttribZ := InterpolateDelta attrib2Vec3 ssef0XY ssef1XY in
    Some (mk_Vec3Lanes sseVec3AttribX sseVec3AttribY sseVec3AttribZ));
  v2 ← collect_u32 (m_NumVec2Attributes m_ShaderMetadata) (fun i =>
    attrib0Vec3 ← load_delta (m_Attribute2Deltas sb) i (u32 (primIdx * 2 + 0));
    attrib1Vec3 ← load_delta (m_Attribute2Deltas sb) i (u32 (primIdx * 2 + 1));
    attrib2Vec3 ← load_delta (m_Attribute2Deltas sb) i (u32 (primIdx * 2 + 2));
    let sseVec2AttribX := InterpolateDelta attrib0Vec3 ssef0XY ssef1XY in
    let sseVec2AttribY := InterpolateDelta attrib1Vec3 ssef0XY ssef1XY in
    Some (mk_Vec2Lanes sseVec2AttribX sseVec2AttribY));
  Some (mk_InterpolatedAttributes v4 v3 v2).

(** The element indices of [m_Attribute2Deltas[slot]] that the vec2 loop of
    [InterpolateVertexAttributes] names for the primitive [primIdx]. *)
Definition Attribute2Deltas_accesses (primIdx : Z) : list Z :=
  [u32 (primIdx * 2 + 0); u32 (primIdx * 2 + 1); u32 (primIdx * 2 + 2)].

(** [PipelineThread::InterpolateDepthValues]. *)
Definition InterpolateDepthValues (primIdx : Z) (ssef0XY ssef1XY : m128)
    (sb : SetupBuffers) : option m128 :=
  attrib0Vec3 ← array_get (m_pInterpolatedZValues sb) primIdx;
  let sseAttrib0 := _mm_set_ps1 (x3 attrib0Vec3) in
  let sseAttrib1 := _mm_set_ps1 (y3 attrib0Vec3) in
  let sseAttrib2 := _mm_set_ps1 (z3 attrib0Vec3) in
  Some (_mm_add_ps sseAttrib2
          (_mm_add_ps (_mm_mul_ps sseAttrib0 ssef0XY) (_mm_mul_ps sseAttrib1 ssef1XY))).

End Interpolation.

(** What the specification asks of one interpolated component on one lane:
    [f0 * (A0 - A2) + f1 * (A1 - A2) + A2], in the operation order of the
    source. *)
Definition spec_interpolate (A0 A1 A2 f0 f1 : f32) : f32 :=
  (((A0 - A2) * f0) + (((A1 - A2) * f1) + A2))%f32.

(** ** Vertex shading and the vertex cache
       (PipelineThread.cpp, ExecuteVertexShader, CacheVertexData,
        PerformVertexCacheLookup) *)

Record VertexCache := mk_VertexCache {
  m_ClipPos : vec4;
  m_VertexAttribs : VertexAttributes
}.

(** The cache members of [PipelineThread]: two arrays of
    [g_scVertexShaderCacheSize] elements and the number of valid entries. *)
Record VSCache := mk_VSCache {
  m_NumVertexCacheEntries : Z;
  m_CachedVertexIndices : list Z;
  m_VertexCacheEntries : list VertexCache
}.

Section VertexShading.

(** Compile-time constants of a header. *)
Variable g_scVertexShaderCacheEnabled : bool.
Variable g_scVertexShaderCacheSize : Z.

(** The user's vertex shader, applied to the vertex input found at a byte
    offset of the vertex buffer; it returns the clip-space position and the
    attribute record it fills.  The vertex buffer and the constant buffer
    do not change during a draw and are part of the function. *)
Variable VS : Z -> vec4 * VertexAttributes.

Variable pIndexBuffer : list Z.
Variable vertexStride : Z.
Variable vertexOffset : Z.
Variable m_ShaderMetadata : ShaderMetadata.

Definition CacheVertexData (vertexIdx : Z) (v0Clip : vec4)
    (tempVertexAttrib : VertexAttributes) (c : VSCache) : VSCache :=
  if m_NumVertexCacheEntries c <? g_scVertexShaderCacheSize then
    let n := Z.to_nat (m_NumVertexCacheEntries c) in
    mk_VSCache
      (u32 (m_NumVertexCacheEntries c + 1))
      (<[n := vertexIdx]> (m_CachedVertexIndices c))
      (<[n := mk_VertexCache v0Clip tempVertexAttrib]> (m_VertexCacheEntries c))
  else c.

(** The loop of [PerformVertexCacheLookup], from entry [idx] on, over at
    most [fuel] entries. *)
Fixpoint cache_scan (indices : list Z) (key : Z) (idx fuel : nat) : option nat :=
  match fuel with
  | O => None
  | S fuel' =>
      match indices !! idx with
      | Some k => if k =? key then Some idx else cache_scan indices key (S idx) fuel'
      | None => None
      end
  end.

(** [Some idx] for [true] with [*pCachedIdx = idx], [None] for [false]. *)
Definition PerformVertexCacheLookup (primIdx : Z) (c : VSCache) : option nat :=
  cache_scan (m_CachedVertexIndices c) primIdx 0 (Z.to_nat (m_NumVertexCacheEntries c)).

(** One of the three blocks of the cache-enabled branch: the vertex whose
    index is [vertexIdx], cached on a miss under [cacheKey]. *)
Definition ShadeVertexCached (vertexIdx cacheKey : Z) (c : VSCache)
    : option (vec4 * VertexAttributes * VSCache) :=
  match PerformVertexCacheLookup vertexIdx c with
  | Some cacheEntry =>
      e ← m_VertexCacheEntries c !! cacheEntry;
      Some (m_ClipPos e, m_VertexAttribs e, c)
  | None =>
      let '(clip, attribs) := VS (u32 (vertexStride * vertexIdx)) in
      Some (clip, attribs, CacheVertexData cacheKey clip attribs c)
  end.

(** [ExecuteVertexShader] up to the call of
    [CalculateInterpolationCoefficients]: the three clip-space positions,
    the three attribute records and the cache afterwards. *)
Definition ShadeTriangle (primIdx : Z) (c : VSCache)
    : option (vec4 * vec4 * vec4 * (VertexAttributes * VertexAttributes * VertexAttributes)
              * VSCache) :=
  if negb g_scVertexShaderCacheEnabled then
    i0 ← array_get pIndexBuffer (u32 (vertexOffset + (3 * primIdx + 0)));
    i1 ← array_get pIndexBuffer (u32 (vertexOffset + (3 * primIdx + 1)));
    i2 ← array_get pIndexBuffer (u32 (vertexOffset + (3 * primIdx + 2)));
    let '(v0Clip, a0) := VS (u32 (vertexStride * i0)) in
    let '(v1Clip, a1) := VS (u32 (vertexStride * i1)) in
    let '(v2Clip, a2) := VS (u32 (vertexStride * i2)) in
    Some (v0Clip, v1Clip, v2Clip, (a0, a1, a2), c)
  else
    vertexIdx0 ← array_get pIndexBuffer (u32 (vertexOffset + 3 * primIdx));
    '(v0Clip, a0, c) ← ShadeVertexCached vertexIdx0 vertexIdx0 c;
    vertexIdx1 ← array_get pIndexBuffer (u32 (vertexOffset + (3 * primIdx + 1)));
    '(v1Clip, a1, c) ← ShadeVertexCached vertexIdx1 vertexIdx1 c;
    vertexIdx2 ← array_get pIndexBuffer (u32 (vertexOffset + (3 * primIdx + 2)));
    (* CacheVertexData(vertexIdx0, *pV2Clip, *pTempVertexAttrib2) *)
    '(v2Clip, a2, c) ← ShadeVertexCached vertexIdx2 vertexIdx0 c;
    Some (v0Clip, v1Clip, v2Clip, (a0, a1, a2), c).

Definition ExecuteVertexShader (primIdx drawIdx : Z) (c : VSCache) (sb : SetupBuffers)
    : option (vec4 * vec4 * vec4 * VSCache * SetupBuffers) :=
  '(v0Clip, v1Clip, v2Clip, (a0, a1, a2), c) ← ShadeTriangle primIdx c;
  sb ← CalculateInterpolationCoefficients m_ShaderMetadata drawIdx a0 a1 a2 sb;
  Some (v0Clip, v1Clip, v2Clip, c, sb).

(** The cache at the start of a draw ([ApplyPreDrawcallStateInvalidations]
    resets the entry count; the arrays keep their contents). *)
Definition ResetVSCache (c : VSCache) : VSCache :=
  mk_VSCache 0 (m_CachedVertexIndices c) (m_VertexCacheEntries c).

(** A hit for [vertexIdx] returns what the vertex shader returns on that
    vertex. *)
Definition hit_is_sound (c : VSCache) (vertexIdx : Z) : Prop :=
  forall cacheEntry e,
    PerformVertexCacheLookup vertexIdx c = Some cacheEntry ->
    m_VertexCacheEntries c !! cacheEntry = Some e ->
    (m_ClipPos e, m_VertexAttribs e) = VS (u32 (vertexStride * vertexIdx)).

(** The keys of the valid entries, oldest first. *)
Definition cached_keys (c : VSCache) : list Z :=
  take (Z.to_nat (m_NumVertexCacheEntries c)) (m_CachedVertexIndices c).

End VertexShading.

(** The cache arrays have [g_scVertexShaderCacheSize] elements and the entry
    count stays within them. *)
Definition WellFormedCache (size : Z) (c : VSCache) : Prop :=
  0 <= m_NumVertexCacheEntries c <= size
  /\ Z.of_nat (length (m_CachedVertexIndices c)) = size
  /\ Z.of_nat (length (m_VertexCacheEntries c)) = size.

(** Every hit of a well-formed cache is sound. *)
Definition CacheSound (size : Z) (VS : Z -> vec4 * VertexAttributes) (vertexStride : Z)
    (c : VSCache) : Prop :=
  WellFormedCache size c /\ forall vertexIdx, hit_is_sound VS vertexStride c vertexIdx.

(** The key is found by the lookup, or the cache is full. *)
Definition KeyPresent (size : Z) (key : Z) (c : VSCache) : Prop :=
  is_Some (PerformVertexCacheLookup key c) \/ size <= m_NumVertexCacheEntries c.

(** ** The structures shared by the workers (RenderEngine.cpp) *)

(** [std::vector<uint32_t>]: its elements and its capacity. *)
Record Vector := mk_Vector { vec_data : list Z; vec_capacity : nat }.

(** [reserve(n)] on an empty vector. *)
Definition vector_reserve (n : nat) (v : Vector) : Vector :=
  mk_Vector (vec_data v) (Nat.max (vec_capacity v) n).

(** [clear()] keeps the capacity. *)
Definition vector_clear (v : Vector) : Vector := mk_Vector [] (vec_capacity v).

(** [push_back(x)]: within the capacity the storage is kept; beyond it the
    vector reallocates to a larger capacity (doubling, as libstdc++ does; the
    factor is the library's choice, the change of capacity is not). *)
Definition vector_push_back (x : Z) (v : Vector) : Vector :=
  if decide (length (vec_data v) < vec_capacity v)%nat
  then mk_Vector (vec_data v ++ [x]) (vec_capacity v)
  else mk_Vector (vec_data v ++ [x]) (Nat.max 1 (2 * vec_capacity v)).

Record RenderEngine := mk_RenderEngine {
  m_TileList : list Tile;
  m_BinList : list (list Vector);
  m_CoverageMasks : list (list (list CoverageMask));
  m_RasterizerQueue : list nat
}.

Definition set_TileList (e : RenderEngine) (t : list Tile) : RenderEngine :=
  mk_RenderEngine t (m_BinList e) (m_CoverageMasks e) (m_RasterizerQueue e).

Definition set_BinList (e : RenderEngine) (b : list (list Vector)) : RenderEngine :=
  mk_RenderEngine (m_TileList e) b (m_CoverageMasks e) (m_RasterizerQueue e).

Definition set_CoverageMasks (e : RenderEngine) (c : list (list (list CoverageMask)))
    : RenderEngine :=
  mk_RenderEngine (m_TileList e) (m_BinList e) c (m_RasterizerQueue e).

Definition set_RasterizerQueue (e : RenderEngine) (q : list nat) : RenderEngine :=
  mk_RenderEngine (m_TileList e) (m_BinList e) (m_CoverageMasks e) q.

(** [a[i][j]] and [a[i][j] = x] on a vector of vectors. *)
Definition get2 {A} (a : list (list A)) (i j : nat) : option A :=
  row ← a !! i; row !! j.

Definition set2 {A} (a : list (list A)) (i j : nat) (x : A) : list (list A) :=
  match a !! i with
  | Some row => <[i := <[j := x]> row]> a
  | None => a
  end.

(** [RenderEngine::SetRenderTargets] on a fresh engine (its first call,
    with a framebuffer of another size than the engine's): the tile grid,
    one bin per tile and thread with
    [m_MaxDrawIterationSize / m_NumPipelineThreads] reserved elements, one
    coverage mask buffer per tile and thread. *)
Definition NumTiles (cfg : RasterizerConfig) (dim : Z) : Z :=
  u32_of_float (F32.ceil (float_of_u32 dim / float_of_u32 (m_TileSize cfg))%f32).

(** Each tile is a default-constructed [Tile tile;] whose position is then
    set.  [m_IsTileQueued] is not touched ("will be cleared pre-draw
    iteration"): it is as the constructor of [Tile], declared in a header,
    left it, and [constructed] stands for that state. *)
Definition InitialTiles (cfg : RasterizerConfig) (constructed : bool) (width height : Z)
    : list Tile :=
  flat_map (fun y =>
    map (fun x =>
      mk_Tile (float_of_u32 (Z.min width (u32 (Z.of_nat x * m_TileSize cfg))))
              (float_of_u32 (Z.min height (u32 (Z.of_nat y * m_TileSize cfg))))
              constructed)
      (seq 0 (Z.to_nat (NumTiles cfg width))))
    (seq 0 (Z.to_nat (NumTiles cfg height))).

Definition ReservedBinCapacity (cfg : RasterizerConfig) : nat :=
  Z.to_nat (m_MaxDrawIterationSize cfg / m_NumPipelineThreads cfg).

Definition SetRenderTargets (cfg : RasterizerConfig) (constructed : bool) (width height : Z)
    : RenderEngine :=
  let totalTileCount := Z.to_nat (u32 (NumTiles cfg width * NumTiles cfg height)) in
  let threads := Z.to_nat (m_NumPipelineThreads cfg) in
  mk_RenderEngine
    (InitialTiles cfg constructed width height)
    (replicate totalTileCount
       (replicate threads (vector_reserve (ReservedBinCapacity cfg) (mk_Vector [] 0))))
    (replicate totalTileCount (replicate threads []))
    [].

(** [RenderEngine::ApplyPreDrawIterationStateInvalidations]: tile flags
    cleared, bins cleared, coverage mask buffers and rasterizer queue reset. *)
Definition ApplyPreDrawIterationStateInvalidations (e : RenderEngine) : RenderEngine :=
  mk_RenderEngine
    (map (fun t => mk_Tile (m_PosX t) (m_PosY t) false) (m_TileList e))
    (map (map vector_clear) (m_BinList e))
    (map (map (fun _ => [])) (m_CoverageMasks e))
    [].

(** [m_IsTileQueued.test_and_set()]: the previous value of the flag, and the
    engine with the flag set. *)
Definition test_and_set (tileIdx : nat) (e : RenderEngine) : option (bool * RenderEngine) :=
  t ← m_TileList e !! tileIdx;
  Some (m_IsTileQueued t,
        set_TileList e (<[tileIdx := mk_Tile (m_PosX t) (m_PosY t) true]> (m_TileList e))).

(** Modelled from the spec: [RasterizerQueue::InsertTileIndex] is declared in
    a header; it takes the next slot with an atomic fetch-add of the insertion
    cursor and stores the tile index there. *)
Definition InsertTileIndex (tileIdx : nat) (e : RenderEngine) : RenderEngine :=
  set_RasterizerQueue e (m_RasterizerQueue e ++ [tileIdx]).

(** [RenderEngine::EnqueueTileForRasterization]. *)
Definition EnqueueTileForRasterization (tileIdx : nat) (e : RenderEngine)
    : option RenderEngine :=
  '(queued, e) ← test_and_set tileIdx e;
  if negb queued then Some (InsertTileIndex tileIdx e) else Some e.

(** The push of [BinPrimitiveForTile], and what its final [ASSERT] compares. *)
Definition PushToBin (threadIdx tileIdx : nat) (primIdx : Z) (e : RenderEngine)
    : option RenderEngine :=
  tileBin ← get2 (m_BinList e) tileIdx threadIdx;
  Some (set_BinList e (set2 (m_BinList e) tileIdx threadIdx (vector_push_back primIdx tileBin))).

Definition capacity_kept (threadIdx tileIdx : nat) (pre post : RenderEngine) : bool :=
  match get2 (m_BinList pre) tileIdx threadIdx, get2 (m_BinList post) tileIdx threadIdx with
  | Some b, Some b' => Nat.eqb (vec_capacity b) (vec_capacity b')
  | _, _ => false
  end.

(** [RenderEngine::BinPrimitiveForTile]: the engine afterwards and the value
    of [capPreAppend == capPostAppend]. *)
Definition BinPrimitiveForTile (threadIdx tileIdx : nat) (primIdx : Z) (e : RenderEngine)
    : option (RenderEngine * bool) :=
  tileBin ← get2 (m_BinList e) tileIdx threadIdx;
  e ← (if decide (vec_data tileBin = []) then EnqueueTileForRasterization tileIdx e
        else Some e);
  e' ← PushToBin threadIdx tileIdx primIdx e;
  Some (e', capacity_kept threadIdx tileIdx e e').

(** Modelled from the spec: [CoverageMaskBuffer::AppendCoverageMask] is
    declared in a header; it appends the record to the buffer of the tile
    and thread. *)
Definition AppendCoverageMask (threadIdx tileIdx : nat) (mask : CoverageMask)
    (e : RenderEngine) : option RenderEngine :=
  masks ← get2 (m_CoverageMasks e) tileIdx threadIdx;
  Some (set_CoverageMasks e (set2 (m_CoverageMasks e) tileIdx threadIdx (masks ++ [mask]))).

(** One action of the binner, run without interruption: the engine
    afterwards and whether the capacity assertion held. *)
Definition ApplyBinnerAction (threadIdx : nat) (a : BinnerAction) (e : RenderEngine)
    : option (RenderEngine * bool) :=
  match a with
  | EmitTile tileIdx mask =>
      e ← EnqueueTileForRasterization tileIdx e;
      e ← AppendCoverageMask threadIdx tileIdx mask e;
      Some (e, true)
  | BinPrim tileIdx primIdx => BinPrimitiveForTile threadIdx tileIdx primIdx e
  end.

Fixpoint ApplyBinnerActions (threadIdx : nat) (acts : list BinnerAction)
    (e : RenderEngine) : option (RenderEngine * bool) :=
  match acts with
  | [] => Some (e, true)
  | a :: acts' =>
      '(e, ok) ← ApplyBinnerAction threadIdx a e;
      '(e, ok') ← ApplyBinnerActions threadIdx acts' e;
      Some (e, ok && ok')
  end.

(** ** Fragment shading (PipelineThread.cpp, FragmentShadeTile,
       FragmentShadeBlock, FragmentShadeQuad) *)

Record Framebuffer := mk_Framebuffer {
  m_Width : Z;
  m_Height : Z;
  m_pColorBuffer : list Z;
  m_pDepthBuffer : list f32
}.

(** The framebuffer and the attribute records the user's fragment shader has
    been invoked on, oldest first. *)
Record FSState := mk_FSState {
  fs_Framebuffer : Framebuffer;
  fs_Invocations : list InterpolatedAttributes
}.

(** [_mm_load_ps(p)]: the four floats at [p]. *)
Definition _mm_load_ps (buf : list f32) (p : nat) : option m128 :=
  a ← buf !! p;
  b ← buf !! (p + 1)%nat;
  c ← buf !! (p + 2)%nat;
  d ← buf !! (p + 3)%nat;
  Some (mk_m128 a b c d).

Section FragmentShading.

Variable m_RenderConfig : RasterizerConfig.
Variable m_ShaderMetadata : ShaderMetadata.

(** The setup buffers are only read in this phase. *)
Variable m_SetupBuffers : SetupBuffers.

(** The user's fragment shader on the interpolated attributes of four
    samples (the constant buffer is part of the function). *)
Variable FS : InterpolatedAttributes -> FragmentOutput.

(** One lane of [_mm_rcp_ps], the approximate reciprocal of the processor;
    its result is not fixed by IEEE-754. *)
Variable rcp : f32 -> f32.

Definition _mm_rcp_ps (a : m128) : m128 :=
  mk_m128 (rcp (ps0 a)) (rcp (ps1 a)) (rcp (ps2 a)) (rcp (ps3 a)).

(** [PipelineThread::ComputeParameterBasisFunctions]. *)
Definition ComputeParameterBasisFunctions (sampleX sampleY : Z) (ee0 ee1 ee2 : vec3)
    : m128 * m128 :=
  let sseX4 :=
    _mm_setr_ps (float_of_u32 sampleX + F32.make 1 (-1))%f32
                (float_of_u32 sampleX + F32.make 3 (-1))%f32
                (float_of_u32 sampleX + F32.make 5 (-1))%f32
                (float_of_u32 sampleX + F32.make 7 (-1))%f32 in
  let sseY4 := _mm_set_ps1 (float_of_u32 sampleY) in
  let F (ee : vec3) :=
    _mm_add_ps (_mm_set_ps1 (z3 ee))
      (_mm_add_ps (_mm_mul_ps sseY4 (_mm_set_ps1 (y3 ee)))
                  (_mm_mul_ps sseX4 (_mm_set_ps1 (x3 ee)))) in
  let sseF0XY4 := F ee0 in
  let sseF1XY4 := F ee1 in
  let sseF2XY4 := F ee2 in
  let sseR4 := _mm_add_ps sseF2XY4 (_mm_add_ps sseF0XY4 sseF1XY4) in
  let sseR4 := _mm_rcp_ps sseR4 in
  (_mm_mul_ps sseR4 sseF0XY4, _mm_mul_ps sseR4 sseF1XY4).

(** Index of the sample [(sampleX, sampleY)] in the depth buffer, and of its
    first byte in the color buffer. *)
Definition DepthAddress (fb : Framebuffer) (sampleX sampleY : Z) : nat :=
  Z.to_nat (u32 (sampleX + sampleY * m_Width fb)).

Definition ColorAddress (fb : Framebuffer) (sampleX sampleY : Z) : nat :=
  Z.to_nat (u32 (4 * sampleX + sampleY * u32 (m_Width fb * 4))).

(** What both shading functions compute before they decide: the
    interpolated Z of the four samples, the stored depth and the result of
    the [LEQ] comparison. *)
Definition DepthTest (primIdx sampleX sampleY : Z) (fb : Framebuffer)
    : option (m128 * m128 * m128 * m128i) :=
  ee0 ← array_get (m_pEdgeCoefficients m_SetupBuffers) (u32 (3 * primIdx + 0));
  ee1 ← array_get (m_pEdgeCoefficients m_SetupBuffers) (u32 (3 * primIdx + 1));
  ee2 ← array_get (m_pEdgeCoefficients m_SetupBuffers) (u32 (3 * primIdx + 2));
  let '(ssef0XY, ssef1XY) := ComputeParameterBasisFunctions sampleX sampleY ee0 ee1 ee2 in
  sseZInterpolated ← InterpolateDepthValues primIdx ssef0XY ssef1XY m_SetupBuffers;
  sseDepthCurrent ← _mm_load_ps (m_pDepthBuffer fb) (DepthAddress fb sampleX sampleY);
  Some (ssef0XY, ssef1XY, sseZInterpolated, _mm_cmple_ps sseZInterpolated sseDepthCurrent).

(** The destination of [InterpolateVertexAttributes] in both shading
    functions is [&interpolatedAttribs], the address of ONE record local to
    the caller.  The function stores the registers of slot [i] with
    [pInterpolatedAttributes[i].m_VecNAttributes->m_SSEX = ...]: in element 0
    of the array of the [i]-th record counted from that address.  The stores
    of slot 0 land in the caller's record; a store of a slot [i >= 1] is
    outside it.  [store_slots i values record]: the stores of the slots
    [i, i + 1, ...] of one width, [None] for a store outside the record;
    [record] is what the array of the caller's record holds of them. *)
Fixpoint store_slots {A} (i : nat) (values record : list A) : option (list A) :=
  match values with
  | [] => Some record
  | v :: values' =>
      if decide (i = 0%nat) then store_slots (S i) values' [v] else None
  end.

(** The caller's record after the stores of the three loops; an array that
    no loop has stored into holds nothing the fragment shader may read. *)
Definition StoreInLocalRecord (values : InterpolatedAttributes)
    : option InterpolatedAttributes :=
  v4 ← store_slots 0 (m_Vec4Attributes values) [];
  v3 ← store_slots 0 (m_Vec3Attributes values) [];
  v2 ← store_slots 0 (m_Vec2Attributes values) [];
  Some (mk_InterpolatedAttributes v4 v3 v2).

(** The two masked stores that end both shading functions, [UpdateDepthBuffer]
    then [UpdateColorBuffer]: a selected float or byte outside its buffer is
    a store outside the allocation. *)
Definition WriteSamples (sseWriteMask : m128i) (sseZInterpolated : m128)
    (fragmentOutput : FragmentOutput) (sampleX sampleY : Z) (fb : Framebuffer)
    : option Framebuffer :=
  let pDepthBufferAddress := DepthAddress fb sampleX sampleY in
  let pColorBufferAddress := ColorAddress fb sampleX sampleY in
  if masked_store_in_bounds (lane_selected sseWriteMask) 4 pDepthBufferAddress
       (m_pDepthBuffer fb)
     && masked_store_in_bounds (mask_byte_selected sseWriteMask) 16 pColorBufferAddress
          (m_pColorBuffer fb)
  then
    Some (mk_Framebuffer (m_Width fb) (m_Height fb)
            (UpdateColorBuffer sseWriteMask fragmentOutput pColorBufferAddress
               (m_pColorBuffer fb))
            (UpdateDepthBuffer sseWriteMask sseZInterpolated pDepthBufferAddress
               (m_pDepthBuffer fb)))
  else None.

(** The body of the two loops of [FragmentShadeBlock], for the group [px]
    of row [py]. *)
Definition FragmentShadeBlockGroup (blockPosX blockPosY primIdx : Z) (px py : Z)
    (st : FSState) : option FSState :=
  let sampleX := u32 (blockPosX + u32 (g_scSIMDWidth * px)) in
  let sampleY := u32 (blockPosY + py) in
  let fb := fs_Framebuffer st in
  '(ssef0XY, ssef1XY, sseZInterpolated, sseDepthRes) ← DepthTest primIdx sampleX sampleY fb;
  if _mm_movemask_ps sseDepthRes =? 0 then Some st
  else
    values ←
      InterpolateVertexAttributes m_ShaderMetadata primIdx ssef0XY ssef1XY m_SetupBuffers;
    interpolatedAttribs ← StoreInLocalRecord values;
    let fragmentOutput := FS interpolatedAttribs in
    fb' ← WriteSamples sseDepthRes sseZInterpolated fragmentOutput sampleX sampleY fb;
    Some (mk_FSState fb' (fs_Invocations st ++ [interpolatedAttribs])).

(** [interpolatedAttribs] is declared once, before the two loops; every group
    that is shaded stores the same slots into it again, so what the fragment
    shader finds in it is what the group stored. *)
Definition FragmentShadeBlock (blockPosX blockPosY primIdx : Z) (st : FSState)
    : option FSState :=
  for_u32 g_scPixelBlockSize (fun py =>
    for_u32 g_scNumEdgeTestsPerRow (fun px =>
      FragmentShadeBlockGroup blockPosX blockPosY primIdx px py)) st.

(** [numBlockInTile] is a [static const] of the function, initialised by the
    first call in the process: the model is of a process whose engines share
    one tile size. *)
Definition FragmentShadeTile (tilePosX tilePosY primIdx : Z) (st : FSState)
    : option FSState :=
  let numBlockInTile := m_TileSize m_RenderConfig / g_scPixelBlockSize in
  for_u32 numBlockInTile (fun py =>
    for_u32 numBlockInTile (fun px =>
      FragmentShadeBlock (u32 (tilePosX + u32 (px * g_scPixelBlockSize)))
                         (u32 (tilePosY + u32 (py * g_scPixelBlockSize))) primIdx)) st.

(** [sseColorMask] of [FragmentShadeQuad]. *)
Definition QuadColorMask (quadMask : Z) : m128i :=
  _mm_cmpeq_epi32
    (_mm_setr_epi32 (Z.land quadMask g_scQuadMask0) (Z.land quadMask g_scQuadMask1)
                    (Z.land quadMask g_scQuadMask2) (Z.land quadMask g_scQuadMask3))
    (_mm_set_epi64x 0x0000000800000004 0x0000000200000001).

Definition FragmentShadeQuad (pMask : CoverageMask) (st : FSState) : option FSState :=
  let fb := fs_Framebuffer st in
  '(ssef0XY, ssef1XY, sseZInterpolated, sseDepthRes) ←
    DepthTest (m_PrimIdx pMask) (m_SampleX pMask) (m_SampleY pMask) fb;
  if _mm_movemask_ps sseDepthRes =? 0 then Some st
  else
    values ←
      InterpolateVertexAttributes m_ShaderMetadata (m_PrimIdx pMask) ssef0XY ssef1XY
        m_SetupBuffers;
    interpolatedAttribs ← StoreInLocalRecord values;
    let fragmentOutput := FS interpolatedAttribs in
    let sseWriteMask := _mm_and_ps sseDepthRes (QuadColorMask (m_QuadMask pMask)) in
    fb' ← WriteSamples sseWriteMask sseZInterpolated fragmentOutput
            (m_SampleX pMask) (m_SampleY pMask) fb;
    Some (mk_FSState fb' (fs_Invocations st ++ [interpolatedAttribs])).

(** The [switch] of [ExecuteFragmentShader] on the type of a coverage mask. *)
Definition ShadeCoverageMask (pMask : CoverageMask) (st : FSState) : option FSState :=
  match m_Type pMask with
  | TILE => FragmentShadeTile (m_SampleX pMask) (m_SampleY pMask) (m_PrimIdx pMask) st
  | BLOCK => FragmentShadeBlock (m_SampleX pMask) (m_SampleY pMask) (m_PrimIdx pMask) st
  | QUAD => FragmentShadeQuad pMask st
  end.

End FragmentShading.

(** What the specification says of one sample of a group of four during
    fragment shading.  Sample [k] of the group at [(sampleX, sampleY)] is
    kept: its depth value and its four color bytes are as before.  It is
    written: its depth value is the interpolated Z and its color bytes are
    those of the fragment shader's output for that sample. *)
Definition SampleKept (fb fb' : Framebuffer) (sampleX sampleY : Z) (k : nat) : Prop :=
  m_pDepthBuffer fb' !! (DepthAddress fb sampleX sampleY + k)%nat
    = m_pDepthBuffer fb !! (DepthAddress fb sampleX sampleY + k)%nat
  /\ forall c : nat, (c < 4)%nat ->
       m_pColorBuffer fb' !! (ColorAddress fb sampleX sampleY + 4 * k + c)%nat
         = m_pColorBuffer fb !! (ColorAddress fb sampleX sampleY + 4 * k + c)%nat.

Definition SampleWritten (fb fb' : Framebuffer) (sampleX sampleY : Z) (k : nat)
    (z : f32) (rgba : m128) : Prop :=
  m_pDepthBuffer fb' !! (DepthAddress fb sampleX sampleY + k)%nat = Some z
  /\ forall c : nat, (c < 4)%nat ->
       m_pColorBuffer fb' !! (ColorAddress fb sampleX sampleY + 4 * k + c)%nat
         = Some (color_channel_byte (ps_lane rgba c)).

(** The rest of the framebuffer is as before: its dimensions, every depth
    value outside the four samples and every color byte outside their
    sixteen bytes. *)
Definition OthersKept (fb fb' : Framebuffer) (sampleX sampleY : Z) : Prop :=
  m_Width fb' = m_Width fb /\ m_Height fb' = m_Height fb
  /\ length (m_pDepthBuffer fb') = length (m_pDepthBuffer fb)
  /\ length (m_pColorBuffer fb') = length (m_pColorBuffer fb)
  /\ (forall i : nat,
        (i < DepthAddress fb sampleX sampleY \/ DepthAddress fb sampleX sampleY + 4 <= i)%nat ->
        m_pDepthBuffer fb' !! i = m_pDepthBuffer fb !! i)
  /\ (forall j : nat,
        (j < ColorAddress fb sampleX sampleY \/ ColorAddress fb sampleX sampleY + 16 <= j)%nat ->
        m_pColorBuffer fb' !! j = m_pColorBuffer fb !! j).

(** The shader declares at most one attribute of each width: the stores of
    [InterpolateVertexAttributes] then all land in the record of its caller. *)
Definition OneSlotPerWidth (md : ShaderMetadata) : Prop :=
  m_NumVec4Attributes md <= 1 /\ m_NumVec3Attributes md <= 1
  /\ m_NumVec2Attributes md <= 1.

(** The outcome of shading one group: the fragment shader is invoked (once,
    on [attrs]) exactly when [invoked] holds, and sample [k] is written
    exactly when [write k] holds. *)
Definition GroupOutcome (FS : InterpolatedAttributes -> FragmentOutput)
    (invoked : bool) (write : nat -> bool) (z : m128) (attrs : InterpolatedAttributes)
    (sampleX sampleY : Z) (st st' : FSState) : Prop :=
  fs_Invocations st'
    = (if invoked then fs_Invocations st ++ [attrs] else fs_Invocations st)
  /\ (forall k : nat, (k < 4)%nat -> write k = false ->
        SampleKept (fs_Framebuffer st) (fs_Framebuffer st') sampleX sampleY k)
  /\ (forall k : nat, (k < 4)%nat -> write k = true ->
        SampleWritten (fs_Framebuffer st) (fs_Framebuffer st') sampleX sampleY k
          (ps_lane z k) (m_FragmentColors (FS attrs) k))
  /\ OthersKept (fs_Framebuffer st) (fs_Framebuffer st') sampleX sampleY.

(** ** The geometry pass of a worker (PipelineThread.cpp, ProcessDrawcall)
       and the split of a draw (RenderEngine.cpp, Draw) *)

(** One iteration of the [while] loop of [RenderEngine::Draw]: the range
    [(m_ElemsStart, m_ElemsEnd)] of every thread, from [drawElemsPrev] and
    [numRemainingPrims] at the top of the iteration. *)
Definition IterationSize (cfg : RasterizerConfig) (numRemainingPrims : Z) : Z :=
  if numRemainingPrims >=? m_MaxDrawIterationSize cfg
  then m_MaxDrawIterationSize cfg
  else numRemainingPrims.

Definition DrawIterationRanges (cfg : RasterizerConfig) (drawElemsPrev numRemainingPrims : Z)
    : list (Z * Z) :=
  let iterationSize := IterationSize cfg numRemainingPrims in
  let perIterationRemainder := iterationSize mod m_NumPipelineThreads cfg in
  let primsPerThread := iterationSize / m_NumPipelineThreads cfg in
  snd (foldl (fun '(drawElemsPrev, ranges) threadIdx =>
          let currentDrawElemsStart := drawElemsPrev in
          let currentDrawElemsEnd :=
            if Z.of_nat threadIdx =? u32 (m_NumPipelineThreads cfg - 1)
            then u32 (currentDrawElemsStart + primsPerThread + perIterationRemainder)
            else u32 (currentDrawElemsStart + primsPerThread) in
          (currentDrawElemsEnd, ranges ++ [(currentDrawElemsStart, currentDrawElemsEnd)]))
        (drawElemsPrev, []) (seq 0 (Z.to_nat (m_NumPipelineThreads cfg)))).

(** [a % b] on [uint32_t]: undefined for a zero divisor. *)
Definition u32_rem (a b : Z) : option Z := if b =? 0 then None else Some (a mod b).

Section GeometryPass.

Variable g_scVertexShaderCacheEnabled : bool.
Variable g_scVertexShaderCacheSize : Z.
Variable g_scFullTriangleClippingEnabled : bool.
Variable m_RenderConfig : RasterizerConfig.
Variable m_ShaderMetadata : ShaderMetadata.
Variables fbWidth fbHeight : Z.
Variable m_NumTilePerRow : Z.
Variable tiles : list Tile.
Variable VS : Z -> vec4 * VertexAttributes.
Variable pIndexBuffer : list Z.
Variable vertexStride : Z.
Variable vertexOffset : Z.

(** The stages after the clipper, on the clip-space vertices they are
    given: triangle setup and culling, then binning. *)
Definition SetupAndBin (drawIdx : Z) (v0Clip v1Clip v2Clip : vec4) (c : VSCache)
    (sb : SetupBuffers) : option (VSCache * SetupBuffers * list BinnerAction) :=
  '(kept, sb) ← ExecuteTriangleSetupAndCull fbWidth fbHeight drawIdx v0Clip v1Clip v2Clip sb;
  if negb kept then Some (c, sb, [])
  else
    '(sb, acts) ← ExecuteBinner m_RenderConfig fbWidth fbHeight m_NumTilePerRow tiles
                    drawIdx v0Clip v1Clip v2Clip sb;
    Some (c, sb, acts).

(** The body of the loop over the primitives of the worker's range: the
    cache and the setup buffers afterwards, and the actions of the binner
    on the shared structures (none when the triangle is clipped or culled). *)
Definition GeometryPrimitive (primIdx drawIdx : Z) (c : VSCache) (sb : SetupBuffers)
    : option (VSCache * SetupBuffers * list BinnerAction) :=
  '(v0Clip, v1Clip, v2Clip, c, sb) ←
    ExecuteVertexShader g_scVertexShaderCacheEnabled g_scVertexShaderCacheSize VS
      pIndexBuffer vertexStride vertexOffset m_ShaderMetadata primIdx drawIdx c sb;
  if negb (ExecuteFullTriangleClipping g_scFullTriangleClippingEnabled v0Clip v1Clip v2Clip)
  then Some (c, sb, [])
  else SetupAndBin drawIdx v0Clip v1Clip v2Clip c sb.

(** The whole loop, for the range [(m_ElemsStart, m_ElemsEnd)].  Its header
    computes [m_ElemsStart % m_MaxDrawIterationSize] before the first test
    of the range, so also when the range is empty. *)
Definition GeometryPass (m_ElemsStart m_ElemsEnd : Z) (c : VSCache) (sb : SetupBuffers)
    : option (VSCache * SetupBuffers * list BinnerAction) :=
  drawIdx ← u32_rem m_ElemsStart (m_MaxDrawIterationSize m_RenderConfig);
  foldl (fun acc '(primIdx, k) =>
      '(c, sb, acts) ← acc;
      '(c, sb, acts') ← GeometryPrimitive primIdx (u32 (drawIdx + k)) c sb;
      Some (c, sb, acts ++ acts'))
    (Some (c, sb, [])) (loop_range m_ElemsStart m_ElemsEnd).

End GeometryPass.

(** ** The workers of the geometry phase, running together

    Between the start of a draw iteration and the post-binning barrier the
    workers share the tile flags, the rasterizer queue, the bins and the
    coverage mask buffers.  Each worker carries out the actions of its
    binner in order; one step of a worker is one operation on the shared
    structures, and the workers' steps interleave in any order. *)

Inductive WorkerPC :=
  | AtAction           (* before the next action *)
  | WonFlag            (* [test_and_set] returned false: the insert is to come *)
  | AfterEnqueue.      (* the mask or the primitive index is to be appended *)

Record Worker := mk_Worker { w_todo : list BinnerAction; w_pc : WorkerPC }.

Definition BeginEnqueue (tileIdx : nat) (e : RenderEngine) : option (RenderEngine * WorkerPC) :=
  '(queued, e) ← test_and_set tileIdx e;
  Some (e, if negb queued then WonFlag else AfterEnqueue).

(** One step of the worker [threadIdx]. *)
Definition WorkerStep (threadIdx : nat) (w : Worker) (e : RenderEngine)
    : option (RenderEngine * Worker) :=
  match w_todo w with
  | [] => None
  | a :: rest =>
      match w_pc w, a with
      | AtAction, EmitTile tileIdx _ =>
          '(e, pc) ← BeginEnqueue tileIdx e;
          Some (e, mk_Worker (a :: rest) pc)
      | AtAction, BinPrim tileIdx _ =>
          tileBin ← get2 (m_BinList e) tileIdx threadIdx;
          if decide (vec_data tileBin = []) then
            '(e, pc) ← BeginEnqueue tileIdx e;
            Some (e, mk_Worker (a :: rest) pc)
          else Some (e, mk_Worker (a :: rest) AfterEnqueue)
      | WonFlag, _ =>
          Some (InsertTileIndex (action_tile a) e, mk_Worker (a :: rest) AfterEnqueue)
      | AfterEnqueue, EmitTile tileIdx mask =>
          e ← AppendCoverageMask threadIdx tileIdx mask e;
          Some (e, mk_Worker rest AtAction)
      | AfterEnqueue, BinPrim tileIdx primIdx =>
          e ← PushToBin threadIdx tileIdx primIdx e;
          Some (e, mk_Worker rest AtAction)
      end
  end.

(** The engine and the workers; a schedule names the worker of each step. *)
Definition System : Type := RenderEngine * list Worker.

Definition SystemStep (threadIdx : nat) (s : System) : option System :=
  w ← s.2 !! threadIdx;
  '(e, w') ← WorkerStep threadIdx w s.1;
  Some (e, <[threadIdx := w']> s.2).

Fixpoint RunSchedule (schedule : list nat) (s : System) : option System :=
  match schedule with
  | [] => Some s
  | threadIdx :: schedule' => s' ← SystemStep threadIdx s; RunSchedule schedule' s'
  end.

Definition WorkerDone (w : Worker) : Prop := w_todo w = [] /\ w_pc w = AtAction.

(** The system at the start of the geometry phase of a draw iteration. *)
Definition StartOfIteration (e : RenderEngine) (work : list (list BinnerAction)) : System :=
  (ApplyPreDrawIterationStateInvalidations e, map (fun acts => mk_Worker acts AtAction) work).

(** Worker [threadIdx] trivially accepted the tile: its coverage mask buffer
    for the tile holds a record.  It binned a primitive for the tile: its bin
    of the tile is not empty. *)
Definition TriviallyAccepted (e : RenderEngine) (tileIdx threadIdx : nat) : Prop :=
  exists masks, get2 (m_CoverageMasks e) tileIdx threadIdx = Some masks /\ masks <> [].

Definition BinnedSome (e : RenderEngine) (tileIdx threadIdx : nat) : Prop :=
  exists b, get2 (m_BinList e) tileIdx threadIdx = Some b /\ vec_data b <> [].

(** What the proof of the queue property looks at.  The flag of a tile is
    set; some worker trivially accepted the tile or binned a primitive for
    it; a worker is in the middle of an action on the tile; a worker has won
    the flag of the tile and has yet to insert the tile into the queue. *)
Definition TileFlagSet (e : RenderEngine) (tileIdx : nat) : Prop :=
  exists t, m_TileList e !! tileIdx = Some t /\ m_IsTileQueued t = true.

Definition TileTouched (e : RenderEngine) (tileIdx : nat) : Prop :=
  exists threadIdx,
    TriviallyAccepted e tileIdx threadIdx \/ BinnedSome e tileIdx threadIdx.

Definition BusyOn (w : Worker) (tileIdx : nat) : Prop :=
  w_pc w <> AtAction /\ exists a rest, w_todo w = a :: rest /\ action_tile a = tileIdx.

Definition WonOn (w : Worker) (tileIdx : nat) : Prop :=
  w_pc w = WonFlag /\ exists a rest, w_todo w = a :: rest /\ action_tile a = tileIdx.

(** The invariant of the geometry phase, over the queue, the set of flagged
    tiles, the set of touched tiles and the workers. *)
Record QueueInvariant (queue : list nat) (flagged touched : nat -> Prop)
    (ws : list Worker) : Prop := mk_QueueInvariant {
  inv_nodup : NoDup queue;
  inv_won_fresh : forall i w t, ws !! i = Some w -> WonOn w t -> t ∉ queue;
  inv_won_unique : forall i j wi wj t,
    ws !! i = Some wi -> ws !! j = Some wj -> WonOn wi t -> WonOn wj t -> i = j;
  inv_flag : forall t,
    flagged t <-> t ∈ queue \/ exists i w, ws !! i = Some w /\ WonOn w t;
  inv_touched : forall t, touched t -> flagged t;
  inv_busy : forall i w t, ws !! i = Some w -> BusyOn w t -> flagged t;
  inv_cause : forall t,
    flagged t -> touched t \/ exists i w, ws !! i = Some w /\ BusyOn w t
}.

Definition SystemInvariant (s : System) : Prop :=
  QueueInvariant (m_RasterizerQueue s.1) (TileFlagSet s.1) (TileTouched s.1) s.2.

(** ** The loop of [RenderEngine::Draw] *)

(** One pass of the [for] loop over the threads: [drawElemsPrev],
    [numRemainingPrims] and the ranges assigned so far, before and after the
    thread [threadIdx] has been given its range. *)
Definition DrawThread (cfg : RasterizerConfig) (primsPerThread perIterationRemainder : Z)
    (st : Z * Z * list (Z * Z)) (threadIdx : nat) : Z * Z * list (Z * Z) :=
  let '(drawElemsPrev, numRemainingPrims, ranges) := st in
  let currentDrawElemsStart := drawElemsPrev in
  let currentDrawElemsEnd :=
    if Z.of_nat threadIdx =? u32 (m_NumPipelineThreads cfg - 1)
    then u32 (currentDrawElemsStart + primsPerThread + perIterationRemainder)
    else u32 (currentDrawElemsStart + primsPerThread) in
  (currentDrawElemsEnd,
   u32 (numRemainingPrims - u32 (currentDrawElemsEnd - currentDrawElemsStart)),
   ranges ++ [(currentDrawElemsStart, currentDrawElemsEnd)]).

(** One iteration of the [while] loop.  With [m_NumPipelineThreads = 0] the
    source divides by zero; the properties proved of the loop assume at
    least one thread. *)
Definition DrawIteration (cfg : RasterizerConfig) (drawElemsPrev numRemainingPrims : Z)
    : Z * Z * list (Z * Z) :=
  let iterationSize := IterationSize cfg numRemainingPrims in
  let perIterationRemainder := iterationSize mod m_NumPipelineThreads cfg in
  let primsPerThread := iterationSize / m_NumPipelineThreads cfg in
  foldl (DrawThread cfg primsPerThread perIterationRemainder)
        (drawElemsPrev, numRemainingPrims, [])
        (seq 0 (Z.to_nat (m_NumPipelineThreads cfg))).

(** The workers that an iteration starts and then waits for
    ([WaitForPipelineThreadsToCompleteProcessingDrawcall]): each of them
    enters the loop of [ProcessDrawcall] on the range it was given, and the
    header of that loop computes [m_ElemsStart % m_MaxDrawIterationSize]
    before anything else.  [None]: the header of some worker is undefined
    and the iteration does not complete.  What a worker goes on to do with
    its range is [GeometryPass]. *)
Definition StartWorkers (cfg : RasterizerConfig) (ranges : list (Z * Z)) : option (list Z) :=
  mapM (fun '(m_ElemsStart, _) => u32_rem m_ElemsStart (m_MaxDrawIterationSize cfg)) ranges.

(** The [while (numRemainingPrims > 0)] loop, for at most [fuel] iterations:
    the ranges handed to the threads in each iteration.  [None]: an
    iteration has not completed (the loop header of a worker is undefined),
    or the loop has not ended after [fuel] iterations. *)
Fixpoint DrawLoop (fuel : nat) (cfg : RasterizerConfig) (drawElemsPrev numRemainingPrims : Z)
    : option (list (list (Z * Z))) :=
  if numRemainingPrims >? 0 then
    match fuel with
    | O => None
    | S fuel' =>
        let '(prev, remaining, ranges) := DrawIteration cfg drawElemsPrev numRemainingPrims in
        _ ← StartWorkers cfg ranges;
        rest ← DrawLoop fuel' cfg prev remaining;
        Some (ranges :: rest)
    end
  else Some [].

Definition Draw (fuel : nat) (cfg : RasterizerConfig) (primCount : Z)
    : option (list (list (Z * Z))) :=
  DrawLoop fuel cfg 0 primCount.

(** The ranges follow one another from [lo] to [hi] without gap or overlap. *)
Fixpoint Contiguous (lo hi : Z) (ranges : list (Z * Z)) : Prop :=
  match ranges with
  | [] => lo = hi
  | (s, e) :: ranges' => s = lo /\ lo <= e /\ Contiguous e hi ranges'
  end.

(** [drawIdx] of the loop of [ProcessDrawcall], [k] primitives after
    [m_ElemsStart]. *)
Definition DrawIdx (cfg : RasterizerConfig) (m_ElemsStart k : Z) : Z :=
  u32 (m_ElemsStart mod m_MaxDrawIterationSize cfg + k).

(** [n] ranges of [per] primitives each, one after the other from [prev]. *)
Definition EvenRanges (prev per : Z) (n : nat) : list (Z * Z) :=
  map (fun k => (prev + Z.of_nat k * per, prev + (Z.of_nat k + 1) * per)) (seq 0 n).

(** ** What the workers leave in the bins and the coverage mask buffers *)

(** The primitive index that an action pushes into a bin of the tile
    [tileIdx], the coverage mask that it appends to a buffer of the tile. *)
Definition action_prims (tileIdx : nat) (a : BinnerAction) : list Z :=
  match a with
  | BinPrim t primIdx => if decide (t = tileIdx) then [primIdx] else []
  | EmitTile _ _ => []
  end.

Definition action_masks (tileIdx : nat) (a : BinnerAction) : list CoverageMask :=
  match a with
  | EmitTile t mask => if decide (t = tileIdx) then [mask] else []
  | BinPrim _ _ => []
  end.

Definition binned_for (tileIdx : nat) (acts : list BinnerAction) : list Z :=
  flat_map (action_prims tileIdx) acts.

Definition emitted_for (tileIdx : nat) (acts : list BinnerAction) : list CoverageMask :=
  flat_map (action_masks tileIdx) acts.

(** The actions that the worker [threadIdx] has still to carry out, and the
    actions of its binner. *)
Definition todo_of (ws : list Worker) (threadIdx : nat) : list BinnerAction :=
  match ws !! threadIdx with
  | Some w => w_todo w
  | None => []
  end.

Definition work_of (work : list (list BinnerAction)) (threadIdx : nat) : list BinnerAction :=
  match work !! threadIdx with
  | Some acts => acts
  | None => []
  end.

(** Every bin and every coverage mask buffer holds what its worker has
    carried out so far, in the order of the worker's actions; every action
    of the work is still to do or has touched its tile. *)
Record OrderInvariant (work : list (list BinnerAction)) (s : System) : Prop :=
  mk_OrderInvariant {
  ord_bins : forall t k b,
    get2 (m_BinList s.1) t k = Some b ->
    vec_data b ++ binned_for t (todo_of s.2 k) = binned_for t (work_of work k);
  ord_masks : forall t k m,
    get2 (m_CoverageMasks s.1) t k = Some m ->
    m ++ emitted_for t (todo_of s.2 k) = emitted_for t (work_of work k);
  ord_done : forall k a,
    a ∈ work_of work k -> a ∈ todo_of s.2 k \/ TileTouched s.1 (action_tile a)
}.

(** ** Progress of the workers *)

(** The engine has [tiles] tiles and, for each of them, a bin and a coverage
    mask buffer per thread. *)
Record EngineShape (e : RenderEngine) (tiles threads : nat) : Prop := mk_EngineShape {
  shape_tiles : length (m_TileList e) = tiles;
  shape_bins : forall t k,
    (t < tiles)%nat -> (k < threads)%nat -> is_Some (get2 (m_BinList e) t k);
  shape_masks : forall t k,
    (t < tiles)%nat -> (k < threads)%nat -> is_Some (get2 (m_CoverageMasks e) t k)
}.

(** The actions of a worker name tiles of the engine, and a worker is in the
    middle of an action only when it has one. *)
Definition WorkerReady (tiles : nat) (w : Worker) : Prop :=
  Forall (fun a => (action_tile a < tiles)%nat) (w_todo w)
  /\ (w_todo w = [] -> w_pc w = AtAction).

Definition PhaseInvariant (tiles : nat) (s : System) : Prop :=
  EngineShape s.1 tiles (length s.2) /\ Forall (WorkerReady tiles) s.2.

(** An upper bound of the steps that a worker has still to take: three per
    action, less those already taken for the current one. *)
Definition StepsLeft (w : Worker) : nat :=
  3 * length (w_todo w)
  - match w_pc w with AtAction => 0 | WonFlag => 1 | AfterEnqueue => 2 end.

Definition TotalStepsLeft (ws : list Worker) : nat := sum_list (map StepsLeft ws).

(** ** Fragment shading of the coverage masks of a tile
       (PipelineThread.cpp, ExecuteFragmentShader, body of the loop over the
        queue) *)

Section TileShading.

Variable m_RenderConfig : RasterizerConfig.
Variable m_ShaderMetadata : ShaderMetadata.
Variable m_SetupBuffers : SetupBuffers.
Variable FS : InterpolatedAttributes -> FragmentOutput.
Variable rcp : f32 -> f32.

(** The coverage mask buffers of the tile are gone through thread by thread,
    and the masks of a buffer in the order in which they were appended. *)
Definition ShadeTileMasks (perThread : list (list CoverageMask)) (st : FSState)
    : option FSState :=
  foldl (fun acc pMask =>
           acc ≫= ShadeCoverageMask m_RenderConfig m_ShaderMetadata m_SetupBuffers FS rcp pMask)
        (Some st) (concat perThread).

End TileShading.

(** Between two states of fragment shading: the framebuffer has kept its
    dimensions and the sizes of its buffers, no depth value has gone up, and
    the fragment shader has only been invoked further. *)
Definition DepthOnlyDecreased (fb fb' : Framebuffer) : Prop :=
  m_Width fb' = m_Width fb /\ m_Height fb' = m_Height fb
  /\ length (m_pColorBuffer fb') = length (m_pColorBuffer fb)
  /\ length (m_pDepthBuffer fb') = length (m_pDepthBuffer fb)
  /\ forall (i : nat) (a b : f32),
       m_pDepthBuffer fb' !! i = Some a -> m_pDepthBuffer fb !! i = Some b ->
       a = b \/ (a <=? b)%f32 = true.

Definition ShadedFurther (st st' : FSState) : Prop :=
  DepthOnlyDecreased (fs_Framebuffer st) (fs_Framebuffer st')
  /\ exists more, fs_Invocations st' = fs_Invocations st ++ more.

(** ** Clearing the render targets (RenderEngine.cpp, ClearRenderTargets) *)

(** The body of [for (uint32_t i = 0; i < fbSize; i += 4)]: the four bytes of
    the pixel that starts at byte [i]. *)
Definition ClearPixel (color : list Z) (i : Z) (buf : list Z) : option (list Z) :=
  r ← array_get color 0;
  g ← array_get color 1;
  b ← array_get color 2;
  a ← array_get color 3;
  buf ← array_set buf (u32 (i + 0)) r;
  buf ← array_set buf (u32 (i + 1)) g;
  buf ← array_set buf (u32 (i + 2)) b;
  array_set buf (u32 (i + 3)) a.

Definition ClearRenderTargets (clearColor : bool) (colorValue : vec4)
    (clearDepth : bool) (depthValue : f32) (fb : Framebuffer) : option Framebuffer :=
  colorBuffer ←
    (if clearColor then
       let color :=
         [clear_color_byte (x4 colorValue); clear_color_byte (y4 colorValue);
          clear_color_byte (z4 colorValue); clear_color_byte (w4 colorValue)] in
       let fbSize := u32 (u32 (m_Width fb * m_Height fb) * 4) in
       for_u32 ((fbSize + 3) / 4) (fun j => ClearPixel color (4 * j)) (m_pColorBuffer fb)
     else Some (m_pColorBuffer fb));
  depthBuffer ←
    (if clearDepth then
       let fbSize := u32 (u32 (m_Width fb * m_Height fb) * 1) in
       for_u32 fbSize (fun i buf => array_set buf i depthValue) (m_pDepthBuffer fb)
     else Some (m_pDepthBuffer fb));
  Some (mk_Framebuffer (m_Width fb) (m_Height fb) colorBuffer depthBuffer).

(** ** What the binner and the rasterizer emit *)

(** The primitive that an action of the binner is about. *)
Definition action_prim (a : BinnerAction) : Z :=
  match a with
  | EmitTile _ mask => m_PrimIdx mask
  | BinPrim _ primIdx => primIdx
  end.

(** The test of [ExecuteBinner] that discards a primitive whose bounding box
    is outside the screen. *)
Definition OffScreen (fbWidth fbHeight : Z) (bbox : Rect2D) : bool :=
  (m_MinX bbox >=? float_of_u32 fbWidth)%f32 || (m_MaxX bbox <? F32.zero)%f32
  || (m_MinY bbox >=? float_of_u32 fbHeight)%f32 || (m_MaxY bbox <? F32.zero)%f32.
(** The sample [k] of the group of four that starts at column [4 * px] of
    row [py] of a block is inside the three edges, as [ExecuteRasterizer]
    tests it. *)
Definition SampleInside (EDGE_TEST_SHARED_EDGES : bool) (ee0 ee1 ee2 : vec3)
    (blockPosX blockPosY : f32) (px py : Z) (k : Z) : bool :=
  let y := (blockPosY + float_of_u32 py + F32.half)%f32 in
  let x := (blockPosX + float_of_u32 (g_scSIMDWidth * px) + F32.make (2 * k + 1) (-1))%f32 in
  EdgeFuncMask EDGE_TEST_SHARED_EDGES ee0 x y
  && (EdgeFuncMask EDGE_TEST_SHARED_EDGES ee1 x y
      && EdgeFuncMask EDGE_TEST_SHARED_EDGES ee2 x y).

(** ** Deltas in the setup buffers *)

(** The delta buffers [bufs] of one attribute width hold, at the slot [i]
    and the elements of the primitive [drawIdx], the deltas of the
    components of the attribute [i] of the three vertices. *)
Definition Vec4DeltasStored (drawIdx : Z) (a0 a1 a2 : VertexAttributes) (i : nat)
    (bufs : list (list vec3)) : Prop :=
  exists A0 A1 A2 : vec4,
    m_Attributes4 a0 !! i = Some A0 /\ m_Attributes4 a1 !! i = Some A1
    /\ m_Attributes4 a2 !! i = Some A2
    /\ load_delta bufs (Z.of_nat i) (u32 (drawIdx * 4 + 0))
       = Some (delta (x4 A0) (x4 A1) (x4 A2))
    /\ load_delta bufs (Z.of_nat i) (u32 (drawIdx * 4 + 1))
       = Some (delta (y4 A0) (y4 A1) (y4 A2))
    /\ load_delta bufs (Z.of_nat i) (u32 (drawIdx * 4 + 2))
       = Some (delta (z4 A0) (z4 A1) (z4 A2))
    /\ load_delta bufs (Z.of_nat i) (u32 (drawIdx * 4 + 3))
       = Some (delta (w4 A0) (w4 A1) (w4 A2)).

Definition Vec3DeltasStored (drawIdx : Z) (a0 a1 a2 : VertexAttributes) (i : nat)
    (bufs : list (list vec3)) : Prop :=
  exists A0 A1 A2 : vec3,
    m_Attributes3 a0 !! i = Some A0 /\ m_Attributes3 a1 !! i = Some A1
    /\ m_Attributes3 a2 !! i = Some A2
    /\ load_delta bufs (Z.of_nat i) (u32 (drawIdx * 3 + 0))
       = Some (delta (x3 A0) (x3 A1) (x3 A2))
    /\ load_delta bufs (Z.of_nat i) (u32 (drawIdx * 3 + 1))
       = Some (delta (y3 A0) (y3 A1) (y3 A2))
    /\ load_delta bufs (Z.of_nat i) (u32 (drawIdx * 3 + 2))
       = Some (delta (z3 A0) (z3 A1) (z3 A2)).

Definition Vec2DeltasStored (drawIdx : Z) (a0 a1 a2 : VertexAttributes) (i : nat)
    (bufs : list (list vec3)) : Prop :=
  exists A0 A1 A2 : vec2,
    m_Attributes2 a0 !! i = Some A0 /\ m_Attributes2 a1 !! i = Some A1
    /\ m_Attributes2 a2 !! i = Some A2
    /\ load_delta bufs (Z.of_nat i) (u32 (drawIdx * 2 + 0))
       = Some (delta (x2 A0) (x2 A1) (x2 A2))
    /\ load_delta bufs (Z.of_nat i) (u32 (drawIdx * 2 + 1))
       = Some (delta (y2 A0) (y2 A1) (y2 A2)).

(** The setup buffers hold the deltas of every attribute of the primitive
    [drawIdx]. *)
Definition DeltasStored (md : ShaderMetadata) (drawIdx : Z) (a0 a1 a2 : VertexAttributes)
    (sb : SetupBuffers) : Prop :=
  (forall i : nat, (i < Z.to_nat (m_NumVec4Attributes md))%nat ->
     Vec4DeltasStored drawIdx a0 a1 a2 i (m_Attribute4Deltas sb))
  /\ (forall i : nat, (i < Z.to_nat (m_NumVec3Attributes md))%nat ->
        Vec3DeltasStored drawIdx a0 a1 a2 i (m_Attribute3Deltas sb))
  /\ (forall i : nat, (i < Z.to_nat (m_NumVec2Attributes md))%nat ->
        Vec2DeltasStored drawIdx a0 a1 a2 i (m_Attribute2Deltas sb)).

(** The registers that [InterpolateVertexAttributes] computes from the
    deltas of the attribute of slot [i], but for the w register of a vec4
    attribute. *)
Definition InterpolatedFrom (md : ShaderMetadata) (a0 a1 a2 : VertexAttributes)
    (ssef0XY ssef1XY : m128) (ia : InterpolatedAttributes) : Prop :=
  let I c0 c1 c2 := InterpolateDelta (delta c0 c1 c2) ssef0XY ssef1XY in
  (forall i : nat, (i < Z.to_nat (m_NumVec4Attributes md))%nat ->
     exists (A0 A1 A2 : vec4) (lanes : Vec4Lanes),
       m_Attributes4 a0 !! i = Some A0 /\ m_Attributes4 a1 !! i = Some A1
       /\ m_Attributes4 a2 !! i = Some A2
       /\ m_Vec4Attributes ia !! i = Some lanes
       /\ m4_SSEX lanes = I (x4 A0) (x4 A1) (x4 A2)
       /\ m4_SSEY lanes = I (y4 A0) (y4 A1) (y4 A2)
       /\ m4_SSEZ lanes = I (z4 A0) (z4 A1) (z4 A2))
  /\ (forall i : nat, (i < Z.to_nat (m_NumVec3Attributes md))%nat ->
        exists (A0 A1 A2 : vec3) (lanes : Vec3Lanes),
          m_Attributes3 a0 !! i = Some A0 /\ m_Attributes3 a1 !! i = Some A1
          /\ m_Attributes3 a2 !! i = Some A2
          /\ m_Vec3Attributes ia !! i = Some lanes
          /\ m3_SSEX lanes = I (x3 A0) (x3 A1) (x3 A2)
          /\ m3_SSEY lanes = I (y3 A0) (y3 A1) (y3 A2)
          /\ m3_SSEZ lanes = I (z3 A0) (z3 A1) (z3 A2))
  /\ (forall i : nat, (i < Z.to_nat (m_NumVec2Attributes md))%nat ->
        exists (A0 A1 A2 : vec2) (lanes : Vec2Lanes),
          m_Attributes2 a0 !! i = Some A0 /\ m_Attributes2 a1 !! i = Some A1
          /\ m_Attributes2 a2 !! i = Some A2
          /\ m_Vec2Attributes ia !! i = Some lanes
          /\ m2_SSEX lanes = I (x2 A0) (x2 A1) (x2 A2)
          /\ m2_SSEY lanes = I (y2 A0) (y2 A1) (y2 A2)).
(** The deltas of the primitive [d] are where they were, and so are the
    other buffers. *)
Definition KeepsDeltas (d : Z) (s s' : SetupBuffers) : Prop :=
  m_pEdgeCoefficients s' = m_pEdgeCoefficients s
  /\ m_pInterpolatedZValues s' = m_pInterpolatedZValues s
  /\ m_pPrimBBoxes s' = m_pPrimBBoxes s
  /\ (forall slot j, 0 <= j < 4 ->
        load_delta (m_Attribute4Deltas s') slot (u32 (d * 4 + j))
        = load_delta (m_Attribute4Deltas s) slot (u32 (d * 4 + j)))
  /\ (forall slot j, 0 <= j < 3 ->
        load_delta (m_Attribute3Deltas s') slot (u32 (d * 3 + j))
        = load_delta (m_Attribute3Deltas s) slot (u32 (d * 3 + j)))
  /\ (forall slot j, 0 <= j < 2 ->
        load_delta (m_Attribute2Deltas s') slot (u32 (d * 2 + j))
        = load_delta (m_Attribute2Deltas s) slot (u32 (d * 2 + j))).

(** The reads of [ExecuteRasterizer] for the primitive [primIdx], its
    bounding box and its three edge coefficient triples, are inside the
    setup buffers. *)
Definition RasterizerReadsInBounds (primIdx : Z) (sb : SetupBuffers) : Prop :=
  (Z.to_nat primIdx < length (m_pPrimBBoxes sb))%nat
  /\ (Z.to_nat (u32 (3 * primIdx + 0)) < length (m_pEdgeCoefficients sb))%nat
  /\ (Z.to_nat (u32 (3 * primIdx + 1)) < length (m_pEdgeCoefficients sb))%nat
  /\ (Z.to_nat (u32 (3 * primIdx + 2)) < length (m_pEdgeCoefficients sb))%nat.

(** The two buffers have the sizes they had. *)
Definition SameBounds (sb sb' : SetupBuffers) : Prop :=
  length (m_pPrimBBoxes sb') = length (m_pPrimBBoxes sb)
  /\ length (m_pEdgeCoefficients sb') = length (m_pEdgeCoefficients sb).

(** ** The area of a coverage mask *)

(** The rectangle of pixels that fragment shading visits for a coverage
    mask, from the sample [(m_SampleX, m_SampleY)]: the blocks of a tile,
    the 8x8 samples of a block, the four samples of a quad. *)
Definition MaskWidth (cfg : RasterizerConfig) (t : CoverageMaskType) : Z :=
  match t with
  | TILE => g_scPixelBlockSize * (m_TileSize cfg / g_scPixelBlockSize)
  | BLOCK => g_scPixelBlockSize
  | QUAD => g_scSIMDWidth
  end.

Definition MaskHeight (cfg : RasterizerConfig) (t : CoverageMaskType) : Z :=
  match t with
  | TILE => g_scPixelBlockSize * (m_TileSize cfg / g_scPixelBlockSize)
  | BLOCK => g_scPixelBlockSize
  | QUAD => 1
  end.

(** Every pixel [(x, y)] of the framebuffer outside the rectangle
    [x0 <= x < x0 + w], [y0 <= y < y0 + h] has the depth value and the four
    color bytes it had, and the framebuffer has the dimensions it had. *)
Definition OutsideKept (fb fb' : Framebuffer) (x0 y0 w h : Z) : Prop :=
  m_Width fb' = m_Width fb /\ m_Height fb' = m_Height fb
  /\ length (m_pDepthBuffer fb') = length (m_pDepthBuffer fb)
  /\ length (m_pColorBuffer fb') = length (m_pColorBuffer fb)
  /\ forall x y : Z,
       0 <= x < m_Width fb -> 0 <= y ->
       ~ (x0 <= x < x0 + w /\ y0 <= y < y0 + h) ->
       m_pDepthBuffer fb' !! Z.to_nat (x + y * m_Width fb)
         = m_pDepthBuffer fb !! Z.to_nat (x + y * m_Width fb)
       /\ forall c : Z, 0 <= c < 4 ->
            m_pColorBuffer fb' !! Z.to_nat (4 * (x + y * m_Width fb) + c)
              = m_pColorBuffer fb !! Z.to_nat (4 * (x + y * m_Width fb) + c).

(** The two framebuffers have the same dimensions and hold the same depth
    value and the same color bytes at the four samples of the group at
    [(sampleX, sampleY)]. *)
Definition GroupSame (fb1 fb2 : Framebuffer) (sampleX sampleY : Z) : Prop :=
  m_Width fb2 = m_Width fb1 /\ m_Height fb2 = m_Height fb1
  /\ length (m_pDepthBuffer fb2) = length (m_pDepthBuffer fb1)
  /\ length (m_pColorBuffer fb2) = length (m_pColorBuffer fb1)
  /\ (forall k : nat, (k < 4)%nat ->
        m_pDepthBuffer fb2 !! (DepthAddress fb1 sampleX sampleY + k)%nat
        = m_pDepthBuffer fb1 !! (DepthAddress fb1 sampleX sampleY + k)%nat)
  /\ (forall j : nat, (j < 16)%nat ->
        m_pColorBuffer fb2 !! (ColorAddress fb1 sampleX sampleY + j)%nat
        = m_pColorBuffer fb1 !! (ColorAddress fb1 sampleX sampleY + j)%nat).

(** The two framebuffers have the same dimensions and hold the same depth
    value and the same color bytes at every pixel of the rectangle. *)
Definition InsideSame (fb1 fb2 : Framebuffer) (x0 y0 w h : Z) : Prop :=
  m_Width fb2 = m_Width fb1 /\ m_Height fb2 = m_Height fb1
  /\ length (m_pDepthBuffer fb2) = length (m_pDepthBuffer fb1)
  /\ length (m_pColorBuffer fb2) = length (m_pColorBuffer fb1)
  /\ forall x y : Z,
       x0 <= x < x0 + w -> y0 <= y < y0 + h ->
       m_pDepthBuffer fb2 !! Z.to_nat (x + y * m_Width fb1)
         = m_pDepthBuffer fb1 !! Z.to_nat (x + y * m_Width fb1)
       /\ forall c : Z, 0 <= c < 4 ->
            m_pColorBuffer fb2 !! Z.to_nat (4 * (x + y * m_Width fb1) + c)
              = m_pColorBuffer fb1 !! Z.to_nat (4 * (x + y * m_Width fb1) + c).

(** The rectangle [(x0, y0, w, h)] lies within the rows of the framebuffer
    and no byte address in it wraps around. *)
Definition RectFits (fb : Framebuffer) (x0 y0 w h : Z) : Prop :=
  0 <= x0 /\ 0 <= y0 /\ x0 + w <= m_Width fb /\ (y0 + h) * m_Width fb * 4 < u32_mod.

(** The rectangle of a coverage mask fits the framebuffer. *)
Definition MaskFits (cfg : RasterizerConfig) (fb : Framebuffer) (pMask : CoverageMask)
    : Prop :=
  RectFits fb (m_SampleX pMask) (m_SampleY pMask)
    (MaskWidth cfg (m_Type pMask)) (MaskHeight cfg (m_Type pMask)).

(** The rectangles of two coverage masks have no pixel in common. *)
Definition MasksDisjoint (cfg : RasterizerConfig) (a b : CoverageMask) : Prop :=
  m_SampleX a + MaskWidth cfg (m_Type a) <= m_SampleX b
  \/ m_SampleX b + MaskWidth cfg (m_Type b) <= m_SampleX a
  \/ m_SampleY a + MaskHeight cfg (m_Type a) <= m_SampleY b
  \/ m_SampleY b + MaskHeight cfg (m_Type b) <= m_SampleY a.

(** The group of four samples at [(sampleX, sampleY)] has been depth-tested
    and shaded for the primitive [primIdx] between [fb] and [fb']: with [z]
    the interpolated depth of the four samples and [cur] the depth that [fb]
    stores for them, a sample with [z <= cur] is written (its depth is [z]
    and its color that of the fragment shader on the record of the shading
    function, which holds the interpolated attributes of the group, one at
    most of each width) and every other sample is as it was in [fb]. *)
Definition GroupShaded (md : ShaderMetadata) (sb : SetupBuffers)
    (FS : InterpolatedAttributes -> FragmentOutput) (rcp : f32 -> f32) (primIdx : Z)
    (fb fb' : Framebuffer) (sampleX sampleY : Z) : Prop :=
  exists (f0 f1 z cur : m128),
    DepthTest sb rcp primIdx sampleX sampleY fb = Some (f0, f1, z, _mm_cmple_ps z cur)
    /\ _mm_load_ps (m_pDepthBuffer fb) (DepthAddress fb sampleX sampleY) = Some cur
    /\ forall k : nat, (k < 4)%nat ->
         if (ps_lane z k <=? ps_lane cur k)%f32
         then exists attrs,
                InterpolateVertexAttributes md primIdx f0 f1 sb = Some attrs
                /\ StoreInLocalRecord attrs = Some attrs
                /\ SampleWritten fb fb' sampleX sampleY k (ps_lane z k)
                     (m_FragmentColors (FS attrs) k)
         else SampleKept fb fb' sampleX sampleY k.

(** ** Concrete scenes, used to run the model *)

Module Scene.

(** The binary32 nearest to the quotient of two integers, as the compiler
    reads a decimal literal such as [0.9f]. *)
Definition decimal (n d : Z) : f32 := (F32.of_Z n / F32.of_Z d)%f32.

Definition no_attributes : VertexAttributes := mk_VertexAttributes [] [] [].

Definition vec4_zero : vec4 := mk_vec4 F32.zero F32.zero F32.zero F32.zero.

(** A cache of 16 entries, empty. *)
Definition empty_cache : VSCache :=
  mk_VSCache 0 (replicate 16 0) (replicate 16 (mk_VertexCache vec4_zero no_attributes)).

(** A vertex buffer of three positions with a stride of one byte and a
    pass-through vertex shader: the triangle (-0.5,-0.5), (0,0.5), (0.5,-0.5)
    at z = 0.5, w = 1, listed by the index buffer as 0, 2, 1. *)
Definition triangle_VS (offset : Z) : vec4 * VertexAttributes :=
  match offset with
  | 0 => (mk_vec4 (decimal (-1) 2) (decimal (-1) 2) F32.half F32.one, no_attributes)
  | 1 => (mk_vec4 F32.half (decimal (-1) 2) F32.half F32.one, no_attributes)
  | _ => (mk_vec4 F32.zero F32.half F32.half F32.one, no_attributes)
  end.

Definition v0 : vec4 := fst (triangle_VS 0).
Definition v1 : vec4 := fst (triangle_VS 2).
Definition v2 : vec4 := fst (triangle_VS 1).

(** Three copies of the triangle, drawn on a 64x64 framebuffer of one tile by
    two workers, with draw iterations of at most three primitives. *)
Definition config : RasterizerConfig := mk_RasterizerConfig 64 3 2.
Definition metadata : ShaderMetadata := mk_ShaderMetadata 0 0 0.
Definition index_buffer : list Z := [0; 2; 1; 0; 2; 1; 0; 2; 1].
Definition setup_buffers : SetupBuffers := AllocateSetupBuffers 3 1.
(** The queued flag of a tile that no draw iteration has cleared yet is
    taken set, as a constructor that does not clear it may leave it. *)
Definition constructed_flag : bool := true.
Definition engine : RenderEngine := SetRenderTargets config constructed_flag 64 64.

(** One vec4 attribute with the values (1,2,3,4), (5,6,7,8), (9,10,11,12) at
    the three vertices of primitive 0, and basis functions 0.25 on every lane. *)
Definition vec4_metadata : ShaderMetadata := mk_ShaderMetadata 1 0 0.

Definition vec4_of_Z (x y z w : Z) : vec4 :=
  mk_vec4 (F32.of_Z x) (F32.of_Z y) (F32.of_Z z) (F32.of_Z w).

Definition attribs0 : VertexAttributes := mk_VertexAttributes [vec4_of_Z 1 2 3 4] [] [].
Definition attribs1 : VertexAttributes := mk_VertexAttributes [vec4_of_Z 5 6 7 8] [] [].
Definition attribs2 : VertexAttributes := mk_VertexAttributes [vec4_of_Z 9 10 11 12] [] [].

Definition quarter : f32 := F32.make 1 (-2).
Definition quarter4 : m128 := _mm_set_ps1 quarter.

(** One vec2 attribute and draw iterations of at most four primitives. *)
Definition vec2_metadata : ShaderMetadata := mk_ShaderMetadata 0 0 1.

Definition vec2_attribs : VertexAttributes :=
  mk_VertexAttributes [] [] [mk_vec2 F32.one F32.half].

(** A vertex shader that returns the byte offset of its input as x. *)
Definition offset_VS (offset : Z) : vec4 * VertexAttributes :=
  (mk_vec4 (F32.of_Z offset) F32.zero F32.zero F32.one, no_attributes).

(** A triangle over a 256x256 framebuffer of 4x4 tiles: (-0.9,-0.8),
    (-0.3,0.9), (0.7,-0.6) at z = 0.5, w = 1. *)
Definition wide_config : RasterizerConfig := mk_RasterizerConfig 64 16 1.
Definition wide_engine : RenderEngine :=
  SetRenderTargets wide_config constructed_flag 256 256.
Definition wide_setup_buffers : SetupBuffers := AllocateSetupBuffers 16 1.
Definition p0 : vec4 := mk_vec4 (decimal (-9) 10) (decimal (-8) 10) F32.half F32.one.
Definition p1 : vec4 := mk_vec4 (decimal (-3) 10) (decimal 9 10) F32.half F32.one.
Definition p2 : vec4 := mk_vec4 (decimal 7 10) (decimal (-6) 10) F32.half F32.one.

(** The 64x64 framebuffer of the first scene, cleared to black and to depth
    1, the setup buffers after triangle setup of the triangle as primitive 0,
    a fragment shader that returns opaque red, and the exact quotient in
    place of the processor's reciprocal. *)
Definition framebuffer : Framebuffer :=
  mk_Framebuffer 64 64 (replicate (64 * 64 * 4) 0) (replicate (64 * 64) F32.one).

Definition shaded_setup_buffers : SetupBuffers :=
  match ExecuteTriangleSetupAndCull 64 64 0 v0 v1 v2 setup_buffers with
  | Some (_, sb) => sb
  | None => setup_buffers
  end.

Definition red : m128 := mk_m128 F32.one F32.zero F32.zero F32.one.
Definition red_FS (_ : InterpolatedAttributes) : FragmentOutput :=
  mk_FragmentOutput red red red red.

Definition exact_rcp (x : f32) : f32 := (F32.one / x)%f32.

Definition start : FSState := mk_FSState framebuffer [].

(** The same triangle with the vec4 attribute above: the setup buffers after
    its interpolation deltas have been stored too, and a fragment shader
    that returns the interpolated attribute of each sample as its color. *)
Definition attribute_setup_buffers : SetupBuffers :=
  match CalculateInterpolationCoefficients vec4_metadata 0 attribs0 attribs1 attribs2
          shaded_setup_buffers with
  | Some sb => sb
  | None => shaded_setup_buffers
  end.

Definition attribute_FS (attrs : InterpolatedAttributes) : FragmentOutput :=
  match m_Vec4Attributes attrs with
  | a :: _ =>
      let rgba k := mk_m128 (ps_lane (m4_SSEX a) k) (ps_lane (m4_SSEY a) k)
                            (ps_lane (m4_SSEZ a) k) (ps_lane (m4_SSEW a) k) in
      mk_FragmentOutput (rgba 0%nat) (rgba 1%nat) (rgba 2%nat) (rgba 3%nat)
  | [] => mk_FragmentOutput red red red red
  end.

(** A QUAD coverage mask of primitive 0 at the sample (32, 32), whose
    samples 0 and 2 are covered. *)
Definition quad : CoverageMask := mk_CoverageMask 32 32 0 QUAD 5.

(** Two tiles side by side and two workers.  Worker 0 trivially accepts tile
    0 for primitive 0 and bins it for tile 1; worker 1 bins primitive 1 for
    tile 0 and trivially accepts tile 0 for primitive 2.  In the interleaving
    worker 0 finds the flag of tile 0 clear, worker 1 then finds it set and
    pushes to its bin before worker 0 has inserted the tile. *)
Definition two_tile_engine : RenderEngine :=
  SetRenderTargets config constructed_flag 128 64.

Definition binner_work : list (list BinnerAction) :=
  [ [EmitTile 0 (mk_CoverageMask 0 0 0 TILE 0); BinPrim 1 0];
    [BinPrim 0 1; EmitTile 0 (mk_CoverageMask 0 0 2 TILE 0)] ].

Definition interleaving : list nat := [0; 1; 1; 0; 0; 0; 0; 0; 1; 1]%nat.

(** The same work with the workers one after the other. *)
Definition one_after_the_other : list nat := [0; 0; 0; 0; 0; 0; 1; 1; 1; 1]%nat.

(** The setup buffers of the 256x256 scene after triangle setup of its
    triangle as primitive 0. *)
Definition wide_triangle_setup : SetupBuffers :=
  match ExecuteTriangleSetupAndCull 256 256 0 p0 p1 p2 wide_setup_buffers with
  | Some (_, sb) => sb
  | None => wide_setup_buffers
  end.

(** The setup buffers of the 64x64 scene after the binner has stored the
    bounding box of the triangle. *)
Definition binned_setup_buffers : SetupBuffers :=
  match ExecuteBinner config 64 64 1 (m_TileList engine) 0 v0 v1 v2 shaded_setup_buffers with
  | Some (sb, _) => sb
  | None => shaded_setup_buffers
  end.

(** The setup buffers of the 64x64 scene after the geometry pass of worker 1
    over the primitives 1 and 2. *)
Definition geometry_setup_buffers : SetupBuffers :=
  match GeometryPass true 16 true config metadata 64 64 1 (m_TileList engine)
          triangle_VS index_buffer 1 0 1 3 empty_cache setup_buffers with
  | Some (_, sb, _) => sb
  | None => setup_buffers
  end.

(** The setup buffers after geometry setup of primitive 0 with the vec4
    attribute above. *)
Definition vec4_setup_buffers : SetupBuffers :=
  match CalculateInterpolationCoefficients vec4_metadata 0 attribs0 attribs1 attribs2
          (AllocateSetupBuffers 1 1) with
  | Some sb => sb
  | None => AllocateSetupBuffers 1 1
  end.

End Scene.

(** * Theorems *)

(** Evaluates the conjuncts of a closed goal one after the other, so that
    what one conjunct computes is known to the next. *)
Ltac evaluate := match goal with |- _ = _ => vm_compute; reflexivity end.
Ltac by_evaluation :=
  repeat (match goal with |- _ /\ _ => split; [evaluate |] end); evaluate.
Ltac evaluate_conjuncts :=
  repeat (match goal with |- _ /\ _ => split; [try evaluate |] end); try evaluate.

(** ** Color conversion *)

Section ColorConversion.

Let half4 : m128 := _mm_set_ps1 F32.half.
Let two4 : m128 := _mm_set_ps1 (F32.of_Z 2).
Let full : m128i := mk_m128i all_ones all_ones all_ones all_ones.

(** C3 (the code departs from the claim).  A fragment color whose four
    samples have every channel at 0.5 is stored by [UpdateColorBuffer] as
    the bytes 128: [_mm_cvtps_epi32] rounds 127.5 to the nearest even
    integer, whereas [cast<uint>(0.5 * 255.f)] by truncation is 127 (the
    value [ClearRenderTargets] computes for the same channel).  A channel
    at 2.0 is stored as 255 by the saturating packs, whereas truncation
    without clamping leaves 510, that is 254 in eight bits. *)
Theorem UpdateColorBuffer_rounds_and_saturates :
  UpdateColorBuffer full (mk_FragmentOutput half4 half4 half4 half4) 0 (replicate 16 0)
    = replicate 16 128
  /\ spec_color_channel_byte F32.half = 127
  /\ clear_color_byte F32.half = 127
  /\ UpdateColorBuffer full (mk_FragmentOutput two4 two4 two4 two4) 0 (replicate 16 0)
     = replicate 16 255
  /\ spec_color_channel_byte (F32.of_Z 2) = 254.
Proof. by_evaluation. Qed.

End ColorConversion.

(** ** Clipping *)

Lemma orb_false_iff6 (a b c d e f : bool) :
  a || b || c || d || e || f = false <->
  a = false /\ b = false /\ c = false /\ d = false /\ e = false /\ f = false.
Proof. destruct a, b, c, d, e, f; simpl; intuition congruence. Qed.

Lemma ExecuteFullTriangleClipping_false_iff (v0Clip v1Clip v2Clip : vec4) :
  ExecuteFullTriangleClipping true v0Clip v1Clip v2Clip = false <->
  exists p : ClipPlane,
    strictly_outside p v0Clip /\ strictly_outside p v1Clip /\ strictly_outside p v2Clip.
Proof.
  unfold ExecuteFullTriangleClipping.
  split.
  - intros Hrej.
    match type of Hrej with (if ?c then _ else _) = _ => destruct c eqn:Hc end;
      [clear Hrej | discriminate].
    repeat (apply orb_true_iff in Hc; destruct Hc as [Hc | Hc]);
      [exists PlaneLeft | exists PlaneRight | exists PlaneBottom
      | exists PlaneTop | exists PlaneNear | exists PlaneFar];
      simpl;
      apply andb_true_iff in Hc as [Hc H2]; apply andb_true_iff in Hc as [H0 H1];
      auto.
  - intros [p (H0 & H1 & H2)].
    destruct p; simpl in H0, H1, H2; rewrite H0, H1, H2;
      repeat (rewrite ?orb_true_r; simpl); reflexivity.
Qed.

Section ClippingStage.

Variable g_scVertexShaderCacheEnabled : bool.
Variable g_scVertexShaderCacheSize : Z.
Variable m_RenderConfig : RasterizerConfig.
Variable m_ShaderMetadata : ShaderMetadata.
Variables fbWidth fbHeight : Z.
Variable m_NumTilePerRow : Z.
Variable tiles : list Tile.
Variable VS : Z -> vec4 * VertexAttributes.
Variable pIndexBuffer : list Z.
Variable vertexStride : Z.
Variable vertexOffset : Z.

(** C6.  With full-triangle clipping compiled in, the clipper rejects the
    triangle that the vertex shader stage produced exactly when its three
    clip-space vertices lie strictly outside one and the same of the six
    planes, each vertex tested against its own w.  A rejected triangle ends
    the loop body with no setup data and no binner action; any other
    triangle, straddling or not, is handed to triangle setup and binning
    with the very vertices the vertex shader stage produced. *)
Theorem clipper_rejects_iff_outside_one_plane
    (primIdx drawIdx : Z) (c : VSCache) (sb : SetupBuffers)
    (v0Clip v1Clip v2Clip : vec4) (c' : VSCache) (sb' : SetupBuffers) :
  ExecuteVertexShader g_scVertexShaderCacheEnabled g_scVertexShaderCacheSize VS
    pIndexBuffer vertexStride vertexOffset m_ShaderMetadata primIdx drawIdx c sb
    = Some (v0Clip, v1Clip, v2Clip, c', sb') ->
  let rejected := negb (ExecuteFullTriangleClipping true v0Clip v1Clip v2Clip) in
  let body :=
    GeometryPrimitive g_scVertexShaderCacheEnabled g_scVertexShaderCacheSize true
      m_RenderConfig m_ShaderMetadata fbWidth fbHeight m_NumTilePerRow tiles VS
      pIndexBuffer vertexStride vertexOffset primIdx drawIdx c sb in
  (rejected = true <->
     exists p : ClipPlane,
       strictly_outside p v0Clip /\ strictly_outside p v1Clip /\ strictly_outside p v2Clip)
  /\ (rejected = true -> body = Some (c', sb', []))
  /\ (rejected = false ->
      body = SetupAndBin m_RenderConfig fbWidth fbHeight m_NumTilePerRow tiles
               drawIdx v0Clip v1Clip v2Clip c' sb').
Proof.
  intros Hvs rejected body. subst rejected body.
  unfold GeometryPrimitive. rewrite Hvs. simpl.
  split; [| split].
  - rewrite negb_true_iff. apply ExecuteFullTriangleClipping_false_iff.
  - intros ->. reflexivity.
  - intros ->. reflexivity.
Qed.

End ClippingStage.

(** ** Triangle setup and culling *)

Lemma array_set_in_range {A} (a : list A) (i : Z) (x : A) :
  (Z.to_nat i < length a)%nat -> array_set a i x = Some (<[Z.to_nat i := x]> a).
Proof. intros Hi. unfold array_set. rewrite decide_True by exact Hi. reflexivity. Qed.

Lemma array_set_out_of_range {A} (a : list A) (i : Z) (x : A) :
  (length a <= Z.to_nat i)%nat -> array_set a i x = None.
Proof. intros Hi. unfold array_set. rewrite decide_False by lia. reflexivity. Qed.

Lemma u32_small (n : Z) : 0 <= n < u32_mod -> u32 n = n.
Proof. intros Hn. unfold u32. apply Z.mod_small. exact Hn. Qed.

(** C7.  Triangle setup takes each clip-space vertex to homogeneous pixel
    space by [x' = W * (x + w) * 0.5] and [y' = H * (y + w) * 0.5] (z and w
    kept), forms the adjoint coefficients and [det = c0*w0 + c1*w1 + c2*w2].
    It returns [true] exactly when [det > 0], and then the three edge
    triples [(a_k, b_k, c_k)] are at [3*primIdx + k] and the Z deltas
    [(z0 - z2, z1 - z2, z2)] at [primIdx]; when [det > 0] fails the setup
    buffers are left as they were. *)
Theorem ExecuteTriangleSetupAndCull_keeps_iff_det_positive
    (fbWidth fbHeight primIdx : Z) (v0Clip v1Clip v2Clip : vec4) (sb : SetupBuffers) :
  0 <= primIdx ->
  3 * primIdx + 2 < Z.of_nat (length (m_pEdgeCoefficients sb)) ->
  primIdx < Z.of_nat (length (m_pInterpolatedZValues sb)) ->
  3 * primIdx + 2 < u32_mod ->
  let W := float_of_u32 fbWidth in
  let H := float_of_u32 fbHeight in
  let x0 := (W * (x4 v0Clip + w4 v0Clip) * F32.half)%f32 in
  let y0 := (H * (y4 v0Clip + w4 v0Clip) * F32.half)%f32 in
  let w0 := w4 v0Clip in
  let x1 := (W * (x4 v1Clip + w4 v1Clip) * F32.half)%f32 in
  let y1 := (H * (y4 v1Clip + w4 v1Clip) * F32.half)%f32 in
  let w1 := w4 v1Clip in
  let x2 := (W * (x4 v2Clip + w4 v2Clip) * F32.half)%f32 in
  let y2 := (H * (y4 v2Clip + w4 v2Clip) * F32.half)%f32 in
  let w2 := w4 v2Clip in
  let a0 := (y2 * w1 - y1 * w2)%f32 in
  let a1 := (y0 * w2 - y2 * w0)%f32 in
  let a2 := (y1 * w0 - y0 * w1)%f32 in
  let b0 := (x1 * w2 - x2 * w1)%f32 in
  let b1 := (x2 * w0 - x0 * w2)%f32 in
  let b2 := (x0 * w1 - x1 * w0)%f32 in
  let c0 := (x2 * y1 - x1 * y2)%f32 in
  let c1 := (x0 * y2 - x2 * y0)%f32 in
  let c2 := (x1 * y0 - x0 * y1)%f32 in
  let det := (c0 * w0 + c1 * w1 + c2 * w2)%f32 in
  TO_HOMOGEN v0Clip fbWidth fbHeight = mk_vec4 x0 y0 (z4 v0Clip) w0
  /\ TO_HOMOGEN v1Clip fbWidth fbHeight = mk_vec4 x1 y1 (z4 v1Clip) w1
  /\ TO_HOMOGEN v2Clip fbWidth fbHeight = mk_vec4 x2 y2 (z4 v2Clip) w2
  /\ exists sb',
      ExecuteTriangleSetupAndCull fbWidth fbHeight primIdx v0Clip v1Clip v2Clip sb
        = Some ((det >? F32.zero)%f32, sb')
      /\ if (det >? F32.zero)%f32 then
           array_get (m_pEdgeCoefficients sb') (3 * primIdx + 0) = Some (mk_vec3 a0 b0 c0)
           /\ array_get (m_pEdgeCoefficients sb') (3 * primIdx + 1) = Some (mk_vec3 a1 b1 c1)
           /\ array_get (m_pEdgeCoefficients sb') (3 * primIdx + 2) = Some (mk_vec3 a2 b2 c2)
           /\ array_get (m_pInterpolatedZValues sb') primIdx
              = Some (mk_vec3 (z4 v0Clip - z4 v2Clip)%f32 (z4 v1Clip - z4 v2Clip)%f32
                              (z4 v2Clip))
           /\ (forall i : nat,
                 i <> Z.to_nat (3 * primIdx + 0) -> i <> Z.to_nat (3 * primIdx + 1) ->
                 i <> Z.to_nat (3 * primIdx + 2) ->
                 m_pEdgeCoefficients sb' !! i = m_pEdgeCoefficients sb !! i)
           /\ (forall i : nat,
                 i <> Z.to_nat primIdx ->
                 m_pInterpolatedZValues sb' !! i = m_pInterpolatedZValues sb !! i)
         else sb' = sb.
Proof.
  intros Hp He Hz Hu. intros.
  split; [reflexivity | split; [reflexivity | split; [reflexivity |]]].
  unfold ExecuteTriangleSetupAndCull.
  change (detM _ _ _ _) with det.
  destruct (det >? F32.zero)%f32 eqn:Hdet; [| exists sb; split; reflexivity].
  rewrite !u32_small by (unfold u32_mod in *; lia).
  do 4 (rewrite array_set_in_range by (rewrite ?length_insert; lia); simpl).
  eexists. split; [reflexivity |].
  unfold array_get. simpl.
  repeat split.
  - rewrite list_lookup_insert_ne by lia. rewrite list_lookup_insert_ne by lia.
    rewrite list_lookup_insert_eq by lia. reflexivity.
  - rewrite list_lookup_insert_ne by lia.
    rewrite list_lookup_insert_eq by (rewrite length_insert; lia). reflexivity.
  - rewrite list_lookup_insert_eq by (rewrite !length_insert; lia). reflexivity.
  - rewrite list_lookup_insert_eq by lia. reflexivity.
  - intros i H0 H1 H2. rewrite !list_lookup_insert_ne by congruence. reflexivity.
  - intros i H0. rewrite list_lookup_insert_ne by congruence. reflexivity.
Qed.

Lemma ExecuteTriangleSetupAndCull_keeps_iff_det_positive_witness :
  exists sb',
    ExecuteTriangleSetupAndCull 64 64 0 Scene.v0 Scene.v1 Scene.v2 Scene.setup_buffers
      = Some (true, sb').
Proof.
  destruct (ExecuteTriangleSetupAndCull_keeps_iff_det_positive
              64 64 0 Scene.v0 Scene.v1 Scene.v2 Scene.setup_buffers)
    as (_ & _ & _ & sb' & Heq & _).
  - lia.
  - vm_compute. reflexivity.
  - vm_compute. reflexivity.
  - vm_compute. reflexivity.
  - exists sb'. rewrite Heq. vm_compute. reflexivity.
Defined.

Lemma clipper_rejects_iff_outside_one_plane_witness :
  GeometryPrimitive false 16 true Scene.config Scene.metadata 64 64 1
    (m_TileList Scene.engine) Scene.triangle_VS Scene.index_buffer 1 0 0 0
    Scene.empty_cache Scene.setup_buffers
  = SetupAndBin Scene.config 64 64 1 (m_TileList Scene.engine) 0
      Scene.v0 Scene.v1 Scene.v2 Scene.empty_cache Scene.setup_buffers.
Proof.
  refine (proj2 (proj2 (clipper_rejects_iff_outside_one_plane
            false 16 Scene.config Scene.metadata 64 64 1 (m_TileList Scene.engine)
            Scene.triangle_VS Scene.index_buffer 1 0 0 0
            Scene.empty_cache Scene.setup_buffers
            Scene.v0 Scene.v1 Scene.v2 Scene.empty_cache Scene.setup_buffers _)) _);
    vm_compute; reflexivity.
Defined.

(** ** Attribute interpolation *)

(** Whatever the inputs, the w lanes that [InterpolateVertexAttributes]
    produces for a vec4 attribute are its z lanes. *)
Lemma InterpolateVertexAttributes_W_is_Z (md : ShaderMetadata) (primIdx : Z)
    (ssef0XY ssef1XY : m128) (sb : SetupBuffers) (attrs : InterpolatedAttributes) :
  InterpolateVertexAttributes md primIdx ssef0XY ssef1XY sb = Some attrs ->
  Forall (fun lanes => m4_SSEW lanes = m4_SSEZ lanes) (m_Vec4Attributes attrs).
Proof.
  unfold InterpolateVertexAttributes, collect_u32. intros Hrun.
  destruct (mapM _ (seq 0 (Z.to_nat (m_NumVec4Attributes md)))) as [v4 |] eqn:H4;
    [| discriminate].
  simpl in Hrun.
  destruct (mapM _ (seq 0 (Z.to_nat (m_NumVec3Attributes md)))) as [v3 |];
    [| discriminate].
  simpl in Hrun.
  destruct (mapM _ (seq 0 (Z.to_nat (m_NumVec2Attributes md)))) as [v2 |];
    [| discriminate].
  simpl in Hrun. injection Hrun as <-. simpl.
  apply mapM_Some in H4.
  induction H4 as [| i lanes idxs ls Hi _ IH]; constructor; [| exact IH].
  destruct (load_delta _ _ (u32 (primIdx * 4 + 0))); [| discriminate].
  destruct (load_delta _ _ (u32 (primIdx * 4 + 1))); [| discriminate].
  destruct (load_delta _ _ (u32 (primIdx * 4 + 2))); [| discriminate].
  destruct (load_delta _ _ (u32 (primIdx * 4 + 3))); [| discriminate].
  simpl in Hi. injection Hi as <-. reflexivity.
Qed.

(** C2 (the code departs from the claim).  For one vec4 attribute with the
    values (1,2,3,4), (5,6,7,8), (9,10,11,12) at the three vertices, geometry
    setup stores the delta triple of the w component, (4-12, 8-12, 12), at
    slot index [4*0 + 3]; with [f0 = f1 = 0.25] the w component should come
    out as [0.25*(4-12) + 0.25*(8-12) + 12 = 9].  Fragment shading reads the
    triple at index [4*0 + 2] again for w, so the interpolated w is the
    interpolated z, 8. *)
Theorem InterpolateVertexAttributes_w_from_z_deltas :
  exists sb attrs lanes,
    CalculateInterpolationCoefficients Scene.vec4_metadata 0
      Scene.attribs0 Scene.attribs1 Scene.attribs2 (AllocateSetupBuffers 1 1) = Some sb
    /\ load_delta (m_Attribute4Deltas sb) 0 3
       = Some (delta (F32.of_Z 4) (F32.of_Z 8) (F32.of_Z 12))
    /\ InterpolateVertexAttributes Scene.vec4_metadata 0 Scene.quarter4 Scene.quarter4 sb
       = Some attrs
    /\ m_Vec4Attributes attrs = [lanes]
    /\ ps0 (m4_SSEZ lanes)
       = spec_interpolate (F32.of_Z 3) (F32.of_Z 7) (F32.of_Z 11) Scene.quarter Scene.quarter
    /\ ps0 (m4_SSEW lanes) = F32.of_Z 8
    /\ spec_interpolate (F32.of_Z 4) (F32.of_Z 8) (F32.of_Z 12) Scene.quarter Scene.quarter
       = F32.of_Z 9.
Proof. do 3 eexists. by_evaluation. Qed.

(** The vec2 loop names the element [2*primIdx + 2], which for the last
    primitive of an iteration is one past the end of a buffer of
    [2 * m_MaxDrawIterationSize] elements. *)
Lemma Attribute2Deltas_last_access_out_of_bounds (maxIter attrs : nat) (slot : Z) :
  (1 <= maxIter)%nat ->
  2 * Z.of_nat maxIter < u32_mod ->
  load_delta (m_Attribute2Deltas (AllocateSetupBuffers maxIter attrs)) slot
    (u32 ((Z.of_nat maxIter - 1) * 2 + 2)) = None.
Proof.
  intros Hm Hu. unfold load_delta, array_get. simpl.
  destruct (replicate attrs _ !! Z.to_nat slot) as [buf |] eqn:Hbuf; [| reflexivity].
  apply lookup_replicate in Hbuf as [-> _]. simpl.
  rewrite u32_small by lia.
  apply lookup_replicate_None. lia.
Qed.

(** C10 (the code departs from the claim).  With draw iterations of at most
    four primitives each vec2 delta buffer has 8 elements.  For the last
    primitive, [primIdx = 3], the vec2 loop of [InterpolateVertexAttributes]
    names the elements 6, 7 and 8; element 8 is outside the buffer, although
    the deltas of that primitive were stored in bounds. *)
Theorem InterpolateVertexAttributes_vec2_past_the_end :
  let sb := AllocateSetupBuffers 4 1 in
  map length (m_Attribute2Deltas sb) = [8%nat]
  /\ Attribute2Deltas_accesses 3 = [6; 7; 8]
  /\ load_delta (m_Attribute2Deltas sb) 0 8 = None
  /\ (exists sb',
        CalculateInterpolationCoefficients Scene.vec2_metadata 3
          Scene.vec2_attribs Scene.vec2_attribs Scene.vec2_attribs sb = Some sb'
        /\ InterpolateVertexAttributes Scene.vec2_metadata 3 Scene.quarter4 Scene.quarter4 sb'
           = None
        /\ is_Some (InterpolateVertexAttributes Scene.vec2_metadata 2
                      Scene.quarter4 Scene.quarter4 sb')).
Proof.
  cbv zeta. evaluate_conjuncts.
  eexists. evaluate_conjuncts.
  vm_compute. eexists. reflexivity.
Qed.

(** ** The vertex cache *)

(** C1 (the code departs from the claim).  On an empty cache of 16 entries
    the triangle with the vertex indices 5, 6, 7 misses three times, and the
    third miss is stored under the key 5, the index of vertex 0: the keys of
    the cache are then 5, 6, 5, the entry at position 2 holds what the vertex
    shader returns on vertex 7, and a lookup of 7 misses. *)
Theorem vertex2_is_cached_under_the_index_of_vertex0 :
  exists v0Clip v1Clip v2Clip attribs c,
    ShadeTriangle true 16 Scene.offset_VS [5; 6; 7] 1 0 0 Scene.empty_cache
      = Some (v0Clip, v1Clip, v2Clip, attribs, c)
    /\ cached_keys c = [5; 6; 5]
    /\ m_VertexCacheEntries c !! 2%nat
       = Some (mk_VertexCache (fst (Scene.offset_VS 7)) (snd (Scene.offset_VS 7)))
    /\ PerformVertexCacheLookup 7 c = None
    /\ PerformVertexCacheLookup 5 c = Some 0%nat.
Proof. do 5 eexists. by_evaluation. Qed.

(** The slip does not make a hit return the data of another vertex: the
    lookup returns the first entry of a key, and the entry that vertex 2
    leaves under the key of vertex 0 comes after an entry of vertex 0 itself.
    With the cache enabled a triangle gets the positions and attributes it
    gets with the cache disabled. *)
Lemma cache_scan_Some (indices : list Z) (key : Z) (fuel : nat) :
  forall idx r, cache_scan indices key idx fuel = Some r ->
    (idx <= r < idx + fuel)%nat /\ indices !! r = Some key.
Proof.
  induction fuel as [| fuel IH]; intros idx r Hscan; simpl in Hscan; [discriminate |].
  destruct (indices !! idx) as [k |] eqn:Hk; [| discriminate].
  destruct (k =? key) eqn:Heq.
  - injection Hscan as <-. apply Z.eqb_eq in Heq as ->. split; [lia | exact Hk].
  - destruct (IH _ _ Hscan) as [Hr Hkey]. split; [lia | exact Hkey].
Qed.

Lemma cache_scan_insert_end (indices : list Z) (key k : Z) (n : nat) (fuel : nat) :
  (n < length indices)%nat ->
  forall idx, (idx + fuel = n)%nat ->
    cache_scan (<[n := k]> indices) key idx (S fuel)
    = match cache_scan indices key idx fuel with
      | Some r => Some r
      | None => if k =? key then Some n else None
      end.
Proof.
  intros Hn. induction fuel as [| fuel IH]; intros idx Hidx.
  - assert (idx = n) as -> by lia. simpl.
    rewrite list_lookup_insert_eq by exact Hn. destruct (k =? key); reflexivity.
  - change (cache_scan (<[n:=k]> indices) key idx (S (S fuel)))
      with (match <[n:=k]> indices !! idx with
            | Some x => if x =? key then Some idx
                        else cache_scan (<[n:=k]> indices) key (S idx) (S fuel)
            | None => None
            end).
    rewrite list_lookup_insert_ne by lia.
    change (cache_scan indices key idx (S fuel))
      with (match indices !! idx with
            | Some x => if x =? key then Some idx else cache_scan indices key (S idx) fuel
            | None => None
            end).
    destruct (lookup_lt_is_Some_2 indices idx ltac:(lia)) as [x Hx]. rewrite Hx.
    destruct (x =? key); [reflexivity |].
    apply IH. lia.
Qed.

Section CacheSoundness.

Variable size : Z.
Variable VS : Z -> vec4 * VertexAttributes.
Variable vertexStride : Z.
Hypothesis Hsize : 0 <= size < 2 ^ 32.

Lemma lookup_after_caching (key k : Z) (clip : vec4) (a : VertexAttributes) (c : VSCache) :
  WellFormedCache size c ->
  PerformVertexCacheLookup key (CacheVertexData size k clip a c)
  = if m_NumVertexCacheEntries c <? size then
      match PerformVertexCacheLookup key c with
      | Some r => Some r
      | None => if k =? key then Some (Z.to_nat (m_NumVertexCacheEntries c)) else None
      end
    else PerformVertexCacheLookup key c.
Proof.
  intros (Hn & Hindices & Hentries). unfold CacheVertexData.
  destruct (m_NumVertexCacheEntries c <? size) eqn:Hroom; [| reflexivity].
  apply Z.ltb_lt in Hroom.
  unfold PerformVertexCacheLookup.
  cbn [m_NumVertexCacheEntries m_CachedVertexIndices].
  rewrite u32_small by (unfold u32_mod; lia).
  replace (Z.to_nat (m_NumVertexCacheEntries c + 1))
    with (S (Z.to_nat (m_NumVertexCacheEntries c))) by lia.
  apply cache_scan_insert_end; lia.
Qed.

Lemma CacheVertexData_well_formed (k : Z) (clip : vec4) (a : VertexAttributes) (c : VSCache) :
  WellFormedCache size c -> WellFormedCache size (CacheVertexData size k clip a c).
Proof.
  intros (Hn & Hindices & Hentries). unfold CacheVertexData.
  destruct (m_NumVertexCacheEntries c <? size) eqn:Hroom; [| split; [exact Hn | split; assumption]].
  apply Z.ltb_lt in Hroom.
  unfold WellFormedCache. cbn [m_NumVertexCacheEntries m_CachedVertexIndices m_VertexCacheEntries].
  rewrite u32_small by (unfold u32_mod; lia). rewrite !length_insert. lia.
Qed.

Lemma CacheVertexData_sound (v key : Z) (c : VSCache) :
  CacheSound size VS vertexStride c ->
  key = v \/ KeyPresent size key c ->
  CacheSound size VS vertexStride
    (CacheVertexData size key (VS (u32 (vertexStride * v))).1 (VS (u32 (vertexStride * v))).2 c).
Proof.
  intros [Hwf Hsound] Hkey.
  split; [apply CacheVertexData_well_formed; exact Hwf |].
  intros q r e Hhit Hentry.
  rewrite lookup_after_caching in Hhit by exact Hwf.
  destruct Hwf as (Hn & Hindices & Hentries).
  unfold CacheVertexData in Hentry.
  destruct (m_NumVertexCacheEntries c <? size) eqn:Hroom;
    [| exact (Hsound q r e Hhit Hentry)].
  apply Z.ltb_lt in Hroom.
  cbn [m_VertexCacheEntries] in Hentry.
  destruct (PerformVertexCacheLookup q c) as [r' |] eqn:Hq.
  - injection Hhit as <-.
    pose proof (cache_scan_Some _ _ _ _ _ Hq) as [Hr _].
    rewrite list_lookup_insert_ne in Hentry by lia.
    exact (Hsound q r' e Hq Hentry).
  - destruct (key =? q) eqn:Heq; [| discriminate].
    apply Z.eqb_eq in Heq as ->. injection Hhit as <-.
    rewrite list_lookup_insert_eq in Hentry by lia.
    injection Hentry as <-. cbn [m_ClipPos m_VertexAttribs].
    destruct Hkey as [-> | [[r' Hr'] | Hfull]].
    + destruct (VS _); reflexivity.
    + rewrite Hq in Hr'. discriminate.
    + lia.
Qed.

Lemma CacheVertexData_present (key k : Z) (clip : vec4) (a : VertexAttributes) (c : VSCache) :
  WellFormedCache size c ->
  KeyPresent size key c -> KeyPresent size key (CacheVertexData size k clip a c).
Proof.
  intros Hwf [[r Hr] | Hfull].
  - left. rewrite lookup_after_caching by exact Hwf. rewrite Hr.
    destruct (_ <? _); eexists; reflexivity.
  - right. unfold CacheVertexData.
    destruct (m_NumVertexCacheEntries c <? size) eqn:Hroom; [| exact Hfull].
    apply Z.ltb_lt in Hroom. lia.
Qed.

Lemma CacheVertexData_present_key (key : Z) (clip : vec4) (a : VertexAttributes) (c : VSCache) :
  WellFormedCache size c ->
  KeyPresent size key (CacheVertexData size key clip a c).
Proof.
  intros Hwf. unfold KeyPresent. rewrite lookup_after_caching by exact Hwf.
  unfold CacheVertexData.
  destruct (m_NumVertexCacheEntries c <? size) eqn:Hroom.
  - left. destruct (PerformVertexCacheLookup key c); [eexists; reflexivity |].
    rewrite Z.eqb_refl. eexists; reflexivity.
  - right. apply Z.ltb_ge in Hroom. exact Hroom.
Qed.

(** One block of the cache-enabled branch returns what the vertex shader
    returns on the vertex, whether the lookup hits or misses. *)
Lemma ShadeVertexCached_sound (v key : Z) (c c' : VSCache) (clip : vec4) (a : VertexAttributes) :
  CacheSound size VS vertexStride c ->
  key = v \/ KeyPresent size key c ->
  ShadeVertexCached size VS vertexStride v key c = Some (clip, a, c') ->
  (clip, a) = VS (u32 (vertexStride * v))
  /\ CacheSound size VS vertexStride c'
  /\ (forall k, KeyPresent size k c -> KeyPresent size k c')
  /\ (key = v -> KeyPresent size v c').
Proof.
  intros Hsound Hkey Hrun. unfold ShadeVertexCached in Hrun.
  destruct (PerformVertexCacheLookup v c) as [r |] eqn:Hhit.
  - destruct (m_VertexCacheEntries c !! r) as [e |] eqn:He; [| discriminate].
    cbn in Hrun. injection Hrun as <- <- <-.
    split; [exact (proj2 Hsound v r e Hhit He) |].
    split; [exact Hsound |].
    split; [intros k Hk; exact Hk |].
    intros _. left. eexists; exact Hhit.
  - destruct (VS (u32 (vertexStride * v))) as [clip0 a0] eqn:Hvs.
    injection Hrun as <- <- <-.
    split; [reflexivity |].
    split.
    { pose proof (CacheVertexData_sound v key c Hsound Hkey) as H.
      rewrite Hvs in H. exact H. }
    split.
    { intros k Hk. apply CacheVertexData_present; [exact (proj1 Hsound) | exact Hk]. }
    intros ->. apply CacheVertexData_present_key. exact (proj1 Hsound).
Qed.

Variable pIndexBuffer : list Z.
Variable vertexOffset : Z.

(** X1.  With the vertex cache enabled, shading a triangle on a sound cache
    returns the clip-space positions and the attributes that it returns with
    the cache disabled, and leaves the cache sound: every hit holds what the
    vertex shader returns on the vertex looked up. *)
Lemma ShadeTriangle_cached_is_uncached (primIdx : Z) (c c' : VSCache)
    (v0Clip v1Clip v2Clip : vec4)
    (attribs : VertexAttributes * VertexAttributes * VertexAttributes) :
  CacheSound size VS vertexStride c ->
  ShadeTriangle true size VS pIndexBuffer vertexStride vertexOffset primIdx c
    = Some (v0Clip, v1Clip, v2Clip, attribs, c') ->
  ShadeTriangle false size VS pIndexBuffer vertexStride vertexOffset primIdx c
    = Some (v0Clip, v1Clip, v2Clip, attribs, c)
  /\ CacheSound size VS vertexStride c'.
Proof.
  intros Hsound Hrun. unfold ShadeTriangle in *. cbn [negb] in *.
  rewrite Z.add_0_r.
  destruct (array_get pIndexBuffer (u32 (vertexOffset + 3 * primIdx)))
    as [i0 |]; [| discriminate].
  cbn [mbind option_bind] in *.
  destruct (ShadeVertexCached size VS vertexStride i0 i0 c)
    as [[[clip0 a0] c0] |] eqn:H0; [| discriminate].
  cbn [mbind option_bind] in *.
  destruct (ShadeVertexCached_sound i0 i0 c c0 clip0 a0 Hsound (or_introl eq_refl) H0)
    as (Hv0 & Hsound0 & _ & Hpresent0).
  specialize (Hpresent0 eq_refl).
  destruct (array_get pIndexBuffer (u32 (vertexOffset + (3 * primIdx + 1))))
    as [i1 |]; [| discriminate].
  cbn [mbind option_bind] in *.
  destruct (ShadeVertexCached size VS vertexStride i1 i1 c0)
    as [[[clip1 a1] c1] |] eqn:H1; [| discriminate].
  cbn [mbind option_bind] in *.
  destruct (ShadeVertexCached_sound i1 i1 c0 c1 clip1 a1 Hsound0 (or_introl eq_refl) H1)
    as (Hv1 & Hsound1 & Hkeep1 & _).
  destruct (array_get pIndexBuffer (u32 (vertexOffset + (3 * primIdx + 2))))
    as [i2 |]; [| discriminate].
  cbn [mbind option_bind] in *.
  destruct (ShadeVertexCached size VS vertexStride i2 i0 c1)
    as [[[clip2 a2] c2] |] eqn:H2; [| discriminate].
  cbn [mbind option_bind] in *.
  destruct (ShadeVertexCached_sound i2 i0 c1 c2 clip2 a2 Hsound1
              (or_intror (Hkeep1 i0 Hpresent0)) H2)
    as (Hv2 & Hsound2 & _ & _).
  injection Hrun as <- <- <- <- <-.
  rewrite <- Hv0, <- Hv1, <- Hv2.
  split; [reflexivity | exact Hsound2].
Qed.

Lemma ResetVSCache_sound (c : VSCache) :
  Z.of_nat (length (m_CachedVertexIndices c)) = size ->
  Z.of_nat (length (m_VertexCacheEntries c)) = size ->
  CacheSound size VS vertexStride (ResetVSCache c).
Proof.
  intros Hindices Hentries. split.
  - split; [cbn; lia | split; assumption].
  - intros v r e Hhit _. discriminate.
Qed.

End CacheSoundness.

(** ** Bin capacity *)

(** C5 (the code departs from the claim).  With draw iterations of at most
    three primitives and two workers, every bin is reserved [3 / 2 = 1]
    element.  A draw of three primitives gives worker 0 the range [0, 1) and
    worker 1, which absorbs the remainder, the range [1, 3).  Both triangles
    of worker 1 overlap tile 0 without covering it, so both are pushed to
    [Bin[0][1]]: the second push exceeds the reserved capacity, the vector
    reallocates and [capPreAppend == capPostAppend] is false. *)
Theorem last_worker_exceeds_reserved_bin_capacity :
  DrawIterationRanges Scene.config 0 3 = [(0, 1); (1, 3)]
  /\ ReservedBinCapacity Scene.config = 1%nat
  /\ get2 (m_BinList (ApplyPreDrawIterationStateInvalidations Scene.engine)) 0 1
     = Some (mk_Vector [] 1)
  /\ exists c sb e',
       GeometryPass true 16 true Scene.config Scene.metadata 64 64 1
         (m_TileList Scene.engine) Scene.triangle_VS Scene.index_buffer 1 0
         1 3 Scene.empty_cache Scene.setup_buffers
       = Some (c, sb, [BinPrim 0 1; BinPrim 0 2])
       /\ ApplyBinnerActions 1 [BinPrim 0 1; BinPrim 0 2]
            (ApplyPreDrawIterationStateInvalidations Scene.engine)
          = Some (e', false)
       /\ get2 (m_BinList e') 0 1 = Some (mk_Vector [1; 2] 2).
Proof.
  evaluate_conjuncts.
  do 3 eexists. by_evaluation.
Qed.

(** ** The hierarchical coverage test *)

Section Classification.

Context {R : Type} `{EdgeArith R}.

Variable S : Z.

(** The decision of [ClassifyRegion] in terms of the stepped values. *)
Lemma ClassifyRegion_cases (e0 e1 e2 : R * R * R) (posX posY : R) (xx yy : Z) :
  let TR := fun '(a, b, c) => TRForEdge S a b c posX posY xx yy in
  let TA := fun '(a, b, c) => TAForEdge S a b c posX posY xx yy in
  (ClassifyRegion S e0 e1 e2 posX posY xx yy = TrivialReject <->
     Exists (fun e => TR e = true) [e0; e1; e2])
  /\ (ClassifyRegion S e0 e1 e2 posX posY xx yy = TrivialAccept <->
        Forall (fun e => TR e = false) [e0; e1; e2]
        /\ Forall (fun e => TA e = true) [e0; e1; e2])
  /\ (ClassifyRegion S e0 e1 e2 posX posY xx yy = Overlap <->
        Forall (fun e => TR e = false) [e0; e1; e2]
        /\ Exists (fun e => TA e = false) [e0; e1; e2]).
Proof.
  destruct e0 as [[a0 b0] c0], e1 as [[a1 b1] c1], e2 as [[a2 b2] c2].
  intros TR TA. unfold ClassifyRegion.
  rewrite !Forall_cons, !Exists_cons, !Forall_nil, !Exists_nil.
  subst TR TA. cbv beta iota.
  destruct (TRForEdge S a0 b0 c0 posX posY xx yy),
           (TRForEdge S a1 b1 c1 posX posY xx yy),
           (TRForEdge S a2 b2 c2 posX posY xx yy),
           (TAForEdge S a0 b0 c0 posX posY xx yy),
           (TAForEdge S a1 b1 c1 posX posY xx yy),
           (TAForEdge S a2 b2 c2 posX posY xx yy);
    simpl; intuition congruence.
Qed.

End Classification.

(** In exact integer arithmetic the stepped values are the edge function at
    the corners. *)
Lemma stepped_is_direct_Z (S a b c posX posY xx yy : Z) :
  edgeFuncTR S a b c posX posY xx yy = DirectTR S a b c posX posY xx yy
  /\ edgeFuncTA S a b c posX posY xx yy = DirectTA S a b c posX posY xx yy.
Proof.
  unfold edgeFuncTA, edgeTACornerXOffset, edgeTACornerYOffset, DirectTA, RegionTACorner,
    edgeFuncTR, DirectTR, RegionTRCorner, RegionOrigin, edgeFunc, EvalEdge, TACorner, TRCorner.
  simpl.
  destruct (b >=? 0), (a >=? 0); simpl; split; ring.
Qed.

(** In exact arithmetic the TR corner is the corner of the region where the
    edge function is largest and the TA corner the one where it is smallest:
    a negative value at the TR corner puts the whole region outside the edge,
    a non-negative value at the TA corner puts it inside. *)
Lemma corners_bound_region_Z (S a b c posX posY xx yy x y : Z) :
  let o := RegionOrigin S posX posY xx yy in
  fst o <= x <= fst o + u32 S ->
  snd o <= y <= snd o + u32 S ->
  DirectTA S a b c posX posY xx yy <= EvalEdge a b c x y <= DirectTR S a b c posX posY xx yy.
Proof.
  unfold DirectTA, RegionTACorner, DirectTR, RegionTRCorner, RegionOrigin, EvalEdge,
    TACorner, TRCorner.
  simpl. intros Hx Hy.
  assert (0 <= u32 S) by (unfold u32, u32_mod; apply Z.mod_pos_bound; lia).
  destruct (Z.geb_spec b 0), (Z.geb_spec a 0); simpl; nia.
Qed.

(** C8, counterexample.  In binary32 the stepped value is not the edge
    function at the corner.  First with round numbers: for the edge
    [(a, b, c) = (1/64, 0, 2^24)], tiles of side 64 and the first tile at the
    origin, the value stepped to the next tile is [2^24] (the sum
    [2^24 + 1] rounds back to [2^24] twice), while [a*x + b*y + c] at that
    tile's TR corner [(128, 64)] is [2^24 + 2].  Then for an ordinary
    triangle on a 256x256 framebuffer: the binner visits the tiles 0..3 in
    both directions, and for the tile one step to the right of the first
    the stepped value of edge 1 differs from its direct evaluation. *)
Lemma stepped_value_differs_from_direct_evaluation :
  (let a := F32.make 1 (-6) in
   let c := F32.of_Z 16777216 in
   edgeFuncTR 64 a F32.zero c F32.zero F32.zero 1 0 = F32.of_Z 16777216
   /\ RegionTRCorner 64 a F32.zero F32.zero F32.zero 1 0 = (F32.of_Z 128, F32.of_Z 64)
   /\ DirectTR 64 a F32.zero c F32.zero F32.zero 1 0 = F32.of_Z 16777218)
  /\ exists sb sb' acts bbox ee1 first,
       ExecuteTriangleSetupAndCull 256 256 0 Scene.p0 Scene.p1 Scene.p2
         Scene.wide_setup_buffers = Some (true, sb)
       /\ ExecuteBinner Scene.wide_config 256 256 4 (m_TileList Scene.wide_engine) 0
            Scene.p0 Scene.p1 Scene.p2 sb = Some (sb', acts)
       /\ array_get (m_pPrimBBoxes sb') 0 = Some bbox
       /\ TileRange Scene.wide_config bbox = (0, 4, 0, 4)
       /\ array_get (m_pEdgeCoefficients sb') 1 = Some ee1
       /\ array_get (m_TileList Scene.wide_engine) (GetGlobalTileIndex 4 0 0) = Some first
       /\ edgeFuncTR 64 (x3 ee1) (y3 ee1) (z3 ee1) (m_PosX first) (m_PosY first) 1 0
          <> DirectTR 64 (x3 ee1) (y3 ee1) (z3 ee1) (m_PosX first) (m_PosY first) 1 0.
Proof.
  split.
  - cbv zeta. by_evaluation.
  - do 6 eexists. evaluate_conjuncts.
    vm_compute. discriminate.
Qed.

(** C8, as amended.  A region is classified trivial-reject when the stepped
    value of some edge at its TR corner is negative, trivial-accept when no
    edge rejects and the stepped value of every edge at its TA corner is not
    negative, and overlap otherwise; the binner (tiles) and the rasterizer
    (8x8 blocks) act on that classification.  The stepped values are the
    edge function [a*x + b*y + c] at the TR and TA corners of the region when
    the arithmetic is exact, as shown over the integers. *)
Theorem hierarchical_test_classifies_by_stepped_values :
  (forall (S : Z) (e0 e1 e2 : f32 * f32 * f32) (posX posY : f32) (xx yy : Z),
     let TR := fun '(a, b, c) => (edgeFuncTR S a b c posX posY xx yy <? F32.zero)%f32 in
     let TA := fun '(a, b, c) => (edgeFuncTA S a b c posX posY xx yy >=? F32.zero)%f32 in
     (ClassifyRegion S e0 e1 e2 posX posY xx yy = TrivialReject <->
        Exists (fun e => TR e = true) [e0; e1; e2])
     /\ (ClassifyRegion S e0 e1 e2 posX posY xx yy = TrivialAccept <->
           Forall (fun e => TR e = false) [e0; e1; e2]
           /\ Forall (fun e => TA e = true) [e0; e1; e2])
     /\ (ClassifyRegion S e0 e1 e2 posX posY xx yy = Overlap <->
           Forall (fun e => TR e = false) [e0; e1; e2]
           /\ Exists (fun e => TA e = false) [e0; e1; e2]))
  /\ (forall (cfg : RasterizerConfig) (tilesPerRow primIdx : Z) (ee0 ee1 ee2 : vec3)
        (tilePosX tilePosY : f32) (tx ty txx tyy : Z),
        let tile := Z.to_nat (GetGlobalTileIndex tilesPerRow tx ty) in
        match ClassifyRegion (m_TileSize cfg) (edge_of_vec3 ee0) (edge_of_vec3 ee1)
                (edge_of_vec3 ee2) tilePosX tilePosY txx tyy with
        | TrivialReject =>
            BinnerTile cfg tilesPerRow primIdx ee0 ee1 ee2 tilePosX tilePosY tx ty txx tyy = []
        | TrivialAccept =>
            exists mask,
              BinnerTile cfg tilesPerRow primIdx ee0 ee1 ee2 tilePosX tilePosY tx ty txx tyy
                = [EmitTile tile mask]
              /\ m_Type mask = TILE /\ m_PrimIdx mask = primIdx
        | Overlap =>
            BinnerTile cfg tilesPerRow primIdx ee0 ee1 ee2 tilePosX tilePosY tx ty txx tyy
              = [BinPrim tile primIdx]
        end)
  /\ (forall (sharedEdges : bool) (primIdx : Z) (ee0 ee1 ee2 : vec3)
        (firstX firstY : f32) (bxx byy : Z),
        match ClassifyRegion g_scPixelBlockSize (edge_of_vec3 ee0) (edge_of_vec3 ee1)
                (edge_of_vec3 ee2) firstX firstY bxx byy with
        | TrivialReject =>
            RasterizeBlock sharedEdges primIdx ee0 ee1 ee2 firstX firstY bxx byy = []
        | TrivialAccept =>
            exists mask,
              RasterizeBlock sharedEdges primIdx ee0 ee1 ee2 firstX firstY bxx byy = [mask]
              /\ m_Type mask = BLOCK /\ m_PrimIdx mask = primIdx
        | Overlap =>
            RasterizeBlock sharedEdges primIdx ee0 ee1 ee2 firstX firstY bxx byy
              = RasterizeQuads sharedEdges primIdx ee0 ee1 ee2
                  (firstX + float_of_u32 (bxx * g_scPixelBlockSize))%f32
                  (firstY + float_of_u32 (byy * g_scPixelBlockSize))%f32
        end)
  /\ (forall S a b c posX posY xx yy : Z,
        edgeFuncTR S a b c posX posY xx yy
          = EvalEdge a b c (fst (RegionTRCorner S a b posX posY xx yy))
                           (snd (RegionTRCorner S a b posX posY xx yy))
        /\ edgeFuncTA S a b c posX posY xx yy
           = EvalEdge a b c (fst (RegionTACorner S a b posX posY xx yy))
                            (snd (RegionTACorner S a b posX posY xx yy))).
Proof.
  split; [| split; [| split]].
  - intros S e0 e1 e2 posX posY xx yy.
    exact (ClassifyRegion_cases S e0 e1 e2 posX posY xx yy).
  - intros. unfold BinnerTile.
    destruct (ClassifyRegion _ _ _ _ _ _ _ _); [reflexivity | | reflexivity].
    eexists. split; [reflexivity |]. split; reflexivity.
  - intros. unfold RasterizeBlock.
    destruct (ClassifyRegion _ _ _ _ _ _ _ _); [reflexivity | | reflexivity].
    eexists. split; [reflexivity |]. split; reflexivity.
  - intros. exact (stepped_is_direct_Z S a b c posX posY xx yy).
Qed.

(** ** Masked stores *)

Lemma masked_store_length {A} (selected : nat -> bool) (data : list A) :
  forall (j p : nat) (buf : list A),
    length (masked_store selected j data p buf) = length buf.
Proof.
  induction data as [| d data IH]; intros j p buf; simpl; [reflexivity |].
  rewrite IH. destruct (selected j); [apply length_insert | reflexivity].
Qed.

Lemma masked_store_lookup {A} (selected : nat -> bool) (data : list A) :
  forall (j p : nat) (buf : list A) (i : nat),
    masked_store selected j data p buf !! i =
    if decide ((p + j <= i < p + j + length data)%nat
               /\ selected (i - p)%nat = true /\ (i < length buf)%nat)
    then data !! (i - p - j)%nat
    else buf !! i.
Proof.
  induction data as [| d data IH]; intros j p buf i; simpl.
  - rewrite decide_False by lia. reflexivity.
  - rewrite IH.
    assert (Hlen : length (if selected j then <[(p + j)%nat := d]> buf else buf)
                   = length buf)
      by (destruct (selected j); [apply length_insert | reflexivity]).
    rewrite Hlen.
    destruct (decide ((p + S j <= i < p + S j + length data)%nat
                      /\ selected (i - p)%nat = true /\ (i < length buf)%nat))
      as [(Hr & Hs & Hb) | Hn].
    + rewrite decide_True by (split; [lia | split; [exact Hs | exact Hb]]).
      replace (i - p - j)%nat with (S (i - p - S j)) by lia. reflexivity.
    + destruct (decide (i = (p + j)%nat)) as [-> | Hne].
      * replace (p + j - p - j)%nat with O by lia.
        replace (p + j - p)%nat with j by lia. simpl.
        destruct (selected j) eqn:Hsel.
        -- destruct (decide (p + j < length buf)%nat) as [Hin | Hout].
           ++ rewrite decide_True by (split; [lia | split; [reflexivity | exact Hin]]).
              apply list_lookup_insert_eq. exact Hin.
           ++ rewrite decide_False by lia.
              rewrite list_insert_ge by lia. reflexivity.
        -- rewrite decide_False by (intros (_ & Hs & _); discriminate). reflexivity.
      * rewrite decide_False.
        -- destruct (selected j); [apply list_lookup_insert_ne; lia | reflexivity].
        -- intros (Hr & Hs & Hb). apply Hn. split; [lia | split; [exact Hs | exact Hb]].
Qed.

Lemma land_pow2 (q k : Z) :
  0 <= k -> Z.land q (2 ^ k) = if Z.testbit q k then 2 ^ k else 0.
Proof.
  intros Hk. apply Z.bits_inj'. intros i Hi.
  rewrite Z.land_spec, Z.pow2_bits_eqb by lia.
  destruct (Z.eqb_spec k i) as [-> | Hne].
  - destruct (Z.testbit q i); simpl; [| apply eq_sym, Z.bits_0].
    rewrite Z.pow2_bits_eqb by lia. rewrite Z.eqb_refl. reflexivity.
  - rewrite andb_false_r.
    destruct (Z.testbit q k); [| apply eq_sym, Z.bits_0].
    rewrite Z.pow2_bits_eqb by lia. apply eq_sym, Z.eqb_neq. exact Hne.
Qed.

(** Lane [k] of [sseColorMask] is all ones exactly when bit [k] of the quad
    mask is set. *)
Lemma QuadColorMask_lane (quadMask : Z) (k : nat) :
  (k < 4)%nat ->
  epi_lane (QuadColorMask quadMask) k = cmp_mask (Z.testbit quadMask (Z.of_nat k)).
Proof.
  intros Hk.
  assert (Hbit : forall n : Z, 0 <= n ->
            cmp_mask (Z.land quadMask (2 ^ n) =? 2 ^ n) = cmp_mask (Z.testbit quadMask n)).
  { intros n Hn. rewrite land_pow2 by exact Hn.
    destruct (Z.testbit quadMask n); [rewrite Z.eqb_refl; reflexivity |].
    replace (0 =? 2 ^ n) with false; [reflexivity |].
    symmetry. apply Z.eqb_neq. pose proof (Z.pow_pos_nonneg 2 n). lia. }
  destruct k as [| [| [| [| k]]]]; [| | | | lia].
  - exact (Hbit 0 ltac:(lia)).
  - exact (Hbit 1 ltac:(lia)).
  - exact (Hbit 2 ltac:(lia)).
  - exact (Hbit 3 ltac:(lia)).
Qed.

(** A lane that is the conjunction of two comparison results selects its
    four bytes together. *)
Lemma and_mask_selected (b c : bool) (bit : Z) :
  bit = 7 \/ bit = 15 \/ bit = 23 \/ bit = 31 ->
  Z.testbit (Z.land (cmp_mask b) (cmp_mask c)) bit = b && c.
Proof. intros [-> | [-> | [-> | ->]]]; destruct b, c; reflexivity. Qed.

Lemma cmp_mask_selected (b : bool) (bit : Z) :
  bit = 7 \/ bit = 15 \/ bit = 23 \/ bit = 31 ->
  Z.testbit (cmp_mask b) bit = b.
Proof. intros [-> | [-> | [-> | ->]]]; destruct b; reflexivity. Qed.

(** ** Fragment shading *)

Lemma byte_selected_lane (w : m128i) (sel : nat -> bool) (k c : nat) :
  (forall k', (k' < 4)%nat -> epi_lane w k' = cmp_mask (sel k')) ->
  (k < 4)%nat -> (c < 4)%nat ->
  mask_byte_selected w (4 * k + c) = sel k.
Proof.
  intros Hw Hk Hc. unfold mask_byte_selected.
  replace ((4 * k + c) / 4)%nat with k
    by (apply Nat.div_unique with c; lia).
  replace ((4 * k + c) mod 4)%nat with c
    by (apply Nat.mod_unique with k; lia).
  rewrite Hw by exact Hk.
  apply cmp_mask_selected.
  destruct c as [| [| [| [| c]]]]; [auto | auto | auto | auto | lia].
Qed.

Lemma fragment_byte (out : FragmentOutput) (k c : nat) :
  (k < 4)%nat -> (c < 4)%nat ->
  sseFragmentOut_bytes out !! (4 * k + c)%nat
    = Some (color_channel_byte (ps_lane (m_FragmentColors out k) c)).
Proof.
  intros Hk Hc.
  destruct k as [| [| [| [| k]]]]; [| | | | lia];
    (destruct c as [| [| [| [| c]]]]; [| | | | lia]); reflexivity.
Qed.

Lemma lane_of_list (z : m128) (k : nat) :
  (k < 4)%nat -> [ps0 z; ps1 z; ps2 z; ps3 z] !! k = Some (ps_lane z k).
Proof. intros Hk. destruct k as [| [| [| [| k]]]]; [| | | | lia]; reflexivity. Qed.

Lemma masked_store_in_bounds_spec {A} (selected : nat -> bool) (n p : nat) (buf : list A) :
  masked_store_in_bounds selected n p buf = true
  <-> forall j : nat, (j < n)%nat -> selected j = true -> (p + j < length buf)%nat.
Proof.
  unfold masked_store_in_bounds. rewrite forallb_forall. split.
  - intros Hall j Hj Hsel.
    specialize (Hall j ltac:(apply in_seq; lia)). rewrite Hsel in Hall.
    apply Nat.ltb_lt. exact Hall.
  - intros Hall j Hj. apply in_seq in Hj.
    destruct (selected j) eqn:Hsel; [| reflexivity].
    apply Nat.ltb_lt. apply Hall; [lia | exact Hsel].
Qed.

(** The two masked stores succeed exactly when every selected float and
    every selected byte has its place in the buffers. *)
Lemma WriteSamples_Some (w : m128i) (z : m128) (out : FragmentOutput)
    (sampleX sampleY : Z) (fb fb' : Framebuffer) :
  WriteSamples w z out sampleX sampleY fb = Some fb'
  <-> ((forall k : nat, (k < 4)%nat -> lane_selected w k = true ->
          (DepthAddress fb sampleX sampleY + k < length (m_pDepthBuffer fb))%nat)
       /\ (forall j : nat, (j < 16)%nat -> mask_byte_selected w j = true ->
             (ColorAddress fb sampleX sampleY + j < length (m_pColorBuffer fb))%nat))
      /\ fb' = mk_Framebuffer (m_Width fb) (m_Height fb)
                 (UpdateColorBuffer w out (ColorAddress fb sampleX sampleY)
                    (m_pColorBuffer fb))
                 (UpdateDepthBuffer w z (DepthAddress fb sampleX sampleY)
                    (m_pDepthBuffer fb)).
Proof.
  unfold WriteSamples. cbv zeta.
  rewrite <- !masked_store_in_bounds_spec.
  destruct (masked_store_in_bounds (lane_selected w) 4 _ _);
    destruct (masked_store_in_bounds (mask_byte_selected w) 16 _ _); cbn [andb];
    split; try discriminate.
  - intros Hrun. injection Hrun as <-. split; [split |]; reflexivity.
  - intros [_ ->]. reflexivity.
  - intros [[_ Hf] _]. discriminate.
  - intros [[Hf _] _]. discriminate.
  - intros [[Hf _] _]. discriminate.
Qed.

(** A group whose four floats and sixteen bytes are inside the buffers is
    stored whatever the write mask. *)
Lemma WriteSamples_in_bounds (w : m128i) (z : m128) (out : FragmentOutput)
    (sampleX sampleY : Z) (fb : Framebuffer) :
  (DepthAddress fb sampleX sampleY + 3 < length (m_pDepthBuffer fb))%nat ->
  (ColorAddress fb sampleX sampleY + 15 < length (m_pColorBuffer fb))%nat ->
  is_Some (WriteSamples w z out sampleX sampleY fb).
Proof.
  intros Hd Hc. eexists. apply WriteSamples_Some.
  split; [split |]; [intros k Hk _; lia | intros j Hj _; lia | reflexivity].
Qed.

(** The two masked stores, for a write mask whose lane [k] is all ones when
    [sel k] holds and zero otherwise. *)
Lemma WriteSamples_outcome (w : m128i) (sel : nat -> bool) (z : m128)
    (out : FragmentOutput) (sampleX sampleY : Z) (fb fb' : Framebuffer) :
  (forall k, (k < 4)%nat -> epi_lane w k = cmp_mask (sel k)) ->
  WriteSamples w z out sampleX sampleY fb = Some fb' ->
  (forall k, (k < 4)%nat -> sel k = false -> SampleKept fb fb' sampleX sampleY k)
  /\ (forall k, (k < 4)%nat -> sel k = true ->
        SampleWritten fb fb' sampleX sampleY k (ps_lane z k) (m_FragmentColors out k))
  /\ OthersKept fb fb' sampleX sampleY.
Proof.
  intros Hw Hrun. apply WriteSamples_Some in Hrun as [[Hdin Hcin] ->].
  unfold SampleKept, SampleWritten, OthersKept, UpdateColorBuffer,
    UpdateDepthBuffer, maskmove_bytes, maskmove_ps.
  cbn [m_pDepthBuffer m_pColorBuffer m_Width m_Height].
  set (da := DepthAddress fb sampleX sampleY) in *.
  set (ca := ColorAddress fb sampleX sampleY) in *.
  assert (Hlane : forall k, (k < 4)%nat -> lane_selected w k = sel k).
  { intros k Hk. unfold lane_selected. rewrite Hw by exact Hk.
    apply cmp_mask_selected. auto. }
  split; [| split].
  - intros k Hk Hsel. split.
    + rewrite masked_store_lookup.
      replace (da + k - da)%nat with k by lia.
      rewrite Hlane, Hsel by exact Hk.
      rewrite decide_False by (intros (_ & Hf & _); discriminate). reflexivity.
    + intros c Hc. rewrite masked_store_lookup.
      replace (ca + 4 * k + c - ca)%nat with (4 * k + c)%nat by lia.
      rewrite (byte_selected_lane w sel k c Hw Hk Hc), Hsel.
      rewrite decide_False by (intros (_ & Hf & _); discriminate). reflexivity.
  - intros k Hk Hsel.
    pose proof (Hdin k Hk ltac:(rewrite Hlane by exact Hk; exact Hsel)) as Hdk.
    split.
    + rewrite masked_store_lookup.
      replace (da + k - da)%nat with k by lia.
      rewrite Hlane, Hsel by exact Hk.
      rewrite decide_True by (cbn [length]; split; [lia | split; [reflexivity | lia]]).
      replace (k - 0)%nat with k by lia. apply lane_of_list. exact Hk.
    + intros c Hc.
      pose proof (Hcin (4 * k + c)%nat ltac:(lia)
                    ltac:(rewrite (byte_selected_lane w sel k c Hw Hk Hc); exact Hsel))
        as Hlen.
      rewrite masked_store_lookup.
      change (length (sseFragmentOut_bytes out)) with 16%nat.
      replace (ca + 4 * k + c - ca)%nat with (4 * k + c)%nat by lia.
      rewrite (byte_selected_lane w sel k c Hw Hk Hc), Hsel.
      rewrite decide_True by (cbn [length]; split; [lia | split; [reflexivity | lia]]).
      replace (4 * k + c - 0)%nat with (4 * k + c)%nat by lia.
      apply fragment_byte; assumption.
  - rewrite !masked_store_length.
    split; [reflexivity | split; [reflexivity | split; [reflexivity | split; [reflexivity | split]]]].
    + intros i Hi. rewrite masked_store_lookup.
      rewrite decide_False by (cbn [length]; lia). reflexivity.
    + intros j Hj. rewrite masked_store_lookup.
      change (length (sseFragmentOut_bytes out)) with 16%nat.
      rewrite decide_False by (cbn [length]; lia). reflexivity.
Qed.

(** ** The record the fragment shader receives *)

Lemma store_slots_inv {A} (values record : list A) :
  store_slots 0 values [] = Some record -> record = values /\ (length values <= 1)%nat.
Proof.
  destruct values as [| v [| v' values]]; cbn; intros Hrun.
  - injection Hrun as <-. split; [reflexivity | lia].
  - injection Hrun as <-. split; [reflexivity | lia].
  - discriminate.
Qed.

Lemma store_slots_one {A} (values : list A) :
  (length values <= 1)%nat -> store_slots 0 values [] = Some values.
Proof. destruct values as [| v [| v' values]]; cbn; [reflexivity | reflexivity | lia]. Qed.

(** The stores land in the caller's record exactly when no width has a
    second slot, and the record then holds the values of the slots. *)
Lemma StoreInLocalRecord_Some (values attrs : InterpolatedAttributes) :
  StoreInLocalRecord values = Some attrs
  <-> attrs = values
      /\ (length (m_Vec4Attributes values) <= 1)%nat
      /\ (length (m_Vec3Attributes values) <= 1)%nat
      /\ (length (m_Vec2Attributes values) <= 1)%nat.
Proof.
  unfold StoreInLocalRecord. split.
  - intros Hrun.
    destruct (store_slots 0 (m_Vec4Attributes values) []) as [v4 |] eqn:H4; [| discriminate].
    destruct (store_slots 0 (m_Vec3Attributes values) []) as [v3 |] eqn:H3; [| discriminate].
    destruct (store_slots 0 (m_Vec2Attributes values) []) as [v2 |] eqn:H2; [| discriminate].
    cbn [mbind option_bind] in Hrun. injection Hrun as <-.
    apply store_slots_inv in H4 as [-> L4], H3 as [-> L3], H2 as [-> L2].
    destruct values. auto.
  - intros (-> & L4 & L3 & L2).
    rewrite !store_slots_one by assumption. destruct values. reflexivity.
Qed.

Lemma collect_u32_length {A} (n : Z) (body : Z -> option A) (l : list A) :
  collect_u32 n body = Some l -> length l = Z.to_nat n.
Proof.
  unfold collect_u32. intros Hrun.
  apply length_mapM in Hrun. rewrite length_seq in Hrun. symmetry. exact Hrun.
Qed.

Lemma InterpolateVertexAttributes_slots (md : ShaderMetadata) (primIdx : Z)
    (ssef0XY ssef1XY : m128) (sb : SetupBuffers) (values : InterpolatedAttributes) :
  InterpolateVertexAttributes md primIdx ssef0XY ssef1XY sb = Some values ->
  length (m_Vec4Attributes values) = Z.to_nat (m_NumVec4Attributes md)
  /\ length (m_Vec3Attributes values) = Z.to_nat (m_NumVec3Attributes md)
  /\ length (m_Vec2Attributes values) = Z.to_nat (m_NumVec2Attributes md).
Proof.
  unfold InterpolateVertexAttributes. intros Hrun.
  destruct (collect_u32 (m_NumVec4Attributes md) _) as [v4 |] eqn:H4; [| discriminate].
  cbn [mbind option_bind] in Hrun.
  destruct (collect_u32 (m_NumVec3Attributes md) _) as [v3 |] eqn:H3; [| discriminate].
  cbn [mbind option_bind] in Hrun.
  destruct (collect_u32 (m_NumVec2Attributes md) _) as [v2 |] eqn:H2; [| discriminate].
  cbn [mbind option_bind] in Hrun. injection Hrun as <-.
  cbn [m_Vec4Attributes m_Vec3Attributes m_Vec2Attributes].
  apply collect_u32_length in H4, H3, H2. auto.
Qed.

(** With at most one attribute of each width the caller's record holds
    every interpolated value. *)
Lemma StoreInLocalRecord_one_slot (md : ShaderMetadata) (primIdx : Z)
    (ssef0XY ssef1XY : m128) (sb : SetupBuffers) (values : InterpolatedAttributes) :
  OneSlotPerWidth md ->
  InterpolateVertexAttributes md primIdx ssef0XY ssef1XY sb = Some values ->
  StoreInLocalRecord values = Some values.
Proof.
  intros (L4 & L3 & L2) Hrun.
  apply InterpolateVertexAttributes_slots in Hrun as (E4 & E3 & E2).
  apply StoreInLocalRecord_Some. split; [reflexivity |]. lia.
Qed.

(** [_mm_movemask_ps] of a comparison is zero exactly when the comparison
    fails on the four lanes. *)
Lemma movemask_cmp_zero (f : f32 -> f32 -> bool) (a b : m128) :
  (_mm_movemask_ps (m128_cmp f a b) =? 0)
  = negb (existsb (fun k => f (ps_lane a k) (ps_lane b k)) (seq 0 4)).
Proof.
  unfold _mm_movemask_ps, m128_cmp. simpl.
  destruct (f (ps0 a) (ps0 b)), (f (ps1 a) (ps1 b)), (f (ps2 a) (ps2 b)),
    (f (ps3 a) (ps3 b)); reflexivity.
Qed.

Lemma cmp_lane (f : f32 -> f32 -> bool) (a b : m128) (k : nat) :
  (k < 4)%nat -> epi_lane (m128_cmp f a b) k = cmp_mask (f (ps_lane a k) (ps_lane b k)).
Proof. intros Hk. destruct k as [| [| [| [| k]]]]; [| | | | lia]; reflexivity. Qed.

Lemma load_ps_lanes (buf : list f32) (p : nat) (cur : m128) :
  _mm_load_ps buf p = Some cur ->
  (p + 3 < length buf)%nat
  /\ forall k, (k < 4)%nat -> buf !! (p + k)%nat = Some (ps_lane cur k).
Proof.
  unfold _mm_load_ps. intros Hload.
  destruct (buf !! p) as [a |] eqn:Ha; [| discriminate]. simpl in Hload.
  destruct (buf !! (p + 1)%nat) as [b |] eqn:Hb; [| discriminate]. simpl in Hload.
  destruct (buf !! (p + 2)%nat) as [c |] eqn:Hc; [| discriminate]. simpl in Hload.
  destruct (buf !! (p + 3)%nat) as [d |] eqn:Hd; [| discriminate]. simpl in Hload.
  injection Hload as <-. split.
  - apply lookup_lt_Some in Hd. exact Hd.
  - intros k Hk. destruct k as [| [| [| [| k]]]]; [| | | | lia]; simpl;
      [replace (p + 0)%nat with p by lia | | |]; assumption.
Qed.

Lemma land_cmp_mask (b c : bool) : Z.land (cmp_mask b) (cmp_mask c) = cmp_mask (b && c).
Proof. destruct b, c; reflexivity. Qed.

Lemma and_ps_lane (a b : m128i) (k : nat) :
  epi_lane (_mm_and_ps a b) k = Z.land (epi_lane a k) (epi_lane b k).
Proof. destruct k as [| [| [| k]]]; reflexivity. Qed.

Lemma existsb_lanes_false (pass : nat -> bool) (k : nat) :
  existsb pass (seq 0 4) = false -> (k < 4)%nat -> pass k = false.
Proof.
  simpl. intros Hall Hk.
  destruct k as [| [| [| [| k]]]]; [| | | | lia];
    destruct (pass 0%nat), (pass 1%nat), (pass 2%nat), (pass 3%nat);
    simpl in Hall; congruence.
Qed.

Section ShadingOutcome.

Variable m_ShaderMetadata : ShaderMetadata.
Variable m_SetupBuffers : SetupBuffers.
Variable FS : InterpolatedAttributes -> FragmentOutput.
Variable rcp : f32 -> f32.

Lemma DepthTest_inv (primIdx sampleX sampleY : Z) (fb : Framebuffer)
    (f0 f1 z : m128) (res : m128i) :
  DepthTest m_SetupBuffers rcp primIdx sampleX sampleY fb = Some (f0, f1, z, res) ->
  exists cur,
    _mm_load_ps (m_pDepthBuffer fb) (DepthAddress fb sampleX sampleY) = Some cur
    /\ res = _mm_cmple_ps z cur.
Proof.
  unfold DepthTest. intros Hrun.
  destruct (array_get _ (u32 (3 * primIdx + 0))) as [ee0 |]; [| discriminate].
  destruct (array_get _ (u32 (3 * primIdx + 1))) as [ee1 |]; [| discriminate].
  destruct (array_get _ (u32 (3 * primIdx + 2))) as [ee2 |]; [| discriminate].
  cbn [mbind option_bind] in Hrun.
  destruct (ComputeParameterBasisFunctions rcp sampleX sampleY ee0 ee1 ee2) as [g0 g1].
  destruct (InterpolateDepthValues primIdx g0 g1 m_SetupBuffers) as [zi |]; [| discriminate].
  cbn [mbind option_bind] in Hrun.
  destruct (_mm_load_ps _ _) as [cur |]; [| discriminate].
  cbn [mbind option_bind] in Hrun. injection Hrun as <- <- <- <-.
  exists cur. split; reflexivity.
Qed.

(** The common part of the two shading functions: what follows the depth
    test, for a write mask whose lane [k] is all ones when [write k] holds. *)
Lemma shaded_group_outcome (st : FSState) (sampleX sampleY : Z) (z : m128)
    (attrs : InterpolatedAttributes) (w : m128i) (write : nat -> bool)
    (fb' : Framebuffer) :
  (forall k, (k < 4)%nat -> epi_lane w k = cmp_mask (write k)) ->
  WriteSamples w z (FS attrs) sampleX sampleY (fs_Framebuffer st) = Some fb' ->
  GroupOutcome FS true write z attrs sampleX sampleY st
    (mk_FSState fb' (fs_Invocations st ++ [attrs])).
Proof.
  intros Hw Hrun.
  destruct (WriteSamples_outcome w write z (FS attrs) sampleX sampleY (fs_Framebuffer st)
              fb' Hw Hrun) as (Hkept & Hwritten & Hothers).
  unfold GroupOutcome. cbn [fs_Framebuffer fs_Invocations].
  split; [reflexivity | split; [exact Hkept | split; [exact Hwritten | exact Hothers]]].
Qed.

Lemma skipped_group_outcome (st : FSState) (sampleX sampleY : Z) (z : m128)
    (attrs : InterpolatedAttributes) (write : nat -> bool) :
  (forall k, (k < 4)%nat -> write k = false) ->
  GroupOutcome FS false write z attrs sampleX sampleY st st.
Proof.
  intros Hnone. unfold GroupOutcome, SampleKept, OthersKept.
  split; [reflexivity | split; [| split]].
  - intros k Hk _. split; [reflexivity | intros c Hc; reflexivity].
  - intros k Hk Hw. rewrite Hnone in Hw by exact Hk. discriminate.
  - split; [reflexivity | split; [reflexivity | split; [reflexivity | split; [reflexivity |]]]].
    split; intros; reflexivity.
Qed.

(** What a run of the group of a block went through: the depth test and,
    when some sample passed it, the interpolation into the caller's record,
    the fragment shader on that record and the two stores. *)
Lemma FragmentShadeBlockGroup_inv (blockPosX blockPosY primIdx px py : Z)
    (st st' : FSState) :
  let sampleX := u32 (blockPosX + u32 (g_scSIMDWidth * px)) in
  let sampleY := u32 (blockPosY + py) in
  FragmentShadeBlockGroup m_ShaderMetadata m_SetupBuffers FS rcp
    blockPosX blockPosY primIdx px py st = Some st' ->
  exists f0 f1 z cur : m128,
    DepthTest m_SetupBuffers rcp primIdx sampleX sampleY (fs_Framebuffer st)
      = Some (f0, f1, z, _mm_cmple_ps z cur)
    /\ _mm_load_ps (m_pDepthBuffer (fs_Framebuffer st))
         (DepthAddress (fs_Framebuffer st) sampleX sampleY) = Some cur
    /\ if existsb (fun k => (ps_lane z k <=? ps_lane cur k)%f32) (seq 0 4)
       then exists (attrs : InterpolatedAttributes) (fb' : Framebuffer),
              InterpolateVertexAttributes m_ShaderMetadata primIdx f0 f1 m_SetupBuffers
                = Some attrs
              /\ StoreInLocalRecord attrs = Some attrs
              /\ WriteSamples (_mm_cmple_ps z cur) z (FS attrs) sampleX sampleY
                   (fs_Framebuffer st) = Some fb'
              /\ st' = mk_FSState fb' (fs_Invocations st ++ [attrs])
       else st' = st.
Proof.
  intros sampleX sampleY. unfold FragmentShadeBlockGroup. cbv zeta.
  fold sampleX sampleY. intros Hrun.
  destruct (DepthTest _ _ _ _ _ _) as [[[[f0 f1] z] res] |] eqn:Hdt; [| discriminate].
  cbn [mbind option_bind] in Hrun.
  destruct (DepthTest_inv _ _ _ _ _ _ _ _ Hdt) as (cur & Hload & ->).
  exists f0, f1, z, cur. split; [reflexivity |]. split; [exact Hload |].
  unfold _mm_cmple_ps in Hrun. rewrite movemask_cmp_zero in Hrun.
  destruct (existsb _ (seq 0 4)); cbn [negb] in Hrun.
  - destruct (InterpolateVertexAttributes _ _ _ _ _) as [values |]; [| discriminate].
    cbn [mbind option_bind] in Hrun.
    destruct (StoreInLocalRecord values) as [attrs |] eqn:Hstore; [| discriminate].
    cbn [mbind option_bind] in Hrun.
    pose proof (proj1 (proj1 (StoreInLocalRecord_Some _ _) Hstore)) as ->.
    destruct (WriteSamples _ _ _ _ _ _) as [fb' |] eqn:Hws; [| discriminate].
    cbn [mbind option_bind] in Hrun. injection Hrun as <-.
    exists values, fb'. auto.
  - injection Hrun as <-. reflexivity.
Qed.

Lemma FragmentShadeQuad_inv (pMask : CoverageMask) (st st' : FSState) :
  let sampleX := m_SampleX pMask in
  let sampleY := m_SampleY pMask in
  FragmentShadeQuad m_ShaderMetadata m_SetupBuffers FS rcp pMask st = Some st' ->
  exists f0 f1 z cur : m128,
    DepthTest m_SetupBuffers rcp (m_PrimIdx pMask) sampleX sampleY (fs_Framebuffer st)
      = Some (f0, f1, z, _mm_cmple_ps z cur)
    /\ _mm_load_ps (m_pDepthBuffer (fs_Framebuffer st))
         (DepthAddress (fs_Framebuffer st) sampleX sampleY) = Some cur
    /\ if existsb (fun k => (ps_lane z k <=? ps_lane cur k)%f32) (seq 0 4)
       then exists (attrs : InterpolatedAttributes) (fb' : Framebuffer),
              InterpolateVertexAttributes m_ShaderMetadata (m_PrimIdx pMask) f0 f1
                m_SetupBuffers = Some attrs
              /\ StoreInLocalRecord attrs = Some attrs
              /\ WriteSamples
                   (_mm_and_ps (_mm_cmple_ps z cur) (QuadColorMask (m_QuadMask pMask)))
                   z (FS attrs) sampleX sampleY (fs_Framebuffer st) = Some fb'
              /\ st' = mk_FSState fb' (fs_Invocations st ++ [attrs])
       else st' = st.
Proof.
  intros sampleX sampleY. unfold FragmentShadeQuad. cbv zeta.
  fold sampleX sampleY. intros Hrun.
  destruct (DepthTest _ _ _ _ _ _) as [[[[f0 f1] z] res] |] eqn:Hdt; [| discriminate].
  cbn [mbind option_bind] in Hrun.
  destruct (DepthTest_inv _ _ _ _ _ _ _ _ Hdt) as (cur & Hload & ->).
  exists f0, f1, z, cur. split; [reflexivity |]. split; [exact Hload |].
  unfold _mm_cmple_ps in Hrun. rewrite movemask_cmp_zero in Hrun.
  destruct (existsb _ (seq 0 4)); cbn [negb] in Hrun.
  - destruct (InterpolateVertexAttributes _ _ _ _ _) as [values |]; [| discriminate].
    cbn [mbind option_bind] in Hrun.
    destruct (StoreInLocalRecord values) as [attrs |] eqn:Hstore; [| discriminate].
    cbn [mbind option_bind] in Hrun.
    pose proof (proj1 (proj1 (StoreInLocalRecord_Some _ _) Hstore)) as ->.
    destruct (WriteSamples _ _ _ _ _ _) as [fb' |] eqn:Hws; [| discriminate].
    cbn [mbind option_bind] in Hrun. injection Hrun as <-.
    exists values, fb'. auto.
  - injection Hrun as <-. reflexivity.
Qed.

Lemma block_write_mask (z cur : m128) (k : nat) :
  (k < 4)%nat ->
  epi_lane (_mm_cmple_ps z cur) k = cmp_mask (ps_lane z k <=? ps_lane cur k)%f32.
Proof. intros Hk. apply cmp_lane. exact Hk. Qed.

Lemma quad_write_mask (z cur : m128) (quadMask : Z) (k : nat) :
  (k < 4)%nat ->
  epi_lane (_mm_and_ps (_mm_cmple_ps z cur) (QuadColorMask quadMask)) k
  = cmp_mask ((ps_lane z k <=? ps_lane cur k)%f32 && Z.testbit quadMask (Z.of_nat k)).
Proof.
  intros Hk. unfold _mm_cmple_ps.
  rewrite and_ps_lane, cmp_lane, QuadColorMask_lane by exact Hk.
  apply land_cmp_mask.
Qed.

Lemma movemask_cmple_zero (z cur : m128) :
  (_mm_movemask_ps (_mm_cmple_ps z cur) =? 0)
  = negb (existsb (fun k => (ps_lane z k <=? ps_lane cur k)%f32) (seq 0 4)).
Proof. apply movemask_cmp_zero. Qed.

(** C9.  Shading a group of four samples, of a BLOCK coverage mask (the
    group [px] of row [py] of the block) or of a QUAD coverage mask: the
    interpolated Z of each sample is compared with the depth stored for it;
    a sample's depth value and color bytes are written exactly when it
    passes this [LEQ] test and, for a QUAD mask, its bit of the quad mask is
    set; every other sample keeps its depth value and color bytes, and so
    does the rest of the framebuffer.  The fragment shader is invoked once
    when some sample of the group passes the depth test and not at all when
    the four samples fail it.  What the code needs once a sample has passed,
    and only then: the deltas of the primitive inside the setup buffers, at
    most one attribute of each width (the caller's record has room for slot
    0 only) and the sixteen color bytes of the group inside the color
    buffer. *)
Theorem depth_test_gates_fragment_writes :
  (forall (blockPosX blockPosY primIdx px py : Z) (st : FSState)
      (f0 f1 z : m128) (res : m128i) (attrs : InterpolatedAttributes),
      let sampleX := u32 (blockPosX + u32 (g_scSIMDWidth * px)) in
      let sampleY := u32 (blockPosY + py) in
      let fb := fs_Framebuffer st in
      DepthTest m_SetupBuffers rcp primIdx sampleX sampleY fb = Some (f0, f1, z, res) ->
      (_mm_movemask_ps res <> 0 ->
         InterpolateVertexAttributes m_ShaderMetadata primIdx f0 f1 m_SetupBuffers
           = Some attrs
         /\ OneSlotPerWidth m_ShaderMetadata
         /\ (ColorAddress fb sampleX sampleY + 15 < length (m_pColorBuffer fb))%nat) ->
      exists cur st',
        _mm_load_ps (m_pDepthBuffer fb) (DepthAddress fb sampleX sampleY) = Some cur
        /\ FragmentShadeBlockGroup m_ShaderMetadata m_SetupBuffers FS rcp
             blockPosX blockPosY primIdx px py st = Some st'
        /\ let pass := fun k => (ps_lane z k <=? ps_lane cur k)%f32 in
           GroupOutcome FS (existsb pass (seq 0 4)) pass z attrs sampleX sampleY st st')
  /\ (forall (pMask : CoverageMask) (st : FSState)
        (f0 f1 z : m128) (res : m128i) (attrs : InterpolatedAttributes),
        let sampleX := m_SampleX pMask in
        let sampleY := m_SampleY pMask in
        let fb := fs_Framebuffer st in
        DepthTest m_SetupBuffers rcp (m_PrimIdx pMask) sampleX sampleY fb
          = Some (f0, f1, z, res) ->
        (_mm_movemask_ps res <> 0 ->
           InterpolateVertexAttributes m_ShaderMetadata (m_PrimIdx pMask) f0 f1
             m_SetupBuffers = Some attrs
           /\ OneSlotPerWidth m_ShaderMetadata
           /\ (ColorAddress fb sampleX sampleY + 15 < length (m_pColorBuffer fb))%nat) ->
        exists cur st',
          _mm_load_ps (m_pDepthBuffer fb) (DepthAddress fb sampleX sampleY) = Some cur
          /\ FragmentShadeQuad m_ShaderMetadata m_SetupBuffers FS rcp pMask st = Some st'
          /\ let pass := fun k => (ps_lane z k <=? ps_lane cur k)%f32 in
             let write := fun k => pass k && Z.testbit (m_QuadMask pMask) (Z.of_nat k) in
             GroupOutcome FS (existsb pass (seq 0 4)) write z attrs sampleX sampleY st st').
Proof.
  split.
  - intros blockPosX blockPosY primIdx px py st f0 f1 z res attrs sampleX sampleY fb
      Hdt Hneeds.
    destruct (DepthTest_inv _ _ _ _ _ _ _ _ Hdt) as (cur & Hload & ->).
    exists cur. unfold FragmentShadeBlockGroup. cbv zeta.
    fold sampleX sampleY fb. rewrite Hdt. cbn [mbind option_bind].
    destruct (_mm_movemask_ps (_mm_cmple_ps z cur) =? 0) eqn:Hmask.
    + unfold _mm_cmple_ps in Hmask. rewrite movemask_cmp_zero in Hmask.
      apply negb_true_iff in Hmask. rewrite Hmask.
      exists st. split; [exact Hload |]. split; [reflexivity |].
      apply skipped_group_outcome.
      intros k Hk. exact (existsb_lanes_false _ k Hmask Hk).
    + destruct (Hneeds ltac:(apply Z.eqb_neq; exact Hmask)) as (Hattrs & Hone & Hcolor).
      unfold _mm_cmple_ps in Hmask. rewrite movemask_cmp_zero in Hmask.
      apply negb_false_iff in Hmask. rewrite Hmask.
      rewrite Hattrs. cbn [mbind option_bind].
      rewrite (StoreInLocalRecord_one_slot _ _ _ _ _ _ Hone Hattrs).
      cbn [mbind option_bind].
      destruct (WriteSamples_in_bounds (_mm_cmple_ps z cur) z (FS attrs) sampleX sampleY fb
                  (proj1 (load_ps_lanes _ _ _ Hload)) Hcolor) as [fb' Hws].
      rewrite Hws. cbn [mbind option_bind].
      eexists. split; [exact Hload |]. split; [reflexivity |].
      apply shaded_group_outcome with (w := _mm_cmple_ps z cur); [| exact Hws].
      intros k Hk. apply block_write_mask. exact Hk.
  - intros pMask st f0 f1 z res attrs sampleX sampleY fb Hdt Hneeds.
    destruct (DepthTest_inv _ _ _ _ _ _ _ _ Hdt) as (cur & Hload & ->).
    exists cur. unfold FragmentShadeQuad. cbv zeta.
    fold sampleX sampleY fb. rewrite Hdt. cbn [mbind option_bind].
    destruct (_mm_movemask_ps (_mm_cmple_ps z cur) =? 0) eqn:Hmask.
    + unfold _mm_cmple_ps in Hmask. rewrite movemask_cmp_zero in Hmask.
      apply negb_true_iff in Hmask. rewrite Hmask.
      exists st. split; [exact Hload |]. split; [reflexivity |].
      apply skipped_group_outcome.
      intros k Hk. rewrite (existsb_lanes_false _ k Hmask Hk). reflexivity.
    + destruct (Hneeds ltac:(apply Z.eqb_neq; exact Hmask)) as (Hattrs & Hone & Hcolor).
      unfold _mm_cmple_ps in Hmask. rewrite movemask_cmp_zero in Hmask.
      apply negb_false_iff in Hmask. rewrite Hmask.
      rewrite Hattrs. cbn [mbind option_bind].
      rewrite (StoreInLocalRecord_one_slot _ _ _ _ _ _ Hone Hattrs).
      cbn [mbind option_bind].
      destruct (WriteSamples_in_bounds
                  (_mm_and_ps (_mm_cmple_ps z cur) (QuadColorMask (m_QuadMask pMask)))
                  z (FS attrs) sampleX sampleY fb
                  (proj1 (load_ps_lanes _ _ _ Hload)) Hcolor) as [fb' Hws].
      rewrite Hws. cbn [mbind option_bind].
      eexists. split; [exact Hload |]. split; [reflexivity |].
      apply shaded_group_outcome
        with (w := _mm_and_ps (_mm_cmple_ps z cur) (QuadColorMask (m_QuadMask pMask)));
        [| exact Hws].
      intros k Hk. apply quad_write_mask. exact Hk.
Qed.

(** A second attribute of one width is stored outside the caller's record:
    with such a shader, a group with a sample that passes the depth test has
    no defined outcome. *)
Lemma second_slot_is_outside_the_record (blockPosX blockPosY primIdx px py : Z)
    (st : FSState) (f0 f1 z : m128) (res : m128i) :
  DepthTest m_SetupBuffers rcp primIdx (u32 (blockPosX + u32 (g_scSIMDWidth * px)))
    (u32 (blockPosY + py)) (fs_Framebuffer st) = Some (f0, f1, z, res) ->
  _mm_movemask_ps res <> 0 ->
  ~ OneSlotPerWidth m_ShaderMetadata ->
  FragmentShadeBlockGroup m_ShaderMetadata m_SetupBuffers FS rcp
    blockPosX blockPosY primIdx px py st = None.
Proof.
  intros Hdt Hmask Hmany. unfold FragmentShadeBlockGroup. cbv zeta.
  rewrite Hdt. cbn [mbind option_bind].
  apply Z.eqb_neq in Hmask. rewrite Hmask.
  destruct (InterpolateVertexAttributes _ _ _ _ _) as [values |] eqn:Hvalues;
    [| reflexivity].
  cbn [mbind option_bind].
  destruct (StoreInLocalRecord values) as [attrs |] eqn:Hstore; [| reflexivity].
  exfalso. apply Hmany.
  apply StoreInLocalRecord_Some in Hstore as (_ & L4 & L3 & L2).
  apply InterpolateVertexAttributes_slots in Hvalues as (E4 & E3 & E2).
  unfold OneSlotPerWidth. lia.
Qed.

End ShadingOutcome.

Lemma depth_test_gates_fragment_writes_witness :
  (exists st',
     FragmentShadeBlockGroup Scene.vec4_metadata Scene.attribute_setup_buffers
       Scene.attribute_FS Scene.exact_rcp 32 32 0 0 0 Scene.start = Some st')
  /\ (exists st',
        FragmentShadeQuad Scene.vec4_metadata Scene.attribute_setup_buffers
          Scene.attribute_FS Scene.exact_rcp Scene.quad Scene.start = Some st').
Proof.
  split.
  - edestruct (proj1 (depth_test_gates_fragment_writes Scene.vec4_metadata
                        Scene.attribute_setup_buffers Scene.attribute_FS Scene.exact_rcp)
                 32 32 0 0 0 Scene.start) as (cur & st' & _ & Hrun & _).
    + vm_compute. reflexivity.
    + intros _. split; [vm_compute; reflexivity |].
      split; [unfold OneSlotPerWidth; simpl; lia |].
      apply Nat.ltb_lt. vm_compute. reflexivity.
    + exists st'. exact Hrun.
  - edestruct (proj2 (depth_test_gates_fragment_writes Scene.vec4_metadata
                        Scene.attribute_setup_buffers Scene.attribute_FS Scene.exact_rcp)
                 Scene.quad Scene.start) as (cur & st' & _ & Hrun & _).
    + vm_compute. reflexivity.
    + intros _. split; [vm_compute; reflexivity |].
      split; [unfold OneSlotPerWidth; simpl; lia |].
      apply Nat.ltb_lt. vm_compute. reflexivity.
    + exists st'. exact Hrun.
Defined.

(** ** The rasterizer queue during the geometry phase *)

Lemma WonOn_BusyOn (w : Worker) (t : nat) : WonOn w t -> BusyOn w t.
Proof. intros [Hpc Htodo]. split; [rewrite Hpc; discriminate | exact Htodo]. Qed.

Lemma lookup_updated (ws : list Worker) (k i : nat) (old new w : Worker) :
  ws !! k = Some old ->
  <[k := new]> ws !! i = Some w ->
  (i = k /\ w = new) \/ (i <> k /\ ws !! i = Some w).
Proof.
  intros Hold Hnew. destruct (decide (i = k)) as [-> | Hne].
  - left. split; [reflexivity |].
    rewrite list_lookup_insert_eq in Hnew by (eapply lookup_lt_Some; exact Hold).
    congruence.
  - right. split; [exact Hne |].
    rewrite list_lookup_insert_ne in Hnew by congruence. exact Hnew.
Qed.

Lemma lookup_updated_same (ws : list Worker) (k : nat) (old new : Worker) :
  ws !! k = Some old -> <[k := new]> ws !! k = Some new.
Proof. intros Hold. apply list_lookup_insert_eq. eapply lookup_lt_Some. exact Hold. Qed.

Lemma lookup_updated_other (ws : list Worker) (k i : nat) (new w : Worker) :
  i <> k -> ws !! i = Some w -> <[k := new]> ws !! i = Some w.
Proof. intros Hne Hw. rewrite list_lookup_insert_ne by congruence. exact Hw. Qed.

Section Transitions.

Variable queue : list nat.
Variables flagged touched : nat -> Prop.
Variable ws : list Worker.
Variable k : nat.
Variable old : Worker.
Variable a : BinnerAction.
Variable rest : list BinnerAction.

Hypothesis Hinv : QueueInvariant queue flagged touched ws.
Hypothesis Hold : ws !! k = Some old.
Hypothesis Htodo : w_todo old = a :: rest.

Lemma not_at_k_won (i : nat) (w : Worker) (t : nat) :
  w_pc old <> WonFlag -> ws !! i = Some w -> WonOn w t -> i <> k.
Proof.
  intros Hpc Hw [Hwon _] ->. rewrite Hold in Hw. injection Hw as <-. contradiction.
Qed.

Lemma not_at_k_busy (i : nat) (w : Worker) (t : nat) :
  w_pc old = AtAction -> ws !! i = Some w -> BusyOn w t -> i <> k.
Proof.
  intros Hpc Hw [Hbusy _] ->. rewrite Hold in Hw. injection Hw as <-. contradiction.
Qed.

Lemma won_at_k_tile (pc : WorkerPC) (t : nat) :
  WonOn (mk_Worker (a :: rest) pc) t -> t = action_tile a.
Proof. intros (_ & a' & rest' & Heq & <-). simpl in Heq. congruence. Qed.

Lemma busy_at_k_tile (pc : WorkerPC) (t : nat) :
  BusyOn (mk_Worker (a :: rest) pc) t -> t = action_tile a.
Proof. intros (_ & a' & rest' & Heq & <-). simpl in Heq. congruence. Qed.

(** The worker wins the flag of the tile of its next action. *)
Lemma invariant_after_winning (flagged' : nat -> Prop) :
  w_pc old = AtAction ->
  ~ flagged (action_tile a) ->
  (forall t, flagged' t <-> flagged t \/ t = action_tile a) ->
  QueueInvariant queue flagged' touched (<[k := mk_Worker (a :: rest) WonFlag]> ws).
Proof.
  intros Hpc Hfresh Hflag'.
  assert (Hwon_k : WonOn (mk_Worker (a :: rest) WonFlag) (action_tile a))
    by (split; [reflexivity | eauto]).
  assert (Hold_not_won : w_pc old <> WonFlag) by (rewrite Hpc; discriminate).
  constructor.
  - exact (inv_nodup _ _ _ _ Hinv).
  - intros i w t Hw Hwon Hin.
    destruct (lookup_updated _ _ _ _ _ _ Hold Hw) as [[-> ->] | [Hne Hw']].
    + apply won_at_k_tile in Hwon as ->. apply Hfresh.
      apply (inv_flag _ _ _ _ Hinv). left. exact Hin.
    + exact (inv_won_fresh _ _ _ _ Hinv i w t Hw' Hwon Hin).
  - intros i j wi wj t Hwi Hwj Hwoni Hwonj.
    destruct (lookup_updated _ _ _ _ _ _ Hold Hwi) as [[-> ->] | [Hnei Hwi']];
      destruct (lookup_updated _ _ _ _ _ _ Hold Hwj) as [[-> ->] | [Hnej Hwj']].
    + reflexivity.
    + exfalso. apply won_at_k_tile in Hwoni as ->. apply Hfresh.
      apply (inv_flag _ _ _ _ Hinv). right. eauto.
    + exfalso. apply won_at_k_tile in Hwonj as ->. apply Hfresh.
      apply (inv_flag _ _ _ _ Hinv). right. eauto.
    + exact (inv_won_unique _ _ _ _ Hinv i j wi wj t Hwi' Hwj' Hwoni Hwonj).
  - intros t. rewrite Hflag'. split.
    + intros [Hf | ->].
      * apply (inv_flag _ _ _ _ Hinv) in Hf as [Hin | (i & w & Hw & Hwon)];
          [left; exact Hin |].
        right. exists i, w. split; [| exact Hwon].
        apply lookup_updated_other; [| exact Hw].
        exact (not_at_k_won i w t Hold_not_won Hw Hwon).
      * right. exists k, (mk_Worker (a :: rest) WonFlag).
        split; [exact (lookup_updated_same _ _ _ _ Hold) | exact Hwon_k].
    + intros [Hin | (i & w & Hw & Hwon)].
      * left. apply (inv_flag _ _ _ _ Hinv). left. exact Hin.
      * destruct (lookup_updated _ _ _ _ _ _ Hold Hw) as [[-> ->] | [Hne Hw']].
        -- right. exact (won_at_k_tile _ _ Hwon).
        -- left. apply (inv_flag _ _ _ _ Hinv). right. eauto.
  - intros t Ht. apply Hflag'. left. exact (inv_touched _ _ _ _ Hinv t Ht).
  - intros i w t Hw Hbusy. apply Hflag'.
    destruct (lookup_updated _ _ _ _ _ _ Hold Hw) as [[-> ->] | [Hne Hw']].
    + right. exact (busy_at_k_tile _ _ Hbusy).
    + left. exact (inv_busy _ _ _ _ Hinv i w t Hw' Hbusy).
  - intros t Hf. apply Hflag' in Hf as [Hf | ->].
    + destruct (inv_cause _ _ _ _ Hinv t Hf) as [Ht | (i & w & Hw & Hbusy)];
        [left; exact Ht |].
      right. exists i, w. split; [| exact Hbusy].
      apply lookup_updated_other; [| exact Hw].
      exact (not_at_k_busy i w t Hpc Hw Hbusy).
    + right. exists k, (mk_Worker (a :: rest) WonFlag).
      split; [exact (lookup_updated_same _ _ _ _ Hold) |].
      apply WonOn_BusyOn. exact Hwon_k.
Qed.

Lemma old_won_tile (t : nat) : WonOn old t -> t = action_tile a.
Proof. intros (_ & a' & rest' & Heq & <-). rewrite Htodo in Heq. congruence. Qed.

Lemma old_busy_tile (t : nat) : BusyOn old t -> t = action_tile a.
Proof. intros (_ & a' & rest' & Heq & <-). rewrite Htodo in Heq. congruence. Qed.

Lemma old_busy : w_pc old <> AtAction -> BusyOn old (action_tile a).
Proof. intros Hpc. split; [exact Hpc | eauto]. Qed.

Lemma after_enqueue_not_won (todo : list BinnerAction) (t : nat) :
  ~ WonOn (mk_Worker todo AfterEnqueue) t.
Proof. intros [Hpc _]. discriminate. Qed.

Lemma at_action_not_busy (todo : list BinnerAction) (t : nat) :
  ~ BusyOn (mk_Worker todo AtAction) t.
Proof. intros [Hpc _]. apply Hpc. reflexivity. Qed.

Lemma at_action_not_won (todo : list BinnerAction) (t : nat) :
  ~ WonOn (mk_Worker todo AtAction) t.
Proof. intros [Hpc _]. discriminate. Qed.

(** The flag of the tile was already set: the worker goes on to its append. *)
Lemma invariant_after_losing :
  w_pc old = AtAction ->
  flagged (action_tile a) ->
  QueueInvariant queue flagged touched (<[k := mk_Worker (a :: rest) AfterEnqueue]> ws).
Proof.
  intros Hpc Hset.
  assert (Hold_not_won : w_pc old <> WonFlag) by (rewrite Hpc; discriminate).
  constructor.
  - exact (inv_nodup _ _ _ _ Hinv).
  - intros i w t Hw Hwon.
    destruct (lookup_updated _ _ _ _ _ _ Hold Hw) as [[-> ->] | [Hne Hw']].
    + destruct (after_enqueue_not_won _ _ Hwon).
    + exact (inv_won_fresh _ _ _ _ Hinv i w t Hw' Hwon).
  - intros i j wi wj t Hwi Hwj Hwoni Hwonj.
    destruct (lookup_updated _ _ _ _ _ _ Hold Hwi) as [[-> ->] | [Hnei Hwi']];
      [destruct (after_enqueue_not_won _ _ Hwoni) |].
    destruct (lookup_updated _ _ _ _ _ _ Hold Hwj) as [[-> ->] | [Hnej Hwj']];
      [destruct (after_enqueue_not_won _ _ Hwonj) |].
    exact (inv_won_unique _ _ _ _ Hinv i j wi wj t Hwi' Hwj' Hwoni Hwonj).
  - intros t. rewrite (inv_flag _ _ _ _ Hinv t). split.
    + intros [Hin | (i & w & Hw & Hwon)]; [left; exact Hin |].
      right. exists i, w. split; [| exact Hwon].
      apply lookup_updated_other; [| exact Hw].
      exact (not_at_k_won i w t Hold_not_won Hw Hwon).
    + intros [Hin | (i & w & Hw & Hwon)]; [left; exact Hin |].
      destruct (lookup_updated _ _ _ _ _ _ Hold Hw) as [[-> ->] | [Hne Hw']].
      * destruct (after_enqueue_not_won _ _ Hwon).
      * right. eauto.
  - exact (inv_touched _ _ _ _ Hinv).
  - intros i w t Hw Hbusy.
    destruct (lookup_updated _ _ _ _ _ _ Hold Hw) as [[-> ->] | [Hne Hw']].
    + rewrite (busy_at_k_tile _ _ Hbusy). exact Hset.
    + exact (inv_busy _ _ _ _ Hinv i w t Hw' Hbusy).
  - intros t Hf.
    destruct (inv_cause _ _ _ _ Hinv t Hf) as [Ht | (i & w & Hw & Hbusy)];
      [left; exact Ht |].
    right. exists i, w. split; [| exact Hbusy].
    apply lookup_updated_other; [| exact Hw].
    exact (not_at_k_busy i w t Hpc Hw Hbusy).
Qed.

(** The worker that won the flag inserts the tile into the queue. *)
Lemma invariant_after_insert :
  w_pc old = WonFlag ->
  QueueInvariant (queue ++ [action_tile a]) flagged touched
    (<[k := mk_Worker (a :: rest) AfterEnqueue]> ws).
Proof.
  intros Hpc.
  assert (Hwon_old : WonOn old (action_tile a)) by (split; [exact Hpc | eauto]).
  assert (Hbusy_new : BusyOn (mk_Worker (a :: rest) AfterEnqueue) (action_tile a))
    by (split; [discriminate | eauto]).
  constructor.
  - apply NoDup_app. split; [exact (inv_nodup _ _ _ _ Hinv) |]. split.
    + intros x Hin Hx. apply list_elem_of_singleton in Hx as ->.
      exact (inv_won_fresh _ _ _ _ Hinv k old _ Hold Hwon_old Hin).
    + apply NoDup_singleton.
  - intros i w t Hw Hwon.
    destruct (lookup_updated _ _ _ _ _ _ Hold Hw) as [[-> ->] | [Hne Hw']].
    + destruct (after_enqueue_not_won _ _ Hwon).
    + rewrite elem_of_app. intros [Hin | Hx].
      * exact (inv_won_fresh _ _ _ _ Hinv i w t Hw' Hwon Hin).
      * apply list_elem_of_singleton in Hx as ->. apply Hne.
        exact (inv_won_unique _ _ _ _ Hinv i k w old _ Hw' Hold Hwon Hwon_old).
  - intros i j wi wj t Hwi Hwj Hwoni Hwonj.
    destruct (lookup_updated _ _ _ _ _ _ Hold Hwi) as [[-> ->] | [Hnei Hwi']];
      [destruct (after_enqueue_not_won _ _ Hwoni) |].
    destruct (lookup_updated _ _ _ _ _ _ Hold Hwj) as [[-> ->] | [Hnej Hwj']];
      [destruct (after_enqueue_not_won _ _ Hwonj) |].
    exact (inv_won_unique _ _ _ _ Hinv i j wi wj t Hwi' Hwj' Hwoni Hwonj).
  - intros t. rewrite (inv_flag _ _ _ _ Hinv t), elem_of_app, list_elem_of_singleton. split.
    + intros [Hin | (i & w & Hw & Hwon)]; [left; left; exact Hin |].
      destruct (decide (i = k)) as [-> | Hne].
      * left. right. rewrite Hold in Hw. injection Hw as <-.
        exact (old_won_tile _ Hwon).
      * right. exists i, w. split; [| exact Hwon].
        apply lookup_updated_other; assumption.
    + intros [[Hin | ->] | (i & w & Hw & Hwon)].
      * left. exact Hin.
      * right. eauto.
      * destruct (lookup_updated _ _ _ _ _ _ Hold Hw) as [[-> ->] | [Hne Hw']].
        -- destruct (after_enqueue_not_won _ _ Hwon).
        -- right. eauto.
  - exact (inv_touched _ _ _ _ Hinv).
  - intros i w t Hw Hbusy.
    destruct (lookup_updated _ _ _ _ _ _ Hold Hw) as [[-> ->] | [Hne Hw']].
    + rewrite (busy_at_k_tile _ _ Hbusy).
      apply (inv_busy _ _ _ _ Hinv k old _ Hold). apply WonOn_BusyOn. exact Hwon_old.
    + exact (inv_busy _ _ _ _ Hinv i w t Hw' Hbusy).
  - intros t Hf.
    destruct (inv_cause _ _ _ _ Hinv t Hf) as [Ht | (i & w & Hw & Hbusy)];
      [left; exact Ht |].
    right. destruct (decide (i = k)) as [-> | Hne].
    + rewrite Hold in Hw. injection Hw as <-.
      rewrite (old_busy_tile _ Hbusy).
      exists k, (mk_Worker (a :: rest) AfterEnqueue).
      split; [exact (lookup_updated_same _ _ _ _ Hold) | exact Hbusy_new].
    + exists i, w. split; [| exact Hbusy].
      apply lookup_updated_other; assumption.
Qed.

(** The worker appends its coverage mask or its primitive index and is done
    with the action. *)
Lemma invariant_after_append (touched' : nat -> Prop) :
  w_pc old = AfterEnqueue ->
  (forall t, touched' t <-> touched t \/ t = action_tile a) ->
  QueueInvariant queue flagged touched' (<[k := mk_Worker rest AtAction]> ws).
Proof.
  intros Hpc Htouched'.
  assert (Hold_not_won : w_pc old <> WonFlag) by (rewrite Hpc; discriminate).
  assert (Hbusy_old : BusyOn old (action_tile a))
    by (apply old_busy; rewrite Hpc; discriminate).
  constructor.
  - exact (inv_nodup _ _ _ _ Hinv).
  - intros i w t Hw Hwon.
    destruct (lookup_updated _ _ _ _ _ _ Hold Hw) as [[-> ->] | [Hne Hw']].
    + destruct (at_action_not_won _ _ Hwon).
    + exact (inv_won_fresh _ _ _ _ Hinv i w t Hw' Hwon).
  - intros i j wi wj t Hwi Hwj Hwoni Hwonj.
    destruct (lookup_updated _ _ _ _ _ _ Hold Hwi) as [[-> ->] | [Hnei Hwi']];
      [destruct (at_action_not_won _ _ Hwoni) |].
    destruct (lookup_updated _ _ _ _ _ _ Hold Hwj) as [[-> ->] | [Hnej Hwj']];
      [destruct (at_action_not_won _ _ Hwonj) |].
    exact (inv_won_unique _ _ _ _ Hinv i j wi wj t Hwi' Hwj' Hwoni Hwonj).
  - intros t. rewrite (inv_flag _ _ _ _ Hinv t). split.
    + intros [Hin | (i & w & Hw & Hwon)]; [left; exact Hin |].
      right. exists i, w. split; [| exact Hwon].
      apply lookup_updated_other; [| exact Hw].
      exact (not_at_k_won i w t Hold_not_won Hw Hwon).
    + intros [Hin | (i & w & Hw & Hwon)]; [left; exact Hin |].
      destruct (lookup_updated _ _ _ _ _ _ Hold Hw) as [[-> ->] | [Hne Hw']].
      * destruct (at_action_not_won _ _ Hwon).
      * right. eauto.
  - intros t Ht. apply Htouched' in Ht as [Ht | ->].
    + exact (inv_touched _ _ _ _ Hinv t Ht).
    + exact (inv_busy _ _ _ _ Hinv k old _ Hold Hbusy_old).
  - intros i w t Hw Hbusy.
    destruct (lookup_updated _ _ _ _ _ _ Hold Hw) as [[-> ->] | [Hne Hw']].
    + destruct (at_action_not_busy _ _ Hbusy).
    + exact (inv_busy _ _ _ _ Hinv i w t Hw' Hbusy).
  - intros t Hf.
    destruct (inv_cause _ _ _ _ Hinv t Hf) as [Ht | (i & w & Hw & Hbusy)].
    + left. apply Htouched'. left. exact Ht.
    + destruct (decide (i = k)) as [-> | Hne].
      * rewrite Hold in Hw. injection Hw as <-.
        left. apply Htouched'. right. exact (old_busy_tile _ Hbusy).
      * right. exists i, w. split; [| exact Hbusy].
        apply lookup_updated_other; assumption.
Qed.

End Transitions.

Lemma QueueInvariant_ext (queue : list nat) (flagged flagged' touched touched' : nat -> Prop)
    (ws : list Worker) :
  (forall t, flagged' t <-> flagged t) ->
  (forall t, touched' t <-> touched t) ->
  QueueInvariant queue flagged touched ws ->
  QueueInvariant queue flagged' touched' ws.
Proof.
  intros Hf Ht Hinv. constructor.
  - exact (inv_nodup _ _ _ _ Hinv).
  - exact (inv_won_fresh _ _ _ _ Hinv).
  - exact (inv_won_unique _ _ _ _ Hinv).
  - intros t. rewrite Hf. exact (inv_flag _ _ _ _ Hinv t).
  - intros t Htt. apply Hf. apply (inv_touched _ _ _ _ Hinv). apply Ht. exact Htt.
  - intros i w t Hw Hb. apply Hf. exact (inv_busy _ _ _ _ Hinv i w t Hw Hb).
  - intros t Hft. apply Hf in Hft.
    destruct (inv_cause _ _ _ _ Hinv t Hft) as [Htt | Hb]; [left; apply Ht; exact Htt |].
    right. exact Hb.
Qed.

Lemma get2_set2 {A} (a : list (list A)) (i j : nat) (x y : A) (i' j' : nat) :
  get2 a i j = Some y ->
  get2 (set2 a i j x) i' j' = if decide (i = i' /\ j = j') then Some x else get2 a i' j'.
Proof.
  unfold get2, set2. intros Hy.
  destruct (a !! i) as [row |] eqn:Hrow; [| discriminate]. simpl in Hy.
  destruct (decide (i = i')) as [<- | Hne].
  - rewrite list_lookup_insert_eq by (eapply lookup_lt_Some; exact Hrow). simpl.
    destruct (decide (j = j')) as [<- | Hnej].
    + rewrite decide_True by (split; reflexivity).
      apply list_lookup_insert_eq. eapply lookup_lt_Some. exact Hy.
    + rewrite decide_False by (intros [_ ?]; contradiction).
      rewrite Hrow. simpl. apply list_lookup_insert_ne. exact Hnej.
  - rewrite decide_False by (intros [? _]; contradiction).
    rewrite list_lookup_insert_ne by exact Hne. reflexivity.
Qed.

Lemma TileTouched_same (e e' : RenderEngine) (t : nat) :
  m_BinList e' = m_BinList e ->
  m_CoverageMasks e' = m_CoverageMasks e ->
  TileTouched e' t <-> TileTouched e t.
Proof.
  intros Hb Hm. unfold TileTouched, TriviallyAccepted, BinnedSome.
  rewrite Hb, Hm. reflexivity.
Qed.

Lemma TileFlagSet_same (e e' : RenderEngine) (t : nat) :
  m_TileList e' = m_TileList e -> TileFlagSet e' t <-> TileFlagSet e t.
Proof. intros Ht. unfold TileFlagSet. rewrite Ht. reflexivity. Qed.

Lemma test_and_set_effect (t : nat) (e e' : RenderEngine) (queued : bool) :
  test_and_set t e = Some (queued, e') ->
  (queued = true <-> TileFlagSet e t)
  /\ (forall t', TileFlagSet e' t' <-> TileFlagSet e t' \/ t' = t)
  /\ m_RasterizerQueue e' = m_RasterizerQueue e
  /\ m_BinList e' = m_BinList e
  /\ m_CoverageMasks e' = m_CoverageMasks e.
Proof.
  unfold test_and_set. intros Hrun.
  destruct (m_TileList e !! t) as [tile |] eqn:Htile; [| discriminate].
  simpl in Hrun. injection Hrun as <- <-.
  split; [| split; [| split; [| split]]]; try reflexivity.
  - unfold TileFlagSet. rewrite Htile. split.
    + intros Hq. exists tile. split; [reflexivity | exact Hq].
    + intros (tile' & Heq & Hq). congruence.
  - intros t'. unfold TileFlagSet. simpl.
    destruct (decide (t' = t)) as [-> | Hne].
    + rewrite list_lookup_insert_eq by (eapply lookup_lt_Some; exact Htile).
      split; [intros _; right; reflexivity |].
      intros _. eexists. split; reflexivity.
    + rewrite list_lookup_insert_ne by congruence.
      split; [intros H; left; exact H | intros [H | H]; [exact H | contradiction]].
Qed.

Lemma AppendCoverageMask_effect (w t : nat) (mask : CoverageMask) (e e' : RenderEngine) :
  AppendCoverageMask w t mask e = Some e' ->
  (forall t', TileTouched e' t' <-> TileTouched e t' \/ t' = t)
  /\ m_RasterizerQueue e' = m_RasterizerQueue e
  /\ m_TileList e' = m_TileList e.
Proof.
  unfold AppendCoverageMask. intros Hrun.
  destruct (get2 (m_CoverageMasks e) t w) as [masks |] eqn:Hmasks; [| discriminate].
  simpl in Hrun. injection Hrun as <-.
  split; [| split; reflexivity].
  intros t'. unfold TileTouched, TriviallyAccepted, BinnedSome. simpl. split.
  - intros (w' & [(m & Hm & Hne) | Hb]).
    + rewrite (get2_set2 _ _ _ _ _ _ _ Hmasks) in Hm.
      destruct (decide (t = t' /\ w = w')) as [[-> _] | _]; [right; reflexivity |].
      left. exists w'. left. eauto.
    + left. exists w'. right. exact Hb.
  - intros [(w' & [(m & Hm & Hne) | Hb]) | ->].
    + exists w'. left.
      rewrite (get2_set2 _ _ _ _ _ _ _ Hmasks).
      destruct (decide (t = t' /\ w = w')) as [_ | _].
      * eexists. split; [reflexivity |]. intros Hnil. destruct masks; discriminate.
      * eauto.
    + exists w'. right. exact Hb.
    + exists w. left. rewrite (get2_set2 _ _ _ _ _ _ _ Hmasks).
      rewrite decide_True by (split; reflexivity).
      eexists. split; [reflexivity |]. intros Hnil. destruct masks; discriminate.
Qed.

Lemma push_back_not_empty (x : Z) (v : Vector) : vec_data (vector_push_back x v) <> [].
Proof.
  unfold vector_push_back. destruct (decide _); simpl; intros Hnil;
    destruct (vec_data v); discriminate.
Qed.

Lemma PushToBin_effect (w t : nat) (primIdx : Z) (e e' : RenderEngine) :
  PushToBin w t primIdx e = Some e' ->
  (forall t', TileTouched e' t' <-> TileTouched e t' \/ t' = t)
  /\ m_RasterizerQueue e' = m_RasterizerQueue e
  /\ m_TileList e' = m_TileList e.
Proof.
  unfold PushToBin. intros Hrun.
  destruct (get2 (m_BinList e) t w) as [b |] eqn:Hbin; [| discriminate].
  simpl in Hrun. injection Hrun as <-.
  split; [| split; reflexivity].
  intros t'. unfold TileTouched, TriviallyAccepted, BinnedSome. simpl. split.
  - intros (w' & [Hm | (b' & Hb & Hne)]).
    + left. exists w'. left. exact Hm.
    + rewrite (get2_set2 _ _ _ _ _ _ _ Hbin) in Hb.
      destruct (decide (t = t' /\ w = w')) as [[-> _] | _]; [right; reflexivity |].
      left. exists w'. right. eauto.
  - intros [(w' & [Hm | (b' & Hb & Hne)]) | ->].
    + exists w'. left. exact Hm.
    + exists w'. right.
      rewrite (get2_set2 _ _ _ _ _ _ _ Hbin).
      destruct (decide (t = t' /\ w = w')) as [_ | _].
      * eexists. split; [reflexivity | apply push_back_not_empty].
      * eauto.
    + exists w. right. rewrite (get2_set2 _ _ _ _ _ _ _ Hbin).
      rewrite decide_True by (split; reflexivity).
      eexists. split; [reflexivity | apply push_back_not_empty].
Qed.

Lemma BeginEnqueue_invariant (e e' : RenderEngine) (ws : list Worker) (k : nat)
    (old : Worker) (a : BinnerAction) (rest : list BinnerAction) (pc' : WorkerPC) :
  SystemInvariant (e, ws) ->
  ws !! k = Some old ->
  w_todo old = a :: rest ->
  w_pc old = AtAction ->
  BeginEnqueue (action_tile a) e = Some (e', pc') ->
  SystemInvariant (e', <[k := mk_Worker (a :: rest) pc']> ws).
Proof.
  unfold SystemInvariant, BeginEnqueue. cbn [fst snd]. intros Hinv Hold Htodo Hpc Hrun.
  destruct (test_and_set (action_tile a) e) as [[queued e1] |] eqn:Htas; [| discriminate].
  cbn in Hrun. injection Hrun as <- <-.
  destruct (test_and_set_effect _ _ _ _ Htas) as (Hq & Hflag & Hqueue & Hbins & Hmasks).
  rewrite Hqueue.
  destruct queued; cbn [negb].
  - apply QueueInvariant_ext with (flagged := TileFlagSet e) (touched := TileTouched e).
    + intros t. rewrite Hflag. split; [| intros H; left; exact H].
      intros [H | ->]; [exact H |]. apply Hq. reflexivity.
    + intros t. apply TileTouched_same; assumption.
    + apply (invariant_after_losing _ _ _ _ k old a rest Hinv Hold Hpc).
      apply Hq. reflexivity.
  - apply QueueInvariant_ext with (flagged := TileFlagSet e1) (touched := TileTouched e).
    + reflexivity.
    + intros t. apply TileTouched_same; assumption.
    + apply (invariant_after_winning _ (TileFlagSet e) _ _ k old a rest Hinv Hold _
               Hpc); [| exact Hflag].
      intros Hset. apply Hq in Hset. discriminate.
Qed.

Lemma SystemStep_invariant (k : nat) (s s' : System) :
  SystemInvariant s -> SystemStep k s = Some s' -> SystemInvariant s'.
Proof.
  destruct s as [e ws]. unfold SystemStep. cbn [fst snd]. intros Hinv Hstep.
  destruct (ws !! k) as [old |] eqn:Hold; [| discriminate].
  cbn [mbind option_bind] in Hstep.
  destruct (WorkerStep k old e) as [[e' w'] |] eqn:Hw; [| discriminate].
  cbn in Hstep. injection Hstep as <-.
  unfold WorkerStep in Hw.
  destruct (w_todo old) as [| a rest] eqn:Htodo; [discriminate |].
  destruct (w_pc old) eqn:Hpc.
  - destruct a as [t mask | t p].
    + destruct (BeginEnqueue t e) as [[e1 pc] |] eqn:Hbe; [| discriminate].
      cbn in Hw. injection Hw as <- <-.
      exact (BeginEnqueue_invariant e e1 ws k old (EmitTile t mask) rest pc
               Hinv Hold Htodo Hpc Hbe).
    + destruct (get2 (m_BinList e) t k) as [tileBin |] eqn:Hbin; [| discriminate].
      cbn [mbind option_bind] in Hw.
      destruct (decide (vec_data tileBin = [])) as [Hempty | Hfull].
      * destruct (BeginEnqueue t e) as [[e1 pc] |] eqn:Hbe; [| discriminate].
        cbn in Hw. injection Hw as <- <-.
        exact (BeginEnqueue_invariant e e1 ws k old (BinPrim t p) rest pc
                 Hinv Hold Htodo Hpc Hbe).
      * injection Hw as <- <-.
        apply (invariant_after_losing _ _ _ _ k old (BinPrim t p) rest Hinv Hold Hpc).
        apply (inv_touched _ _ _ _ Hinv). exists k. right. exists tileBin.
        split; assumption.
  - injection Hw as <- <-.
    unfold SystemInvariant. cbn [fst snd InsertTileIndex set_RasterizerQueue m_RasterizerQueue].
    apply QueueInvariant_ext with (flagged := TileFlagSet e) (touched := TileTouched e).
    + intros t. apply TileFlagSet_same. reflexivity.
    + intros t. apply TileTouched_same; reflexivity.
    + exact (invariant_after_insert _ _ _ _ k old a rest Hinv Hold Htodo Hpc).
  - destruct a as [t mask | t p].
    + destruct (AppendCoverageMask k t mask e) as [e1 |] eqn:Happ; [| discriminate].
      cbn in Hw. injection Hw as <- <-.
      destruct (AppendCoverageMask_effect _ _ _ _ _ Happ) as (Ht & Hq & Htiles).
      unfold SystemInvariant. cbn [fst snd]. rewrite Hq.
      apply QueueInvariant_ext with (flagged := TileFlagSet e) (touched := TileTouched e1).
      * intros t'. apply TileFlagSet_same. exact Htiles.
      * reflexivity.
      * exact (invariant_after_append _ _ _ _ k old (EmitTile t mask) rest Hinv Hold Htodo
                 _ Hpc Ht).
    + destruct (PushToBin k t p e) as [e1 |] eqn:Hpush; [| discriminate].
      cbn in Hw. injection Hw as <- <-.
      destruct (PushToBin_effect _ _ _ _ _ Hpush) as (Ht & Hq & Htiles).
      unfold SystemInvariant. cbn [fst snd]. rewrite Hq.
      apply QueueInvariant_ext with (flagged := TileFlagSet e) (touched := TileTouched e1).
      * intros t'. apply TileFlagSet_same. exact Htiles.
      * reflexivity.
      * exact (invariant_after_append _ _ _ _ k old (BinPrim t p) rest Hinv Hold Htodo
                 _ Hpc Ht).
Qed.

(** The steps of a worker are the pieces of [ApplyBinnerAction]: a worker
    that is not interrupted takes two or three steps for an action and leaves
    the engine as the action run in one piece does. *)
Lemma SystemStep_at (k : nat) (w w' : Worker) (e e' : RenderEngine) (ws : list Worker) :
  ws !! k = Some w ->
  WorkerStep k w e = Some (e', w') ->
  SystemStep k (e, ws) = Some (e', <[k := w']> ws).
Proof.
  intros Hw Hstep. unfold SystemStep. cbn [fst snd].
  rewrite Hw. cbn [mbind option_bind]. rewrite Hstep. reflexivity.
Qed.

Lemma RunSchedule_app (s1 s2 : list nat) (s s' : System) :
  RunSchedule s1 s = Some s' -> RunSchedule (s1 ++ s2) s = RunSchedule s2 s'.
Proof.
  revert s. induction s1 as [| k s1 IH]; intros s Hrun; simpl in *.
  - injection Hrun as <-. reflexivity.
  - destruct (SystemStep k s) as [s0 |]; [| discriminate]. cbn in *. exact (IH s0 Hrun).
Qed.

Lemma enqueue_steps (k : nat) (a : BinnerAction) (rest : list BinnerAction)
    (e e' : RenderEngine) (ws : list Worker) (w : Worker) :
  ws !! k = Some w ->
  (forall e0 pc, BeginEnqueue (action_tile a) e = Some (e0, pc) ->
     WorkerStep k w e = Some (e0, mk_Worker (a :: rest) pc)) ->
  EnqueueTileForRasterization (action_tile a) e = Some e' ->
  exists n : nat,
    RunSchedule (replicate n k) (e, ws)
    = Some (e', <[k := mk_Worker (a :: rest) AfterEnqueue]> ws).
Proof.
  intros Hw Hfirst Henq. unfold EnqueueTileForRasterization in Henq.
  pose proof (lookup_lt_Some _ _ _ Hw) as Hk.
  specialize (Hfirst). unfold BeginEnqueue in Hfirst.
  destruct (test_and_set (action_tile a) e) as [[queued e1] |]; [| discriminate].
  cbn in Henq, Hfirst.
  destruct queued; cbn [negb] in Henq, Hfirst; injection Henq as <-.
  - exists 1%nat. cbn [replicate RunSchedule].
    rewrite (SystemStep_at k w _ e e1 ws Hw (Hfirst _ _ eq_refl)). reflexivity.
  - exists 2%nat. cbn [replicate RunSchedule].
    rewrite (SystemStep_at k w _ e e1 ws Hw (Hfirst _ _ eq_refl)). cbn [mbind option_bind].
    rewrite (SystemStep_at k (mk_Worker (a :: rest) WonFlag)
               (mk_Worker (a :: rest) AfterEnqueue) e1 (InsertTileIndex (action_tile a) e1)).
    + cbn [mbind option_bind]. rewrite list_insert_insert_eq. reflexivity.
    + apply list_lookup_insert_eq. exact Hk.
    + reflexivity.
Qed.

Lemma uninterrupted_steps_are_the_action (k : nat) (a : BinnerAction)
    (rest : list BinnerAction) (e e' : RenderEngine) (ok : bool) (ws : list Worker) :
  ws !! k = Some (mk_Worker (a :: rest) AtAction) ->
  ApplyBinnerAction k a e = Some (e', ok) ->
  exists n : nat,
    RunSchedule (replicate n k) (e, ws) = Some (e', <[k := mk_Worker rest AtAction]> ws).
Proof.
  intros Hw Happ.
  pose proof (lookup_lt_Some _ _ _ Hw) as Hk.
  assert (Hlast : forall e1 e2,
            WorkerStep k (mk_Worker (a :: rest) AfterEnqueue) e1 = Some (e2, mk_Worker rest AtAction) ->
            RunSchedule [k] (e1, <[k := mk_Worker (a :: rest) AfterEnqueue]> ws)
            = Some (e2, <[k := mk_Worker rest AtAction]> ws)).
  { intros e1 e2 Hstep. cbn [RunSchedule].
    rewrite (SystemStep_at k _ _ e1 e2 _ (list_lookup_insert_eq _ _ _ Hk) Hstep).
    cbn [mbind option_bind]. rewrite list_insert_insert_eq. reflexivity. }
  destruct a as [t mask | t p]; cbn [ApplyBinnerAction] in Happ.
  - destruct (EnqueueTileForRasterization t e) as [e1 |] eqn:Henq; [| discriminate].
    cbn [mbind option_bind] in Happ.
    destruct (AppendCoverageMask k t mask e1) as [e2 |] eqn:Hmask; [| discriminate].
    cbn in Happ. injection Happ as <- <-.
    destruct (enqueue_steps k (EmitTile t mask) rest e e1 ws _ Hw) as (n & Hn).
    + intros e0 pc Hbe. cbn. cbn in Hbe. rewrite Hbe. reflexivity.
    + exact Henq.
    + exists (n + 1)%nat. rewrite replicate_add.
      rewrite (RunSchedule_app _ _ _ _ Hn). apply Hlast.
      cbn. rewrite Hmask. reflexivity.
  - unfold BinPrimitiveForTile in Happ.
    destruct (get2 (m_BinList e) t k) as [tileBin |] eqn:Hbin; [| discriminate].
    cbn [mbind option_bind] in Happ.
    destruct (decide (vec_data tileBin = [])) as [Hempty | Hfull].
    + destruct (EnqueueTileForRasterization t e) as [e1 |] eqn:Henq; [| discriminate].
      cbn [mbind option_bind] in Happ.
      destruct (PushToBin k t p e1) as [e2 |] eqn:Hpush; [| discriminate].
      cbn in Happ. injection Happ as <- <-.
      destruct (enqueue_steps k (BinPrim t p) rest e e1 ws _ Hw) as (n & Hn).
      * intros e0 pc Hbe. cbn. cbn in Hbe. rewrite Hbin. cbn [mbind option_bind].
        destruct (decide (vec_data tileBin = [])); [| contradiction].
        rewrite Hbe. reflexivity.
      * exact Henq.
      * exists (n + 1)%nat. rewrite replicate_add.
        rewrite (RunSchedule_app _ _ _ _ Hn). apply Hlast.
        cbn. rewrite Hpush. reflexivity.
    + cbn [mbind option_bind] in Happ.
      destruct (PushToBin k t p e) as [e2 |] eqn:Hpush; [| discriminate].
      cbn in Happ. injection Happ as <- <-.
      exists 2%nat. cbn [replicate RunSchedule].
      rewrite (SystemStep_at k _ (mk_Worker (BinPrim t p :: rest) AfterEnqueue) e e ws Hw).
      * cbn [mbind option_bind]. apply Hlast. cbn. rewrite Hpush. reflexivity.
      * cbn. rewrite Hbin. cbn [mbind option_bind].
        destruct (decide (vec_data tileBin = [])); [contradiction | reflexivity].
Qed.

Lemma RunSchedule_invariant (schedule : list nat) :
  forall s s', SystemInvariant s -> RunSchedule schedule s = Some s' -> SystemInvariant s'.
Proof.
  induction schedule as [| k schedule IH]; intros s s' Hinv Hrun; simpl in Hrun.
  - injection Hrun as <-. exact Hinv.
  - destruct (SystemStep k s) as [s1 |] eqn:Hstep; [| discriminate].
    cbn in Hrun. apply (IH s1 s'); [| exact Hrun].
    exact (SystemStep_invariant k s s1 Hinv Hstep).
Qed.

Lemma lookup_map_Some {A B} (f : A -> B) (l : list A) (i : nat) (y : B) :
  map f l !! i = Some y -> exists x, l !! i = Some x /\ y = f x.
Proof.
  revert i. induction l as [| x l IH]; intros i Hy; [discriminate |].
  destruct i as [| i]; simpl in Hy.
  - injection Hy as <-. exists x. split; reflexivity.
  - exact (IH i Hy).
Qed.

Lemma get2_map_Some {A B} (f : A -> B) (a : list (list A)) (i j : nat) (y : B) :
  get2 (map (map f) a) i j = Some y -> exists x, get2 a i j = Some x /\ y = f x.
Proof.
  unfold get2. intros Hy.
  destruct (map (map f) a !! i) as [row' |] eqn:Hrow'; [| discriminate].
  apply lookup_map_Some in Hrow' as (row & Hrow & ->). rewrite Hrow.
  simpl in *. exact (lookup_map_Some f row j y Hy).
Qed.

Lemma StartOfIteration_invariant (e : RenderEngine) (work : list (list BinnerAction)) :
  SystemInvariant (StartOfIteration e work).
Proof.
  unfold SystemInvariant, StartOfIteration. cbn [fst snd].
  assert (Hidle : forall i w,
            map (fun acts => mk_Worker acts AtAction) work !! i = Some w ->
            w_pc w = AtAction).
  { intros i w Hw. apply lookup_map_Some in Hw as (acts & _ & ->). reflexivity. }
  assert (Hnoflag : forall t, ~ TileFlagSet (ApplyPreDrawIterationStateInvalidations e) t).
  { intros t (tile & Htile & Hq). simpl in Htile.
    apply lookup_map_Some in Htile as (tile0 & _ & ->). discriminate. }
  assert (Hnotouch : forall t, ~ TileTouched (ApplyPreDrawIterationStateInvalidations e) t).
  { intros t (w & [(m & Hm & Hne) | (b & Hb & Hne)]); simpl in *.
    - apply get2_map_Some in Hm as (m0 & _ & ->). apply Hne. reflexivity.
    - apply get2_map_Some in Hb as (b0 & _ & ->). apply Hne. reflexivity. }
  constructor; simpl.
  - apply NoDup_nil_2.
  - intros i w t Hw [Hpc _]. rewrite (Hidle i w Hw) in Hpc. discriminate.
  - intros i j wi wj t Hwi _ [Hpc _] _. rewrite (Hidle i wi Hwi) in Hpc. discriminate.
  - intros t. split; [intros Hf; destruct (Hnoflag t Hf) |].
    intros [Hin | (i & w & Hw & Hpc & _)]; [destruct (not_elem_of_nil t Hin) |].
    rewrite (Hidle i w Hw) in Hpc. discriminate.
  - intros t Ht. destruct (Hnotouch t Ht).
  - intros i w t Hw [Hpc _]. destruct Hpc. exact (Hidle i w Hw).
  - intros t Hf. destruct (Hnoflag t Hf).
Qed.

(** C4.  Start a draw iteration (flags cleared, bins, coverage mask buffers
    and queue reset), give every worker the actions of its binner, and let
    the workers take their steps in any order until all of them are done.
    Then a tile is in the rasterizer queue exactly when some worker trivially
    accepted it or pushed a primitive index into its bin of that tile, and no
    tile is in the queue twice: of the workers that test-and-set the flag of
    a tile only the one that found it clear inserts the tile. *)
Theorem queue_holds_each_touched_tile_once
    (e : RenderEngine) (work : list (list BinnerAction)) (schedule : list nat)
    (e' : RenderEngine) (ws' : list Worker) :
  RunSchedule schedule (StartOfIteration e work) = Some (e', ws') ->
  Forall WorkerDone ws' ->
  NoDup (m_RasterizerQueue e')
  /\ forall tileIdx : nat,
       tileIdx ∈ m_RasterizerQueue e' <->
       exists threadIdx : nat,
         TriviallyAccepted e' tileIdx threadIdx \/ BinnedSome e' tileIdx threadIdx.
Proof.
  intros Hrun Hdone.
  pose proof (RunSchedule_invariant schedule _ _ (StartOfIteration_invariant e work) Hrun)
    as Hinv.
  unfold SystemInvariant in Hinv. cbn [fst snd] in Hinv.
  assert (Hidle : forall i w, ws' !! i = Some w -> w_pc w = AtAction).
  { intros i w Hw. rewrite Forall_lookup in Hdone. exact (proj2 (Hdone i w Hw)). }
  split; [exact (inv_nodup _ _ _ _ Hinv) |].
  intros t. split.
  - intros Hin.
    assert (Hf : TileFlagSet e' t) by (apply (inv_flag _ _ _ _ Hinv); left; exact Hin).
    destruct (inv_cause _ _ _ _ Hinv t Hf) as [Ht | (i & w & Hw & Hpc & _)]; [exact Ht |].
    destruct Hpc. exact (Hidle i w Hw).
  - intros Ht.
    apply (inv_touched _ _ _ _ Hinv) in Ht.
    apply (inv_flag _ _ _ _ Hinv) in Ht as [Hin | (i & w & Hw & Hpc & _)]; [exact Hin |].
    rewrite (Hidle i w Hw) in Hpc. discriminate.
Qed.

Lemma queue_holds_each_touched_tile_once_witness :
  exists (e' : RenderEngine) (ws' : list Worker),
    RunSchedule Scene.interleaving
      (StartOfIteration Scene.two_tile_engine Scene.binner_work) = Some (e', ws')
    /\ Forall WorkerDone ws'
    /\ m_RasterizerQueue e' = [0; 1]%nat
    /\ NoDup (m_RasterizerQueue e')
    /\ forall tileIdx : nat,
         tileIdx ∈ m_RasterizerQueue e' <->
         exists threadIdx : nat,
           TriviallyAccepted e' tileIdx threadIdx \/ BinnedSome e' tileIdx threadIdx.
Proof.
  destruct (RunSchedule Scene.interleaving
              (StartOfIteration Scene.two_tile_engine Scene.binner_work))
    as [[e' ws'] |] eqn:Hrun; [| vm_compute in Hrun; discriminate].
  exists e', ws'.
  assert (Hdone : Forall WorkerDone ws').
  { vm_compute in Hrun. injection Hrun as <- <-.
    repeat (constructor; [split; reflexivity |]). constructor. }
  split; [reflexivity |].
  split; [exact Hdone |].
  split; [vm_compute in Hrun; injection Hrun as <- <-; reflexivity |].
  exact (queue_holds_each_touched_tile_once Scene.two_tile_engine Scene.binner_work
           Scene.interleaving e' ws' Hrun Hdone).
Defined.

(** ** The split of a draw into iterations and ranges *)

Section DrawSplit.

Variable cfg : RasterizerConfig.

Let N := m_NumPipelineThreads cfg.
Let Max := m_MaxDrawIterationSize cfg.

Hypothesis HN : 0 < N < u32_mod.
Hypothesis HMax : 0 <= Max < u32_mod.

Lemma DrawThread_step (per rem prev remaining : Z) (ranges : list (Z * Z)) (k : nat) :
  let d := if Z.of_nat k =? N - 1 then per + rem else per in
  0 <= prev -> 0 <= d <= remaining -> prev + remaining < u32_mod ->
  DrawThread cfg per rem (prev, remaining, ranges) k
  = (prev + d, remaining - d, ranges ++ [(prev, prev + d)]).
Proof.
  intros d Hprev Hd Hsum. unfold DrawThread. fold N.
  rewrite (u32_small (N - 1)) by lia.
  assert (Hend : (if Z.of_nat k =? N - 1 then u32 (prev + per + rem) else u32 (prev + per))
                 = prev + d).
  { subst d. destruct (Z.of_nat k =? N - 1); rewrite u32_small by lia; lia. }
  rewrite Hend.
  replace (prev + d - prev) with d by lia.
  rewrite (u32_small d) by lia. rewrite (u32_small (remaining - d)) by lia.
  reflexivity.
Qed.

Lemma EvenRanges_snoc (prev per : Z) (n : nat) :
  EvenRanges prev per (S n)
  = EvenRanges prev per n ++ [(prev + Z.of_nat n * per, prev + (Z.of_nat n + 1) * per)].
Proof. unfold EvenRanges. rewrite seq_S, map_app. reflexivity. Qed.

Lemma DrawThread_even (per rem prev remaining : Z) (n : nat) :
  (Z.of_nat n <= N - 1) ->
  0 <= per -> 0 <= prev -> Z.of_nat n * per <= remaining ->
  prev + remaining < u32_mod ->
  foldl (DrawThread cfg per rem) (prev, remaining, []) (seq 0 n)
  = (prev + Z.of_nat n * per, remaining - Z.of_nat n * per, EvenRanges prev per n).
Proof.
  intros Hn Hper Hprev. induction n as [| n IH]; intros Hrem Hsum.
  - simpl. rewrite Z.add_0_r, Z.sub_0_r. reflexivity.
  - rewrite seq_S, foldl_app, IH by nia. cbn [foldl Nat.add].
    rewrite DrawThread_step.
    + destruct (Z.eqb_spec (Z.of_nat n) (N - 1)) as [Heq | _]; [lia |].
      rewrite EvenRanges_snoc.
      replace (prev + Z.of_nat n * per + per) with (prev + Z.of_nat (S n) * per) by lia.
      replace (remaining - Z.of_nat n * per - per)
        with (remaining - Z.of_nat (S n) * per) by lia.
      replace (prev + (Z.of_nat n + 1) * per) with (prev + Z.of_nat (S n) * per) by lia.
      reflexivity.
    + nia.
    + destruct (Z.eqb_spec (Z.of_nat n) (N - 1)) as [Heq | _]; [lia |]. nia.
    + nia.
Qed.

Lemma IterationSize_min (remaining : Z) :
  IterationSize cfg remaining = Z.min remaining Max.
Proof.
  unfold IterationSize. fold Max.
  destruct (Z.geb_spec remaining Max); lia.
Qed.

Lemma DrawIteration_eq (prev remaining : Z) :
  0 <= prev -> 0 <= remaining -> prev + remaining < u32_mod ->
  let size := Z.min remaining Max in
  let per := size / N in
  DrawIteration cfg prev remaining
  = (prev + size, remaining - size,
     EvenRanges prev per (Z.to_nat N - 1) ++ [(prev + (N - 1) * per, prev + size)]).
Proof.
  intros Hprev Hrem Hsum size per. unfold DrawIteration.
  rewrite IterationSize_min. fold N size per.
  assert (Hsize : 0 <= size <= remaining) by (subst size; lia).
  assert (Hper : 0 <= per) by (subst per; apply Z.div_pos; lia).
  assert (Hmod : 0 <= size mod N < N) by (apply Z.mod_pos_bound; lia).
  assert (Hdiv : size = N * per + size mod N) by (subst per; apply Z.div_mod; lia).
  replace (Z.to_nat N) with (S (Z.to_nat N - 1)) at 1 by lia.
  rewrite seq_S, foldl_app, DrawThread_even by nia.
  cbn [foldl Nat.add]. rewrite DrawThread_step.
  - replace (Z.of_nat (Z.to_nat N - 1)) with (N - 1) by lia.
    rewrite Z.eqb_refl.
    replace (prev + (N - 1) * per + (per + size mod N)) with (prev + size) by nia.
    replace (remaining - (N - 1) * per - (per + size mod N)) with (remaining - size) by nia.
    reflexivity.
  - nia.
  - replace (Z.of_nat (Z.to_nat N - 1)) with (N - 1) by lia.
    rewrite Z.eqb_refl. nia.
  - nia.
Qed.

Lemma Contiguous_app (lo mid hi : Z) (r1 r2 : list (Z * Z)) :
  Contiguous lo mid r1 -> Contiguous mid hi r2 -> Contiguous lo hi (r1 ++ r2).
Proof.
  revert lo. induction r1 as [| [s e] r1 IH]; intros lo H1 H2; simpl in *.
  - subst mid. exact H2.
  - destruct H1 as (Hs & He & H1). split; [exact Hs |]. split; [exact He |].
    exact (IH e H1 H2).
Qed.

Lemma Contiguous_lookup (ranges : list (Z * Z)) :
  forall lo hi t s e,
    Contiguous lo hi ranges -> ranges !! t = Some (s, e) -> lo <= s /\ s <= e /\ e <= hi.
Proof.
  induction ranges as [| [s0 e0] ranges IH]; intros lo hi t s e Hc Ht; [discriminate |].
  destruct Hc as (-> & He0 & Hc).
  assert (Hhi : e0 <= hi).
  { clear -Hc. revert e0 Hc. induction ranges as [| [s1 e1] ranges IHr]; intros e0 Hc.
    - simpl in Hc. lia.
    - destruct Hc as (-> & He1 & Hc). specialize (IHr e1 Hc). lia. }
  destruct t as [| t]; simpl in Ht.
  - injection Ht as <- <-. lia.
  - destruct (IH e0 hi t s e Hc Ht) as (H1 & H2 & H3). lia.
Qed.

Lemma EvenRanges_contiguous (prev per : Z) (n : nat) :
  0 <= per -> Contiguous prev (prev + Z.of_nat n * per) (EvenRanges prev per n).
Proof.
  intros Hper. induction n as [| n IH].
  - simpl. lia.
  - rewrite EvenRanges_snoc.
    apply Contiguous_app with (mid := prev + Z.of_nat n * per); [exact IH |].
    simpl. split; [reflexivity |]. split; lia.
Qed.

Lemma EvenRanges_lookup (prev per : Z) (n t : nat) (s e : Z) :
  EvenRanges prev per n !! t = Some (s, e) -> (t < n)%nat /\ e - s = per.
Proof.
  unfold EvenRanges. intros Ht.
  apply lookup_map_Some in Ht as (k & Hk & Heq).
  apply lookup_seq in Hk as [-> Hlt]. injection Heq as -> ->.
  split; [exact Hlt | lia].
Qed.

Lemma EvenRanges_length (prev per : Z) (n : nat) : length (EvenRanges prev per n) = n.
Proof. unfold EvenRanges. rewrite length_map, length_seq. reflexivity. Qed.

Lemma IterationRanges_contiguous (prev size : Z) :
  0 <= size ->
  let ranges :=
    EvenRanges prev (size / N) (Z.to_nat N - 1) ++ [(prev + (N - 1) * (size / N), prev + size)] in
  Z.of_nat (length ranges) = N /\ Contiguous prev (prev + size) ranges.
Proof.
  intros Hsize ranges. subst ranges.
  assert (Hper : 0 <= size / N) by (apply Z.div_pos; lia).
  assert (Hdiv : size = N * (size / N) + size mod N) by (apply Z.div_mod; lia).
  assert (Hmod : 0 <= size mod N < N) by (apply Z.mod_pos_bound; lia).
  split; [rewrite length_app, EvenRanges_length; simpl; lia |].
  apply Contiguous_app with (mid := prev + Z.of_nat (Z.to_nat N - 1) * (size / N)).
  - apply EvenRanges_contiguous. exact Hper.
  - replace (Z.of_nat (Z.to_nat N - 1)) with (N - 1) by lia.
    simpl. split; [reflexivity |]. split; [nia | reflexivity].
Qed.

(** X2.  One iteration of [Draw] hands out [min(numRemainingPrims,
    m_MaxDrawIterationSize)] primitives to its [N] threads: the ranges follow
    one another from [drawElemsPrev], every thread but the last gets
    [iterationSize / N] primitives, the last one gets these and the remainder
    [iterationSize % N], and [numRemainingPrims] drops by the size of the
    iteration. *)
Theorem DrawIteration_splits_the_iteration
    (prev remaining prev' remaining' : Z) (ranges : list (Z * Z)) :
  0 <= prev -> 0 <= remaining -> prev + remaining < u32_mod ->
  DrawIteration cfg prev remaining = (prev', remaining', ranges) ->
  let size := Z.min remaining Max in
  prev' = prev + size
  /\ remaining' = remaining - size
  /\ Z.of_nat (length ranges) = N
  /\ Contiguous prev (prev + size) ranges
  /\ forall (t : nat) (s e : Z),
       ranges !! t = Some (s, e) ->
       e - s = if Z.of_nat t =? N - 1 then size / N + size mod N else size / N.
Proof.
  intros Hprev Hrem Hsum Hrun size.
  rewrite DrawIteration_eq in Hrun by assumption. fold size in Hrun.
  injection Hrun as <- <- <-.
  assert (Hsize : 0 <= size <= remaining) by (subst size; lia).
  assert (Hdiv : size = N * (size / N) + size mod N) by (apply Z.div_mod; lia).
  destruct (IterationRanges_contiguous prev size ltac:(lia)) as [Hlen Hc].
  split; [reflexivity |]. split; [reflexivity |].
  split; [exact Hlen |]. split; [exact Hc |].
  intros t s e Ht.
  apply lookup_app_Some in Ht as [Hl | [Hge Hr]].
  - apply EvenRanges_lookup in Hl as [Hlt Hlen'].
    destruct (Z.eqb_spec (Z.of_nat t) (N - 1)); [lia | exact Hlen'].
  - rewrite EvenRanges_length in Hge, Hr.
    destruct (t - (Z.to_nat N - 1))%nat as [| d] eqn:Hd; [| destruct d; discriminate].
    injection Hr as <- <-.
    destruct (Z.eqb_spec (Z.of_nat t) (N - 1)); [nia | lia].
Qed.

Lemma DrawLoop_zero (fuel : nat) (prev : Z) : DrawLoop fuel cfg prev 0 = Some [].
Proof. destruct fuel; reflexivity. Qed.

(** With a positive iteration size the loop header of every worker is
    defined. *)
Lemma StartWorkers_defined (ranges : list (Z * Z)) :
  0 < Max -> is_Some (StartWorkers cfg ranges).
Proof.
  intros HMaxpos. unfold StartWorkers. apply mapM_is_Some, Forall_forall.
  intros [s e] _. unfold u32_rem. fold Max.
  destruct (Z.eqb_spec Max 0); [lia | eexists; reflexivity].
Qed.

Lemma DrawLoop_ranges (fuel : nat) :
  0 < Max ->
  forall (prev remaining : Z) (iters : list (list (Z * Z))),
    0 <= prev -> 0 <= remaining -> prev + remaining < u32_mod ->
    DrawLoop fuel cfg prev remaining = Some iters ->
    Z.of_nat (length iters) = (remaining + Max - 1) / Max
    /\ forall (j : nat) (ranges : list (Z * Z)),
         iters !! j = Some ranges ->
         Z.of_nat (length ranges) = N
         /\ Contiguous (prev + Z.of_nat j * Max)
              (Z.min (prev + (Z.of_nat j + 1) * Max) (prev + remaining)) ranges.
Proof.
  intros HMaxpos. induction fuel as [| fuel IH]; intros prev remaining iters Hprev Hrem Hsum Hrun.
  - simpl in Hrun. destruct (Z.gtb_spec remaining 0); [discriminate |].
    injection Hrun as <-. assert (remaining = 0) as -> by lia.
    split; [simpl; symmetry; apply Z.div_small; lia | intros j ranges Hj; discriminate].
  - simpl in Hrun. destruct (Z.gtb_spec remaining 0) as [Hpos | Hzero].
    + rewrite DrawIteration_eq in Hrun by assumption.
      destruct (IterationRanges_contiguous prev (Z.min remaining Max) ltac:(lia))
        as [Hlen0 Hc0].
      cbv zeta in Hlen0, Hc0.
      set (ranges0 := EvenRanges prev _ _ ++ _) in *.
      destruct (StartWorkers cfg ranges0) as [started |]; [| discriminate].
      cbn [mbind option_bind] in Hrun.
      destruct (DrawLoop fuel cfg _ _) as [rest |] eqn:Hrest; [| discriminate].
      cbn in Hrun. injection Hrun as <-.
      destruct (Z.le_gt_cases remaining Max) as [Hlast | Hmore].
      * rewrite Z.min_l in Hrest, Hc0 by lia.
        rewrite Z.sub_diag, DrawLoop_zero in Hrest. injection Hrest as <-.
        split.
        { simpl. apply Z.div_unique with (r := remaining - 1); lia. }
        intros [| j] ranges Hj; [| discriminate]. injection Hj as <-.
        split; [exact Hlen0 |].
        change (Z.of_nat 0) with 0.
        rewrite Z.min_r by lia.
        replace (prev + 0 * Max) with prev by lia. exact Hc0.
      * rewrite Z.min_r in Hrest, Hc0 by lia.
        apply IH in Hrest as [Hlen Hall]; [| lia ..].
        split.
        { cbn [length]. rewrite Nat2Z.inj_succ, Hlen.
          replace (remaining + Max - 1) with (remaining - Max + Max - 1 + 1 * Max) by lia.
          rewrite Z.div_add by lia. lia. }
        intros [| j] ranges Hj.
        { injection Hj as <-. split; [exact Hlen0 |].
          change (Z.of_nat 0) with 0.
          rewrite Z.min_l by lia.
          replace (prev + 0 * Max) with prev by lia.
          replace (prev + (0 + 1) * Max) with (prev + Max) by lia. exact Hc0. }
        destruct (Hall j ranges Hj) as [HlenJ Hcj]. split; [exact HlenJ |].
        replace (prev + Z.of_nat (S j) * Max) with (prev + Max + Z.of_nat j * Max) by lia.
        replace (prev + (Z.of_nat (S j) + 1) * Max)
          with (prev + Max + (Z.of_nat j + 1) * Max) by lia.
        replace (prev + remaining) with (prev + Max + (remaining - Max)) by lia.
        exact Hcj.
    + injection Hrun as <-. assert (remaining = 0) as -> by lia.
      split; [simpl; symmetry; apply Z.div_small; lia | intros j ranges Hj; discriminate].
Qed.

Lemma DrawLoop_terminates (fuel : nat) :
  0 < Max ->
  forall prev remaining : Z,
    0 <= prev -> 0 <= remaining -> prev + remaining < u32_mod ->
    remaining <= Z.of_nat fuel * Max ->
    is_Some (DrawLoop fuel cfg prev remaining).
Proof.
  intros HMaxpos. induction fuel as [| fuel IH]; intros prev remaining Hprev Hrem Hsum Hfuel.
  - assert (remaining = 0) as -> by lia. eexists; reflexivity.
  - simpl. destruct (Z.gtb_spec remaining 0) as [Hpos | Hzero]; [| eexists; reflexivity].
    rewrite DrawIteration_eq by assumption.
    destruct (StartWorkers_defined
                (EvenRanges prev (Z.min remaining Max / N) (Z.to_nat N - 1)
                 ++ [(prev + (N - 1) * (Z.min remaining Max / N),
                      prev + Z.min remaining Max)]) HMaxpos) as [started Hstarted].
    rewrite Hstarted. cbn [mbind option_bind].
    destruct (IH (prev + Z.min remaining Max) (remaining - Z.min remaining Max))
      as [rest Hrest]; [lia | lia | lia | nia |].
    rewrite Hrest. eexists; reflexivity.
Qed.

(** X3.  With at least one primitive per iteration allowed, [Draw] ends
    after [ceil(primCount / m_MaxDrawIterationSize)] iterations; iteration
    [j] hands the primitives from [j * Max] up to [min((j+1) * Max,
    primCount)] to its threads, in ranges that follow one another: every
    primitive of the draw is in exactly one range. *)
Theorem Draw_hands_out_every_primitive_once (fuel : nat) (primCount : Z) :
  0 < Max -> 0 <= primCount < u32_mod -> primCount <= Z.of_nat fuel * Max ->
  exists iters : list (list (Z * Z)),
    Draw fuel cfg primCount = Some iters
    /\ Z.of_nat (length iters) = (primCount + Max - 1) / Max
    /\ forall (j : nat) (ranges : list (Z * Z)),
         iters !! j = Some ranges ->
         Z.of_nat (length ranges) = N
         /\ Contiguous (Z.of_nat j * Max) (Z.min ((Z.of_nat j + 1) * Max) primCount) ranges.
Proof.
  intros HMaxpos Hcount Hfuel. unfold Draw.
  destruct (DrawLoop_terminates fuel HMaxpos 0 primCount) as [iters Hrun]; [lia .. |].
  exists iters. split; [exact Hrun |].
  exact (DrawLoop_ranges fuel HMaxpos 0 primCount iters ltac:(lia) ltac:(lia) ltac:(lia) Hrun).
Qed.

(** X5.  In every range that [Draw] hands out, the [drawIdx] that
    [ProcessDrawcall] gives to a primitive is the primitive's index modulo
    [m_MaxDrawIterationSize], its position in the iteration: it is below
    [m_MaxDrawIterationSize], and two primitives of one iteration never get
    the same [drawIdx]. *)
Theorem drawIdx_is_position_in_iteration
    (fuel : nat) (primCount : Z) (iters : list (list (Z * Z)))
    (j t : nat) (ranges : list (Z * Z)) (s e k : Z) :
  0 < Max -> 0 <= primCount < u32_mod ->
  Draw fuel cfg primCount = Some iters ->
  iters !! j = Some ranges ->
  ranges !! t = Some (s, e) ->
  0 <= k < e - s ->
  DrawIdx cfg s k = s + k - Z.of_nat j * Max
  /\ DrawIdx cfg s k = (s + k) mod Max
  /\ 0 <= DrawIdx cfg s k < Max.
Proof.
  intros HMaxpos Hcount Hrun Hj Ht Hk.
  destruct (DrawLoop_ranges fuel HMaxpos 0 primCount iters
              ltac:(lia) ltac:(lia) ltac:(lia) Hrun) as [_ Hall].
  destruct (Hall j ranges Hj) as [_ Hc].
  destruct (Contiguous_lookup _ _ _ _ _ _ Hc Ht) as (Hlo & Hse & Hhi).
  unfold DrawIdx. fold Max.
  assert (Hs : s mod Max = s - Z.of_nat j * Max).
  { symmetry. apply Z.mod_unique with (q := Z.of_nat j); lia. }
  assert (Hsk : (s + k) mod Max = s + k - Z.of_nat j * Max).
  { symmetry. apply Z.mod_unique with (q := Z.of_nat j); lia. }
  rewrite Hs, Hsk. rewrite u32_small by lia. lia.
Qed.

End DrawSplit.

Lemma DrawIteration_is_DrawIterationRanges (cfg : RasterizerConfig) (prev remaining : Z) :
  snd (DrawIteration cfg prev remaining) = DrawIterationRanges cfg prev remaining.
Proof.
  unfold DrawIteration, DrawIterationRanges. cbv zeta.
  match goal with
  | |- snd (foldl ?f3 _ ?threads) = snd (foldl ?f2 _ ?threads) =>
      assert (Hfold : forall ts p r rs,
                (fst (fst (foldl f3 (p, r, rs) ts)), snd (foldl f3 (p, r, rs) ts))
                = foldl f2 (p, rs) ts)
  end.
  { induction ts as [| t ts IH]; intros p r rs; [reflexivity |]. simpl. apply IH. }
  rewrite <- (Hfold _ prev remaining []). reflexivity.
Qed.

Lemma DrawIteration_splits_the_iteration_witness :
  DrawIteration Scene.config 0 3 = (3, 0, [(0, 1); (1, 3)])
  /\ Contiguous 0 3 [(0, 1); (1, 3)].
Proof.
  split; [reflexivity |].
  assert (HN : 0 < m_NumPipelineThreads Scene.config < u32_mod) by (vm_compute; split; reflexivity).
  assert (HMax : 0 <= m_MaxDrawIterationSize Scene.config < u32_mod)
    by (vm_compute; split; [discriminate | reflexivity]).
  apply (DrawIteration_splits_the_iteration Scene.config HN HMax 0 3 3 0 [(0, 1); (1, 3)]).
  - lia.
  - lia.
  - vm_compute. reflexivity.
  - reflexivity.
Defined.

Lemma Draw_hands_out_every_primitive_once_witness :
  exists iters : list (list (Z * Z)),
    Draw 3 Scene.config 7 = Some iters /\ Z.of_nat (length iters) = 3.
Proof.
  assert (HN : 0 < m_NumPipelineThreads Scene.config < u32_mod) by (vm_compute; split; reflexivity).
  assert (HMax : 0 <= m_MaxDrawIterationSize Scene.config < u32_mod)
    by (vm_compute; split; [discriminate | reflexivity]).
  destruct (Draw_hands_out_every_primitive_once Scene.config HN HMax 3 7)
    as (iters & Hrun & Hlen & _).
  - vm_compute. reflexivity.
  - vm_compute. split; [discriminate | reflexivity].
  - vm_compute. discriminate.
  - exists iters. split; [exact Hrun | exact Hlen].
Defined.

Lemma drawIdx_is_position_in_iteration_witness :
  DrawIdx Scene.config 4 1 = 2 /\ 0 <= DrawIdx Scene.config 4 1 < 3.
Proof.
  assert (HN : 0 < m_NumPipelineThreads Scene.config < u32_mod) by (vm_compute; split; reflexivity).
  assert (HMax : 0 <= m_MaxDrawIterationSize Scene.config < u32_mod)
    by (vm_compute; split; [discriminate | reflexivity]).
  destruct (drawIdx_is_position_in_iteration Scene.config HN HMax 3 7
              [[(0, 1); (1, 3)]; [(3, 4); (4, 6)]; [(6, 6); (6, 7)]] 1 1 [(3, 4); (4, 6)] 4 6 1)
    as (Hidx & _ & Hlt).
  - vm_compute. reflexivity.
  - vm_compute. split; [discriminate | reflexivity].
  - vm_compute. reflexivity.
  - reflexivity.
  - reflexivity.
  - lia.
  - split; [exact Hidx | exact Hlt].
Defined.

(** ** The vertex cache: where a miss is stored *)

(** X6.  A vertex [v] that misses the cache is shaded, and when the cache
    has room the result is stored in the first free entry under the key
    that the call site passes to [CacheVertexData]: the index of the vertex
    itself in the blocks of vertex 0 and vertex 1 of [ExecuteVertexShader],
    the index of vertex 0 in the block of vertex 2.  The entry count goes up
    by one, every vertex found before is still found at the same place, and
    the key is found from now on.  The next lookup of [v] finds the new
    entry when the key is [v], and misses again when it is not.  When the
    cache is full the miss leaves it as it was. *)
Theorem cache_miss_is_cached_under_the_key_of_the_call
    (size : Z) (VS : Z -> vec4 * VertexAttributes) (vertexStride : Z)
    (v key : Z) (c c' : VSCache) (clip : vec4) (a : VertexAttributes) :
  0 <= size < 2 ^ 32 ->
  WellFormedCache size c ->
  PerformVertexCacheLookup v c = None ->
  ShadeVertexCached size VS vertexStride v key c = Some (clip, a, c') ->
  (clip, a) = VS (u32 (vertexStride * v))
  /\ if m_NumVertexCacheEntries c <? size then
       let entry := Z.to_nat (m_NumVertexCacheEntries c) in
       m_NumVertexCacheEntries c' = m_NumVertexCacheEntries c + 1
       /\ m_CachedVertexIndices c' !! entry = Some key
       /\ m_VertexCacheEntries c' !! entry = Some (mk_VertexCache clip a)
       /\ (forall (q : Z) (r : nat),
             PerformVertexCacheLookup q c = Some r -> PerformVertexCacheLookup q c' = Some r)
       /\ is_Some (PerformVertexCacheLookup key c')
       /\ PerformVertexCacheLookup v c' = (if key =? v then Some entry else None)
     else c' = c.
Proof.
  intros Hsize Hwf Hmiss Hrun. unfold ShadeVertexCached in Hrun. rewrite Hmiss in Hrun.
  destruct (VS (u32 (vertexStride * v))) as [clip0 a0].
  injection Hrun as <- <- <-.
  split; [reflexivity |].
  pose proof (lookup_after_caching size Hsize v key clip0 a0 c Hwf) as Hv.
  pose proof (lookup_after_caching size Hsize key key clip0 a0 c Hwf) as Hkey.
  assert (Hothers : forall q r, PerformVertexCacheLookup q c = Some r ->
            PerformVertexCacheLookup q (CacheVertexData size key clip0 a0 c) = Some r).
  { intros q r Hq. rewrite (lookup_after_caching size Hsize q key clip0 a0 c Hwf), Hq.
    destruct (_ <? _); reflexivity. }
  destruct Hwf as (Hn & Hindices & Hentries).
  unfold CacheVertexData in *.
  destruct (m_NumVertexCacheEntries c <? size) eqn:Hroom; [| reflexivity].
  apply Z.ltb_lt in Hroom.
  rewrite Hmiss in Hv. rewrite Z.eqb_refl in Hkey.
  cbn [m_NumVertexCacheEntries m_VertexCacheEntries m_CachedVertexIndices].
  split; [apply u32_small; unfold u32_mod; lia |].
  split; [apply list_lookup_insert_eq; lia |].
  split; [apply list_lookup_insert_eq; lia |].
  split; [exact Hothers |].
  split; [| exact Hv].
  rewrite Hkey. destruct (PerformVertexCacheLookup key c); eexists; reflexivity.
Qed.

Lemma cache_miss_is_cached_under_the_key_of_the_call_witness :
  exists c' : VSCache,
    ShadeVertexCached 16 Scene.offset_VS 1 7 5 Scene.empty_cache
      = Some (fst (Scene.offset_VS 7), snd (Scene.offset_VS 7), c')
    /\ PerformVertexCacheLookup 7 c' = None.
Proof.
  eexists. split; [vm_compute; reflexivity |].
  refine (proj2 (proj2 (proj2 (proj2 (proj2 (proj2
            (cache_miss_is_cached_under_the_key_of_the_call 16 Scene.offset_VS 1 7 5
               Scene.empty_cache _ _ _ _ _ _ _))))))).
  - vm_compute. split; [discriminate | reflexivity].
  - vm_compute. repeat split; discriminate.
  - reflexivity.
  - vm_compute. reflexivity.
Defined.

Lemma ShadeTriangle_cached_is_uncached_witness :
  exists (v0Clip v1Clip v2Clip : vec4)
         (attribs : VertexAttributes * VertexAttributes * VertexAttributes) (c' : VSCache),
    ShadeTriangle true 16 Scene.offset_VS [5; 6; 7] 1 0 0 Scene.empty_cache
      = Some (v0Clip, v1Clip, v2Clip, attribs, c')
    /\ ShadeTriangle false 16 Scene.offset_VS [5; 6; 7] 1 0 0 Scene.empty_cache
       = Some (v0Clip, v1Clip, v2Clip, attribs, Scene.empty_cache).
Proof.
  destruct (ShadeTriangle true 16 Scene.offset_VS [5; 6; 7] 1 0 0 Scene.empty_cache)
    as [[[[[v0Clip v1Clip] v2Clip] attribs] c'] |] eqn:Hrun;
    [| vm_compute in Hrun; discriminate].
  exists v0Clip, v1Clip, v2Clip, attribs, c'. split; [reflexivity |].
  refine (proj1 (ShadeTriangle_cached_is_uncached 16 Scene.offset_VS 1 _ [5; 6; 7] 0 0
            Scene.empty_cache c' v0Clip v1Clip v2Clip attribs _ Hrun)).
  - vm_compute. split; [discriminate | reflexivity].
  - split; [vm_compute; repeat split; discriminate |].
    intros v r e Hhit _. vm_compute in Hhit. discriminate.
Defined.

(** ** Bins, coverage mask buffers and queue do not depend on the interleaving *)

Lemma todo_of_updated (ws : list Worker) (k0 k : nat) (w w' : Worker) :
  ws !! k0 = Some w ->
  todo_of (<[k0 := w']> ws) k = if decide (k = k0) then w_todo w' else todo_of ws k.
Proof.
  intros Hw. unfold todo_of. destruct (decide (k = k0)) as [-> | Hne].
  - rewrite list_lookup_insert_eq by (eapply lookup_lt_Some; exact Hw). reflexivity.
  - rewrite list_lookup_insert_ne by congruence. reflexivity.
Qed.

Lemma todo_of_start (work : list (list BinnerAction)) (k : nat) :
  todo_of (map (fun acts => mk_Worker acts AtAction) work) k = work_of work k.
Proof.
  unfold todo_of, work_of. revert k.
  induction work as [| acts work IH]; intros [| k]; try reflexivity. apply IH.
Qed.

Lemma vec_data_push_back (x : Z) (v : Vector) :
  vec_data (vector_push_back x v) = vec_data v ++ [x].
Proof. unfold vector_push_back. destruct (decide _); reflexivity. Qed.

(** A step that changes neither the bins, nor the buffers, nor the list of
    actions of its worker. *)
Lemma OrderInvariant_quiet (work : list (list BinnerAction)) (e e' : RenderEngine)
    (ws : list Worker) (k0 : nat) (w w' : Worker) :
  OrderInvariant work (e, ws) ->
  ws !! k0 = Some w ->
  w_todo w' = w_todo w ->
  m_BinList e' = m_BinList e ->
  m_CoverageMasks e' = m_CoverageMasks e ->
  OrderInvariant work (e', <[k0 := w']> ws).
Proof.
  intros [Hbins Hmasks Hdone] Hw Htodo Hb Hm.
  assert (Hsame : forall k, todo_of (<[k0 := w']> ws) k = todo_of ws k).
  { intros k. rewrite (todo_of_updated ws k0 k w w' Hw).
    destruct (decide (k = k0)) as [-> | _]; [| reflexivity].
    rewrite Htodo. unfold todo_of. rewrite Hw. reflexivity. }
  constructor; cbn [fst snd] in *.
  - intros t k b Hget. rewrite Hsame. rewrite Hb in Hget. exact (Hbins t k b Hget).
  - intros t k m Hget. rewrite Hsame. rewrite Hm in Hget. exact (Hmasks t k m Hget).
  - intros k a Ha. rewrite Hsame.
    destruct (Hdone k a Ha) as [Htodo' | Ht]; [left; exact Htodo' |].
    right. apply (TileTouched_same e e'); assumption.
Qed.

Lemma BeginEnqueue_quiet (t : nat) (e e' : RenderEngine) (pc : WorkerPC) :
  BeginEnqueue t e = Some (e', pc) ->
  m_BinList e' = m_BinList e /\ m_CoverageMasks e' = m_CoverageMasks e.
Proof.
  unfold BeginEnqueue. intros Hrun.
  destruct (test_and_set t e) as [[queued e1] |] eqn:Htas; [| discriminate].
  cbn in Hrun. injection Hrun as <- <-.
  destruct (test_and_set_effect _ _ _ _ Htas) as (_ & _ & _ & Hb & Hm).
  split; assumption.
Qed.

Lemma SystemStep_order (work : list (list BinnerAction)) (k0 : nat) (s s' : System) :
  OrderInvariant work s -> SystemStep k0 s = Some s' -> OrderInvariant work s'.
Proof.
  destruct s as [e ws]. unfold SystemStep. cbn [fst snd]. intros Hinv Hstep.
  destruct (ws !! k0) as [w |] eqn:Hw; [| discriminate].
  cbn [mbind option_bind] in Hstep.
  destruct (WorkerStep k0 w e) as [[e' w'] |] eqn:Hws; [| discriminate].
  cbn in Hstep. injection Hstep as <-.
  unfold WorkerStep in Hws.
  destruct (w_todo w) as [| a rest] eqn:Htodo; [discriminate |].
  assert (Htodo0 : todo_of ws k0 = a :: rest) by (unfold todo_of; rewrite Hw; exact Htodo).
  destruct (w_pc w) eqn:Hpc.
  - destruct a as [t mask | t p].
    + destruct (BeginEnqueue t e) as [[e1 pc] |] eqn:Hbe; [| discriminate].
      cbn in Hws. injection Hws as <- <-.
      destruct (BeginEnqueue_quiet _ _ _ _ Hbe) as [Hb Hm].
      apply (OrderInvariant_quiet work e e1 ws k0 w); auto.
    + destruct (get2 (m_BinList e) t k0) as [tileBin |]; [| discriminate].
      cbn [mbind option_bind] in Hws.
      destruct (decide (vec_data tileBin = [])).
      * destruct (BeginEnqueue t e) as [[e1 pc] |] eqn:Hbe; [| discriminate].
        cbn in Hws. injection Hws as <- <-.
        destruct (BeginEnqueue_quiet _ _ _ _ Hbe) as [Hb Hm].
        apply (OrderInvariant_quiet work e e1 ws k0 w); auto.
      * injection Hws as <- <-.
        apply (OrderInvariant_quiet work e e ws k0 w); auto.
  - injection Hws as <- <-.
    apply (OrderInvariant_quiet work e _ ws k0 w); auto.
  - destruct Hinv as [Hbins Hmasks Hdone]. cbn [fst snd] in *.
    destruct a as [t mask | t p].
    + unfold AppendCoverageMask in Hws.
      destruct (get2 (m_CoverageMasks e) t k0) as [m0 |] eqn:Hm0; [| discriminate].
      cbn in Hws. injection Hws as <- <-.
      constructor; cbn [fst snd m_BinList m_CoverageMasks set_CoverageMasks].
      * intros t' k b Hget. rewrite (todo_of_updated ws k0 k w _ Hw).
        destruct (decide (k = k0)) as [-> | _]; [| exact (Hbins t' k b Hget)].
        cbn [w_todo]. specialize (Hbins t' k0 b Hget). rewrite Htodo0 in Hbins.
        exact Hbins.
      * intros t' k m Hget. rewrite (get2_set2 _ _ _ _ _ _ _ Hm0) in Hget.
        rewrite (todo_of_updated ws k0 k w _ Hw). cbn [w_todo].
        destruct (decide (t = t' /\ k0 = k)) as [[<- <-] | Hne].
        { injection Hget as <-. rewrite decide_True by reflexivity.
          specialize (Hmasks t k0 m0 Hm0). rewrite Htodo0 in Hmasks.
          cbn in Hmasks. rewrite decide_True in Hmasks by reflexivity.
          rewrite <- app_assoc. exact Hmasks. }
        destruct (decide (k = k0)) as [-> | _]; [| exact (Hmasks t' k m Hget)].
        specialize (Hmasks t' k0 m Hget). rewrite Htodo0 in Hmasks.
        cbn in Hmasks. rewrite decide_False in Hmasks by (intros ->; apply Hne; auto).
        exact Hmasks.
      * intros k a Ha. rewrite (todo_of_updated ws k0 k w _ Hw). cbn [w_todo].
        assert (Htouch : forall t', TileTouched e t' \/ t' = t ->
                  TileTouched (set_CoverageMasks e
                    (set2 (m_CoverageMasks e) t k0 (m0 ++ [mask]))) t').
        { intros t' Ht'.
          apply (AppendCoverageMask_effect k0 t mask e); [| exact Ht'].
          unfold AppendCoverageMask. rewrite Hm0. reflexivity. }
        destruct (Hdone k a Ha) as [Hin | Ht]; [| right; apply Htouch; left; exact Ht].
        destruct (decide (k = k0)) as [-> | _]; [| left; exact Hin].
        rewrite Htodo0 in Hin. apply elem_of_cons in Hin as [-> | Hin].
        { right. apply Htouch. right. reflexivity. }
        left. exact Hin.
    + unfold PushToBin in Hws.
      destruct (get2 (m_BinList e) t k0) as [b0 |] eqn:Hb0; [| discriminate].
      cbn in Hws. injection Hws as <- <-.
      constructor; cbn [fst snd m_BinList m_CoverageMasks set_BinList].
      * intros t' k b Hget. rewrite (get2_set2 _ _ _ _ _ _ _ Hb0) in Hget.
        rewrite (todo_of_updated ws k0 k w _ Hw). cbn [w_todo].
        destruct (decide (t = t' /\ k0 = k)) as [[<- <-] | Hne].
        { injection Hget as <-. rewrite decide_True by reflexivity.
          specialize (Hbins t k0 b0 Hb0). rewrite Htodo0 in Hbins.
          cbn in Hbins. rewrite decide_True in Hbins by reflexivity.
          rewrite vec_data_push_back, <- app_assoc. exact Hbins. }
        destruct (decide (k = k0)) as [-> | _]; [| exact (Hbins t' k b Hget)].
        specialize (Hbins t' k0 b Hget). rewrite Htodo0 in Hbins.
        cbn in Hbins. rewrite decide_False in Hbins by (intros ->; apply Hne; auto).
        exact Hbins.
      * intros t' k m Hget. rewrite (todo_of_updated ws k0 k w _ Hw).
        destruct (decide (k = k0)) as [-> | _]; [| exact (Hmasks t' k m Hget)].
        cbn [w_todo]. specialize (Hmasks t' k0 m Hget). rewrite Htodo0 in Hmasks.
        exact Hmasks.
      * intros k a Ha. rewrite (todo_of_updated ws k0 k w _ Hw). cbn [w_todo].
        assert (Htouch : forall t', TileTouched e t' \/ t' = t ->
                  TileTouched (set_BinList e
                    (set2 (m_BinList e) t k0 (vector_push_back p b0))) t').
        { intros t' Ht'.
          apply (PushToBin_effect k0 t p e); [| exact Ht'].
          unfold PushToBin. rewrite Hb0. reflexivity. }
        destruct (Hdone k a Ha) as [Hin | Ht]; [| right; apply Htouch; left; exact Ht].
        destruct (decide (k = k0)) as [-> | _]; [| left; exact Hin].
        rewrite Htodo0 in Hin. apply elem_of_cons in Hin as [-> | Hin].
        { right. apply Htouch. right. reflexivity. }
        left. exact Hin.
Qed.

Lemma RunSchedule_order (work : list (list BinnerAction)) (schedule : list nat) :
  forall s s', OrderInvariant work s -> RunSchedule schedule s = Some s' ->
    OrderInvariant work s'.
Proof.
  induction schedule as [| k schedule IH]; intros s s' Hinv Hrun; simpl in Hrun.
  - injection Hrun as <-. exact Hinv.
  - destruct (SystemStep k s) as [s1 |] eqn:Hstep; [| discriminate].
    cbn in Hrun. apply (IH s1 s'); [| exact Hrun].
    exact (SystemStep_order work k s s1 Hinv Hstep).
Qed.

Lemma StartOfIteration_order (e : RenderEngine) (work : list (list BinnerAction)) :
  OrderInvariant work (StartOfIteration e work).
Proof.
  unfold StartOfIteration. constructor; cbn [fst snd]; intros.
  - rewrite todo_of_start. simpl in H.
    apply get2_map_Some in H as (b0 & _ & ->). reflexivity.
  - rewrite todo_of_start. simpl in H.
    apply get2_map_Some in H as (m0 & _ & ->). reflexivity.
  - rewrite todo_of_start. left. exact H.
Qed.

Lemma todo_of_done (ws : list Worker) (k : nat) :
  Forall WorkerDone ws -> todo_of ws k = [].
Proof.
  intros Hdone. unfold todo_of. destruct (ws !! k) as [w |] eqn:Hw; [| reflexivity].
  rewrite Forall_lookup in Hdone. exact (proj1 (Hdone k w Hw)).
Qed.

(** X7.  Whatever the interleaving of the workers, once they are all done
    the bin of a tile and a thread holds the primitive indices that this
    thread's binner binned for the tile, in the order in which the thread
    processed them, and the coverage mask buffer of a tile and a thread holds
    the masks that this thread emitted for the tile, in that order: no
    worker writes into the bins or buffers of another one. *)
Theorem bins_keep_each_workers_order
    (e : RenderEngine) (work : list (list BinnerAction)) (schedule : list nat)
    (e' : RenderEngine) (ws' : list Worker) :
  RunSchedule schedule (StartOfIteration e work) = Some (e', ws') ->
  Forall WorkerDone ws' ->
  forall tileIdx threadIdx : nat,
    (forall b, get2 (m_BinList e') tileIdx threadIdx = Some b ->
       vec_data b = binned_for tileIdx (work_of work threadIdx))
    /\ (forall masks, get2 (m_CoverageMasks e') tileIdx threadIdx = Some masks ->
          masks = emitted_for tileIdx (work_of work threadIdx)).
Proof.
  intros Hrun Hdone t k.
  pose proof (RunSchedule_order work schedule _ _ (StartOfIteration_order e work) Hrun)
    as [Hbins Hmasks _].
  cbn [fst snd] in *. split.
  - intros b Hb. specialize (Hbins t k b Hb).
    rewrite (todo_of_done ws' k Hdone) in Hbins. simpl in Hbins.
    rewrite app_nil_r in Hbins. exact Hbins.
  - intros m Hm. specialize (Hmasks t k m Hm).
    rewrite (todo_of_done ws' k Hdone) in Hmasks. simpl in Hmasks.
    rewrite app_nil_r in Hmasks. exact Hmasks.
Qed.

Lemma binned_for_tile (t : nat) (acts : list BinnerAction) :
  binned_for t acts <> [] -> exists a, a ∈ acts /\ action_tile a = t.
Proof.
  induction acts as [| a acts IH]; intros Hne; [contradiction Hne; reflexivity |].
  unfold binned_for in Hne. simpl in Hne.
  destruct (action_prims t a) as [| p ps] eqn:Ha.
  - destruct (IH Hne) as (a' & Hin & Ht). exists a'. split; [right; exact Hin | exact Ht].
  - exists a. split; [left |].
    destruct a as [t' m | t' p']; simpl in Ha; [discriminate |].
    destruct (decide (t' = t)) as [-> | _]; [reflexivity | discriminate].
Qed.

Lemma emitted_for_tile (t : nat) (acts : list BinnerAction) :
  emitted_for t acts <> [] -> exists a, a ∈ acts /\ action_tile a = t.
Proof.
  induction acts as [| a acts IH]; intros Hne; [contradiction Hne; reflexivity |].
  unfold emitted_for in Hne. simpl in Hne.
  destruct (action_masks t a) as [| p ps] eqn:Ha.
  - destruct (IH Hne) as (a' & Hin & Ht). exists a'. split; [right; exact Hin | exact Ht].
  - exists a. split; [left |].
    destruct a as [t' m | t' p']; simpl in Ha; [| discriminate].
    destruct (decide (t' = t)) as [-> | _]; [reflexivity | discriminate].
Qed.

Lemma final_queue_members
    (e : RenderEngine) (work : list (list BinnerAction)) (schedule : list nat)
    (e' : RenderEngine) (ws' : list Worker) :
  RunSchedule schedule (StartOfIteration e work) = Some (e', ws') ->
  Forall WorkerDone ws' ->
  NoDup (m_RasterizerQueue e')
  /\ forall t : nat,
       t ∈ m_RasterizerQueue e' <->
       exists k a, a ∈ work_of work k /\ action_tile a = t.
Proof.
  intros Hrun Hdone.
  pose proof (RunSchedule_invariant schedule _ _ (StartOfIteration_invariant e work) Hrun)
    as Hinv.
  pose proof (RunSchedule_order work schedule _ _ (StartOfIteration_order e work) Hrun)
    as [Hbins Hmasks Hacts].
  unfold SystemInvariant in Hinv. cbn [fst snd] in *.
  assert (Hidle : forall i w, ws' !! i = Some w -> w_pc w = AtAction).
  { intros i w Hw. rewrite Forall_lookup in Hdone. exact (proj2 (Hdone i w Hw)). }
  split; [exact (inv_nodup _ _ _ _ Hinv) |].
  intros t. split.
  - intros Hin.
    assert (Hf : TileFlagSet e' t) by (apply (inv_flag _ _ _ _ Hinv); left; exact Hin).
    destruct (inv_cause _ _ _ _ Hinv t Hf) as [Ht | (i & w & Hw & Hpc & _)];
      [| destruct Hpc; exact (Hidle i w Hw)].
    destruct Ht as (k & [(m & Hm & Hne) | (b & Hb & Hne)]); exists k.
    + specialize (Hmasks t k m Hm). rewrite (todo_of_done ws' k Hdone) in Hmasks.
      simpl in Hmasks. rewrite app_nil_r in Hmasks. subst m.
      exact (emitted_for_tile t _ Hne).
    + specialize (Hbins t k b Hb). rewrite (todo_of_done ws' k Hdone) in Hbins.
      simpl in Hbins. rewrite app_nil_r in Hbins. rewrite Hbins in Hne.
      exact (binned_for_tile t _ Hne).
  - intros (k & a & Ha & <-).
    destruct (Hacts k a Ha) as [Htodo | Ht].
    + rewrite (todo_of_done ws' k Hdone) in Htodo. destruct (not_elem_of_nil a Htodo).
    + apply (inv_touched _ _ _ _ Hinv) in Ht.
      apply (inv_flag _ _ _ _ Hinv) in Ht as [Hin | (i & w & Hw & Hpc & _)]; [exact Hin |].
      rewrite (Hidle i w Hw) in Hpc. discriminate.
Qed.

(** X8.  Once all workers are done, the rasterizer queue lists exactly the
    tiles that some action of some binner names, and two interleavings of
    the same work leave the same tiles in the queue, in possibly different
    orders. *)
Theorem queue_is_the_same_up_to_order
    (e : RenderEngine) (work : list (list BinnerAction)) (schedule1 schedule2 : list nat)
    (e1 e2 : RenderEngine) (ws1 ws2 : list Worker) :
  RunSchedule schedule1 (StartOfIteration e work) = Some (e1, ws1) ->
  Forall WorkerDone ws1 ->
  RunSchedule schedule2 (StartOfIteration e work) = Some (e2, ws2) ->
  Forall WorkerDone ws2 ->
  m_RasterizerQueue e1 ≡ₚ m_RasterizerQueue e2
  /\ forall t : nat,
       t ∈ m_RasterizerQueue e1 <->
       exists k a, a ∈ work_of work k /\ action_tile a = t.
Proof.
  intros Hrun1 Hdone1 Hrun2 Hdone2.
  destruct (final_queue_members e work schedule1 e1 ws1 Hrun1 Hdone1) as [Hnd1 Hmem1].
  destruct (final_queue_members e work schedule2 e2 ws2 Hrun2 Hdone2) as [Hnd2 Hmem2].
  split; [| exact Hmem1].
  apply NoDup_Permutation; [exact Hnd1 | exact Hnd2 |].
  intros t. rewrite Hmem1, Hmem2. reflexivity.
Qed.

(** ** No worker ever waits for another one *)

Lemma sum_list_updated (ws : list Worker) (k : nat) (w w' : Worker) :
  ws !! k = Some w ->
  (TotalStepsLeft (<[k := w']> ws) + StepsLeft w = TotalStepsLeft ws + StepsLeft w')%nat.
Proof.
  unfold TotalStepsLeft. revert k.
  induction ws as [| w0 ws IH]; intros k Hw; [discriminate |].
  destruct k as [| k]; simpl in *.
  - injection Hw as ->. lia.
  - specialize (IH k Hw). lia.
Qed.

Lemma WorkerStep_decreases (k : nat) (w w' : Worker) (e e' : RenderEngine) :
  WorkerStep k w e = Some (e', w') -> (StepsLeft w' < StepsLeft w)%nat.
Proof.
  unfold WorkerStep, StepsLeft. intros Hstep.
  destruct (w_todo w) as [| a rest] eqn:Htodo; [discriminate |].
  destruct (w_pc w) eqn:Hpc.
  - assert (Hpc' : w_todo w' = a :: rest /\ w_pc w' <> AtAction).
    { destruct a as [t mask | t p].
      - unfold BeginEnqueue in Hstep.
        destruct (test_and_set t e) as [[queued e1] |]; [| discriminate].
        cbn in Hstep. injection Hstep as <- <-. destruct queued; split; simpl; congruence.
      - destruct (get2 (m_BinList e) t k) as [tileBin |]; [| discriminate].
        cbn [mbind option_bind] in Hstep. destruct (decide _).
        + unfold BeginEnqueue in Hstep.
          destruct (test_and_set t e) as [[queued e1] |]; [| discriminate].
          cbn in Hstep. injection Hstep as <- <-. destruct queued; split; simpl; congruence.
        + injection Hstep as <- <-. split; simpl; congruence. }
    destruct Hpc' as [-> Hne]. destruct (w_pc w'); [contradiction | simpl; lia ..].
  - injection Hstep as <- <-. simpl. lia.
  - destruct a as [t mask | t p].
    + destruct (AppendCoverageMask k t mask e); [| discriminate].
      cbn in Hstep. injection Hstep as <- <-. simpl. lia.
    + destruct (PushToBin k t p e); [| discriminate].
      cbn in Hstep. injection Hstep as <- <-. simpl. lia.
Qed.

Lemma SystemStep_decreases (k : nat) (s s' : System) :
  SystemStep k s = Some s' -> (TotalStepsLeft s'.2 < TotalStepsLeft s.2)%nat.
Proof.
  destruct s as [e ws]. unfold SystemStep. cbn [fst snd]. intros Hstep.
  destruct (ws !! k) as [w |] eqn:Hw; [| discriminate].
  cbn [mbind option_bind] in Hstep.
  destruct (WorkerStep k w e) as [[e' w'] |] eqn:Hws; [| discriminate].
  cbn in Hstep. injection Hstep as <-. cbn [snd].
  pose proof (sum_list_updated ws k w w' Hw).
  pose proof (WorkerStep_decreases k w w' e e' Hws). lia.
Qed.

Lemma get2_updated {A} (a : list (list A)) (i j : nat) (x : A) (i' j' : nat) :
  is_Some (get2 a i' j') -> is_Some (get2 (set2 a i j x) i' j').
Proof.
  intros Hsome. destruct (get2 a i j) as [y |] eqn:Hy.
  - rewrite (get2_set2 a i j x y i' j' Hy). destruct (decide _); [eexists; reflexivity | exact Hsome].
  - unfold set2. unfold get2 in Hy.
    destruct (a !! i) as [row |] eqn:Hrow; [| exact Hsome].
    simpl in Hy. rewrite (list_insert_ge row j x) by (apply lookup_ge_None; exact Hy).
    rewrite list_insert_id by exact Hrow. exact Hsome.
Qed.

Lemma EngineShape_same (e e' : RenderEngine) (tiles threads : nat) :
  EngineShape e tiles threads ->
  length (m_TileList e') = length (m_TileList e) ->
  m_BinList e' = m_BinList e ->
  m_CoverageMasks e' = m_CoverageMasks e ->
  EngineShape e' tiles threads.
Proof.
  intros [Ht Hb Hm] Hlen Hbins Hmasks. constructor.
  - rewrite Hlen. exact Ht.
  - rewrite Hbins. exact Hb.
  - rewrite Hmasks. exact Hm.
Qed.

Lemma BeginEnqueue_shape (t : nat) (e e' : RenderEngine) (pc : WorkerPC)
    (tiles threads : nat) :
  EngineShape e tiles threads ->
  BeginEnqueue t e = Some (e', pc) ->
  EngineShape e' tiles threads /\ pc <> AtAction.
Proof.
  unfold BeginEnqueue, test_and_set. intros Hshape Hrun.
  destruct (m_TileList e !! t) as [tile |]; [| discriminate].
  cbn in Hrun. injection Hrun as <- <-. split.
  - apply (EngineShape_same e); [exact Hshape | | reflexivity | reflexivity].
    simpl. apply length_insert.
  - destruct (m_IsTileQueued tile); discriminate.
Qed.

Lemma BeginEnqueue_possible (t : nat) (e : RenderEngine) (tiles threads : nat) :
  EngineShape e tiles threads -> (t < tiles)%nat -> is_Some (BeginEnqueue t e).
Proof.
  intros [Ht _ _] Hlt. unfold BeginEnqueue, test_and_set.
  destruct (lookup_lt_is_Some_2 (m_TileList e) t ltac:(lia)) as [tile ->].
  eexists; reflexivity.
Qed.

Lemma WorkerStep_possible (tiles threads k : nat) (w : Worker) (e : RenderEngine) :
  EngineShape e tiles threads -> (k < threads)%nat ->
  WorkerReady tiles w -> w_todo w <> [] ->
  is_Some (WorkerStep k w e).
Proof.
  intros Hshape Hk [Hrange _] Hne. unfold WorkerStep.
  destruct (w_todo w) as [| a rest]; [contradiction Hne; reflexivity |].
  apply Forall_cons in Hrange as [Ha _].
  destruct (w_pc w).
  - destruct a as [t mask | t p]; simpl in Ha.
    + destruct (BeginEnqueue_possible t e tiles threads Hshape Ha) as [[e1 pc] ->].
      eexists; reflexivity.
    + destruct (shape_bins _ _ _ Hshape t k Ha Hk) as [tileBin ->].
      cbn [mbind option_bind]. destruct (decide _); [| eexists; reflexivity].
      destruct (BeginEnqueue_possible t e tiles threads Hshape Ha) as [[e1 pc] ->].
      eexists; reflexivity.
  - eexists; reflexivity.
  - destruct a as [t mask | t p]; simpl in Ha.
    + unfold AppendCoverageMask.
      destruct (shape_masks _ _ _ Hshape t k Ha Hk) as [m ->]. eexists; reflexivity.
    + unfold PushToBin.
      destruct (shape_bins _ _ _ Hshape t k Ha Hk) as [b ->]. eexists; reflexivity.
Qed.

Lemma WorkerStep_ready (tiles threads k : nat) (w w' : Worker) (e e' : RenderEngine) :
  EngineShape e tiles threads -> WorkerReady tiles w ->
  WorkerStep k w e = Some (e', w') ->
  EngineShape e' tiles threads /\ WorkerReady tiles w'.
Proof.
  intros Hshape [Hrange _] Hstep. unfold WorkerStep in Hstep.
  destruct (w_todo w) as [| a rest] eqn:Htodo; [discriminate |].
  assert (Hbusy : forall pc, WorkerReady tiles (mk_Worker (a :: rest) pc))
    by (intros pc; split; [exact Hrange | discriminate]).
  assert (Hnext : WorkerReady tiles (mk_Worker rest AtAction)).
  { split; [| reflexivity]. apply Forall_cons in Hrange as [_ Hrest]. exact Hrest. }
  destruct (w_pc w).
  - destruct a as [t mask | t p].
    + destruct (BeginEnqueue t e) as [[e1 pc] |] eqn:Hbe; [| discriminate].
      cbn in Hstep. injection Hstep as <- <-.
      split; [exact (proj1 (BeginEnqueue_shape _ _ _ _ _ _ Hshape Hbe)) | apply Hbusy].
    + destruct (get2 (m_BinList e) t k) as [tileBin |]; [| discriminate].
      cbn [mbind option_bind] in Hstep. destruct (decide _).
      * destruct (BeginEnqueue t e) as [[e1 pc] |] eqn:Hbe; [| discriminate].
        cbn in Hstep. injection Hstep as <- <-.
        split; [exact (proj1 (BeginEnqueue_shape _ _ _ _ _ _ Hshape Hbe)) | apply Hbusy].
      * injection Hstep as <- <-. split; [exact Hshape | apply Hbusy].
  - injection Hstep as <- <-. split; [| apply Hbusy].
    apply (EngineShape_same e); [exact Hshape | reflexivity ..].
  - destruct Hshape as [Ht Hb Hm]. destruct a as [t mask | t p].
    + unfold AppendCoverageMask in Hstep.
      destruct (get2 (m_CoverageMasks e) t k) as [m0 |]; [| discriminate].
      cbn in Hstep. injection Hstep as <- <-. split; [| exact Hnext].
      constructor; simpl; [exact Ht | exact Hb |].
      intros t' k' Ht' Hk'. apply get2_updated. exact (Hm t' k' Ht' Hk').
    + unfold PushToBin in Hstep.
      destruct (get2 (m_BinList e) t k) as [b0 |]; [| discriminate].
      cbn in Hstep. injection Hstep as <- <-. split; [| exact Hnext].
      constructor; simpl; [exact Ht | | exact Hm].
      intros t' k' Ht' Hk'. apply get2_updated. exact (Hb t' k' Ht' Hk').
Qed.

Lemma SystemStep_possible (tiles k : nat) (s : System) (w : Worker) :
  PhaseInvariant tiles s -> s.2 !! k = Some w -> w_todo w <> [] ->
  is_Some (SystemStep k s).
Proof.
  destruct s as [e ws]. cbn [fst snd]. intros [Hshape Hready] Hw Hne.
  unfold SystemStep. cbn [fst snd]. rewrite Hw. cbn [mbind option_bind].
  destruct (WorkerStep_possible tiles (length ws) k w e Hshape) as [[e' w'] ->].
  - eapply lookup_lt_Some. exact Hw.
  - rewrite Forall_lookup in Hready. exact (Hready k w Hw).
  - exact Hne.
  - eexists; reflexivity.
Qed.

Lemma SystemStep_phase (tiles k : nat) (s s' : System) :
  PhaseInvariant tiles s -> SystemStep k s = Some s' -> PhaseInvariant tiles s'.
Proof.
  destruct s as [e ws]. unfold PhaseInvariant, SystemStep. cbn [fst snd].
  intros [Hshape Hready] Hstep.
  destruct (ws !! k) as [w |] eqn:Hw; [| discriminate].
  cbn [mbind option_bind] in Hstep.
  destruct (WorkerStep k w e) as [[e' w'] |] eqn:Hws; [| discriminate].
  cbn in Hstep. injection Hstep as <-. cbn [fst snd].
  rewrite length_insert.
  assert (Hw_ready : WorkerReady tiles w)
    by (rewrite Forall_lookup in Hready; exact (Hready k w Hw)).
  destruct (WorkerStep_ready tiles (length ws) k w w' e e' Hshape Hw_ready Hws)
    as [Hshape' Hready'].
  split; [exact Hshape' |].
  apply Forall_insert; assumption.
Qed.

Lemma RunSchedule_phase (tiles : nat) (schedule : list nat) :
  forall s s', PhaseInvariant tiles s -> RunSchedule schedule s = Some s' ->
    PhaseInvariant tiles s'.
Proof.
  induction schedule as [| k schedule IH]; intros s s' Hinv Hrun; simpl in Hrun.
  - injection Hrun as <-. exact Hinv.
  - destruct (SystemStep k s) as [s1 |] eqn:Hstep; [| discriminate].
    cbn in Hrun. apply (IH s1 s'); [| exact Hrun].
    exact (SystemStep_phase tiles k s s1 Hinv Hstep).
Qed.

Lemma all_done_or_one_left (tiles : nat) (ws : list Worker) :
  Forall (WorkerReady tiles) ws ->
  Forall WorkerDone ws \/ exists k w, ws !! k = Some w /\ w_todo w <> [].
Proof.
  induction ws as [| w ws IH]; intros Hready; [left; constructor |].
  apply Forall_cons in Hready as [[_ Hpc] Hrest].
  destruct (w_todo w) as [| a rest] eqn:Htodo.
  - destruct (IH Hrest) as [Hdone | (k & w' & Hw' & Hne)].
    + left. constructor; [split; [exact Htodo | exact (Hpc eq_refl)] | exact Hdone].
    + right. exists (S k), w'. split; assumption.
  - right. exists 0%nat, w. split; [reflexivity | rewrite Htodo; discriminate].
Qed.

Lemma completion_from (tiles n : nat) :
  forall s, (TotalStepsLeft s.2 <= n)%nat -> PhaseInvariant tiles s ->
    exists schedule s', RunSchedule schedule s = Some s' /\ Forall WorkerDone s'.2.
Proof.
  induction n as [| n IH]; intros s Hn Hinv.
  - destruct (all_done_or_one_left tiles s.2 (proj2 Hinv)) as [Hdone | (k & w & Hw & Hne)].
    + exists [], s. split; [reflexivity | exact Hdone].
    + destruct (SystemStep_possible tiles k s w Hinv Hw Hne) as [s1 Hstep].
      pose proof (SystemStep_decreases k s s1 Hstep). lia.
  - destruct (all_done_or_one_left tiles s.2 (proj2 Hinv)) as [Hdone | (k & w & Hw & Hne)].
    + exists [], s. split; [reflexivity | exact Hdone].
    + destruct (SystemStep_possible tiles k s w Hinv Hw Hne) as [s1 Hstep].
      pose proof (SystemStep_decreases k s s1 Hstep).
      destruct (IH s1 ltac:(lia) (SystemStep_phase tiles k s s1 Hinv Hstep))
        as (schedule & s' & Hrun & Hdone).
      exists (k :: schedule), s'. split; [| exact Hdone].
      simpl. rewrite Hstep. exact Hrun.
Qed.

Lemma get2_map {A B} (f : A -> B) (a : list (list A)) (i j : nat) :
  is_Some (get2 a i j) -> is_Some (get2 (map (map f) a) i j).
Proof.
  unfold get2. intros [x Hx].
  destruct (a !! i) as [row |] eqn:Hrow; [| discriminate]. simpl in Hx.
  assert (Hmap : forall {X Y} (g : X -> Y) (l : list X) n y,
            l !! n = Some y -> map g l !! n = Some (g y)).
  { intros X Y g l. induction l as [| x0 l IHl]; intros [| n] y Hy; try discriminate.
    - injection Hy as ->. reflexivity.
    - exact (IHl n y Hy). }
  rewrite (Hmap _ _ (map f) a i row Hrow). simpl.
  rewrite (Hmap _ _ f row j x Hx). eexists; reflexivity.
Qed.

Lemma StartOfIteration_phase (e : RenderEngine) (work : list (list BinnerAction))
    (tiles : nat) :
  EngineShape e tiles (length work) ->
  Forall (Forall (fun a => (action_tile a < tiles)%nat)) work ->
  PhaseInvariant tiles (StartOfIteration e work).
Proof.
  intros [Ht Hb Hm] Hwork. unfold PhaseInvariant, StartOfIteration. cbn [fst snd].
  rewrite length_map. split.
  - constructor; simpl.
    + rewrite length_map. exact Ht.
    + intros t k Hlt Hk. apply get2_map. exact (Hb t k Hlt Hk).
    + intros t k Hlt Hk. apply get2_map. exact (Hm t k Hlt Hk).
  - clear Ht Hb Hm. induction Hwork as [| acts work Hacts _ IH]; [constructor |].
    simpl. constructor; [| exact IH]. split; [exact Hacts | reflexivity].
Qed.

(** X9.  When the engine has a bin and a coverage mask buffer for every
    tile and worker and the binners name tiles of the engine, the geometry
    phase cannot get stuck: in every state that the workers can reach, each
    worker with actions left can take its next step whatever the others have
    done, and some continuation brings all workers to the end of their
    actions. *)
Theorem geometry_phase_never_blocks
    (e : RenderEngine) (work : list (list BinnerAction)) (tiles : nat)
    (schedule : list nat) (s : System) :
  EngineShape e tiles (length work) ->
  Forall (Forall (fun a => (action_tile a < tiles)%nat)) work ->
  RunSchedule schedule (StartOfIteration e work) = Some s ->
  (forall k w, s.2 !! k = Some w -> w_todo w <> [] -> is_Some (SystemStep k s))
  /\ exists schedule' s',
       RunSchedule schedule' s = Some s' /\ Forall WorkerDone s'.2.
Proof.
  intros Hshape Hwork Hrun.
  pose proof (RunSchedule_phase tiles schedule _ _
                (StartOfIteration_phase e work tiles Hshape Hwork) Hrun) as Hinv.
  split.
  - intros k w Hw Hne. exact (SystemStep_possible tiles k s w Hinv Hw Hne).
  - exact (completion_from tiles (TotalStepsLeft s.2) s (le_n _) Hinv).
Qed.

Lemma bins_keep_each_workers_order_witness :
  exists (e' : RenderEngine) (ws' : list Worker),
    RunSchedule Scene.interleaving
      (StartOfIteration Scene.two_tile_engine Scene.binner_work) = Some (e', ws')
    /\ forall b, get2 (m_BinList e') 0 1 = Some b -> vec_data b = [1].
Proof.
  destruct (RunSchedule Scene.interleaving
              (StartOfIteration Scene.two_tile_engine Scene.binner_work))
    as [[e' ws'] |] eqn:Hrun; [| vm_compute in Hrun; discriminate].
  exists e', ws'. split; [reflexivity |].
  assert (Hdone : Forall WorkerDone ws').
  { vm_compute in Hrun. injection Hrun as <- <-.
    repeat (constructor; [split; reflexivity |]). constructor. }
  exact (proj1 (bins_keep_each_workers_order Scene.two_tile_engine Scene.binner_work
                  Scene.interleaving e' ws' Hrun Hdone 0%nat 1%nat)).
Defined.

Lemma queue_is_the_same_up_to_order_witness :
  exists (e1 e2 : RenderEngine) (ws1 ws2 : list Worker),
    RunSchedule Scene.interleaving
      (StartOfIteration Scene.two_tile_engine Scene.binner_work) = Some (e1, ws1)
    /\ RunSchedule Scene.one_after_the_other
         (StartOfIteration Scene.two_tile_engine Scene.binner_work) = Some (e2, ws2)
    /\ m_RasterizerQueue e1 ≡ₚ m_RasterizerQueue e2.
Proof.
  destruct (RunSchedule Scene.interleaving
              (StartOfIteration Scene.two_tile_engine Scene.binner_work))
    as [[e1 ws1] |] eqn:Hrun1; [| vm_compute in Hrun1; discriminate].
  destruct (RunSchedule Scene.one_after_the_other
              (StartOfIteration Scene.two_tile_engine Scene.binner_work))
    as [[e2 ws2] |] eqn:Hrun2; [| vm_compute in Hrun2; discriminate].
  exists e1, e2, ws1, ws2. split; [reflexivity |]. split; [reflexivity |].
  assert (Hdone1 : Forall WorkerDone ws1).
  { vm_compute in Hrun1. injection Hrun1 as <- <-.
    repeat (constructor; [split; reflexivity |]). constructor. }
  assert (Hdone2 : Forall WorkerDone ws2).
  { vm_compute in Hrun2. injection Hrun2 as <- <-.
    repeat (constructor; [split; reflexivity |]). constructor. }
  exact (proj1 (queue_is_the_same_up_to_order Scene.two_tile_engine Scene.binner_work
                  Scene.interleaving Scene.one_after_the_other e1 e2 ws1 ws2
                  Hrun1 Hdone1 Hrun2 Hdone2)).
Defined.

Lemma geometry_phase_never_blocks_witness :
  exists s : System,
    RunSchedule [0; 1; 1]%nat (StartOfIteration Scene.two_tile_engine Scene.binner_work)
      = Some s
    /\ exists schedule' s', RunSchedule schedule' s = Some s' /\ Forall WorkerDone s'.2.
Proof.
  destruct (RunSchedule [0; 1; 1]%nat
              (StartOfIteration Scene.two_tile_engine Scene.binner_work))
    as [s |] eqn:Hrun; [| vm_compute in Hrun; discriminate].
  exists s. split; [reflexivity |].
  refine (proj2 (geometry_phase_never_blocks Scene.two_tile_engine Scene.binner_work 2
                   [0; 1; 1]%nat s _ _ Hrun)).
  - constructor.
    + vm_compute. reflexivity.
    + intros [| [| t]] [| [| k]] Ht Hk; simpl in Hk; try lia; vm_compute; eexists; reflexivity.
    + intros [| [| t]] [| [| k]] Ht Hk; simpl in Hk; try lia; vm_compute; eexists; reflexivity.
  - repeat constructor.
Defined.

(** ** The depth buffer only goes down *)

(** [<=] of binary32 is transitive (it is false as soon as a NaN appears). *)
Lemma F32_leb_trans (a b c : f32) :
  (a <=? b)%f32 = true -> (b <=? c)%f32 = true -> (a <=? c)%f32 = true.
Proof.
  unfold F32.leb, SFleb, SFcompare.
  destruct a as [sa | sa | | sa ma ea], b as [sb | sb | | sb mb eb],
           c as [sc | sc | | sc mc ec];
    try discriminate; try reflexivity;
    try (destruct sa; try discriminate; try reflexivity);
    try (destruct sb; try discriminate; try reflexivity);
    try (destruct sc; try discriminate; try reflexivity).
  all: change (Pos.compare_cont Eq) with Pos.compare.
  all: destruct (Z.compare_spec ea eb), (Z.compare_spec eb ec), (Z.compare_spec ea ec);
    try discriminate; try reflexivity; try lia.
  all: destruct (Pos.compare_spec ma mb), (Pos.compare_spec mb mc), (Pos.compare_spec ma mc);
    simpl; try discriminate; try reflexivity; try lia.
Qed.

Lemma ShadedFurther_refl (st : FSState) : ShadedFurther st st.
Proof.
  split.
  - repeat (split; [reflexivity |]). intros i a b Ha Hb. left. congruence.
  - exists []. rewrite app_nil_r. reflexivity.
Qed.

Lemma ShadedFurther_trans (st1 st2 st3 : FSState) :
  ShadedFurther st1 st2 -> ShadedFurther st2 st3 -> ShadedFurther st1 st3.
Proof.
  intros [(Hw1 & Hh1 & Hc1 & Hd1 & Hle1) [m1 Hi1]] [(Hw2 & Hh2 & Hc2 & Hd2 & Hle2) [m2 Hi2]].
  split.
  - split; [congruence |]. split; [congruence |]. split; [congruence |].
    split; [congruence |].
    intros i a c Ha Hc.
    destruct (lookup_lt_is_Some_2 (m_pDepthBuffer (fs_Framebuffer st2)) i) as [b Hb].
    { rewrite Hd1. eapply lookup_lt_Some. exact Hc. }
    destruct (Hle2 i a b Ha Hb) as [-> | Hab]; [exact (Hle1 i b c Hb Hc) |].
    destruct (Hle1 i b c Hb Hc) as [-> | Hbc]; [right; exact Hab |].
    right. exact (F32_leb_trans a b c Hab Hbc).
  - exists (m1 ++ m2). rewrite Hi2, Hi1, app_assoc. reflexivity.
Qed.

Lemma GroupOutcome_depth (FS : InterpolatedAttributes -> FragmentOutput)
    (invoked : bool) (write : nat -> bool) (z cur : m128) (attrs : InterpolatedAttributes)
    (sampleX sampleY : Z) (st st' : FSState) :
  _mm_load_ps (m_pDepthBuffer (fs_Framebuffer st))
    (DepthAddress (fs_Framebuffer st) sampleX sampleY) = Some cur ->
  (forall k, (k < 4)%nat -> write k = true -> (ps_lane z k <=? ps_lane cur k)%f32 = true) ->
  GroupOutcome FS invoked write z attrs sampleX sampleY st st' ->
  ShadedFurther st st'.
Proof.
  intros Hload Hpass (Hinv & Hkept & Hwritten & Hw & Hh & Hd & Hc & Hdepth & _).
  apply load_ps_lanes in Hload as [_ Hcur].
  split.
  - split; [exact Hw |]. split; [exact Hh |]. split; [exact Hc |]. split; [exact Hd |].
    intros i a b Ha Hb.
    destruct (decide (i < DepthAddress (fs_Framebuffer st) sampleX sampleY
                      \/ DepthAddress (fs_Framebuffer st) sampleX sampleY + 4 <= i)%nat)
      as [Hout | Hin].
    + left. rewrite (Hdepth i Hout) in Ha. congruence.
    + assert (Hk : exists k, (k < 4)%nat
                /\ i = (DepthAddress (fs_Framebuffer st) sampleX sampleY + k)%nat)
        by (exists (i - DepthAddress (fs_Framebuffer st) sampleX sampleY)%nat; lia).
      destruct Hk as (k & Hk & ->).
      destruct (write k) eqn:Hwk.
      * right. destruct (Hwritten k Hk Hwk) as [Hz _].
        rewrite Hz in Ha. rewrite (Hcur k Hk) in Hb.
        injection Ha as <-. injection Hb as <-. exact (Hpass k Hk Hwk).
      * left. destruct (Hkept k Hk Hwk) as [Hsame _]. rewrite Hsame in Ha. congruence.
  - rewrite Hinv. destruct invoked; [exists [attrs]; reflexivity |].
    exists []. rewrite app_nil_r. reflexivity.
Qed.

Lemma foldl_bind_None {St A} (f : A -> St -> option St) (l : list A) :
  foldl (fun acc x => acc ≫= f x) None l = None.
Proof. induction l as [| x l IH]; [reflexivity | exact IH]. Qed.

Lemma foldl_bind_rel {St A} (R : St -> St -> Prop) (f : A -> St -> option St)
    (l : list A) :
  (forall st, R st st) ->
  (forall st1 st2 st3, R st1 st2 -> R st2 st3 -> R st1 st3) ->
  (forall x st st', f x st = Some st' -> R st st') ->
  forall st st', foldl (fun acc x => acc ≫= f x) (Some st) l = Some st' -> R st st'.
Proof.
  intros Hrefl Htrans Hstep. induction l as [| x l IH]; intros st st' Hrun; simpl in Hrun.
  - injection Hrun as <-. apply Hrefl.
  - destruct (f x st) as [st1 |] eqn:Hx; [| rewrite foldl_bind_None in Hrun; discriminate].
    apply (Htrans st st1 st'); [exact (Hstep x st st1 Hx) | exact (IH st1 st' Hrun)].
Qed.

Lemma for_u32_rel {St} (R : St -> St -> Prop) (n : Z) (body : Z -> St -> option St) :
  (forall st, R st st) ->
  (forall st1 st2 st3, R st1 st2 -> R st2 st3 -> R st1 st3) ->
  (forall i st st', body i st = Some st' -> R st st') ->
  forall st st', for_u32 n body st = Some st' -> R st st'.
Proof.
  intros Hrefl Htrans Hstep st st' Hrun. unfold for_u32 in Hrun.
  apply (foldl_bind_rel R (fun i => body (Z.of_nat i)) (seq 0 (Z.to_nat n)) Hrefl Htrans);
    [| exact Hrun].
  intros i s s' Hi. exact (Hstep _ s s' Hi).
Qed.

Section DepthGoesDown.

Variable m_RenderConfig : RasterizerConfig.
Variable m_ShaderMetadata : ShaderMetadata.
Variable m_SetupBuffers : SetupBuffers.
Variable FS : InterpolatedAttributes -> FragmentOutput.
Variable rcp : f32 -> f32.

Lemma FragmentShadeBlockGroup_further (blockPosX blockPosY primIdx px py : Z)
    (st st' : FSState) :
  FragmentShadeBlockGroup m_ShaderMetadata m_SetupBuffers FS rcp
    blockPosX blockPosY primIdx px py st = Some st' ->
  ShadedFurther st st'.
Proof.
  intros Hrun.
  destruct (FragmentShadeBlockGroup_inv _ _ _ _ _ _ _ _ _ _ _ Hrun)
    as (f0 & f1 & z & cur & _ & Hload & Hcase).
  destruct (existsb _ (seq 0 4)).
  - destruct Hcase as (attrs & fb' & _ & _ & Hws & ->).
    eapply (GroupOutcome_depth FS true
              (fun k => (ps_lane z k <=? ps_lane cur k)%f32) z cur attrs);
      [exact Hload | intros k _ Hk; exact Hk |].
    exact (shaded_group_outcome FS st _ _ z attrs _ _ fb' (block_write_mask z cur) Hws).
  - subst st'. apply ShadedFurther_refl.
Qed.

Lemma FragmentShadeQuad_further (pMask : CoverageMask) (st st' : FSState) :
  FragmentShadeQuad m_ShaderMetadata m_SetupBuffers FS rcp pMask st = Some st' ->
  ShadedFurther st st'.
Proof.
  intros Hrun.
  destruct (FragmentShadeQuad_inv _ _ _ _ _ _ _ Hrun)
    as (f0 & f1 & z & cur & _ & Hload & Hcase).
  destruct (existsb _ (seq 0 4)).
  - destruct Hcase as (attrs & fb' & _ & _ & Hws & ->).
    eapply (GroupOutcome_depth FS true
              (fun k => (ps_lane z k <=? ps_lane cur k)%f32
                        && Z.testbit (m_QuadMask pMask) (Z.of_nat k))
              z cur attrs);
      [exact Hload | intros k _ Hk; apply andb_true_iff in Hk as [Hk _]; exact Hk |].
    exact (shaded_group_outcome FS st _ _ z attrs _ _ fb'
             (quad_write_mask z cur (m_QuadMask pMask)) Hws).
  - subst st'. apply ShadedFurther_refl.
Qed.

Lemma FragmentShadeBlock_further (blockPosX blockPosY primIdx : Z) (st st' : FSState) :
  FragmentShadeBlock m_ShaderMetadata m_SetupBuffers FS rcp blockPosX blockPosY primIdx st
    = Some st' ->
  ShadedFurther st st'.
Proof.
  unfold FragmentShadeBlock.
  apply for_u32_rel; [exact ShadedFurther_refl | exact ShadedFurther_trans |].
  intros py. apply for_u32_rel; [exact ShadedFurther_refl | exact ShadedFurther_trans |].
  intros px s s'. apply FragmentShadeBlockGroup_further.
Qed.

Lemma FragmentShadeTile_further (tilePosX tilePosY primIdx : Z) (st st' : FSState) :
  FragmentShadeTile m_RenderConfig m_ShaderMetadata m_SetupBuffers FS rcp
    tilePosX tilePosY primIdx st = Some st' ->
  ShadedFurther st st'.
Proof.
  unfold FragmentShadeTile. cbv zeta.
  apply for_u32_rel; [exact ShadedFurther_refl | exact ShadedFurther_trans |].
  intros py. apply for_u32_rel; [exact ShadedFurther_refl | exact ShadedFurther_trans |].
  intros px s s'. apply FragmentShadeBlock_further.
Qed.

(** X10.  Fragment shading of the coverage masks of a tile, of whatever
    types and in whatever number, never raises a depth value: every depth
    value afterwards is the one before or one that is [<=] it.  The
    framebuffer keeps its dimensions and its two buffers their sizes, and
    the invocations of the fragment shader so far stay as they are. *)
Theorem fragment_shading_only_lowers_depth
    (perThread : list (list CoverageMask)) (st st' : FSState) :
  ShadeTileMasks m_RenderConfig m_ShaderMetadata m_SetupBuffers FS rcp perThread st
    = Some st' ->
  DepthOnlyDecreased (fs_Framebuffer st) (fs_Framebuffer st')
  /\ exists more, fs_Invocations st' = fs_Invocations st ++ more.
Proof.
  unfold ShadeTileMasks. intros Hrun.
  apply (foldl_bind_rel ShadedFurther
           (ShadeCoverageMask m_RenderConfig m_ShaderMetadata m_SetupBuffers FS rcp)
           (concat perThread) ShadedFurther_refl ShadedFurther_trans); [| exact Hrun].
  intros pMask s s'. unfold ShadeCoverageMask.
  destruct (m_Type pMask).
  - apply FragmentShadeTile_further.
  - apply FragmentShadeBlock_further.
  - apply FragmentShadeQuad_further.
Qed.

End DepthGoesDown.

Lemma fragment_shading_only_lowers_depth_witness :
  exists st' : FSState,
    ShadeTileMasks Scene.config Scene.metadata Scene.shaded_setup_buffers Scene.red_FS
      Scene.exact_rcp [[Scene.quad]; [mk_CoverageMask 32 32 0 BLOCK 0]] Scene.start = Some st'
    /\ DepthOnlyDecreased (fs_Framebuffer Scene.start) (fs_Framebuffer st').
Proof.
  destruct (ShadeTileMasks Scene.config Scene.metadata Scene.shaded_setup_buffers
              Scene.red_FS Scene.exact_rcp
              [[Scene.quad]; [mk_CoverageMask 32 32 0 BLOCK 0]] Scene.start)
    as [st' |] eqn:Hrun; [| vm_compute in Hrun; discriminate].
  exists st'. split; [reflexivity |].
  exact (proj1 (fragment_shading_only_lowers_depth Scene.config Scene.metadata
                  Scene.shaded_setup_buffers Scene.red_FS Scene.exact_rcp _ _ _ Hrun)).
Defined.

(** ** Clearing the render targets *)

Lemma for_u32_invariant {St} (I : nat -> St -> Prop) (n : nat)
    (body : Z -> St -> option St) (st : St) :
  I 0%nat st ->
  (forall j s, (j < n)%nat -> I j s -> exists s', body (Z.of_nat j) s = Some s' /\ I (S j) s') ->
  exists st', for_u32 (Z.of_nat n) body st = Some st' /\ I n st'.
Proof.
  unfold for_u32. rewrite Nat2Z.id. intros H0 Hstep.
  induction n as [| n IH].
  - exists st. split; [reflexivity | exact H0].
  - destruct IH as (s & Hrun & Hs); [intros j s Hj; apply Hstep; lia |].
    destruct (Hstep n s ltac:(lia) Hs) as (s' & Hbody & Hs').
    exists s'. split; [| exact Hs'].
    rewrite seq_S, foldl_app, Hrun. simpl. exact Hbody.
Qed.

Lemma ClearDepth_fills (d : f32) (buf : list f32) (n : nat) :
  (n <= length buf)%nat ->
  exists buf',
    for_u32 (Z.of_nat n) (fun i b => array_set b i d) buf = Some buf'
    /\ length buf' = length buf
    /\ forall i, buf' !! i = if decide (i < n)%nat then Some d else buf !! i.
Proof.
  intros Hn.
  pose (I := fun (j : nat) (b : list f32) =>
               length b = length buf
               /\ forall i, b !! i = if decide (i < j)%nat then Some d else buf !! i).
  destruct (for_u32_invariant I n (fun i b => array_set b i d) buf)
    as (buf' & Hrun & Hlen' & Hall); [| | exists buf'; auto].
  - split; [reflexivity |]. intros i. rewrite decide_False by lia. reflexivity.
  - intros j s Hj [Hlen Hs].
    rewrite array_set_in_range by (rewrite Nat2Z.id; lia). rewrite Nat2Z.id.
    eexists. split; [reflexivity |].
    split; [rewrite length_insert; exact Hlen |].
    intros i. destruct (decide (i = j)) as [-> | Hne].
    + rewrite list_lookup_insert_eq by lia. rewrite decide_True by lia. reflexivity.
    + rewrite list_lookup_insert_ne by congruence. rewrite Hs.
      destruct (decide (i < j)%nat), (decide (i < S j)%nat); try lia; reflexivity.
Qed.

Lemma ClearPixel_sets (color : list Z) (r g b a : Z) (j : nat) (buf : list Z) :
  color = [r; g; b; a] ->
  (4 * j + 3 < length buf)%nat -> Z.of_nat (length buf) <= u32_mod ->
  exists buf',
    ClearPixel color (4 * Z.of_nat j) buf = Some buf'
    /\ length buf' = length buf
    /\ forall i,
         buf' !! i
         = if decide (4 * j <= i < 4 * j + 4)%nat then color !! (i - 4 * j)%nat else buf !! i.
Proof.
  intros -> Hj Hlen. unfold ClearPixel.
  change (array_get [r; g; b; a] 0) with (Some r).
  change (array_get [r; g; b; a] 1) with (Some g).
  change (array_get [r; g; b; a] 2) with (Some b).
  change (array_get [r; g; b; a] 3) with (Some a).
  cbn [mbind option_bind].
  rewrite !u32_small by lia.
  do 3 (rewrite array_set_in_range by (rewrite ?length_insert; lia);
        cbn [mbind option_bind]).
  rewrite array_set_in_range by (rewrite ?length_insert; lia).
  eexists. split; [reflexivity |].
  split; [rewrite !length_insert; reflexivity |].
  intros i.
  replace (Z.to_nat (4 * Z.of_nat j + 0)) with (4 * j)%nat by lia.
  replace (Z.to_nat (4 * Z.of_nat j + 1)) with (4 * j + 1)%nat by lia.
  replace (Z.to_nat (4 * Z.of_nat j + 2)) with (4 * j + 2)%nat by lia.
  replace (Z.to_nat (4 * Z.of_nat j + 3)) with (4 * j + 3)%nat by lia.
  destruct (decide (4 * j <= i < 4 * j + 4)%nat) as [Hin | Hout].
  - assert (Hk : (i = 4 * j \/ i = 4 * j + 1 \/ i = 4 * j + 2 \/ i = 4 * j + 3)%nat) by lia.
    destruct Hk as [-> | [-> | [-> | ->]]].
    + rewrite !list_lookup_insert_ne by lia.
      rewrite list_lookup_insert_eq by lia.
      replace (4 * j - 4 * j)%nat with 0%nat by lia. reflexivity.
    + rewrite !list_lookup_insert_ne by lia.
      rewrite list_lookup_insert_eq by (rewrite ?length_insert; lia).
      replace (4 * j + 1 - 4 * j)%nat with 1%nat by lia. reflexivity.
    + rewrite list_lookup_insert_ne by lia.
      rewrite list_lookup_insert_eq by (rewrite ?length_insert; lia).
      replace (4 * j + 2 - 4 * j)%nat with 2%nat by lia. reflexivity.
    + rewrite list_lookup_insert_eq by (rewrite ?length_insert; lia).
      replace (4 * j + 3 - 4 * j)%nat with 3%nat by lia. reflexivity.
  - rewrite !list_lookup_insert_ne by lia. reflexivity.
Qed.

Lemma ClearColor_fills (color : list Z) (r g b a : Z) (buf : list Z) (n : nat) :
  color = [r; g; b; a] ->
  (4 * n <= length buf)%nat -> Z.of_nat (length buf) <= u32_mod ->
  exists buf',
    for_u32 (Z.of_nat n) (fun j => ClearPixel color (4 * j)) buf = Some buf'
    /\ length buf' = length buf
    /\ forall i, buf' !! i = if decide (i < 4 * n)%nat then color !! (i mod 4)%nat else buf !! i.
Proof.
  intros Hcolor Hn Hlen.
  pose (I := fun (j : nat) (s : list Z) =>
               length s = length buf
               /\ forall i, s !! i
                    = if decide (i < 4 * j)%nat then color !! (i mod 4)%nat else buf !! i).
  destruct (for_u32_invariant I n (fun j => ClearPixel color (4 * j)) buf)
    as (buf' & Hrun & Hlen' & Hall); [| | exists buf'; auto].
  - split; [reflexivity |]. intros i. rewrite decide_False by lia. reflexivity.
  - intros j s Hj [Hls Hs].
    destruct (ClearPixel_sets color r g b a j s Hcolor) as (s' & Hrun & Hls' & Hs'); [lia .. |].
    exists s'. split; [exact Hrun |]. split; [congruence |].
    intros i. rewrite Hs', Hs.
    destruct (decide (4 * j <= i < 4 * j + 4)%nat) as [Hin | Hout].
    + rewrite decide_True by lia. f_equal.
      apply (Nat.mod_unique i 4 j); lia.
    + destruct (decide (i < 4 * j)%nat), (decide (i < 4 * S j)%nat); try lia; reflexivity.
Qed.

(** X11.  On a framebuffer whose color buffer has four bytes and whose depth
    buffer has one value per pixel, [ClearRenderTargets] stays in bounds and
    leaves the dimensions and sizes as they are; when asked to clear the
    color it writes the four bytes [cast<uint8>(c * 255.f)] of the clear
    color, in the order R, G, B, A, to every pixel, and otherwise it leaves
    the color buffer untouched; likewise for the depth buffer and the clear
    depth. *)
Theorem ClearRenderTargets_fills_every_pixel
    (clearColor clearDepth : bool) (colorValue : vec4) (depthValue : f32) (fb : Framebuffer) :
  0 <= m_Width fb * m_Height fb ->
  4 * (m_Width fb * m_Height fb) < u32_mod ->
  Z.of_nat (length (m_pColorBuffer fb)) = 4 * (m_Width fb * m_Height fb) ->
  Z.of_nat (length (m_pDepthBuffer fb)) = m_Width fb * m_Height fb ->
  exists fb',
    ClearRenderTargets clearColor colorValue clearDepth depthValue fb = Some fb'
    /\ m_Width fb' = m_Width fb /\ m_Height fb' = m_Height fb
    /\ length (m_pColorBuffer fb') = length (m_pColorBuffer fb)
    /\ length (m_pDepthBuffer fb') = length (m_pDepthBuffer fb)
    /\ (if clearColor then
          forall i, (i < length (m_pColorBuffer fb))%nat ->
            m_pColorBuffer fb' !! i
            = [clear_color_byte (x4 colorValue); clear_color_byte (y4 colorValue);
               clear_color_byte (z4 colorValue); clear_color_byte (w4 colorValue)]
              !! (i mod 4)%nat
        else m_pColorBuffer fb' = m_pColorBuffer fb)
    /\ (if clearDepth then
          forall i, (i < length (m_pDepthBuffer fb))%nat ->
            m_pDepthBuffer fb' !! i = Some depthValue
        else m_pDepthBuffer fb' = m_pDepthBuffer fb).
Proof.
  intros Hpos Hsmall Hcolor Hdepth. unfold ClearRenderTargets. cbv zeta.
  pose (n := Z.to_nat (m_Width fb * m_Height fb)).
  assert (Hc : exists c',
            (if clearColor then
               for_u32 ((u32 (u32 (m_Width fb * m_Height fb) * 4) + 3) / 4)
                 (fun j => ClearPixel
                    [clear_color_byte (x4 colorValue); clear_color_byte (y4 colorValue);
                     clear_color_byte (z4 colorValue); clear_color_byte (w4 colorValue)]
                    (4 * j))
                 (m_pColorBuffer fb)
             else Some (m_pColorBuffer fb)) = Some c'
            /\ length c' = length (m_pColorBuffer fb)
            /\ (if clearColor then
                  forall i, (i < length (m_pColorBuffer fb))%nat ->
                    c' !! i
                    = [clear_color_byte (x4 colorValue); clear_color_byte (y4 colorValue);
                       clear_color_byte (z4 colorValue); clear_color_byte (w4 colorValue)]
                      !! (i mod 4)%nat
                else c' = m_pColorBuffer fb)).
  { destruct clearColor; [| exists (m_pColorBuffer fb); auto].
    rewrite (u32_small (m_Width fb * m_Height fb)) by lia.
    rewrite u32_small by lia.
    replace ((m_Width fb * m_Height fb * 4 + 3) / 4) with (Z.of_nat n)
      by (subst n; rewrite Z2Nat.id by lia; apply Z.div_unique with (r := 3); lia).
    destruct (ClearColor_fills _ (clear_color_byte (x4 colorValue))
                (clear_color_byte (y4 colorValue)) (clear_color_byte (z4 colorValue))
                (clear_color_byte (w4 colorValue)) (m_pColorBuffer fb) n eq_refl)
      as (c' & Hrun & Hlen & Hall); [lia | lia |].
    exists c'. split; [exact Hrun |]. split; [exact Hlen |].
    intros i Hi. rewrite Hall. rewrite decide_True by lia. reflexivity. }
  assert (Hd : exists d',
            (if clearDepth then
               for_u32 (u32 (u32 (m_Width fb * m_Height fb) * 1))
                 (fun i buf => array_set buf i depthValue) (m_pDepthBuffer fb)
             else Some (m_pDepthBuffer fb)) = Some d'
            /\ length d' = length (m_pDepthBuffer fb)
            /\ (if clearDepth then
                  forall i, (i < length (m_pDepthBuffer fb))%nat -> d' !! i = Some depthValue
                else d' = m_pDepthBuffer fb)).
  { destruct clearDepth; [| exists (m_pDepthBuffer fb); auto].
    rewrite (u32_small (m_Width fb * m_Height fb)) by lia.
    rewrite Z.mul_1_r. rewrite u32_small by lia.
    replace (m_Width fb * m_Height fb) with (Z.of_nat n) by (subst n; lia).
    destruct (ClearDepth_fills depthValue (m_pDepthBuffer fb) n) as (d' & Hrun & Hlen & Hall);
      [lia |].
    exists d'. split; [exact Hrun |]. split; [exact Hlen |].
    intros i Hi. rewrite Hall. rewrite decide_True by lia. reflexivity. }
  destruct Hc as (c' & Hcrun & Hclen & Hcall). destruct Hd as (d' & Hdrun & Hdlen & Hdall).
  rewrite Hcrun. cbn [mbind option_bind]. rewrite Hdrun. cbn [mbind option_bind].
  eexists. split; [reflexivity |]. cbn [m_Width m_Height m_pColorBuffer m_pDepthBuffer].
  auto 10.
Qed.

Lemma ClearRenderTargets_fills_every_pixel_witness :
  exists fb' : Framebuffer,
    ClearRenderTargets true (mk_vec4 F32.half F32.half F32.half F32.one) true F32.one
      Scene.framebuffer = Some fb'
    /\ m_pColorBuffer fb' !! 5%nat = Some 127
    /\ m_pDepthBuffer fb' !! 5%nat = Some F32.one.
Proof.
  destruct (ClearRenderTargets_fills_every_pixel true true
              (mk_vec4 F32.half F32.half F32.half F32.one) F32.one Scene.framebuffer)
    as (fb' & Hrun & _ & _ & _ & _ & Hcolor & Hdepth).
  - vm_compute. discriminate.
  - vm_compute. reflexivity.
  - vm_compute. reflexivity.
  - vm_compute. reflexivity.
  - exists fb'. split; [exact Hrun |]. split.
    + rewrite (Hcolor 5%nat) by (vm_compute; lia). vm_compute. reflexivity.
    + apply (Hdepth 5%nat). vm_compute. lia.
Defined.

(** ** What the binner and the rasterizer emit *)

Lemma loop_range_In (lo hi i ii : Z) :
  In (i, ii) (loop_range lo hi) -> lo <= i < hi /\ ii = i - lo.
Proof.
  unfold loop_range. intros Hin.
  apply in_map_iff in Hin as (k & Heq & Hk). apply in_seq in Hk.
  injection Heq as <- <-. lia.
Qed.

Lemma loop_range_length (lo hi : Z) : length (loop_range lo hi) = Z.to_nat (hi - lo).
Proof. unfold loop_range. rewrite length_map, length_seq. reflexivity. Qed.

Lemma flat_map_length_le {A B} (f : A -> list B) (l : list A) (c : nat) :
  (forall x, In x l -> (length (f x) <= c)%nat) ->
  (length (flat_map f l) <= length l * c)%nat.
Proof.
  induction l as [| x l IH]; intros Hf; simpl; [lia |].
  rewrite length_app.
  pose proof (Hf x (or_introl eq_refl)).
  pose proof (IH (fun y Hy => Hf y (or_intror Hy))). lia.
Qed.

Lemma BinnerTile_emits (cfg : RasterizerConfig) (tilesPerRow primIdx : Z)
    (ee0 ee1 ee2 : vec3) (tilePosX tilePosY : f32) (tx ty txx tyy : Z) :
  let acts := BinnerTile cfg tilesPerRow primIdx ee0 ee1 ee2 tilePosX tilePosY tx ty txx tyy in
  (length acts <= 1)%nat
  /\ Forall (fun a =>
       action_prim a = primIdx
       /\ action_tile a = Z.to_nat (GetGlobalTileIndex tilesPerRow tx ty)
       /\ forall t mask, a = EmitTile t mask -> m_Type mask = TILE) acts.
Proof.
  unfold BinnerTile. destruct (ClassifyRegion _ _ _ _ _ _ _ _); simpl.
  - split; [lia | constructor].
  - split; [lia |]. constructor; [| constructor].
    split; [reflexivity |]. split; [reflexivity |].
    intros t mask Heq. injection Heq as _ <-. reflexivity.
  - split; [lia |]. constructor; [| constructor].
    split; [reflexivity |]. split; [reflexivity |]. intros t mask Heq. discriminate.
Qed.

(** X12.  [ExecuteBinner] discards a primitive whose bounding box lies
    outside the screen without touching anything.  Otherwise it stores the
    bounding box, clamped to the screen, at the primitive's slot and changes
    nothing else of the setup buffers, and it acts only on tiles of the tile
    range of that box, with at most as many actions as the range has tiles:
    each action is a trivial accept with a TILE mask or a binning, of this
    primitive. *)
Theorem ExecuteBinner_stays_in_tile_range
    (cfg : RasterizerConfig) (fbWidth fbHeight tilesPerRow : Z) (tiles : list Tile)
    (primIdx : Z) (v0Clip v1Clip v2Clip : vec4)
    (sb sb' : SetupBuffers) (acts : list BinnerAction) :
  ExecuteBinner cfg fbWidth fbHeight tilesPerRow tiles primIdx v0Clip v1Clip v2Clip sb
    = Some (sb', acts) ->
  let bbox := ComputeBoundingBox v0Clip v1Clip v2Clip fbWidth fbHeight in
  if OffScreen fbWidth fbHeight bbox then sb' = sb /\ acts = []
  else
    let clamped := ClampToScreen fbWidth fbHeight bbox in
    sb' = set_PrimBBoxes sb (<[Z.to_nat primIdx := clamped]> (m_pPrimBBoxes sb))
    /\ (Z.to_nat primIdx < length (m_pPrimBBoxes sb))%nat
    /\ let '(minTileX, maxTileX, minTileY, maxTileY) := TileRange cfg clamped in
       (length acts <= Z.to_nat (maxTileY - minTileY) * Z.to_nat (maxTileX - minTileX))%nat
       /\ Forall (fun a =>
            action_prim a = primIdx
            /\ (forall t mask, a = EmitTile t mask -> m_Type mask = TILE)
            /\ exists tx ty,
                 minTileX <= tx < maxTileX /\ minTileY <= ty < maxTileY
                 /\ action_tile a = Z.to_nat (GetGlobalTileIndex tilesPerRow tx ty)) acts.
Proof.
  unfold ExecuteBinner. cbv zeta. intros Hrun.
  change ((m_MinX (ComputeBoundingBox v0Clip v1Clip v2Clip fbWidth fbHeight)
             >=? float_of_u32 fbWidth)%f32
          || (m_MaxX (ComputeBoundingBox v0Clip v1Clip v2Clip fbWidth fbHeight) <? F32.zero)%f32
          || (m_MinY (ComputeBoundingBox v0Clip v1Clip v2Clip fbWidth fbHeight)
                >=? float_of_u32 fbHeight)%f32
          || (m_MaxY (ComputeBoundingBox v0Clip v1Clip v2Clip fbWidth fbHeight) <? F32.zero)%f32)
    with (OffScreen fbWidth fbHeight (ComputeBoundingBox v0Clip v1Clip v2Clip fbWidth fbHeight))
    in Hrun.
  destruct (OffScreen _ _ _).
  - injection Hrun as <- <-. split; reflexivity.
  - unfold array_set in Hrun.
    destruct (decide (Z.to_nat primIdx < length (m_pPrimBBoxes sb))%nat) as [Hlt | _];
      [| discriminate].
    cbn [mbind option_bind] in Hrun.
    destruct (TileRange cfg _) as [[[minTileX maxTileX] minTileY] maxTileY].
    destruct (array_get _ (u32 (3 * primIdx + 0))) as [ee0 |]; [| discriminate].
    destruct (array_get _ (u32 (3 * primIdx + 1))) as [ee1 |]; [| discriminate].
    destruct (array_get _ (u32 (3 * primIdx + 2))) as [ee2 |]; [| discriminate].
    cbn [mbind option_bind] in Hrun.
    destruct (array_get tiles _) as [first |]; [| discriminate].
    cbn [mbind option_bind] in Hrun. injection Hrun as <- <-.
    split; [reflexivity |]. split; [exact Hlt |]. split.
    + eapply Nat.le_trans; [apply flat_map_length_le with (c := Z.to_nat (maxTileX - minTileX)) |].
      * intros [ty tyy] _.
        eapply Nat.le_trans; [apply flat_map_length_le with (c := 1%nat) |].
        -- intros [tx txx] _. apply BinnerTile_emits.
        -- rewrite loop_range_length. lia.
      * rewrite loop_range_length. lia.
    + apply Forall_flat_map. apply Forall_forall. intros [ty tyy] Hty.
      apply list_elem_of_In, loop_range_In in Hty as [Hty _].
      apply Forall_flat_map. apply Forall_forall. intros [tx txx] Htx.
      apply list_elem_of_In, loop_range_In in Htx as [Htx _].
      eapply Forall_impl; [apply BinnerTile_emits |].
      intros a (Hp & Ht & Hm). split; [exact Hp |]. split; [exact Hm |].
      exists tx, ty. auto.
Qed.

Lemma ExecuteBinner_stays_in_tile_range_witness :
  exists (sb' : SetupBuffers) (acts : list BinnerAction),
    ExecuteBinner Scene.wide_config 256 256 4 (m_TileList Scene.wide_engine) 0
      Scene.p0 Scene.p1 Scene.p2 Scene.wide_triangle_setup = Some (sb', acts)
    /\ (length acts <= 16)%nat.
Proof.
  destruct (ExecuteBinner Scene.wide_config 256 256 4 (m_TileList Scene.wide_engine) 0
              Scene.p0 Scene.p1 Scene.p2 Scene.wide_triangle_setup)
    as [[sb' acts] |] eqn:Hrun; [| vm_compute in Hrun; discriminate].
  exists sb', acts. split; [reflexivity |].
  pose proof (ExecuteBinner_stays_in_tile_range _ _ _ _ _ _ _ _ _ _ _ _ Hrun) as Hspec.
  cbv zeta in Hspec.
  assert (Hon : OffScreen 256 256 (ComputeBoundingBox Scene.p0 Scene.p1 Scene.p2 256 256)
                = false) by (vm_compute; reflexivity).
  rewrite Hon in Hspec.
  assert (Hrange : TileRange Scene.wide_config
                     (ClampToScreen 256 256
                        (ComputeBoundingBox Scene.p0 Scene.p1 Scene.p2 256 256))
                   = (0, 4, 0, 4)) by (vm_compute; reflexivity).
  rewrite Hrange in Hspec.
  destruct Hspec as (_ & _ & Hlen & _). exact Hlen.
Defined.

Lemma QuadMaskInt_bits (shared : bool) (ee0 ee1 ee2 : vec3) (blockPosX blockPosY : f32)
    (px py : Z) :
  let q := QuadMaskInt shared ee0 ee1 ee2 blockPosX blockPosY px py in
  0 <= q <= 15
  /\ forall k : nat, (k < 4)%nat ->
       Z.testbit q (Z.of_nat k)
       = SampleInside shared ee0 ee1 ee2 blockPosX blockPosY px py (Z.of_nat k).
Proof.
  unfold QuadMaskInt, SampleInside. cbv zeta.
  set (y := (blockPosY + float_of_u32 py + F32.half)%f32).
  set (x := fun k : Z =>
              (blockPosX + float_of_u32 (g_scSIMDWidth * px) + F32.make (2 * k + 1) (-1))%f32).
  set (inside := fun k : Z =>
                   EdgeFuncMask shared ee0 (x k) y
                   && (EdgeFuncMask shared ee1 (x k) y && EdgeFuncMask shared ee2 (x k) y)).
  change (0 <= Z.b2z (inside 0) + 2 * Z.b2z (inside 1) + 4 * Z.b2z (inside 2)
               + 8 * Z.b2z (inside 3) <= 15
          /\ forall k : nat, (k < 4)%nat ->
               Z.testbit (Z.b2z (inside 0) + 2 * Z.b2z (inside 1) + 4 * Z.b2z (inside 2)
                          + 8 * Z.b2z (inside 3)) (Z.of_nat k)
               = inside (Z.of_nat k)).
  split.
  - destruct (inside 0), (inside 1), (inside 2), (inside 3); simpl; lia.
  - intros k Hk.
    assert (Hcases : k = 0%nat \/ k = 1%nat \/ k = 2%nat \/ k = 3%nat) by lia.
    destruct Hcases as [-> | [-> | [-> | ->]]];
      change (Z.of_nat 0) with 0; change (Z.of_nat 1) with 1;
      change (Z.of_nat 2) with 2; change (Z.of_nat 3) with 3;
      destruct (inside 0), (inside 1), (inside 2), (inside 3); reflexivity.
Qed.

(** X13.  The quad mask that the rasterizer emits and the color mask that
    [FragmentShadeQuad] makes of it agree sample by sample: lane [k] of the
    color mask is all ones exactly when the rasterizer found sample [k] of
    the group inside the three edges. *)
Theorem quad_mask_selects_the_covered_samples
    (shared : bool) (ee0 ee1 ee2 : vec3) (blockPosX blockPosY : f32) (px py : Z) (k : nat) :
  (k < 4)%nat ->
  epi_lane (QuadColorMask (QuadMaskInt shared ee0 ee1 ee2 blockPosX blockPosY px py)) k
  = cmp_mask (SampleInside shared ee0 ee1 ee2 blockPosX blockPosY px py (Z.of_nat k)).
Proof.
  intros Hk. rewrite QuadColorMask_lane by exact Hk.
  rewrite (proj2 (QuadMaskInt_bits shared ee0 ee1 ee2 blockPosX blockPosY px py) k Hk).
  reflexivity.
Qed.

Lemma quad_mask_selects_the_covered_samples_witness :
  epi_lane (QuadColorMask
              (QuadMaskInt true (mk_vec3 F32.one F32.zero (F32.of_Z (-2)))
                 (mk_vec3 F32.zero F32.one F32.zero) (mk_vec3 F32.zero F32.zero F32.one)
                 F32.zero F32.zero 0 0)) 2
  = all_ones.
Proof.
  rewrite (quad_mask_selects_the_covered_samples true
             (mk_vec3 F32.one F32.zero (F32.of_Z (-2)))
             (mk_vec3 F32.zero F32.one F32.zero) (mk_vec3 F32.zero F32.zero F32.one)
             F32.zero F32.zero 0 0 2) by lia.
  vm_compute. reflexivity.
Defined.

(** X14.  Every coverage mask that the rasterizer emits for a binned
    primitive carries that primitive's index and is a BLOCK mask or a QUAD
    mask whose quad mask selects at least one and at most four samples; the
    rasterizer emits no TILE mask and no empty QUAD mask. *)
Theorem RasterizePrimitive_emits_block_and_quad_masks
    (cfg : RasterizerConfig) (shared : bool) (tilePosX tilePosY : f32) (primIdx : Z)
    (sb : SetupBuffers) (masks : list CoverageMask) :
  RasterizePrimitive cfg shared tilePosX tilePosY primIdx sb = Some masks ->
  Forall (fun m =>
    m_PrimIdx m = primIdx
    /\ (m_Type m = BLOCK \/ (m_Type m = QUAD /\ 1 <= m_QuadMask m <= 15))) masks.
Proof.
  intros Hrun.
  unfold RasterizePrimitive in Hrun.
  destruct (array_get (m_pPrimBBoxes sb) primIdx) as [bbox |]; [| discriminate].
  cbn [mbind option_bind] in Hrun. cbv zeta in Hrun.
  destruct (array_get _ (u32 (3 * primIdx + 0))) as [ee0 |]; [| discriminate].
  destruct (array_get _ (u32 (3 * primIdx + 1))) as [ee1 |]; [| discriminate].
  destruct (array_get _ (u32 (3 * primIdx + 2))) as [ee2 |]; [| discriminate].
  cbn [mbind option_bind] in Hrun. injection Hrun as <-.
  apply Forall_flat_map, List.Forall_forall. intros [by_ byy] _.
  apply Forall_flat_map, List.Forall_forall. intros [bx bxx] _.
  unfold RasterizeBlock. destruct (ClassifyRegion _ _ _ _ _ _ _ _).
  - constructor.
  - constructor; [| constructor]. split; [reflexivity | left; reflexivity].
  - unfold RasterizeQuads.
    apply Forall_flat_map, List.Forall_forall. intros [py pyy] _.
    apply Forall_flat_map, List.Forall_forall. intros [px pxx] _.
    cbv zeta.
    match goal with
    | |- context [QuadMaskInt ?s ?a ?b ?c ?x ?y ?p ?q] =>
        pose proof (proj1 (QuadMaskInt_bits s a b c x y p q)) as Hq;
        cbv zeta in Hq;
        destruct (Z.eqb_spec (QuadMaskInt s a b c x y p q) 0) as [_ | Hne]
    end; [constructor |].
    constructor; [| constructor]. split; [reflexivity |]. right.
    split; [reflexivity |]. cbn [m_QuadMask]. lia.
Qed.

Lemma RasterizePrimitive_emits_block_and_quad_masks_witness :
  exists masks : list CoverageMask,
    RasterizePrimitive Scene.config true F32.zero F32.zero 0 Scene.binned_setup_buffers
      = Some masks
    /\ masks <> []
    /\ Forall (fun m => m_PrimIdx m = 0) masks.
Proof.
  destruct (RasterizePrimitive Scene.config true F32.zero F32.zero 0
              Scene.binned_setup_buffers) as [masks |] eqn:Hrun;
    [| vm_compute in Hrun; discriminate].
  exists masks. split; [reflexivity |]. split.
  - intros ->. vm_compute in Hrun. discriminate.
  - eapply Forall_impl;
      [exact (RasterizePrimitive_emits_block_and_quad_masks _ _ _ _ _ _ _ Hrun) |].
    intros m [Hm _]. exact Hm.
Defined.

(** ** The hierarchical test in exact arithmetic *)

(** X15.  Evaluated in exact integer arithmetic, the hierarchical test of the
    binner and the rasterizer is conservative: in a region classified
    trivial-reject no point lies inside all three edges, and in a region
    classified trivial-accept every point does.  A point [(x, y)] of the
    region is inside the edge [(a, b, c)] when [a*x + b*y + c >= 0]. *)
Theorem hierarchical_test_is_conservative_over_the_integers
    (S : Z) (e0 e1 e2 : Z * Z * Z) (posX posY xx yy x y : Z) :
  let o := RegionOrigin S posX posY xx yy in
  fst o <= x <= fst o + u32 S ->
  snd o <= y <= snd o + u32 S ->
  let inside := fun '(a, b, c) => 0 <= EvalEdge a b c x y in
  match ClassifyRegion S e0 e1 e2 posX posY xx yy with
  | TrivialReject => ~ (inside e0 /\ inside e1 /\ inside e2)
  | TrivialAccept => inside e0 /\ inside e1 /\ inside e2
  | Overlap => True
  end.
Proof.
  intros o Hx Hy inside.
  assert (Hbound : forall a b c,
            (TRForEdge S a b c posX posY xx yy = true -> ~ 0 <= EvalEdge a b c x y)
            /\ (TAForEdge S a b c posX posY xx yy = true -> 0 <= EvalEdge a b c x y)).
  { intros a b c.
    pose proof (corners_bound_region_Z S a b c posX posY xx yy x y Hx Hy) as [Hlo Hhi].
    destruct (stepped_is_direct_Z S a b c posX posY xx yy) as [HTR HTA].
    unfold TRForEdge, TAForEdge. rewrite HTR, HTA.
    change (@ea_ltb Z Z_EdgeArith) with Z.ltb. change (@ea_geb Z Z_EdgeArith) with Z.geb.
    change (@ea_zero Z Z_EdgeArith) with 0.
    split; intros Ht.
    - apply Z.ltb_lt in Ht. lia.
    - apply Z.geb_le in Ht. exact (Z.le_trans _ _ _ Ht Hlo). }
  destruct (ClassifyRegion_cases S e0 e1 e2 posX posY xx yy) as (Hrej & Hacc & _).
  destruct e0 as [[a0 b0] c0], e1 as [[a1 b1] c1], e2 as [[a2 b2] c2].
  destruct (ClassifyRegion S (a0, b0, c0) (a1, b1, c1) (a2, b2, c2) posX posY xx yy).
  - apply proj1 in Hrej. specialize (Hrej eq_refl).
    rewrite !Exists_cons, Exists_nil in Hrej.
    intros (H0 & H1 & H2).
    destruct Hrej as [Ht | [Ht | [Ht | []]]]; apply Hbound in Ht; contradiction.
  - apply proj1 in Hacc. specialize (Hacc eq_refl) as [_ Hta].
    rewrite !Forall_cons in Hta. destruct Hta as (H0 & H1 & H2 & _).
    split; [| split]; apply Hbound; assumption.
  - exact I.
Qed.

Lemma hierarchical_test_is_conservative_over_the_integers_witness :
  ClassifyRegion 8 (1, 0, -100) (0, 1, 0) (-1, -1, 200) 0 0 2 1 = TrivialReject
  /\ ~ (0 <= EvalEdge 1 0 (-100) 19 12
        /\ 0 <= EvalEdge 0 1 0 19 12
        /\ 0 <= EvalEdge (-1) (-1) 200 19 12).
Proof.
  split; [reflexivity |].
  apply (hierarchical_test_is_conservative_over_the_integers
           8 (1, 0, -100) (0, 1, 0) (-1, -1, 200) 0 0 2 1 19 12);
    vm_compute; split; discriminate.
Defined.

(** ** The bounding box that the binner stores *)

(** The order of binary32: what [<] and [<=] give with and without NaN. *)
Lemma F32_ltb_leb (x y : f32) : (x <? y)%f32 = true -> (x <=? y)%f32 = true.
Proof.
  unfold F32.ltb, F32.leb, SFltb, SFleb.
  destruct (SFcompare x y) as [[| |] |]; intros Hlt; try discriminate; reflexivity.
Qed.

Lemma F32_ltb_not_nan (x y : f32) :
  (x <? y)%f32 = true -> x <> S754_nan /\ y <> S754_nan.
Proof.
  unfold F32.ltb, SFltb.
  destruct x, y; simpl; intros Hlt; try discriminate; split; discriminate.
Qed.

Lemma F32_leb_not_nan (x y : f32) :
  (x <=? y)%f32 = true -> x <> S754_nan /\ y <> S754_nan.
Proof.
  unfold F32.leb, SFleb.
  destruct x, y; simpl; intros Hle; try discriminate; split; discriminate.
Qed.

Lemma F32_ltb_nan_l (x : f32) : (S754_nan <? x)%f32 = false.
Proof. reflexivity. Qed.

Lemma F32_ltb_nan_r (x : f32) : (x <? S754_nan)%f32 = false.
Proof. destruct x; reflexivity. Qed.

Lemma F32_leb_refl (x : f32) : x <> S754_nan -> (x <=? x)%f32 = true.
Proof.
  unfold F32.leb, SFleb, SFcompare. intros Hx.
  destruct x as [s | s | | s m e]; try congruence; try reflexivity.
  - destruct s; reflexivity.
  - change (Pos.compare_cont Eq) with Pos.compare.
    rewrite Z.compare_refl, Pos.compare_refl. destruct s; reflexivity.
Qed.

Lemma F32_nan_cases (x : f32) : x = S754_nan \/ x <> S754_nan.
Proof. destruct x; [right | right | left | right]; congruence. Qed.

(** Without NaN the order is total. *)
Lemma F32_ltb_total (x y : f32) :
  x <> S754_nan -> y <> S754_nan -> (x <? y)%f32 = false -> (y <=? x)%f32 = true.
Proof.
  unfold F32.ltb, F32.leb, SFltb, SFleb, SFcompare. intros Hx Hy.
  destruct x as [sx | sx | | sx mx ex], y as [sy | sy | | sy my ey];
    try congruence; try reflexivity;
    try (destruct sx; try discriminate; try reflexivity);
    try (destruct sy; try discriminate; try reflexivity).
  all: change (Pos.compare_cont Eq) with Pos.compare.
  all: rewrite (Z.compare_antisym ex ey), (Pos.compare_antisym mx my).
  all: destruct (ex ?= ey); simpl; try discriminate; try reflexivity.
  all: destruct (mx ?= my)%positive; simpl; try discriminate; reflexivity.
Qed.

(** [glm::min] and [glm::max] of three values: either both results are NaN
    or the minimum is not above the maximum. *)
Lemma F32_min_max (b c : f32) :
  (F32.min b c = S754_nan /\ F32.max b c = S754_nan)
  \/ (F32.min b c <=? F32.max b c)%f32 = true.
Proof.
  unfold F32.min, F32.max.
  destruct (F32_nan_cases b) as [-> | Hb].
  { rewrite F32_ltb_nan_l, F32_ltb_nan_r. left. split; reflexivity. }
  destruct (F32_nan_cases c) as [-> | Hc].
  { rewrite F32_ltb_nan_l, F32_ltb_nan_r. right. apply F32_leb_refl, Hb. }
  right.
  destruct (c <? b)%f32 eqn:Hcb, (b <? c)%f32 eqn:Hbc.
  - apply F32_ltb_leb in Hcb.
    apply F32_ltb_leb in Hbc. apply F32_leb_refl, Hc.
  - apply F32_ltb_leb, Hcb.
  - apply F32_ltb_leb, Hbc.
  - apply F32_leb_refl, Hb.
Qed.

Lemma F32_min3_max3 (a b c : f32) :
  let lo := F32.min a (F32.min b c) in
  let hi := F32.max a (F32.max b c) in
  (lo = S754_nan /\ hi = S754_nan) \/ (lo <=? hi)%f32 = true.
Proof.
  cbv zeta.
  destruct (F32_nan_cases a) as [-> | Ha].
  { left. unfold F32.min at 1, F32.max at 1.
    rewrite F32_ltb_nan_l, F32_ltb_nan_r. split; reflexivity. }
  destruct (F32_min_max b c) as [[-> ->] | Hle].
  { right. unfold F32.min, F32.max. rewrite F32_ltb_nan_l, F32_ltb_nan_r.
    apply F32_leb_refl, Ha. }
  right. unfold F32.min at 1, F32.max at 1.
  destruct (F32.min b c <? a)%f32 eqn:Hlo, (a <? F32.max b c)%f32 eqn:Hhi.
  - exact Hle.
  - apply F32_ltb_leb, Hlo.
  - apply F32_ltb_leb, Hhi.
  - apply F32_leb_refl, Ha.
Qed.

(** Clamping such a pair to [0, limit]: unless it lies wholly outside, the
    result is an ordered pair inside [0, limit]. *)
Lemma clamp_ordered (limit lo hi : f32) :
  (F32.zero <=? limit)%f32 = true ->
  (lo = S754_nan /\ hi = S754_nan) \/ (lo <=? hi)%f32 = true ->
  (lo >=? limit)%f32 = false ->
  (hi <? F32.zero)%f32 = false ->
  (F32.zero <=? F32.max F32.zero lo)%f32 = true
  /\ (F32.max F32.zero lo <=? F32.min limit hi)%f32 = true
  /\ (F32.min limit hi <=? limit)%f32 = true.
Proof.
  intros Hlimit Hpair Hlo Hhi.
  destruct (F32_leb_not_nan _ _ Hlimit) as [_ Hnan].
  change (lo >=? limit)%f32 with (limit <=? lo)%f32 in Hlo. unfold F32.max, F32.min.
  destruct (F32.zero <? lo)%f32 eqn:Hzl, (hi <? limit)%f32 eqn:Hhl.
  - split; [apply F32_ltb_leb, Hzl |]. split; [| apply F32_ltb_leb, Hhl].
    destruct Hpair as [[-> _] | Hle]; [discriminate | exact Hle].
  - split; [apply F32_ltb_leb, Hzl |]. split; [| apply F32_leb_refl, Hnan].
    destruct (F32_ltb_not_nan _ _ Hzl) as [_ Hl].
    destruct (lo <? limit)%f32 eqn:Hll; [apply F32_ltb_leb, Hll |].
    apply (F32_ltb_total _ _ Hl Hnan) in Hll. congruence.
  - split; [reflexivity |]. split; [| apply F32_ltb_leb, Hhl].
    destruct (F32_ltb_not_nan _ _ Hhl) as [Hh _].
    apply F32_ltb_total; [exact Hh | discriminate | exact Hhi].
  - split; [reflexivity |]. split; [exact Hlimit | apply F32_leb_refl, Hnan].
Qed.

(** Rounding an integer that is not negative gives a binary32 that is not
    negative (and not NaN). *)
Lemma shr_1_nonneg (mrs : shr_record) : 0 <= shr_m mrs -> 0 <= shr_m (shr_1 mrs).
Proof.
  destruct mrs as [m r s]. simpl.
  destruct m as [| [p | p |] | p]; simpl; lia.
Qed.

Lemma iter_shr_1_nonneg (p : positive) :
  forall mrs : shr_record, 0 <= shr_m mrs -> 0 <= shr_m (SpecFloat.iter_pos shr_1 p mrs).
Proof.
  induction p as [p IH | p IH |]; intros mrs Hm; simpl.
  - apply IH, IH, shr_1_nonneg, Hm.
  - apply IH, IH, Hm.
  - apply shr_1_nonneg, Hm.
Qed.

Lemma shr_fexp_nonneg (m e : Z) (l : location) :
  0 <= m -> 0 <= shr_m (fst (shr_fexp F32.prec F32.emax m e l)).
Proof.
  intros Hm. unfold shr_fexp, shr.
  assert (Hrec : 0 <= shr_m (shr_record_of_loc m l)).
  { destruct l as [| []]; exact Hm. }
  destruct (_ - e) as [| p | p]; simpl; try exact Hrec.
  apply iter_shr_1_nonneg, Hrec.
Qed.

Lemma round_nearest_even_nonneg (m : Z) (l : location) :
  0 <= m -> 0 <= round_nearest_even m l.
Proof.
  intros Hm. unfold round_nearest_even.
  destruct l as [| []]; try destruct (Z.even m); lia.
Qed.

Lemma F32_of_Z_nonneg (n : Z) : 0 <= n -> (F32.zero <=? F32.of_Z n)%f32 = true.
Proof.
  intros Hn. unfold F32.of_Z, F32.make, binary_normalize.
  destruct n as [| p | p]; [reflexivity | | lia].
  unfold binary_round. destruct (shl_align _ _ _) as [mz ez].
  unfold binary_round_aux.
  pose proof (shr_fexp_nonneg (Z.pos mz) ez loc_Exact ltac:(lia)) as H1.
  destruct (shr_fexp F32.prec F32.emax (Z.pos mz) ez loc_Exact) as [mrs' e'].
  simpl in H1.
  pose proof (shr_fexp_nonneg (round_nearest_even (shr_m mrs') (loc_of_shr_record mrs')) e'
                loc_Exact (round_nearest_even_nonneg _ _ H1)) as H2.
  destruct (shr_fexp F32.prec F32.emax _ e' loc_Exact) as [mrs'' e''].
  simpl in H2.
  destruct (shr_m mrs'') as [| q | q]; [reflexivity | | lia].
  destruct (e'' <=? _); reflexivity.
Qed.

Lemma float_of_u32_nonneg (n : Z) : (F32.zero <=? float_of_u32 n)%f32 = true.
Proof.
  apply F32_of_Z_nonneg. unfold u32, u32_mod. apply Z.mod_pos_bound. lia.
Qed.

(** X16.  The bounding box that [ExecuteBinner] stores for a primitive it does
    not discard lies on the screen and is not inverted:
    [0 <= m_MinX <= m_MaxX <= fbWidth] and [0 <= m_MinY <= m_MaxY <= fbHeight],
    whatever the clip-space vertices are (NaN and infinities included).  The
    two assertions that follow the clamping in the source can never fail. *)
Theorem ExecuteBinner_stores_a_box_on_screen
    (cfg : RasterizerConfig) (fbWidth fbHeight tilesPerRow : Z) (tiles : list Tile)
    (primIdx : Z) (v0Clip v1Clip v2Clip : vec4)
    (sb sb' : SetupBuffers) (acts : list BinnerAction) :
  ExecuteBinner cfg fbWidth fbHeight tilesPerRow tiles primIdx v0Clip v1Clip v2Clip sb
    = Some (sb', acts) ->
  OffScreen fbWidth fbHeight (ComputeBoundingBox v0Clip v1Clip v2Clip fbWidth fbHeight)
    = false ->
  exists bbox : Rect2D,
    array_get (m_pPrimBBoxes sb') primIdx = Some bbox
    /\ (F32.zero <=? m_MinX bbox)%f32 = true
    /\ (m_MinX bbox <=? m_MaxX bbox)%f32 = true
    /\ (m_MaxX bbox <=? float_of_u32 fbWidth)%f32 = true
    /\ (F32.zero <=? m_MinY bbox)%f32 = true
    /\ (m_MinY bbox <=? m_MaxY bbox)%f32 = true
    /\ (m_MaxY bbox <=? float_of_u32 fbHeight)%f32 = true.
Proof.
  unfold ExecuteBinner. cbv zeta. intros Hrun Hon.
  change ((m_MinX (ComputeBoundingBox v0Clip v1Clip v2Clip fbWidth fbHeight)
             >=? float_of_u32 fbWidth)%f32
          || (m_MaxX (ComputeBoundingBox v0Clip v1Clip v2Clip fbWidth fbHeight) <? F32.zero)%f32
          || (m_MinY (ComputeBoundingBox v0Clip v1Clip v2Clip fbWidth fbHeight)
                >=? float_of_u32 fbHeight)%f32
          || (m_MaxY (ComputeBoundingBox v0Clip v1Clip v2Clip fbWidth fbHeight) <? F32.zero)%f32)
    with (OffScreen fbWidth fbHeight (ComputeBoundingBox v0Clip v1Clip v2Clip fbWidth fbHeight))
    in Hrun.
  rewrite Hon in Hrun.
  unfold array_set in Hrun.
  destruct (decide (Z.to_nat primIdx < length (m_pPrimBBoxes sb))%nat) as [Hlt | _];
    [| discriminate].
  cbn [mbind option_bind] in Hrun.
  destruct (TileRange cfg _) as [[[minTileX maxTileX] minTileY] maxTileY].
  destruct (array_get _ (u32 (3 * primIdx + 0))) as [ee0 |]; [| discriminate].
  destruct (array_get _ (u32 (3 * primIdx + 1))) as [ee1 |]; [| discriminate].
  destruct (array_get _ (u32 (3 * primIdx + 2))) as [ee2 |]; [| discriminate].
  cbn [mbind option_bind] in Hrun.
  destruct (array_get tiles _) as [first |]; [| discriminate].
  cbn [mbind option_bind] in Hrun. injection Hrun as <- _.
  eexists. split.
  { unfold array_get. cbn [m_pPrimBBoxes set_PrimBBoxes].
    apply list_lookup_insert_eq. exact Hlt. }
  unfold OffScreen in Hon.
  apply orb_false_iff in Hon as [Hon HmaxY].
  apply orb_false_iff in Hon as [Hon HminY].
  apply orb_false_iff in Hon as [HminX HmaxX].
  unfold ComputeBoundingBox in *. cbv zeta in *.
  cbn [m_MinX m_MinY m_MaxX m_MaxY ClampToScreen] in *.
  destruct (clamp_ordered _ _ _ (float_of_u32_nonneg fbWidth) (F32_min3_max3 _ _ _)
              HminX HmaxX) as (Hx0 & Hx1 & Hx2).
  destruct (clamp_ordered _ _ _ (float_of_u32_nonneg fbHeight) (F32_min3_max3 _ _ _)
              HminY HmaxY) as (Hy0 & Hy1 & Hy2).
  repeat (split; [assumption |]). assumption.
Qed.

Lemma ExecuteBinner_stores_a_box_on_screen_witness :
  exists bbox : Rect2D,
    array_get (m_pPrimBBoxes Scene.binned_setup_buffers) 0 = Some bbox
    /\ (F32.zero <=? m_MinX bbox)%f32 = true
    /\ (m_MinX bbox <=? m_MaxX bbox)%f32 = true
    /\ (m_MaxX bbox <=? float_of_u32 64)%f32 = true
    /\ (F32.zero <=? m_MinY bbox)%f32 = true
    /\ (m_MinY bbox <=? m_MaxY bbox)%f32 = true
    /\ (m_MaxY bbox <=? float_of_u32 64)%f32 = true.
Proof.
  destruct (ExecuteBinner Scene.config 64 64 1 (m_TileList Scene.engine) 0
              Scene.v0 Scene.v1 Scene.v2 Scene.shaded_setup_buffers)
    as [[sb' acts] |] eqn:Hrun; [| vm_compute in Hrun; discriminate].
  assert (Hsb : Scene.binned_setup_buffers = sb').
  { unfold Scene.binned_setup_buffers. rewrite Hrun. reflexivity. }
  rewrite Hsb.
  apply (ExecuteBinner_stores_a_box_on_screen _ _ _ _ _ _ _ _ _ _ _ _ Hrun).
  vm_compute. reflexivity.
Defined.

(** ** Deltas stored by geometry setup and read by fragment shading *)

Lemma store_delta_load (bufs bufs' : list (list vec3)) (slot idx : Z) (d : vec3) :
  store_delta bufs slot idx d = Some bufs' -> load_delta bufs' slot idx = Some d.
Proof.
  unfold store_delta, load_delta, array_get, array_set. intros Hst.
  destruct (bufs !! Z.to_nat slot) as [buf |] eqn:Hbuf; [| discriminate].
  cbn [mbind option_bind] in Hst.
  destruct (decide (Z.to_nat idx < length buf)%nat) as [Hidx |]; [| discriminate].
  cbn [mbind option_bind] in Hst.
  destruct (decide (Z.to_nat slot < length bufs)%nat) as [Hslot |]; [| discriminate].
  injection Hst as <-.
  rewrite list_lookup_insert_eq by exact Hslot. cbn [mbind option_bind].
  apply list_lookup_insert_eq. exact Hidx.
Qed.

Lemma store_delta_other (bufs bufs' : list (list vec3)) (slot idx : Z) (d : vec3)
    (slot' idx' : Z) :
  store_delta bufs slot idx d = Some bufs' ->
  Z.to_nat slot' <> Z.to_nat slot \/ Z.to_nat idx' <> Z.to_nat idx ->
  load_delta bufs' slot' idx' = load_delta bufs slot' idx'.
Proof.
  unfold store_delta, load_delta, array_get, array_set. intros Hst Hne.
  destruct (bufs !! Z.to_nat slot) as [buf |] eqn:Hbuf; [| discriminate].
  cbn [mbind option_bind] in Hst.
  destruct (decide (Z.to_nat idx < length buf)%nat) as [Hidx |]; [| discriminate].
  cbn [mbind option_bind] in Hst.
  destruct (decide (Z.to_nat slot < length bufs)%nat) as [Hslot |]; [| discriminate].
  injection Hst as <-.
  destruct (decide (Z.to_nat slot' = Z.to_nat slot)) as [Heq | Hslot'].
  - rewrite Heq, list_lookup_insert_eq, Hbuf by exact Hslot. cbn [mbind option_bind].
    apply list_lookup_insert_ne. destruct Hne as [Hne | Hne]; congruence.
  - rewrite list_lookup_insert_ne by congruence. reflexivity.
Qed.

Lemma u32_add_ne (b j j' : Z) :
  0 <= j < u32_mod -> 0 <= j' < u32_mod -> j <> j' ->
  Z.to_nat (u32 (b + j)) <> Z.to_nat (u32 (b + j')).
Proof.
  unfold u32, u32_mod. change (2 ^ 32) with 4294967296. intros Hj Hj' Hne Heq.
  pose proof (Z.mod_pos_bound (b + j) 4294967296 ltac:(lia)).
  pose proof (Z.mod_pos_bound (b + j') 4294967296 ltac:(lia)).
  apply Z2Nat.inj in Heq; [| lia | lia].
  pose proof (Z.div_mod (b + j) 4294967296 ltac:(lia)).
  pose proof (Z.div_mod (b + j') 4294967296 ltac:(lia)).
  lia.
Qed.

Lemma for_u32_run {St} (I : nat -> St -> Prop) (n : Z) (body : Z -> St -> option St)
    (st st' : St) :
  I 0%nat st ->
  (forall j s s', (j < Z.to_nat n)%nat -> I j s -> body (Z.of_nat j) s = Some s' -> I (S j) s') ->
  for_u32 n body st = Some st' -> I (Z.to_nat n) st'.
Proof.
  unfold for_u32. intros H0 Hstep. generalize dependent st'.
  induction (Z.to_nat n) as [| m IH]; intros st' Hrun.
  - injection Hrun as <-. exact H0.
  - rewrite seq_S, foldl_app in Hrun. simpl in Hrun.
    destruct (foldl _ _ _) as [s |] eqn:Hprefix; [| discriminate].
    cbn [mbind option_bind] in Hrun.
    apply (Hstep m s st'); [lia | | exact Hrun].
    apply IH; [| reflexivity].
    intros j s0 s0' Hj. apply Hstep. lia.
Qed.

(** Rewrites a load from [bufs'] into the load from [bufs] across a store
    elsewhere. *)
Ltac across Hst :=
  rewrite (store_delta_other _ _ _ _ _ _ _ Hst)
    by (first [ left; rewrite !Nat2Z.id; lia
              | right; apply u32_add_ne; unfold u32_mod; lia ]).

Section Deltas.

Variable md : ShaderMetadata.
Variable drawIdx : Z.
Variables a0 a1 a2 : VertexAttributes.

Lemma vec4_deltas_stored (sb sb' : SetupBuffers) :
  for_u32 (m_NumVec4Attributes md) (fun i sb =>
    attrib0 ← array_get (m_Attributes4 a0) i;
    attrib1 ← array_get (m_Attributes4 a1) i;
    attrib2 ← array_get (m_Attributes4 a2) i;
    d ← store_delta (m_Attribute4Deltas sb) i (u32 (drawIdx * 4 + 0))
          (delta (x4 attrib0) (x4 attrib1) (x4 attrib2));
    d ← store_delta d i (u32 (drawIdx * 4 + 1)) (delta (y4 attrib0) (y4 attrib1) (y4 attrib2));
    d ← store_delta d i (u32 (drawIdx * 4 + 2)) (delta (z4 attrib0) (z4 attrib1) (z4 attrib2));
    d ← store_delta d i (u32 (drawIdx * 4 + 3)) (delta (w4 attrib0) (w4 attrib1) (w4 attrib2));
    Some (set_Attribute4Deltas sb d)) sb = Some sb' ->
  (forall i : nat, (i < Z.to_nat (m_NumVec4Attributes md))%nat ->
     Vec4DeltasStored drawIdx a0 a1 a2 i (m_Attribute4Deltas sb'))
  /\ m_Attribute3Deltas sb' = m_Attribute3Deltas sb
  /\ m_Attribute2Deltas sb' = m_Attribute2Deltas sb.
Proof.
  intros Hrun.
  apply (for_u32_run (fun j s =>
           (forall i : nat, (i < j)%nat ->
              Vec4DeltasStored drawIdx a0 a1 a2 i (m_Attribute4Deltas s))
           /\ m_Attribute3Deltas s = m_Attribute3Deltas sb
           /\ m_Attribute2Deltas s = m_Attribute2Deltas sb)) in Hrun.
  - exact Hrun.
  - split; [intros i Hi; lia | split; reflexivity].
  - clear Hrun. intros j s s' Hj (Hold & H3 & H2) Hbody.
    unfold array_get in Hbody. rewrite Nat2Z.id in Hbody.
    destruct (m_Attributes4 a0 !! j) as [A0 |] eqn:HA0; [| discriminate].
    destruct (m_Attributes4 a1 !! j) as [A1 |] eqn:HA1; [| discriminate].
    destruct (m_Attributes4 a2 !! j) as [A2 |] eqn:HA2; [| discriminate].
    cbn [mbind option_bind] in Hbody.
    destruct (store_delta (m_Attribute4Deltas s) _ _ _) as [d1 |] eqn:H1; [| discriminate].
    cbn [mbind option_bind] in Hbody.
    destruct (store_delta d1 _ _ _) as [d2 |] eqn:Hs2; [| discriminate].
    cbn [mbind option_bind] in Hbody.
    destruct (store_delta d2 _ _ _) as [d3 |] eqn:Hs3; [| discriminate].
    cbn [mbind option_bind] in Hbody.
    destruct (store_delta d3 _ _ _) as [d4 |] eqn:Hs4; [| discriminate].
    cbn [mbind option_bind] in Hbody. injection Hbody as <-.
    cbn [set_Attribute4Deltas m_Attribute4Deltas m_Attribute3Deltas m_Attribute2Deltas].
    split; [| split; assumption].
    intros i Hi. destruct (decide (i = j)) as [-> | Hne].
    + exists A0, A1, A2. repeat (split; [assumption |]).
      split; [| split; [| split]].
      * across Hs4. across Hs3. across Hs2. exact (store_delta_load _ _ _ _ _ H1).
      * across Hs4. across Hs3. exact (store_delta_load _ _ _ _ _ Hs2).
      * across Hs4. exact (store_delta_load _ _ _ _ _ Hs3).
      * exact (store_delta_load _ _ _ _ _ Hs4).
    + destruct (Hold i ltac:(lia)) as (B0 & B1 & B2 & HB0 & HB1 & HB2 & L0 & L1 & L2 & L3).
      exists B0, B1, B2. repeat (split; [assumption |]).
      split; [| split; [| split]];
        across Hs4; across Hs3; across Hs2; across H1; assumption.
Qed.

Lemma vec3_deltas_stored (sb sb' : SetupBuffers) :
  for_u32 (m_NumVec3Attributes md) (fun i sb =>
    attrib0 ← array_get (m_Attributes3 a0) i;
    attrib1 ← array_get (m_Attributes3 a1) i;
    attrib2 ← array_get (m_Attributes3 a2) i;
    d ← store_delta (m_Attribute3Deltas sb) i (u32 (drawIdx * 3 + 0))
          (delta (x3 attrib0) (x3 attrib1) (x3 attrib2));
    d ← store_delta d i (u32 (drawIdx * 3 + 1)) (delta (y3 attrib0) (y3 attrib1) (y3 attrib2));
    d ← store_delta d i (u32 (drawIdx * 3 + 2)) (delta (z3 attrib0) (z3 attrib1) (z3 attrib2));
    Some (set_Attribute3Deltas sb d)) sb = Some sb' ->
  (forall i : nat, (i < Z.to_nat (m_NumVec3Attributes md))%nat ->
     Vec3DeltasStored drawIdx a0 a1 a2 i (m_Attribute3Deltas sb'))
  /\ m_Attribute4Deltas sb' = m_Attribute4Deltas sb
  /\ m_Attribute2Deltas sb' = m_Attribute2Deltas sb.
Proof.
  intros Hrun.
  apply (for_u32_run (fun j s =>
           (forall i : nat, (i < j)%nat ->
              Vec3DeltasStored drawIdx a0 a1 a2 i (m_Attribute3Deltas s))
           /\ m_Attribute4Deltas s = m_Attribute4Deltas sb
           /\ m_Attribute2Deltas s = m_Attribute2Deltas sb)) in Hrun.
  - exact Hrun.
  - split; [intros i Hi; lia | split; reflexivity].
  - clear Hrun. intros j s s' Hj (Hold & H4 & H2) Hbody.
    unfold array_get in Hbody. rewrite Nat2Z.id in Hbody.
    destruct (m_Attributes3 a0 !! j) as [A0 |] eqn:HA0; [| discriminate].
    destruct (m_Attributes3 a1 !! j) as [A1 |] eqn:HA1; [| discriminate].
    destruct (m_Attributes3 a2 !! j) as [A2 |] eqn:HA2; [| discriminate].
    cbn [mbind option_bind] in Hbody.
    destruct (store_delta (m_Attribute3Deltas s) _ _ _) as [d1 |] eqn:H1; [| discriminate].
    cbn [mbind option_bind] in Hbody.
    destruct (store_delta d1 _ _ _) as [d2 |] eqn:Hs2; [| discriminate].
    cbn [mbind option_bind] in Hbody.
    destruct (store_delta d2 _ _ _) as [d3 |] eqn:Hs3; [| discriminate].
    cbn [mbind option_bind] in Hbody. injection Hbody as <-.
    cbn [set_Attribute3Deltas m_Attribute4Deltas m_Attribute3Deltas m_Attribute2Deltas].
    split; [| split; assumption].
    intros i Hi. destruct (decide (i = j)) as [-> | Hne].
    + exists A0, A1, A2. repeat (split; [assumption |]).
      split; [| split].
      * across Hs3. across Hs2. exact (store_delta_load _ _ _ _ _ H1).
      * across Hs3. exact (store_delta_load _ _ _ _ _ Hs2).
      * exact (store_delta_load _ _ _ _ _ Hs3).
    + destruct (Hold i ltac:(lia)) as (B0 & B1 & B2 & HB0 & HB1 & HB2 & L0 & L1 & L2).
      exists B0, B1, B2. repeat (split; [assumption |]).
      split; [| split]; across Hs3; across Hs2; across H1; assumption.
Qed.

Lemma vec2_deltas_stored (sb sb' : SetupBuffers) :
  for_u32 (m_NumVec2Attributes md) (fun i sb =>
    attrib0 ← array_get (m_Attributes2 a0) i;
    attrib1 ← array_get (m_Attributes2 a1) i;
    attrib2 ← array_get (m_Attributes2 a2) i;
    d ← store_delta (m_Attribute2Deltas sb) i (u32 (drawIdx * 2 + 0))
          (delta (x2 attrib0) (x2 attrib1) (x2 attrib2));
    d ← store_delta d i (u32 (drawIdx * 2 + 1)) (delta (y2 attrib0) (y2 attrib1) (y2 attrib2));
    Some (set_Attribute2Deltas sb d)) sb = Some sb' ->
  (forall i : nat, (i < Z.to_nat (m_NumVec2Attributes md))%nat ->
     Vec2DeltasStored drawIdx a0 a1 a2 i (m_Attribute2Deltas sb'))
  /\ m_Attribute4Deltas sb' = m_Attribute4Deltas sb
  /\ m_Attribute3Deltas sb' = m_Attribute3Deltas sb.
Proof.
  intros Hrun.
  apply (for_u32_run (fun j s =>
           (forall i : nat, (i < j)%nat ->
              Vec2DeltasStored drawIdx a0 a1 a2 i (m_Attribute2Deltas s))
           /\ m_Attribute4Deltas s = m_Attribute4Deltas sb
           /\ m_Attribute3Deltas s = m_Attribute3Deltas sb)) in Hrun.
  - exact Hrun.
  - split; [intros i Hi; lia | split; reflexivity].
  - clear Hrun. intros j s s' Hj (Hold & H4 & H3) Hbody.
    unfold array_get in Hbody. rewrite Nat2Z.id in Hbody.
    destruct (m_Attributes2 a0 !! j) as [A0 |] eqn:HA0; [| discriminate].
    destruct (m_Attributes2 a1 !! j) as [A1 |] eqn:HA1; [| discriminate].
    destruct (m_Attributes2 a2 !! j) as [A2 |] eqn:HA2; [| discriminate].
    cbn [mbind option_bind] in Hbody.
    destruct (store_delta (m_Attribute2Deltas s) _ _ _) as [d1 |] eqn:H1; [| discriminate].
    cbn [mbind option_bind] in Hbody.
    destruct (store_delta d1 _ _ _) as [d2 |] eqn:Hs2; [| discriminate].
    cbn [mbind option_bind] in Hbody. injection Hbody as <-.
    cbn [set_Attribute2Deltas m_Attribute4Deltas m_Attribute3Deltas m_Attribute2Deltas].
    split; [| split; assumption].
    intros i Hi. destruct (decide (i = j)) as [-> | Hne].
    + exists A0, A1, A2. repeat (split; [assumption |]).
      split.
      * across Hs2. exact (store_delta_load _ _ _ _ _ H1).
      * exact (store_delta_load _ _ _ _ _ Hs2).
    + destruct (Hold i ltac:(lia)) as (B0 & B1 & B2 & HB0 & HB1 & HB2 & L0 & L1).
      exists B0, B1, B2. repeat (split; [assumption |]).
      split; across Hs2; across H1; assumption.
Qed.

Lemma CalculateInterpolationCoefficients_stores (sb sb' : SetupBuffers) :
  CalculateInterpolationCoefficients md drawIdx a0 a1 a2 sb = Some sb' ->
  DeltasStored md drawIdx a0 a1 a2 sb'.
Proof.
  unfold CalculateInterpolationCoefficients. intros Hrun.
  destruct (for_u32 (m_NumVec4Attributes md) _ sb) as [sb4 |] eqn:H4; [| discriminate].
  cbn [mbind option_bind] in Hrun.
  destruct (for_u32 (m_NumVec3Attributes md) _ sb4) as [sb3 |] eqn:H3; [| discriminate].
  cbn [mbind option_bind] in Hrun.
  apply vec4_deltas_stored in H4 as (S4 & _ & _).
  apply vec3_deltas_stored in H3 as (S3 & K4 & _).
  apply vec2_deltas_stored in Hrun as (S2 & L4 & L3).
  split; [| split].
  - rewrite L4, K4. exact S4.
  - rewrite L3. exact S3.
  - exact S2.
Qed.

Lemma collect_u32_lookup {A} (n : Z) (body : Z -> option A) (l : list A) (i : nat) :
  collect_u32 n body = Some l -> (i < Z.to_nat n)%nat ->
  exists x, l !! i = Some x /\ body (Z.of_nat i) = Some x.
Proof.
  unfold collect_u32. intros Hrun Hi.
  apply mapM_Some in Hrun.
  assert (Hseq : seq 0 (Z.to_nat n) !! i = Some i).
  { rewrite lookup_seq. split; [reflexivity | exact Hi]. }
  destruct (Forall2_lookup_l _ _ _ _ _ Hrun Hseq) as (x & Hx & Hbody).
  exists x. split; assumption.
Qed.

Lemma InterpolateVertexAttributes_loads (ssef0XY ssef1XY : m128) (sb : SetupBuffers)
    (ia : InterpolatedAttributes) :
  DeltasStored md drawIdx a0 a1 a2 sb ->
  InterpolateVertexAttributes md drawIdx ssef0XY ssef1XY sb = Some ia ->
  InterpolatedFrom md a0 a1 a2 ssef0XY ssef1XY ia.
Proof.
  intros (S4 & S3 & S2). unfold InterpolateVertexAttributes. intros Hrun.
  destruct (collect_u32 (m_NumVec4Attributes md) _) as [v4 |] eqn:H4; [| discriminate].
  cbn [mbind option_bind] in Hrun.
  destruct (collect_u32 (m_NumVec3Attributes md) _) as [v3 |] eqn:H3; [| discriminate].
  cbn [mbind option_bind] in Hrun.
  destruct (collect_u32 (m_NumVec2Attributes md) _) as [v2 |] eqn:H2; [| discriminate].
  cbn [mbind option_bind] in Hrun. injection Hrun as <-.
  cbn [m_Vec4Attributes m_Vec3Attributes m_Vec2Attributes].
  unfold InterpolatedFrom. cbv zeta.
  cbn [m_Vec4Attributes m_Vec3Attributes m_Vec2Attributes].
  split; [| split]; intros i Hi.
  - destruct (S4 i Hi) as (A0 & A1 & A2 & HA0 & HA1 & HA2 & L0 & L1 & L2 & L3).
    destruct (collect_u32_lookup _ _ _ i H4 Hi) as (lanes & Hl & Hbody).
    rewrite L0, L1, L2, L3 in Hbody. cbn [mbind option_bind] in Hbody.
    injection Hbody as <-.
    exists A0, A1, A2. eexists. repeat (split; [eassumption |]).
    split; [| split]; reflexivity.
  - destruct (S3 i Hi) as (A0 & A1 & A2 & HA0 & HA1 & HA2 & L0 & L1 & L2).
    destruct (collect_u32_lookup _ _ _ i H3 Hi) as (lanes & Hl & Hbody).
    rewrite L0, L1, L2 in Hbody. cbn [mbind option_bind] in Hbody.
    injection Hbody as <-.
    exists A0, A1, A2. eexists. repeat (split; [eassumption |]).
    split; [| split]; reflexivity.
  - destruct (S2 i Hi) as (A0 & A1 & A2 & HA0 & HA1 & HA2 & L0 & L1).
    destruct (collect_u32_lookup _ _ _ i H2 Hi) as (lanes & Hl & Hbody).
    rewrite L0, L1 in Hbody. cbn [mbind option_bind] in Hbody.
    destruct (load_delta _ _ (u32 (drawIdx * 2 + 2))) as [unused |]; [| discriminate].
    cbn [mbind option_bind] in Hbody. injection Hbody as <-.
    exists A0, A1, A2. eexists. repeat (split; [eassumption |]).
    split; reflexivity.
Qed.

(** X17.  What [CalculateInterpolationCoefficients] stores for a primitive is
    what [InterpolateVertexAttributes] reads for it: when both succeed for
    the same draw index, every register of every interpolated attribute,
    but for the w register of a vec4 attribute, is
    [d0 * f0 + (d1 * f1 + c2)] on each lane, where [(d0, d1, c2)
    = (c0 - c2, c1 - c2, c2)] are the deltas of that component [c] of that
    attribute of the three vertices.  No slot and no component is mixed
    with another. *)
Theorem interpolation_reads_the_deltas_that_setup_stored
    (sb sb' : SetupBuffers) (ssef0XY ssef1XY : m128) (ia : InterpolatedAttributes) :
  CalculateInterpolationCoefficients md drawIdx a0 a1 a2 sb = Some sb' ->
  InterpolateVertexAttributes md drawIdx ssef0XY ssef1XY sb' = Some ia ->
  InterpolatedFrom md a0 a1 a2 ssef0XY ssef1XY ia.
Proof.
  intros Hstore Hload.
  exact (InterpolateVertexAttributes_loads _ _ _ _
           (CalculateInterpolationCoefficients_stores _ _ Hstore) Hload).
Qed.

End Deltas.

Lemma u32_index_ne (w d d' j k : Z) :
  0 <= d -> 0 <= d' -> d <> d' -> 0 <= j < w -> 0 <= k < w ->
  d * w + w <= u32_mod -> d' * w + w <= u32_mod ->
  Z.to_nat (u32 (d * w + j)) <> Z.to_nat (u32 (d' * w + k)).
Proof.
  intros Hd Hd' Hne Hj Hk Hb Hb'.
  rewrite !u32_small by nia.
  intros Heq. apply Z2Nat.inj in Heq; [| nia | nia].
  assert (Hcases : d + 1 <= d' \/ d' + 1 <= d) by lia.
  destruct Hcases; nia.
Qed.

Lemma KeepsDeltas_refl (d : Z) (s : SetupBuffers) : KeepsDeltas d s s.
Proof. repeat split. Qed.

Lemma KeepsDeltas_trans (d : Z) (s1 s2 s3 : SetupBuffers) :
  KeepsDeltas d s1 s2 -> KeepsDeltas d s2 s3 -> KeepsDeltas d s1 s3.
Proof.
  intros (E1 & Z1 & B1 & K4 & K3 & K2) (E2 & Z2 & B2 & L4 & L3 & L2).
  split; [congruence |]. split; [congruence |]. split; [congruence |].
  split; [| split]; intros slot j Hj.
  - rewrite L4, K4 by exact Hj. reflexivity.
  - rewrite L3, K3 by exact Hj. reflexivity.
  - rewrite L2, K2 by exact Hj. reflexivity.
Qed.

(** Rewrites a load of the primitive [d] across a store for another
    primitive. *)
Ltac across_primitives Hst :=
  rewrite (store_delta_other _ _ _ _ _ _ _ Hst)
    by (right; apply u32_index_ne; lia).

Lemma CalculateInterpolationCoefficients_keeps (md : ShaderMetadata) (d d' : Z)
    (b0 b1 b2 : VertexAttributes) (sb sb' : SetupBuffers) :
  0 <= d -> 0 <= d' -> d <> d' ->
  d * 4 + 4 <= u32_mod -> d' * 4 + 4 <= u32_mod ->
  CalculateInterpolationCoefficients md d' b0 b1 b2 sb = Some sb' ->
  KeepsDeltas d sb sb'.
Proof.
  intros Hd Hd' Hne Hb Hb'. unfold CalculateInterpolationCoefficients. intros Hrun.
  destruct (for_u32 (m_NumVec4Attributes md) _ sb) as [sb4 |] eqn:H4; [| discriminate].
  cbn [mbind option_bind] in Hrun.
  destruct (for_u32 (m_NumVec3Attributes md) _ sb4) as [sb3 |] eqn:H3; [| discriminate].
  cbn [mbind option_bind] in Hrun.
  apply (KeepsDeltas_trans d sb sb4); [| apply (KeepsDeltas_trans d sb4 sb3)].
  - revert H4. apply for_u32_rel; [apply KeepsDeltas_refl | apply KeepsDeltas_trans |].
    intros i s s' Hbody.
    destruct (array_get (m_Attributes4 b0) i) as [A0 |]; [| discriminate].
    destruct (array_get (m_Attributes4 b1) i) as [A1 |]; [| discriminate].
    destruct (array_get (m_Attributes4 b2) i) as [A2 |]; [| discriminate].
    cbn [mbind option_bind] in Hbody.
    destruct (store_delta (m_Attribute4Deltas s) _ _ _) as [d1 |] eqn:Hs1; [| discriminate].
    cbn [mbind option_bind] in Hbody.
    destruct (store_delta d1 _ _ _) as [d2 |] eqn:Hs2; [| discriminate].
    cbn [mbind option_bind] in Hbody.
    destruct (store_delta d2 _ _ _) as [d3 |] eqn:Hs3; [| discriminate].
    cbn [mbind option_bind] in Hbody.
    destruct (store_delta d3 _ _ _) as [d4 |] eqn:Hs4; [| discriminate].
    cbn [mbind option_bind] in Hbody. injection Hbody as <-.
    do 3 (split; [reflexivity |]).
    cbn [set_Attribute4Deltas m_Attribute4Deltas m_Attribute3Deltas m_Attribute2Deltas].
    split; [| split; intros; reflexivity].
    intros slot j Hj.
    across_primitives Hs4. across_primitives Hs3. across_primitives Hs2.
    across_primitives Hs1. reflexivity.
  - revert H3. apply for_u32_rel; [apply KeepsDeltas_refl | apply KeepsDeltas_trans |].
    intros i s s' Hbody.
    destruct (array_get (m_Attributes3 b0) i) as [A0 |]; [| discriminate].
    destruct (array_get (m_Attributes3 b1) i) as [A1 |]; [| discriminate].
    destruct (array_get (m_Attributes3 b2) i) as [A2 |]; [| discriminate].
    cbn [mbind option_bind] in Hbody.
    destruct (store_delta (m_Attribute3Deltas s) _ _ _) as [d1 |] eqn:Hs1; [| discriminate].
    cbn [mbind option_bind] in Hbody.
    destruct (store_delta d1 _ _ _) as [d2 |] eqn:Hs2; [| discriminate].
    cbn [mbind option_bind] in Hbody.
    destruct (store_delta d2 _ _ _) as [d3 |] eqn:Hs3; [| discriminate].
    cbn [mbind option_bind] in Hbody. injection Hbody as <-.
    do 3 (split; [reflexivity |]).
    cbn [set_Attribute3Deltas m_Attribute4Deltas m_Attribute3Deltas m_Attribute2Deltas].
    split; [intros; reflexivity |]. split; [| intros; reflexivity].
    intros slot j Hj.
    across_primitives Hs3. across_primitives Hs2. across_primitives Hs1. reflexivity.
  - revert Hrun. apply for_u32_rel; [apply KeepsDeltas_refl | apply KeepsDeltas_trans |].
    intros i s s' Hbody.
    destruct (array_get (m_Attributes2 b0) i) as [A0 |]; [| discriminate].
    destruct (array_get (m_Attributes2 b1) i) as [A1 |]; [| discriminate].
    destruct (array_get (m_Attributes2 b2) i) as [A2 |]; [| discriminate].
    cbn [mbind option_bind] in Hbody.
    destruct (store_delta (m_Attribute2Deltas s) _ _ _) as [d1 |] eqn:Hs1; [| discriminate].
    cbn [mbind option_bind] in Hbody.
    destruct (store_delta d1 _ _ _) as [d2 |] eqn:Hs2; [| discriminate].
    cbn [mbind option_bind] in Hbody. injection Hbody as <-.
    do 3 (split; [reflexivity |]).
    cbn [set_Attribute2Deltas m_Attribute4Deltas m_Attribute3Deltas m_Attribute2Deltas].
    split; [intros; reflexivity |]. split; [intros; reflexivity |].
    intros slot j Hj.
    across_primitives Hs2. across_primitives Hs1. reflexivity.
Qed.

(** X18.  Geometry setup of one primitive leaves the deltas of every other
    primitive in place: if the setup buffers hold the deltas of the
    primitive [d], they still hold them after
    [CalculateInterpolationCoefficients] has run for another draw index
    [d'] (both below [2^30], so that no element index wraps around).  The
    edge coefficients, the z values and the bounding boxes are not touched. *)
Theorem deltas_survive_the_setup_of_other_primitives
    (md : ShaderMetadata) (d d' : Z) (a0 a1 a2 b0 b1 b2 : VertexAttributes)
    (sb sb' : SetupBuffers) :
  0 <= d < 2 ^ 30 -> 0 <= d' < 2 ^ 30 -> d <> d' ->
  DeltasStored md d a0 a1 a2 sb ->
  CalculateInterpolationCoefficients md d' b0 b1 b2 sb = Some sb' ->
  DeltasStored md d a0 a1 a2 sb'
  /\ m_pEdgeCoefficients sb' = m_pEdgeCoefficients sb
  /\ m_pInterpolatedZValues sb' = m_pInterpolatedZValues sb
  /\ m_pPrimBBoxes sb' = m_pPrimBBoxes sb.
Proof.
  intros Hd Hd' Hne (S4 & S3 & S2) Hrun.
  apply (CalculateInterpolationCoefficients_keeps md d d') in Hrun
    as (HE & HZ & HB & K4 & K3 & K2); try (unfold u32_mod; lia).
  split; [| split; [| split]]; try assumption.
  split; [| split]; intros i Hi.
  - destruct (S4 i Hi) as (A0 & A1 & A2 & HA0 & HA1 & HA2 & L0 & L1 & L2 & L3).
    exists A0, A1, A2. repeat (split; [assumption |]).
    rewrite !K4 by lia. repeat (split; [assumption |]). assumption.
  - destruct (S3 i Hi) as (A0 & A1 & A2 & HA0 & HA1 & HA2 & L0 & L1 & L2).
    exists A0, A1, A2. repeat (split; [assumption |]).
    rewrite !K3 by lia. repeat (split; [assumption |]). assumption.
  - destruct (S2 i Hi) as (A0 & A1 & A2 & HA0 & HA1 & HA2 & L0 & L1).
    exists A0, A1, A2. repeat (split; [assumption |]).
    rewrite !K2 by lia. repeat (split; [assumption |]). assumption.
Qed.

Lemma interpolation_reads_the_deltas_that_setup_stored_witness :
  exists (sb' : SetupBuffers) (ia : InterpolatedAttributes),
    CalculateInterpolationCoefficients Scene.vec4_metadata 0
      Scene.attribs0 Scene.attribs1 Scene.attribs2 (AllocateSetupBuffers 1 1) = Some sb'
    /\ InterpolateVertexAttributes Scene.vec4_metadata 0 Scene.quarter4 Scene.quarter4 sb'
       = Some ia
    /\ InterpolatedFrom Scene.vec4_metadata Scene.attribs0 Scene.attribs1 Scene.attribs2
         Scene.quarter4 Scene.quarter4 ia.
Proof.
  destruct (CalculateInterpolationCoefficients Scene.vec4_metadata 0
              Scene.attribs0 Scene.attribs1 Scene.attribs2 (AllocateSetupBuffers 1 1))
    as [sb' |] eqn:Hstore; [| vm_compute in Hstore; discriminate].
  destruct (InterpolateVertexAttributes Scene.vec4_metadata 0 Scene.quarter4 Scene.quarter4 sb')
    as [ia |] eqn:Hload.
  - exists sb', ia. split; [reflexivity |]. split; [exact Hload |].
    exact (interpolation_reads_the_deltas_that_setup_stored _ _ _ _ _ _ _ _ _ _ Hstore Hload).
  - vm_compute in Hstore. injection Hstore as <-. vm_compute in Hload. discriminate.
Defined.

Lemma deltas_survive_the_setup_of_other_primitives_witness :
  exists sb1 sb2 : SetupBuffers,
    CalculateInterpolationCoefficients Scene.vec4_metadata 0
      Scene.attribs0 Scene.attribs1 Scene.attribs2 (AllocateSetupBuffers 2 1) = Some sb1
    /\ CalculateInterpolationCoefficients Scene.vec4_metadata 1
         Scene.attribs2 Scene.attribs0 Scene.attribs1 sb1 = Some sb2
    /\ DeltasStored Scene.vec4_metadata 0 Scene.attribs0 Scene.attribs1 Scene.attribs2 sb2.
Proof.
  destruct (CalculateInterpolationCoefficients Scene.vec4_metadata 0
              Scene.attribs0 Scene.attribs1 Scene.attribs2 (AllocateSetupBuffers 2 1))
    as [sb1 |] eqn:H1; [| vm_compute in H1; discriminate].
  destruct (CalculateInterpolationCoefficients Scene.vec4_metadata 1
              Scene.attribs2 Scene.attribs0 Scene.attribs1 sb1) as [sb2 |] eqn:H2.
  - exists sb1, sb2. split; [reflexivity |]. split; [exact H2 |].
    apply (deltas_survive_the_setup_of_other_primitives Scene.vec4_metadata 0 1
             Scene.attribs0 Scene.attribs1 Scene.attribs2
             Scene.attribs2 Scene.attribs0 Scene.attribs1 sb1 sb2);
      [lia | lia | lia | | exact H2].
    exact (CalculateInterpolationCoefficients_stores _ _ _ _ _ _ _ H1).
  - vm_compute in H1. injection H1 as <-. vm_compute in H2. discriminate.
Defined.

(** ** The actions of a worker's geometry pass *)

Lemma ExecuteBinner_prims (cfg : RasterizerConfig) (fbWidth fbHeight tilesPerRow : Z)
    (tiles : list Tile) (primIdx : Z) (v0Clip v1Clip v2Clip : vec4)
    (sb sb' : SetupBuffers) (acts : list BinnerAction) :
  ExecuteBinner cfg fbWidth fbHeight tilesPerRow tiles primIdx v0Clip v1Clip v2Clip sb
    = Some (sb', acts) ->
  Forall (fun a => action_prim a = primIdx) acts.
Proof.
  unfold ExecuteBinner. cbv zeta. intros Hrun.
  destruct (_ || _ || _ || _).
  - injection Hrun as _ <-. constructor.
  - destruct (array_set _ _ _) as [boxes |]; [| discriminate].
    cbn [mbind option_bind] in Hrun.
    destruct (TileRange cfg _) as [[[minTileX maxTileX] minTileY] maxTileY].
    destruct (array_get _ (u32 (3 * primIdx + 0))) as [ee0 |]; [| discriminate].
    destruct (array_get _ (u32 (3 * primIdx + 1))) as [ee1 |]; [| discriminate].
    destruct (array_get _ (u32 (3 * primIdx + 2))) as [ee2 |]; [| discriminate].
    cbn [mbind option_bind] in Hrun.
    destruct (array_get tiles _) as [first |]; [| discriminate].
    cbn [mbind option_bind] in Hrun. injection Hrun as _ <-.
    apply Forall_flat_map, List.Forall_forall. intros [ty tyy] _.
    apply Forall_flat_map, List.Forall_forall. intros [tx txx] _.
    eapply Forall_impl; [apply BinnerTile_emits |].
    intros a (Hp & _). exact Hp.
Qed.

(** ** What the geometry pass leaves for the rasterizer *)

Lemma array_set_length {A} (a a' : list A) (i : Z) (x : A) :
  array_set a i x = Some a' -> length a' = length a.
Proof.
  unfold array_set. destruct (decide _); [| discriminate].
  intros Heq. injection Heq as <-. apply length_insert.
Qed.

Lemma SameBounds_refl (sb : SetupBuffers) : SameBounds sb sb.
Proof. split; reflexivity. Qed.

Lemma SameBounds_trans (sb1 sb2 sb3 : SetupBuffers) :
  SameBounds sb1 sb2 -> SameBounds sb2 sb3 -> SameBounds sb1 sb3.
Proof. intros [B1 E1] [B2 E2]. split; congruence. Qed.

Lemma RasterizerReadsInBounds_kept (primIdx : Z) (sb sb' : SetupBuffers) :
  SameBounds sb sb' -> RasterizerReadsInBounds primIdx sb ->
  RasterizerReadsInBounds primIdx sb'.
Proof. intros [HB HE]. unfold RasterizerReadsInBounds. rewrite HB, HE. tauto. Qed.

Lemma CalculateInterpolationCoefficients_bounds (md : ShaderMetadata) (d : Z)
    (a0 a1 a2 : VertexAttributes) (sb sb' : SetupBuffers) :
  CalculateInterpolationCoefficients md d a0 a1 a2 sb = Some sb' -> SameBounds sb sb'.
Proof.
  unfold CalculateInterpolationCoefficients. intros Hrun.
  destruct (for_u32 (m_NumVec4Attributes md) _ sb) as [sb4 |] eqn:H4; [| discriminate].
  cbn [mbind option_bind] in Hrun.
  destruct (for_u32 (m_NumVec3Attributes md) _ sb4) as [sb3 |] eqn:H3; [| discriminate].
  cbn [mbind option_bind] in Hrun.
  apply (SameBounds_trans sb sb4); [| apply (SameBounds_trans sb4 sb3)].
  - revert H4. apply for_u32_rel; [apply SameBounds_refl | apply SameBounds_trans |].
    intros i s s' Hbody. cbv beta in Hbody.
    destruct (array_get (m_Attributes4 a0) i); [| discriminate].
    destruct (array_get (m_Attributes4 a1) i); [| discriminate].
    destruct (array_get (m_Attributes4 a2) i); [| discriminate].
    cbn [mbind option_bind] in Hbody.
    destruct (store_delta (m_Attribute4Deltas s) _ _ _); [| discriminate].
    cbn [mbind option_bind] in Hbody.
    destruct (store_delta _ _ _ _); [| discriminate]. cbn [mbind option_bind] in Hbody.
    destruct (store_delta _ _ _ _); [| discriminate]. cbn [mbind option_bind] in Hbody.
    destruct (store_delta _ _ _ _); [| discriminate]. cbn [mbind option_bind] in Hbody.
    injection Hbody as <-. split; reflexivity.
  - revert H3. apply for_u32_rel; [apply SameBounds_refl | apply SameBounds_trans |].
    intros i s s' Hbody. cbv beta in Hbody.
    destruct (array_get (m_Attributes3 a0) i); [| discriminate].
    destruct (array_get (m_Attributes3 a1) i); [| discriminate].
    destruct (array_get (m_Attributes3 a2) i); [| discriminate].
    cbn [mbind option_bind] in Hbody.
    destruct (store_delta _ _ _ _); [| discriminate]. cbn [mbind option_bind] in Hbody.
    destruct (store_delta _ _ _ _); [| discriminate]. cbn [mbind option_bind] in Hbody.
    destruct (store_delta _ _ _ _); [| discriminate]. cbn [mbind option_bind] in Hbody.
    injection Hbody as <-. split; reflexivity.
  - revert Hrun. apply for_u32_rel; [apply SameBounds_refl | apply SameBounds_trans |].
    intros i s s' Hbody. cbv beta in Hbody.
    destruct (array_get (m_Attributes2 a0) i); [| discriminate].
    destruct (array_get (m_Attributes2 a1) i); [| discriminate].
    destruct (array_get (m_Attributes2 a2) i); [| discriminate].
    cbn [mbind option_bind] in Hbody.
    destruct (store_delta _ _ _ _); [| discriminate]. cbn [mbind option_bind] in Hbody.
    destruct (store_delta _ _ _ _); [| discriminate]. cbn [mbind option_bind] in Hbody.
    injection Hbody as <-. split; reflexivity.
Qed.

Lemma ExecuteTriangleSetupAndCull_bounds (fbWidth fbHeight primIdx : Z)
    (v0Clip v1Clip v2Clip : vec4) (sb sb' : SetupBuffers) (kept : bool) :
  ExecuteTriangleSetupAndCull fbWidth fbHeight primIdx v0Clip v1Clip v2Clip sb
    = Some (kept, sb') ->
  SameBounds sb sb'.
Proof.
  unfold ExecuteTriangleSetupAndCull. cbv zeta. intros Hrun.
  destruct (_ >? _)%f32.
  - destruct (array_set (m_pEdgeCoefficients sb) _ _) as [e0 |] eqn:H0; [| discriminate].
    cbn [mbind option_bind] in Hrun.
    destruct (array_set e0 _ _) as [e1 |] eqn:H1; [| discriminate].
    cbn [mbind option_bind] in Hrun.
    destruct (array_set e1 _ _) as [e2 |] eqn:H2; [| discriminate].
    cbn [mbind option_bind] in Hrun.
    destruct (array_set (m_pInterpolatedZValues sb) _ _) as [z |]; [| discriminate].
    cbn [mbind option_bind] in Hrun. injection Hrun as _ <-.
    apply array_set_length in H0, H1, H2.
    split; cbn; [reflexivity | congruence].
  - injection Hrun as _ <-. apply SameBounds_refl.
Qed.

Lemma ExecuteBinner_bounds (cfg : RasterizerConfig) (fbWidth fbHeight tilesPerRow : Z)
    (tiles : list Tile) (primIdx : Z) (v0Clip v1Clip v2Clip : vec4)
    (sb sb' : SetupBuffers) (acts : list BinnerAction) :
  ExecuteBinner cfg fbWidth fbHeight tilesPerRow tiles primIdx v0Clip v1Clip v2Clip sb
    = Some (sb', acts) ->
  SameBounds sb sb' /\ (acts <> [] -> RasterizerReadsInBounds primIdx sb').
Proof.
  unfold ExecuteBinner. cbv zeta. intros Hrun.
  destruct (_ || _ || _ || _).
  - injection Hrun as <- <-. split; [apply SameBounds_refl | congruence].
  - unfold array_set in Hrun.
    destruct (decide (Z.to_nat primIdx < length (m_pPrimBBoxes sb))%nat) as [Hlt | _];
      [| discriminate].
    cbn [mbind option_bind] in Hrun.
    destruct (TileRange cfg _) as [[[minTileX maxTileX] minTileY] maxTileY].
    destruct (array_get _ (u32 (3 * primIdx + 0))) as [ee0 |] eqn:H0; [| discriminate].
    destruct (array_get _ (u32 (3 * primIdx + 1))) as [ee1 |] eqn:H1; [| discriminate].
    destruct (array_get _ (u32 (3 * primIdx + 2))) as [ee2 |] eqn:H2; [| discriminate].
    cbn [mbind option_bind] in Hrun.
    destruct (array_get tiles _) as [first |]; [| discriminate].
    cbn [mbind option_bind] in Hrun. injection Hrun as <- _.
    apply lookup_lt_Some in H0, H1, H2.
    cbn [set_PrimBBoxes m_pEdgeCoefficients] in H0, H1, H2.
    split; [split; cbn; [apply length_insert | reflexivity] |].
    intros _. unfold RasterizerReadsInBounds. cbn. rewrite length_insert. tauto.
Qed.

Lemma RasterizePrimitive_in_bounds (cfg : RasterizerConfig) (shared : bool)
    (tilePosX tilePosY : f32) (primIdx : Z) (sb : SetupBuffers) :
  RasterizerReadsInBounds primIdx sb ->
  is_Some (RasterizePrimitive cfg shared tilePosX tilePosY primIdx sb).
Proof.
  intros (HB & H0 & H1 & H2). unfold RasterizePrimitive, array_get.
  apply lookup_lt_is_Some_2 in HB as [bbox ->], H0 as [ee0 ->], H1 as [ee1 ->],
    H2 as [ee2 ->].
  cbn [mbind option_bind]. eexists. reflexivity.
Qed.

Section GeometryOrder.

Variable g_scVertexShaderCacheEnabled : bool.
Variable g_scVertexShaderCacheSize : Z.
Variable g_scFullTriangleClippingEnabled : bool.
Variable m_RenderConfig : RasterizerConfig.
Variable m_ShaderMetadata : ShaderMetadata.
Variables fbWidth fbHeight : Z.
Variable m_NumTilePerRow : Z.
Variable tiles : list Tile.
Variable VS : Z -> vec4 * VertexAttributes.
Variable pIndexBuffer : list Z.
Variable vertexStride : Z.
Variable vertexOffset : Z.

Let Primitive := GeometryPrimitive g_scVertexShaderCacheEnabled g_scVertexShaderCacheSize
  g_scFullTriangleClippingEnabled m_RenderConfig m_ShaderMetadata fbWidth fbHeight
  m_NumTilePerRow tiles VS pIndexBuffer vertexStride vertexOffset.

Let Pass := GeometryPass g_scVertexShaderCacheEnabled g_scVertexShaderCacheSize
  g_scFullTriangleClippingEnabled m_RenderConfig m_ShaderMetadata fbWidth fbHeight
  m_NumTilePerRow tiles VS pIndexBuffer vertexStride vertexOffset.

Lemma GeometryPrimitive_prims (primIdx drawIdx : Z) (c c' : VSCache)
    (sb sb' : SetupBuffers) (acts : list BinnerAction) :
  Primitive primIdx drawIdx c sb = Some (c', sb', acts) ->
  Forall (fun a => action_prim a = drawIdx) acts.
Proof.
  unfold Primitive, GeometryPrimitive, SetupAndBin. intros Hrun.
  destruct (ExecuteVertexShader _ _ _ _ _ _ _ _ _ _ _) as [[[[[v0 v1] v2] c1] sb1] |];
    [| discriminate].
  cbn [mbind option_bind] in Hrun.
  destruct (negb (ExecuteFullTriangleClipping _ _ _ _)).
  - injection Hrun as _ _ <-. constructor.
  - destruct (ExecuteTriangleSetupAndCull _ _ _ _ _ _ _) as [[kept sb2] |]; [| discriminate].
    cbn [mbind option_bind] in Hrun.
    destruct (negb kept).
    + injection Hrun as _ _ <-. constructor.
    + destruct (ExecuteBinner _ _ _ _ _ _ _ _ _ _) as [[sb3 acts3] |] eqn:Hbin;
        [| discriminate].
      cbn [mbind option_bind] in Hrun. injection Hrun as _ _ <-.
      exact (ExecuteBinner_prims _ _ _ _ _ _ _ _ _ _ _ _ Hbin).
Qed.

(** X19.  The actions of a worker's geometry pass over the range
    [(m_ElemsStart, m_ElemsEnd)] come in one group per primitive of the
    range, in the order of the primitives, and every action of the group of
    the [k]-th primitive (a clipped, culled or off-screen primitive has an
    empty group) carries the draw index [m_ElemsStart % m_MaxDrawIterationSize
    + k]: a worker never bins or emits a mask for a primitive of another
    worker's range, and never out of order. *)
Theorem GeometryPass_acts_in_primitive_order
    (m_ElemsStart m_ElemsEnd : Z) (c c' : VSCache) (sb sb' : SetupBuffers)
    (acts : list BinnerAction) :
  Pass m_ElemsStart m_ElemsEnd c sb = Some (c', sb', acts) ->
  exists groups : list (list BinnerAction),
    acts = concat groups
    /\ length groups = Z.to_nat (m_ElemsEnd - m_ElemsStart)
    /\ forall (k : nat) (g : list BinnerAction),
         groups !! k = Some g ->
         Forall (fun a => action_prim a = DrawIdx m_RenderConfig m_ElemsStart (Z.of_nat k)) g.
Proof.
  unfold Pass, GeometryPass, loop_range, DrawIdx, u32_rem.
  fold Primitive.
  destruct (m_MaxDrawIterationSize m_RenderConfig =? 0); [discriminate |].
  cbn [mbind option_bind].
  generalize (Z.to_nat (m_ElemsEnd - m_ElemsStart)). intros n. revert c' sb' acts.
  induction n as [| n IH]; intros c' sb' acts Hrun.
  - simpl in Hrun. injection Hrun as _ _ <-.
    exists []. split; [reflexivity |]. split; [reflexivity |].
    intros k g Hk. discriminate.
  - rewrite seq_S, map_app, foldl_app in Hrun. simpl in Hrun.
    destruct (foldl _ _ _) as [[[c1 sb1] acts1] |] eqn:Hprefix; [| discriminate].
    cbn [mbind option_bind] in Hrun.
    destruct (Primitive _ _ c1 sb1) as [[[c2 sb2] acts2] |] eqn:Hprim; [| discriminate].
    cbn [mbind option_bind] in Hrun. injection Hrun as _ _ <-.
    destruct (IH _ _ _ eq_refl) as (groups & -> & Hlen & Hgroups).
    exists (groups ++ [acts2]). split; [| split].
    + rewrite concat_app. simpl. rewrite app_nil_r. reflexivity.
    + rewrite length_app. simpl. lia.
    + intros k g Hk. apply lookup_app_Some in Hk as [Hk | [Hge Hk]].
      * exact (Hgroups k g Hk).
      * destruct (k - length groups)%nat as [| j] eqn:Hj; [| discriminate].
        injection Hk as <-.
        replace k with n by lia.
        exact (GeometryPrimitive_prims _ _ _ _ _ _ _ Hprim).
Qed.

Lemma GeometryPrimitive_bounds (primIdx drawIdx : Z) (c c' : VSCache)
    (sb sb' : SetupBuffers) (acts : list BinnerAction) :
  Primitive primIdx drawIdx c sb = Some (c', sb', acts) ->
  SameBounds sb sb'
  /\ Forall (fun a => RasterizerReadsInBounds (action_prim a) sb') acts.
Proof.
  unfold Primitive, GeometryPrimitive, SetupAndBin, ExecuteVertexShader. intros Hrun.
  destruct (ShadeTriangle _ _ _ _ _ _ _ _) as [[[[[v0 v1] v2] [[b0 b1] b2]] c1] |];
    [| discriminate].
  cbn [mbind option_bind] in Hrun.
  destruct (CalculateInterpolationCoefficients _ _ _ _ _ _) as [sb1 |] eqn:Hcalc;
    [| discriminate].
  cbn [mbind option_bind] in Hrun.
  apply CalculateInterpolationCoefficients_bounds in Hcalc.
  destruct (negb (ExecuteFullTriangleClipping _ _ _ _)).
  - injection Hrun as _ <- <-. split; [exact Hcalc | constructor].
  - destruct (ExecuteTriangleSetupAndCull _ _ _ _ _ _ _) as [[kept sb2] |] eqn:Hsetup;
      [| discriminate].
    cbn [mbind option_bind] in Hrun.
    apply ExecuteTriangleSetupAndCull_bounds in Hsetup.
    destruct (negb kept).
    + injection Hrun as _ <- <-.
      split; [exact (SameBounds_trans _ _ _ Hcalc Hsetup) | constructor].
    + destruct (ExecuteBinner _ _ _ _ _ _ _ _ _ _) as [[sb3 acts3] |] eqn:Hbin;
        [| discriminate].
      cbn [mbind option_bind] in Hrun. injection Hrun as _ <- <-.
      pose proof (ExecuteBinner_prims _ _ _ _ _ _ _ _ _ _ _ _ Hbin) as Hprims.
      apply ExecuteBinner_bounds in Hbin as [Hsame Hreads].
      split; [exact (SameBounds_trans _ _ _ Hcalc (SameBounds_trans _ _ _ Hsetup Hsame)) |].
      destruct acts3 as [| a rest]; [constructor |].
      specialize (Hreads ltac:(discriminate)).
      eapply Forall_impl; [exact Hprims |].
      intros b Hb. simpl in Hb. rewrite Hb. exact Hreads.
Qed.

(** X20.  Every primitive that a worker's geometry pass bins, or emits a
    TILE mask for, can be rasterized from the setup buffers the pass leaves:
    the reads of its bounding box and of its three edge coefficient triples
    in [ExecuteRasterizer] stay inside the buffers, whichever tile and
    whichever primitives the pass went through afterwards. *)
Theorem GeometryPass_leaves_the_rasterizer_in_bounds
    (m_ElemsStart m_ElemsEnd : Z) (c c' : VSCache) (sb sb' : SetupBuffers)
    (acts : list BinnerAction) :
  Pass m_ElemsStart m_ElemsEnd c sb = Some (c', sb', acts) ->
  Forall (fun a =>
    forall (shared : bool) (tilePosX tilePosY : f32),
      is_Some (RasterizePrimitive m_RenderConfig shared tilePosX tilePosY
                 (action_prim a) sb')) acts.
Proof.
  intros Hrun.
  assert (Hreads : SameBounds sb sb'
                   /\ Forall (fun a => RasterizerReadsInBounds (action_prim a) sb') acts).
  { revert Hrun. unfold Pass, GeometryPass, u32_rem. fold Primitive.
    destruct (m_MaxDrawIterationSize m_RenderConfig =? 0); [discriminate |].
    cbn [mbind option_bind].
    generalize (loop_range m_ElemsStart m_ElemsEnd). intros l. revert c' sb' acts.
    induction l as [| [primIdx k] l IH] using rev_ind; intros c' sb' acts Hrun.
    - simpl in Hrun. injection Hrun as _ <- <-. split; [apply SameBounds_refl | constructor].
    - rewrite foldl_app in Hrun. simpl in Hrun.
      destruct (foldl _ _ _) as [[[c1 sb1] acts1] |] eqn:Hprefix; [| discriminate].
      cbn [mbind option_bind] in Hrun.
      destruct (Primitive _ _ c1 sb1) as [[[c2 sb2] acts2] |] eqn:Hprim; [| discriminate].
      cbn [mbind option_bind] in Hrun. injection Hrun as _ <- <-.
      destruct (IH _ _ _ eq_refl) as [Hsame Hold].
      apply GeometryPrimitive_bounds in Hprim as [Hsame' Hnew].
      split; [exact (SameBounds_trans _ _ _ Hsame Hsame') |].
      apply Forall_app. split; [| exact Hnew].
      eapply Forall_impl; [exact Hold |].
      intros a Ha. exact (RasterizerReadsInBounds_kept _ _ _ Hsame' Ha). }
  destruct Hreads as [_ Hreads].
  eapply Forall_impl; [exact Hreads |].
  intros a Ha shared tilePosX tilePosY. apply RasterizePrimitive_in_bounds, Ha.
Qed.

End GeometryOrder.

Lemma GeometryPass_acts_in_primitive_order_witness :
  exists groups : list (list BinnerAction),
    [BinPrim 0 1; BinPrim 0 2] = concat groups
    /\ length groups = 2%nat
    /\ forall (k : nat) (g : list BinnerAction),
         groups !! k = Some g ->
         Forall (fun a => action_prim a = DrawIdx Scene.config 1 (Z.of_nat k)) g.
Proof.
  destruct (GeometryPass true 16 true Scene.config Scene.metadata 64 64 1
              (m_TileList Scene.engine) Scene.triangle_VS Scene.index_buffer 1 0
              1 3 Scene.empty_cache Scene.setup_buffers) as [[[c sb] acts] |] eqn:Hrun;
    [| vm_compute in Hrun; discriminate].
  assert (Hacts : acts = [BinPrim 0 1; BinPrim 0 2]).
  { vm_compute in Hrun. injection Hrun as _ _ <-. reflexivity. }
  rewrite <- Hacts.
  exact (GeometryPass_acts_in_primitive_order _ _ _ _ _ _ _ _ _ _ _ _ _ _ _ _ _ _ _ _ Hrun).
Defined.

Lemma GeometryPass_leaves_the_rasterizer_in_bounds_witness :
  Forall (fun a =>
    forall (shared : bool) (tilePosX tilePosY : f32),
      exists masks : list CoverageMask,
        RasterizePrimitive Scene.config shared tilePosX tilePosY (action_prim a)
          Scene.geometry_setup_buffers = Some masks)
    [BinPrim 0 1; BinPrim 0 2].
Proof.
  destruct (GeometryPass true 16 true Scene.config Scene.metadata 64 64 1
              (m_TileList Scene.engine) Scene.triangle_VS Scene.index_buffer 1 0
              1 3 Scene.empty_cache Scene.setup_buffers) as [[[c sb] acts] |] eqn:Hrun;
    [| vm_compute in Hrun; discriminate].
  assert (Hsb : Scene.geometry_setup_buffers = sb).
  { unfold Scene.geometry_setup_buffers. rewrite Hrun. reflexivity. }
  assert (Hacts : acts = [BinPrim 0 1; BinPrim 0 2]).
  { vm_compute in Hrun. injection Hrun as _ _ <-. reflexivity. }
  rewrite Hsb, <- Hacts.
  exact (GeometryPass_leaves_the_rasterizer_in_bounds _ _ _ _ _ _ _ _ _ _ _ _ _ _ _ _ _ _ _ _
           Hrun).
Defined.

(** ** The w register of a vec4 attribute *)

(** X21.  Whatever the setup buffers, the basis functions and the primitive,
    the w register that [InterpolateVertexAttributes] computes for a vec4
    attribute is its z register: the deltas of the w component, which
    geometry setup stores at [4 * primIdx + 3], are never used. *)
Theorem interpolated_w_is_always_interpolated_z (md : ShaderMetadata) (primIdx : Z)
    (ssef0XY ssef1XY : m128) (sb : SetupBuffers) (attrs : InterpolatedAttributes) :
  InterpolateVertexAttributes md primIdx ssef0XY ssef1XY sb = Some attrs ->
  length (m_Vec4Attributes attrs) = Z.to_nat (m_NumVec4Attributes md)
  /\ Forall (fun lanes => m4_SSEW lanes = m4_SSEZ lanes) (m_Vec4Attributes attrs).
Proof.
  unfold InterpolateVertexAttributes, collect_u32. intros Hrun.
  destruct (mapM _ (seq 0 (Z.to_nat (m_NumVec4Attributes md)))) as [v4 |] eqn:H4;
    [| discriminate].
  cbn [mbind option_bind] in Hrun.
  destruct (mapM _ (seq 0 (Z.to_nat (m_NumVec3Attributes md)))) as [v3 |];
    [| discriminate].
  cbn [mbind option_bind] in Hrun.
  destruct (mapM _ (seq 0 (Z.to_nat (m_NumVec2Attributes md)))) as [v2 |];
    [| discriminate].
  cbn [mbind option_bind] in Hrun. injection Hrun as <-. cbn [m_Vec4Attributes].
  split.
  - rewrite <- (length_mapM _ _ _ H4). apply length_seq.
  - apply mapM_Some in H4.
    induction H4 as [| i lanes idxs ls Hi _ IH]; constructor; [| exact IH].
    destruct (load_delta _ _ (u32 (primIdx * 4 + 0))); [| discriminate].
    destruct (load_delta _ _ (u32 (primIdx * 4 + 1))); [| discriminate].
    destruct (load_delta _ _ (u32 (primIdx * 4 + 2))); [| discriminate].
    destruct (load_delta _ _ (u32 (primIdx * 4 + 3))); [| discriminate].
    simpl in Hi. injection Hi as <-. reflexivity.
Qed.

Lemma interpolated_w_is_always_interpolated_z_witness :
  exists (attrs : InterpolatedAttributes) (lanes : Vec4Lanes),
    InterpolateVertexAttributes Scene.vec4_metadata 0 Scene.quarter4 Scene.quarter4
      Scene.vec4_setup_buffers = Some attrs
    /\ m_Vec4Attributes attrs = [lanes]
    /\ m4_SSEW lanes = m4_SSEZ lanes.
Proof.
  destruct (InterpolateVertexAttributes Scene.vec4_metadata 0 Scene.quarter4 Scene.quarter4
              Scene.vec4_setup_buffers) as [attrs |] eqn:Hrun;
    [| vm_compute in Hrun; discriminate].
  destruct (interpolated_w_is_always_interpolated_z _ _ _ _ _ _ Hrun) as [Hlen Hall].
  destruct (m_Vec4Attributes attrs) as [| lanes [| other rest]] eqn:Hv4;
    [discriminate Hlen | | discriminate Hlen].
  exists attrs, lanes. split; [reflexivity |]. split; [exact Hv4 |].
  exact (Forall_inv Hall).
Defined.

(** ** Fragment shading stays inside the coverage mask *)

Lemma OutsideKept_refl (fb : Framebuffer) (x0 y0 w h : Z) : OutsideKept fb fb x0 y0 w h.
Proof. repeat (split; [reflexivity |]). intros. split; intros; reflexivity. Qed.

Lemma OutsideKept_trans (fb1 fb2 fb3 : Framebuffer) (x0 y0 w h : Z) :
  OutsideKept fb1 fb2 x0 y0 w h -> OutsideKept fb2 fb3 x0 y0 w h ->
  OutsideKept fb1 fb3 x0 y0 w h.
Proof.
  intros (W1 & H1 & D1 & C1 & K1) (W2 & H2 & D2 & C2 & K2).
  split; [congruence |]. split; [congruence |]. split; [congruence |].
  split; [congruence |].
  intros x y Hx Hy Hout.
  destruct (K1 x y Hx Hy Hout) as [Kd1 Kc1].
  rewrite W1 in K2. destruct (K2 x y Hx Hy Hout) as [Kd2 Kc2].
  split; [congruence |]. intros c Hc. rewrite Kc2, Kc1 by exact Hc. reflexivity.
Qed.

(** A group of four samples inside the rectangle, in a framebuffer whose
    addresses do not wrap around: what shading the group keeps, it keeps
    outside the rectangle. *)
Lemma OthersKept_outside (fb fb' : Framebuffer) (sampleX sampleY x0 y0 w h : Z) :
  0 <= x0 -> 0 <= y0 -> x0 + w <= m_Width fb ->
  (y0 + h) * m_Width fb * 4 < u32_mod ->
  x0 <= sampleX -> sampleX + 4 <= x0 + w -> y0 <= sampleY < y0 + h ->
  OthersKept fb fb' sampleX sampleY ->
  OutsideKept fb fb' x0 y0 w h.
Proof.
  intros Hx0 Hy0 Hw Hwrap Hsx Hsx' Hsy (HW & HH & HD & HC & Kd & Kc).
  assert (Hpos : 0 < m_Width fb) by lia.
  assert (Hrow : (sampleY + 1) * m_Width fb <= (y0 + h) * m_Width fb)
    by (apply Z.mul_le_mono_nonneg_r; lia).
  assert (Hrow0 : 0 <= sampleY * m_Width fb) by (apply Z.mul_nonneg_nonneg; lia).
  unfold u32_mod in Hwrap.
  assert (Hda : DepthAddress fb sampleX sampleY
                = Z.to_nat (sampleX + sampleY * m_Width fb)).
  { unfold DepthAddress. rewrite u32_small by (unfold u32_mod; lia). reflexivity. }
  assert (Hca : ColorAddress fb sampleX sampleY
                = Z.to_nat (4 * (sampleX + sampleY * m_Width fb))).
  { unfold ColorAddress. rewrite (u32_small (m_Width fb * 4)) by (unfold u32_mod; lia).
    rewrite u32_small by (unfold u32_mod; lia). f_equal. ring. }
  repeat (split; [assumption |]).
  intros x y Hx Hy Hout.
  assert (Hcases : y < sampleY \/ sampleY < y
                   \/ (y = sampleY /\ (x < sampleX \/ sampleX + 4 <= x))) by lia.
  assert (Hidx : x + y * m_Width fb < sampleX + sampleY * m_Width fb
                 \/ sampleX + sampleY * m_Width fb + 4 <= x + y * m_Width fb).
  { destruct Hcases as [Hlt | [Hgt | [-> Hx']]]; [left; nia | right; nia | lia]. }
  split.
  - apply Kd. rewrite Hda. nia.
  - intros c Hc. apply Kc. rewrite Hca. nia.
Qed.

Section ShadingStaysInside.

Variable m_RenderConfig : RasterizerConfig.
Variable m_ShaderMetadata : ShaderMetadata.
Variable m_SetupBuffers : SetupBuffers.
Variable FS : InterpolatedAttributes -> FragmentOutput.
Variable rcp : f32 -> f32.

Lemma FragmentShadeBlockGroup_others (blockPosX blockPosY primIdx px py : Z)
    (st st' : FSState) :
  FragmentShadeBlockGroup m_ShaderMetadata m_SetupBuffers FS rcp
    blockPosX blockPosY primIdx px py st = Some st' ->
  OthersKept (fs_Framebuffer st) (fs_Framebuffer st')
    (u32 (blockPosX + u32 (g_scSIMDWidth * px))) (u32 (blockPosY + py)).
Proof.
  intros Hrun.
  destruct (FragmentShadeBlockGroup_inv _ _ _ _ _ _ _ _ _ _ _ Hrun)
    as (f0 & f1 & z & cur & _ & Hload & Hcase).
  destruct (existsb _ (seq 0 4)).
  - destruct Hcase as (attrs & fb' & _ & _ & Hws & ->).
    exact (proj2 (proj2 (proj2
      (shaded_group_outcome FS st _ _ z attrs _ _ fb' (block_write_mask z cur) Hws)))).
  - subst st'.
    exact (proj2 (proj2 (proj2
      (skipped_group_outcome FS st _ _ z
         (mk_InterpolatedAttributes [] [] []) (fun _ => false) (fun _ _ => eq_refl))))).
Qed.

Lemma FragmentShadeQuad_others (pMask : CoverageMask) (st st' : FSState) :
  FragmentShadeQuad m_ShaderMetadata m_SetupBuffers FS rcp pMask st = Some st' ->
  OthersKept (fs_Framebuffer st) (fs_Framebuffer st') (m_SampleX pMask) (m_SampleY pMask).
Proof.
  intros Hrun.
  destruct (FragmentShadeQuad_inv _ _ _ _ _ _ _ Hrun)
    as (f0 & f1 & z & cur & _ & Hload & Hcase).
  destruct (existsb _ (seq 0 4)).
  - destruct Hcase as (attrs & fb' & _ & _ & Hws & ->).
    exact (proj2 (proj2 (proj2
      (shaded_group_outcome FS st _ _ z attrs _ _ fb'
         (quad_write_mask z cur (m_QuadMask pMask)) Hws)))).
  - subst st'.
    exact (proj2 (proj2 (proj2
      (skipped_group_outcome FS st _ _ z
         (mk_InterpolatedAttributes [] [] []) (fun _ => false) (fun _ _ => eq_refl))))).
Qed.

Lemma RectFits_small (fb : Framebuffer) (x0 y0 w h x y : Z) :
  RectFits fb x0 y0 w h -> 0 < w -> 0 < h -> 0 <= x <= x0 + w -> 0 <= y <= y0 + h ->
  x < u32_mod /\ y < u32_mod.
Proof.
  intros (Hx0 & Hy0 & Hw & Hwrap) Hpos Hh Hx Hy. unfold u32_mod in *.
  assert (1 * m_Width fb <= (y0 + h) * m_Width fb)
    by (apply Z.mul_le_mono_nonneg_r; lia).
  assert ((y0 + h) * 1 <= (y0 + h) * m_Width fb)
    by (apply Z.mul_le_mono_nonneg_l; lia).
  lia.
Qed.

Lemma FragmentShadeBlock_outside (blockPosX blockPosY primIdx : Z) (st st' : FSState)
    (x0 y0 w h : Z) :
  RectFits (fs_Framebuffer st) x0 y0 w h ->
  x0 <= blockPosX -> blockPosX + g_scPixelBlockSize <= x0 + w ->
  y0 <= blockPosY -> blockPosY + g_scPixelBlockSize <= y0 + h ->
  FragmentShadeBlock m_ShaderMetadata m_SetupBuffers FS rcp blockPosX blockPosY primIdx st
    = Some st' ->
  OutsideKept (fs_Framebuffer st) (fs_Framebuffer st') x0 y0 w h.
Proof.
  intros HF Hbx Hbx' Hby Hby'. unfold FragmentShadeBlock.
  change g_scPixelBlockSize with 8 in *. change g_scNumEdgeTestsPerRow with 2.
  pose proof HF as (Hx0 & Hy0 & Hw & Hwrap).
  destruct (RectFits_small _ _ _ _ _ (blockPosX + 8) (blockPosY + 8) HF
              ltac:(lia) ltac:(lia) ltac:(lia) ltac:(lia)) as [Hsx Hsy].
  apply (for_u32_run (fun _ s =>
           OutsideKept (fs_Framebuffer st) (fs_Framebuffer s) x0 y0 w h)).
  - apply OutsideKept_refl.
  - intros py s s' Hpy Hs.
    apply (for_u32_run (fun _ s' =>
             OutsideKept (fs_Framebuffer st) (fs_Framebuffer s') x0 y0 w h)).
    + exact Hs.
    + intros px t t' Hpx Ht Hgroup.
      apply FragmentShadeBlockGroup_others in Hgroup.
      apply (OutsideKept_trans _ _ _ _ _ _ _ Ht).
      destruct Ht as (HW & _).
      change g_scSIMDWidth with 4 in Hgroup.
      change (Z.to_nat 8) with 8%nat in Hpy. change (Z.to_nat 2) with 2%nat in Hpx.
      rewrite (u32_small (4 * Z.of_nat px)) in Hgroup by (unfold u32_mod; lia).
      rewrite !u32_small in Hgroup by lia.
      apply (OthersKept_outside _ _ _ _ x0 y0 w h) in Hgroup;
        rewrite ?HW; try lia; exact Hgroup.
Qed.

Lemma FragmentShadeTile_outside (tilePosX tilePosY primIdx : Z) (st st' : FSState) :
  let side := g_scPixelBlockSize * (m_TileSize m_RenderConfig / g_scPixelBlockSize) in
  RectFits (fs_Framebuffer st) tilePosX tilePosY side side ->
  FragmentShadeTile m_RenderConfig m_ShaderMetadata m_SetupBuffers FS rcp
    tilePosX tilePosY primIdx st = Some st' ->
  OutsideKept (fs_Framebuffer st) (fs_Framebuffer st') tilePosX tilePosY side side.
Proof.
  intros side HF. unfold FragmentShadeTile. cbv zeta.
  subst side. change g_scPixelBlockSize with 8 in *.
  set (n := m_TileSize m_RenderConfig / 8) in *.
  pose proof HF as (Hx0 & Hy0 & Hw & Hwrap).
  apply (for_u32_run (fun _ s =>
           OutsideKept (fs_Framebuffer st) (fs_Framebuffer s) tilePosX tilePosY
             (8 * n) (8 * n))).
  - apply OutsideKept_refl.
  - intros py s s' Hpy Hs.
    apply (for_u32_run (fun _ s' =>
             OutsideKept (fs_Framebuffer st) (fs_Framebuffer s') tilePosX tilePosY
               (8 * n) (8 * n))).
    + exact Hs.
    + intros px t t' Hpx Ht Hblock.
      apply (OutsideKept_trans _ _ _ _ _ _ _ Ht).
      destruct Ht as (HW & _).
      destruct (RectFits_small _ _ _ _ _ (tilePosX + 8 * n) (tilePosY + 8 * n) HF
                  ltac:(lia) ltac:(lia) ltac:(lia) ltac:(lia)) as [Hsx Hsy].
      rewrite (u32_small (Z.of_nat px * 8)) in Hblock by lia.
      rewrite (u32_small (Z.of_nat py * 8)) in Hblock by lia.
      rewrite !u32_small in Hblock by lia.
      apply (FragmentShadeBlock_outside _ _ _ _ _ tilePosX tilePosY (8 * n) (8 * n))
        in Hblock; [exact Hblock | | | | |];
        try (change g_scPixelBlockSize with 8; lia).
      unfold RectFits. rewrite HW. exact HF.
Qed.

(** X23.  Fragment shading of a coverage mask changes no pixel outside the
    mask's rectangle: when the rectangle of the mask (the blocks of the tile
    for a TILE mask, 8x8 samples for a BLOCK mask, four samples of one row
    for a QUAD mask, from the sample [(m_SampleX, m_SampleY)]) lies within
    the rows of the framebuffer and no byte address in it wraps around,
    every pixel outside the rectangle keeps its depth value and its four
    color bytes.  Two masks with disjoint rectangles are written without
    touching each other's pixels, which is what lets the workers shade
    different tiles at the same time. *)
Theorem shading_a_mask_changes_no_pixel_outside_it (pMask : CoverageMask)
    (st st' : FSState) :
  let fb := fs_Framebuffer st in
  let w := MaskWidth m_RenderConfig (m_Type pMask) in
  let h := MaskHeight m_RenderConfig (m_Type pMask) in
  0 <= m_SampleX pMask -> 0 <= m_SampleY pMask ->
  m_SampleX pMask + w <= m_Width fb ->
  (m_SampleY pMask + h) * m_Width fb * 4 < u32_mod ->
  ShadeCoverageMask m_RenderConfig m_ShaderMetadata m_SetupBuffers FS rcp pMask st
    = Some st' ->
  OutsideKept fb (fs_Framebuffer st') (m_SampleX pMask) (m_SampleY pMask) w h.
Proof.
  intros fb w h Hx Hy Hw Hwrap. subst fb w h. unfold ShadeCoverageMask.
  destruct (m_Type pMask); cbn [MaskWidth MaskHeight] in *; intros Hrun.
  - refine (FragmentShadeTile_outside _ _ _ _ _ _ Hrun).
    unfold RectFits. auto.
  - apply (FragmentShadeBlock_outside _ _ _ _ _ (m_SampleX pMask) (m_SampleY pMask)
             g_scPixelBlockSize g_scPixelBlockSize) in Hrun;
      [exact Hrun | unfold RectFits; auto | lia | lia | lia | lia].
  - apply FragmentShadeQuad_others in Hrun.
    apply (OthersKept_outside _ _ _ _ _ _ _ _ Hx Hy Hw Hwrap) in Hrun;
      [exact Hrun | lia | change g_scSIMDWidth with 4; lia | lia].
Qed.

End ShadingStaysInside.

Lemma shading_a_mask_changes_no_pixel_outside_it_witness :
  exists st' : FSState,
    ShadeCoverageMask Scene.config Scene.metadata Scene.shaded_setup_buffers
      Scene.red_FS Scene.exact_rcp Scene.quad Scene.start = Some st'
    /\ OutsideKept (fs_Framebuffer Scene.start) (fs_Framebuffer st') 32 32 4 1.
Proof.
  destruct (ShadeCoverageMask Scene.config Scene.metadata Scene.shaded_setup_buffers
              Scene.red_FS Scene.exact_rcp Scene.quad Scene.start) as [st' |] eqn:Hrun;
    [| vm_compute in Hrun; discriminate].
  exists st'. split; [reflexivity |].
  refine (shading_a_mask_changes_no_pixel_outside_it Scene.config Scene.metadata
            Scene.shaded_setup_buffers Scene.red_FS Scene.exact_rcp Scene.quad Scene.start st'
            _ _ _ _ Hrun).
  - discriminate.
  - discriminate.
  - discriminate.
  - reflexivity.
Defined.

(** ** Coverage masks with disjoint rectangles can be shaded in any order *)

Lemma load_ps_same (buf1 buf2 : list f32) (p : nat) :
  (forall k : nat, (k < 4)%nat -> buf2 !! (p + k)%nat = buf1 !! (p + k)%nat) ->
  _mm_load_ps buf2 p = _mm_load_ps buf1 p.
Proof.
  intros Hsame. unfold _mm_load_ps.
  pose proof (Hsame 0%nat ltac:(lia)) as H0. rewrite Nat.add_0_r in H0.
  rewrite H0, (Hsame 1%nat), (Hsame 2%nat), (Hsame 3%nat) by lia. reflexivity.
Qed.

Lemma GroupSame_addresses (fb1 fb2 : Framebuffer) (sampleX sampleY : Z) :
  m_Width fb2 = m_Width fb1 ->
  DepthAddress fb2 sampleX sampleY = DepthAddress fb1 sampleX sampleY
  /\ ColorAddress fb2 sampleX sampleY = ColorAddress fb1 sampleX sampleY.
Proof. intros HW. unfold DepthAddress, ColorAddress. rewrite HW. split; reflexivity. Qed.

(** The two masked stores of a group, on framebuffers that agree on the
    group: when they succeed on one they succeed on the other, and they
    leave framebuffers that agree on the group. *)
Lemma WriteSamples_same (w : m128i) (sel : nat -> bool) (z : m128) (out : FragmentOutput)
    (sampleX sampleY : Z) (fb1 fb2 fb1' : Framebuffer) :
  (forall k, (k < 4)%nat -> epi_lane w k = cmp_mask (sel k)) ->
  GroupSame fb1 fb2 sampleX sampleY ->
  WriteSamples w z out sampleX sampleY fb1 = Some fb1' ->
  exists fb2',
    WriteSamples w z out sampleX sampleY fb2 = Some fb2'
    /\ GroupSame fb1' fb2' sampleX sampleY.
Proof.
  intros Hw (HW & HH & HD & HC & Sd & Sc) Hrun1.
  destruct (GroupSame_addresses fb1 fb2 sampleX sampleY HW) as [Hda Hca].
  assert (Hrun2 : is_Some (WriteSamples w z out sampleX sampleY fb2)).
  { apply WriteSamples_Some in Hrun1 as [[Hdin Hcin] _].
    eexists. apply WriteSamples_Some. rewrite Hda, Hca, HD, HC.
    split; [split; assumption | reflexivity]. }
  destruct Hrun2 as [fb2' Hrun2]. exists fb2'. split; [exact Hrun2 |].
  destruct (WriteSamples_outcome w sel z out sampleX sampleY fb1 fb1' Hw Hrun1)
    as (K1 & W1 & (HW1 & HH1 & D1 & C1 & _)).
  destruct (WriteSamples_outcome w sel z out sampleX sampleY fb2 fb2' Hw Hrun2)
    as (K2 & W2 & (HW2 & HH2 & D2 & C2 & _)).
  destruct (GroupSame_addresses fb1 fb1' sampleX sampleY HW1) as [Hda' Hca'].
  unfold GroupSame. rewrite Hda', Hca'.
  split; [congruence |]. split; [congruence |].
  split; [congruence |]. split; [congruence |].
  split.
  - intros k Hk. destruct (sel k) eqn:Hsel.
    + destruct (W1 k Hk Hsel) as [E1 _]. destruct (W2 k Hk Hsel) as [E2 _].
      rewrite Hda in E2. congruence.
    + destruct (K1 k Hk Hsel) as [E1 _]. destruct (K2 k Hk Hsel) as [E2 _].
      rewrite Hda in E2. rewrite E1, E2. apply Sd, Hk.
  - intros j Hj.
    assert (Hj4 : j = (4 * (j / 4) + j mod 4)%nat) by (apply Nat.div_mod_eq).
    assert (Hq : (j / 4 < 4)%nat) by (apply Nat.Div0.div_lt_upper_bound; lia).
    assert (Hr : (j mod 4 < 4)%nat) by (apply Nat.mod_upper_bound; lia).
    set (k := (j / 4)%nat) in *. set (c := (j mod 4)%nat) in *.
    replace (ColorAddress fb1 sampleX sampleY + j)%nat
      with (ColorAddress fb1 sampleX sampleY + 4 * k + c)%nat by lia.
    destruct (sel k) eqn:Hsel.
    + destruct (W1 k Hq Hsel) as [_ E1]. destruct (W2 k Hq Hsel) as [_ E2].
      rewrite Hca in E2. rewrite (E1 c Hr), (E2 c Hr). reflexivity.
    + destruct (K1 k Hq Hsel) as [_ E1]. destruct (K2 k Hq Hsel) as [_ E2].
      rewrite Hca in E2. rewrite (E1 c Hr), (E2 c Hr).
      replace (ColorAddress fb1 sampleX sampleY + 4 * k + c)%nat
        with (ColorAddress fb1 sampleX sampleY + j)%nat by lia.
      apply Sc, Hj.
Qed.

Section ShadingIsLocal.

Variable m_RenderConfig : RasterizerConfig.
Variable m_ShaderMetadata : ShaderMetadata.
Variable m_SetupBuffers : SetupBuffers.
Variable FS : InterpolatedAttributes -> FragmentOutput.
Variable rcp : f32 -> f32.

Lemma DepthTest_same (primIdx sampleX sampleY : Z) (fb1 fb2 : Framebuffer) :
  GroupSame fb1 fb2 sampleX sampleY ->
  DepthTest m_SetupBuffers rcp primIdx sampleX sampleY fb2
  = DepthTest m_SetupBuffers rcp primIdx sampleX sampleY fb1.
Proof.
  intros (HW & _ & _ & _ & Sd & _). unfold DepthTest.
  destruct (GroupSame_addresses fb1 fb2 sampleX sampleY HW) as [-> _].
  rewrite (load_ps_same (m_pDepthBuffer fb1) (m_pDepthBuffer fb2) _ Sd). reflexivity.
Qed.

Lemma FragmentShadeBlockGroup_same (blockPosX blockPosY primIdx px py : Z)
    (st1 st1' st2 : FSState) :
  GroupSame (fs_Framebuffer st1) (fs_Framebuffer st2)
    (u32 (blockPosX + u32 (g_scSIMDWidth * px))) (u32 (blockPosY + py)) ->
  FragmentShadeBlockGroup m_ShaderMetadata m_SetupBuffers FS rcp
    blockPosX blockPosY primIdx px py st1 = Some st1' ->
  exists st2',
    FragmentShadeBlockGroup m_ShaderMetadata m_SetupBuffers FS rcp
      blockPosX blockPosY primIdx px py st2 = Some st2'
    /\ GroupSame (fs_Framebuffer st1') (fs_Framebuffer st2')
         (u32 (blockPosX + u32 (g_scSIMDWidth * px))) (u32 (blockPosY + py)).
Proof.
  intros Hsame Hrun.
  destruct (FragmentShadeBlockGroup_inv _ _ _ _ _ _ _ _ _ _ _ Hrun)
    as (f0 & f1 & z & cur & Hdt & Hload & Hcase).
  unfold FragmentShadeBlockGroup. cbv zeta.
  rewrite (DepthTest_same _ _ _ _ _ Hsame), Hdt. cbn [mbind option_bind].
  rewrite movemask_cmple_zero.
  destruct (existsb _ (seq 0 4)); cbn [negb].
  - destruct Hcase as (attrs & fb1' & Hattrs & Hstore & Hws & ->).
    rewrite Hattrs. cbn [mbind option_bind]. rewrite Hstore. cbn [mbind option_bind].
    destruct (WriteSamples_same _ _ _ _ _ _ _ _ _ (block_write_mask z cur) Hsame Hws)
      as (fb2' & Hws2 & Hsame').
    rewrite Hws2. cbn [mbind option_bind].
    eexists. split; [reflexivity | exact Hsame'].
  - subst st1'. exists st2. split; [reflexivity | exact Hsame].
Qed.

Lemma FragmentShadeQuad_same (pMask : CoverageMask) (st1 st1' st2 : FSState) :
  GroupSame (fs_Framebuffer st1) (fs_Framebuffer st2) (m_SampleX pMask) (m_SampleY pMask) ->
  FragmentShadeQuad m_ShaderMetadata m_SetupBuffers FS rcp pMask st1 = Some st1' ->
  exists st2',
    FragmentShadeQuad m_ShaderMetadata m_SetupBuffers FS rcp pMask st2 = Some st2'
    /\ GroupSame (fs_Framebuffer st1') (fs_Framebuffer st2')
         (m_SampleX pMask) (m_SampleY pMask).
Proof.
  intros Hsame Hrun.
  destruct (FragmentShadeQuad_inv _ _ _ _ _ _ _ Hrun)
    as (f0 & f1 & z & cur & Hdt & Hload & Hcase).
  unfold FragmentShadeQuad. cbv zeta.
  rewrite (DepthTest_same _ _ _ _ _ Hsame), Hdt. cbn [mbind option_bind].
  rewrite movemask_cmple_zero.
  destruct (existsb _ (seq 0 4)); cbn [negb].
  - destruct Hcase as (attrs & fb1' & Hattrs & Hstore & Hws & ->).
    rewrite Hattrs. cbn [mbind option_bind]. rewrite Hstore. cbn [mbind option_bind].
    destruct (WriteSamples_same _ _ _ _ _ _ _ _ _
                (quad_write_mask z cur (m_QuadMask pMask)) Hsame Hws)
      as (fb2' & Hws2 & Hsame').
    rewrite Hws2. cbn [mbind option_bind].
    eexists. split; [reflexivity | exact Hsame'].
  - subst st1'. exists st2. split; [reflexivity | exact Hsame].
Qed.

End ShadingIsLocal.

Lemma rect_addresses (fb : Framebuffer) (x0 y0 w h sampleX sampleY : Z) :
  RectFits fb x0 y0 w h ->
  x0 <= sampleX -> sampleX + 4 <= x0 + w -> y0 <= sampleY < y0 + h ->
  0 <= sampleX + sampleY * m_Width fb
  /\ DepthAddress fb sampleX sampleY = Z.to_nat (sampleX + sampleY * m_Width fb)
  /\ ColorAddress fb sampleX sampleY = Z.to_nat (4 * (sampleX + sampleY * m_Width fb)).
Proof.
  intros (Hx0 & Hy0 & Hw & Hwrap) Hsx Hsx' Hsy.
  assert (Hpos : 0 < m_Width fb) by lia.
  assert (Hrow : (sampleY + 1) * m_Width fb <= (y0 + h) * m_Width fb)
    by (apply Z.mul_le_mono_nonneg_r; lia).
  assert (Hrow0 : 0 <= sampleY * m_Width fb) by (apply Z.mul_nonneg_nonneg; lia).
  unfold u32_mod in Hwrap.
  split; [lia |]. split.
  - unfold DepthAddress. rewrite u32_small by (unfold u32_mod; lia). reflexivity.
  - unfold ColorAddress. rewrite (u32_small (m_Width fb * 4)) by (unfold u32_mod; lia).
    rewrite u32_small by (unfold u32_mod; lia). f_equal. ring.
Qed.

Lemma InsideSame_group (fb1 fb2 : Framebuffer) (x0 y0 w h sampleX sampleY : Z) :
  RectFits fb1 x0 y0 w h ->
  x0 <= sampleX -> sampleX + 4 <= x0 + w -> y0 <= sampleY < y0 + h ->
  InsideSame fb1 fb2 x0 y0 w h -> GroupSame fb1 fb2 sampleX sampleY.
Proof.
  intros HF Hsx Hsx' Hsy (HW & HH & HD & HC & Hin).
  destruct (rect_addresses _ _ _ _ _ _ _ HF Hsx Hsx' Hsy) as (Hpos & Hda & Hca).
  repeat (split; [assumption |]). rewrite Hda, Hca. split.
  - intros k Hk.
    destruct (Hin (sampleX + Z.of_nat k) sampleY ltac:(lia) Hsy) as [Hd _].
    replace (Z.to_nat (sampleX + sampleY * m_Width fb1) + k)%nat
      with (Z.to_nat (sampleX + Z.of_nat k + sampleY * m_Width fb1)) by lia.
    exact Hd.
  - intros j Hj.
    assert (Hj4 : j = (4 * (j / 4) + j mod 4)%nat) by (apply Nat.div_mod_eq).
    assert (Hq : (j / 4 < 4)%nat) by (apply Nat.Div0.div_lt_upper_bound; lia).
    assert (Hr : (j mod 4 < 4)%nat) by (apply Nat.mod_upper_bound; lia).
    set (k := (j / 4)%nat) in *. set (c := (j mod 4)%nat) in *.
    destruct (Hin (sampleX + Z.of_nat k) sampleY ltac:(lia) Hsy) as [_ Hc].
    specialize (Hc (Z.of_nat c) ltac:(lia)).
    replace (Z.to_nat (4 * (sampleX + sampleY * m_Width fb1)) + j)%nat
      with (Z.to_nat (4 * (sampleX + Z.of_nat k + sampleY * m_Width fb1) + Z.of_nat c))
      by lia.
    exact Hc.
Qed.

(** One group inside the rectangle has been shaded on both sides. *)
Lemma group_step_inside (fb1 fb2 fb1' fb2' : Framebuffer) (x0 y0 w h sampleX sampleY : Z) :
  RectFits fb1 x0 y0 w h ->
  x0 <= sampleX -> sampleX + 4 <= x0 + w -> y0 <= sampleY < y0 + h ->
  InsideSame fb1 fb2 x0 y0 w h ->
  OthersKept fb1 fb1' sampleX sampleY -> OthersKept fb2 fb2' sampleX sampleY ->
  GroupSame fb1' fb2' sampleX sampleY ->
  InsideSame fb1' fb2' x0 y0 w h.
Proof.
  intros HF Hsx Hsx' Hsy (HW & HH & HD & HC & Hin)
    (W1 & H1 & D1 & C1 & Kd1 & Kc1) (W2 & H2 & D2 & C2 & Kd2 & Kc2)
    (GW & GH & GD & GC & Gd & Gc).
  destruct (rect_addresses _ _ _ _ _ _ _ HF Hsx Hsx' Hsy) as (Hpos & Hda & Hca).
  destruct (GroupSame_addresses fb1 fb2 sampleX sampleY HW) as [Hda2 Hca2].
  destruct (GroupSame_addresses fb1 fb1' sampleX sampleY W1) as [Hda1 Hca1].
  rewrite Hda1 in Gd. rewrite Hca1 in Gc.
  rewrite Hda2 in Kd2. rewrite Hca2 in Kc2.
  rewrite Hda in *. rewrite Hca in *.
  repeat (split; [assumption |]). rewrite W1.
  intros x y Hx Hy.
  pose proof HF as (Hx0 & Hy0 & Hw & Hwrap).
  assert (Hcases : (y = sampleY /\ sampleX <= x < sampleX + 4)
                   \/ y < sampleY \/ sampleY < y
                   \/ (y = sampleY /\ (x < sampleX \/ sampleX + 4 <= x))) by lia.
  destruct Hcases as [[-> Hgx] | Hout].
  - split.
    + specialize (Gd (Z.to_nat (x - sampleX)) ltac:(lia)).
      replace (Z.to_nat (sampleX + sampleY * m_Width fb1) + Z.to_nat (x - sampleX))%nat
        with (Z.to_nat (x + sampleY * m_Width fb1)) in Gd by lia.
      exact Gd.
    + intros c Hc.
      specialize (Gc (Z.to_nat (4 * (x - sampleX) + c)) ltac:(lia)).
      replace (Z.to_nat (4 * (sampleX + sampleY * m_Width fb1))
               + Z.to_nat (4 * (x - sampleX) + c))%nat
        with (Z.to_nat (4 * (x + sampleY * m_Width fb1) + c)) in Gc by lia.
      exact Gc.
  - assert (Hidx : x + y * m_Width fb1 < sampleX + sampleY * m_Width fb1
                   \/ sampleX + sampleY * m_Width fb1 + 4 <= x + y * m_Width fb1).
    { destruct Hout as [Hlt | [Hgt | [-> Hx']]]; [left; nia | right; nia | lia]. }
    assert (Hnn : 0 <= x + y * m_Width fb1) by nia.
    destruct (Hin x y Hx Hy) as [Hd Hc].
    split.
    + rewrite Kd1, Kd2 by lia. exact Hd.
    + intros c Hc4. rewrite Kc1, Kc2 by lia. apply Hc, Hc4.
Qed.

Lemma for_u32_sim {St} (Rel : St -> St -> Prop) (n : Z) (body : Z -> St -> option St)
    (s1 s2 s1' : St) :
  Rel s1 s2 ->
  (forall (j : nat) t1 t2 t1', (j < Z.to_nat n)%nat -> Rel t1 t2 ->
     body (Z.of_nat j) t1 = Some t1' ->
     exists t2', body (Z.of_nat j) t2 = Some t2' /\ Rel t1' t2') ->
  for_u32 n body s1 = Some s1' ->
  exists s2', for_u32 n body s2 = Some s2' /\ Rel s1' s2'.
Proof.
  unfold for_u32. intros H0 Hstep. generalize dependent s1'.
  induction (Z.to_nat n) as [| m IH]; intros s1' Hrun.
  - injection Hrun as <-. exists s2. split; [reflexivity | exact H0].
  - rewrite seq_S, foldl_app in Hrun. simpl in Hrun.
    destruct (foldl _ (Some s1) _) as [t1 |] eqn:Hprefix; [| discriminate].
    cbn [mbind option_bind] in Hrun.
    destruct (IH ltac:(intros j t1' t2 t1'' Hj; apply Hstep; lia) t1 eq_refl)
      as (t2 & Hrun2 & Hrel).
    destruct (Hstep m t1 t2 s1' ltac:(lia) Hrel Hrun) as (s2' & Hbody & Hrel').
    exists s2'. split; [| exact Hrel'].
    rewrite seq_S, foldl_app, Hrun2. simpl. exact Hbody.
Qed.

Section ShadingCommutes.

Variable m_RenderConfig : RasterizerConfig.
Variable m_ShaderMetadata : ShaderMetadata.
Variable m_SetupBuffers : SetupBuffers.
Variable FS : InterpolatedAttributes -> FragmentOutput.
Variable rcp : f32 -> f32.

(** The framebuffers of the two states have the width [W] and agree inside
    the rectangle. *)
Let Rel (W x0 y0 w h : Z) (t1 t2 : FSState) : Prop :=
  m_Width (fs_Framebuffer t1) = W
  /\ InsideSame (fs_Framebuffer t1) (fs_Framebuffer t2) x0 y0 w h.

Lemma FragmentShadeBlock_same (blockPosX blockPosY primIdx : Z) (st1 st1' st2 : FSState)
    (x0 y0 w h : Z) :
  RectFits (fs_Framebuffer st1) x0 y0 w h ->
  x0 <= blockPosX -> blockPosX + g_scPixelBlockSize <= x0 + w ->
  y0 <= blockPosY -> blockPosY + g_scPixelBlockSize <= y0 + h ->
  InsideSame (fs_Framebuffer st1) (fs_Framebuffer st2) x0 y0 w h ->
  FragmentShadeBlock m_ShaderMetadata m_SetupBuffers FS rcp blockPosX blockPosY primIdx st1
    = Some st1' ->
  exists st2',
    FragmentShadeBlock m_ShaderMetadata m_SetupBuffers FS rcp blockPosX blockPosY primIdx st2
      = Some st2'
    /\ Rel (m_Width (fs_Framebuffer st1)) x0 y0 w h st1' st2'.
Proof.
  intros HF Hbx Hbx' Hby Hby' Hsame. unfold FragmentShadeBlock.
  change g_scPixelBlockSize with 8 in *. change g_scNumEdgeTestsPerRow with 2.
  pose proof HF as (Hx0 & Hy0 & Hw & Hwrap).
  destruct (RectFits_small _ _ _ _ _ (blockPosX + 8) (blockPosY + 8) HF
              ltac:(lia) ltac:(lia) ltac:(lia) ltac:(lia)) as [Hsx Hsy].
  apply (for_u32_sim (Rel (m_Width (fs_Framebuffer st1)) x0 y0 w h)).
  - split; [reflexivity | exact Hsame].
  - intros py t1 t2 t1' Hpy Ht.
    apply (for_u32_sim (Rel (m_Width (fs_Framebuffer st1)) x0 y0 w h)).
    + exact Ht.
    + intros px u1 u2 u1' Hpx [HW Hu] Hgroup.
      change (Z.to_nat 8) with 8%nat in Hpy. change (Z.to_nat 2) with 2%nat in Hpx.
      assert (HFu : RectFits (fs_Framebuffer u1) x0 y0 w h)
        by (unfold RectFits; rewrite HW; exact HF).
      assert (Hsx0 : u32 (blockPosX + u32 (g_scSIMDWidth * Z.of_nat px))
                     = blockPosX + 4 * Z.of_nat px).
      { change g_scSIMDWidth with 4.
        rewrite (u32_small (4 * Z.of_nat px)) by (unfold u32_mod; lia).
        apply u32_small. lia. }
      assert (Hsy0 : u32 (blockPosY + Z.of_nat py) = blockPosY + Z.of_nat py)
        by (apply u32_small; lia).
      pose proof (InsideSame_group (fs_Framebuffer u1) (fs_Framebuffer u2) x0 y0 w h
                    (blockPosX + 4 * Z.of_nat px) (blockPosY + Z.of_nat py)
                    HFu ltac:(lia) ltac:(lia) ltac:(lia) Hu) as Hg.
      rewrite <- Hsx0, <- Hsy0 in Hg.
      destruct (FragmentShadeBlockGroup_same _ _ _ _ _ _ _ _ _ _ _ _ Hg Hgroup)
        as (u2' & Hgroup2 & Hg').
      exists u2'. split; [exact Hgroup2 |].
      apply FragmentShadeBlockGroup_others in Hgroup, Hgroup2.
      rewrite Hsx0, Hsy0 in *.
      split; [destruct Hgroup as (-> & _); exact HW |].
      apply (group_step_inside (fs_Framebuffer u1) (fs_Framebuffer u2) _ _ x0 y0 w h
               (blockPosX + 4 * Z.of_nat px) (blockPosY + Z.of_nat py) HFu);
        [lia | lia | lia | exact Hu | exact Hgroup | exact Hgroup2 | exact Hg'].
Qed.

Lemma FragmentShadeTile_same (tilePosX tilePosY primIdx : Z) (st1 st1' st2 : FSState) :
  let side := g_scPixelBlockSize * (m_TileSize m_RenderConfig / g_scPixelBlockSize) in
  RectFits (fs_Framebuffer st1) tilePosX tilePosY side side ->
  InsideSame (fs_Framebuffer st1) (fs_Framebuffer st2) tilePosX tilePosY side side ->
  FragmentShadeTile m_RenderConfig m_ShaderMetadata m_SetupBuffers FS rcp
    tilePosX tilePosY primIdx st1 = Some st1' ->
  exists st2',
    FragmentShadeTile m_RenderConfig m_ShaderMetadata m_SetupBuffers FS rcp
      tilePosX tilePosY primIdx st2 = Some st2'
    /\ Rel (m_Width (fs_Framebuffer st1)) tilePosX tilePosY side side st1' st2'.
Proof.
  intros side HF Hsame. unfold FragmentShadeTile. cbv zeta.
  subst side. change g_scPixelBlockSize with 8 in *.
  set (n := m_TileSize m_RenderConfig / 8) in *.
  pose proof HF as (Hx0 & Hy0 & Hw & Hwrap).
  apply (for_u32_sim (Rel (m_Width (fs_Framebuffer st1)) tilePosX tilePosY (8 * n) (8 * n))).
  - split; [reflexivity | exact Hsame].
  - intros py t1 t2 t1' Hpy Ht.
    apply (for_u32_sim
             (Rel (m_Width (fs_Framebuffer st1)) tilePosX tilePosY (8 * n) (8 * n))).
    + exact Ht.
    + intros px u1 u2 u1' Hpx [HW Hu] Hblock.
      destruct (RectFits_small _ _ _ _ _ (tilePosX + 8 * n) (tilePosY + 8 * n) HF
                  ltac:(lia) ltac:(lia) ltac:(lia) ltac:(lia)) as [Hsx Hsy].
      assert (HFu : RectFits (fs_Framebuffer u1) tilePosX tilePosY (8 * n) (8 * n))
        by (unfold RectFits; rewrite HW; exact HF).
      rewrite (u32_small (Z.of_nat px * 8)) in * by lia.
      rewrite (u32_small (Z.of_nat py * 8)) in * by lia.
      rewrite !u32_small in * by lia.
      destruct (FragmentShadeBlock_same (tilePosX + Z.of_nat px * 8)
                  (tilePosY + Z.of_nat py * 8) primIdx u1 u1' u2
                  tilePosX tilePosY (8 * n) (8 * n) HFu ltac:(lia) ltac:(change g_scPixelBlockSize with 8; lia)
                  ltac:(lia) ltac:(change g_scPixelBlockSize with 8; lia) Hu Hblock)
        as (u2' & Hblock2 & [HW' Hu']).
      exists u2'. split; [exact Hblock2 |].
      split; [congruence | exact Hu'].
Qed.

Lemma ShadeCoverageMask_same (pMask : CoverageMask) (st1 st1' st2 : FSState) :
  let w := MaskWidth m_RenderConfig (m_Type pMask) in
  let h := MaskHeight m_RenderConfig (m_Type pMask) in
  RectFits (fs_Framebuffer st1) (m_SampleX pMask) (m_SampleY pMask) w h ->
  InsideSame (fs_Framebuffer st1) (fs_Framebuffer st2) (m_SampleX pMask) (m_SampleY pMask) w h ->
  ShadeCoverageMask m_RenderConfig m_ShaderMetadata m_SetupBuffers FS rcp pMask st1
    = Some st1' ->
  exists st2',
    ShadeCoverageMask m_RenderConfig m_ShaderMetadata m_SetupBuffers FS rcp pMask st2
      = Some st2'
    /\ InsideSame (fs_Framebuffer st1') (fs_Framebuffer st2')
         (m_SampleX pMask) (m_SampleY pMask) w h.
Proof.
  intros w h. subst w h. unfold ShadeCoverageMask.
  destruct (m_Type pMask); cbn [MaskWidth MaskHeight]; intros HF Hsame Hrun.
  - destruct (FragmentShadeTile_same _ _ _ _ _ _ HF Hsame Hrun) as (st2' & Hrun2 & [_ Hs]).
    exists st2'. split; assumption.
  - destruct (FragmentShadeBlock_same (m_SampleX pMask) (m_SampleY pMask) (m_PrimIdx pMask)
                st1 st1' st2 (m_SampleX pMask) (m_SampleY pMask)
                g_scPixelBlockSize g_scPixelBlockSize HF
                ltac:(lia) ltac:(lia) ltac:(lia) ltac:(lia) Hsame Hrun)
      as (st2' & Hrun2 & [_ Hs]).
    exists st2'. split; assumption.
  - pose proof (InsideSame_group (fs_Framebuffer st1) (fs_Framebuffer st2)
                  (m_SampleX pMask) (m_SampleY pMask) g_scSIMDWidth 1
                  (m_SampleX pMask) (m_SampleY pMask) HF
                  ltac:(lia) ltac:(change g_scSIMDWidth with 4; lia) ltac:(lia) Hsame) as Hg.
    destruct (FragmentShadeQuad_same _ _ _ _ _ _ _ _ Hg Hrun) as (st2' & Hrun2 & Hg').
    exists st2'. split; [exact Hrun2 |].
    apply FragmentShadeQuad_others in Hrun, Hrun2.
    apply (group_step_inside (fs_Framebuffer st1) (fs_Framebuffer st2) _ _
             (m_SampleX pMask) (m_SampleY pMask) g_scSIMDWidth 1
             (m_SampleX pMask) (m_SampleY pMask) HF);
      [lia | change g_scSIMDWidth with 4; lia | lia
      | exact Hsame | exact Hrun | exact Hrun2 | exact Hg'].
Qed.

End ShadingCommutes.

Lemma Framebuffer_ext (fb1 fb2 : Framebuffer) :
  0 < m_Width fb1 ->
  m_Width fb2 = m_Width fb1 -> m_Height fb2 = m_Height fb1 ->
  (forall x y : Z, 0 <= x < m_Width fb1 -> 0 <= y ->
     m_pDepthBuffer fb2 !! Z.to_nat (x + y * m_Width fb1)
       = m_pDepthBuffer fb1 !! Z.to_nat (x + y * m_Width fb1)
     /\ forall c : Z, 0 <= c < 4 ->
          m_pColorBuffer fb2 !! Z.to_nat (4 * (x + y * m_Width fb1) + c)
            = m_pColorBuffer fb1 !! Z.to_nat (4 * (x + y * m_Width fb1) + c)) ->
  fb2 = fb1.
Proof.
  intros Hpos HW HH Hpix.
  assert (Hpixel : forall q : Z, 0 <= q ->
            exists x y, 0 <= x < m_Width fb1 /\ 0 <= y /\ q = x + y * m_Width fb1).
  { intros q Hq. exists (q mod m_Width fb1), (q / m_Width fb1).
    split; [apply Z.mod_pos_bound; exact Hpos |].
    split; [apply Z.div_pos; lia |].
    rewrite Z.mul_comm, Z.add_comm. apply Z.div_mod. lia. }
  destruct fb1 as [w1 h1 c1 d1], fb2 as [w2 h2 c2 d2]. simpl in *. subst w2 h2.
  f_equal.
  - apply list_eq. intros j.
    destruct (Hpixel (Z.of_nat j / 4) ltac:(apply Z.div_pos; lia))
      as (x & y & Hx & Hy & Hq).
    destruct (Hpix x y Hx Hy) as [_ Hc].
    specialize (Hc (Z.of_nat j mod 4) ltac:(apply Z.mod_pos_bound; lia)).
    rewrite <- Hq in Hc.
    replace (4 * (Z.of_nat j / 4) + Z.of_nat j mod 4) with (Z.of_nat j) in Hc
      by (apply Z.div_mod; lia).
    rewrite Nat2Z.id in Hc. exact Hc.
  - apply list_eq. intros i.
    destruct (Hpixel (Z.of_nat i) ltac:(lia)) as (x & y & Hx & Hy & Hq).
    destruct (Hpix x y Hx Hy) as [Hd _].
    rewrite <- Hq, Nat2Z.id in Hd. exact Hd.
Qed.

(** What is kept outside one rectangle is the same inside a rectangle
    disjoint from it. *)
Lemma OutsideKept_disjoint (fb fb' : Framebuffer) (ax ay aw ah bx by_ bw bh : Z) :
  OutsideKept fb fb' ax ay aw ah ->
  RectFits fb bx by_ bw bh ->
  ax + aw <= bx \/ bx + bw <= ax \/ ay + ah <= by_ \/ by_ + bh <= ay ->
  InsideSame fb fb' bx by_ bw bh /\ InsideSame fb' fb bx by_ bw bh.
Proof.
  intros (HW & HH & HD & HC & Hout) (Hx0 & Hy0 & Hw & _) Hdis.
  split.
  - repeat (split; [assumption |]).
    intros x y Hx Hy. apply Hout; lia.
  - repeat (split; [congruence |]). rewrite HW.
    intros x y Hx Hy.
    destruct (Hout x y ltac:(lia) ltac:(lia) ltac:(lia)) as [Hd Hc].
    split; [congruence |]. intros c Hc4. rewrite (Hc c Hc4). reflexivity.
Qed.

Section DisjointMasks.

Variable m_RenderConfig : RasterizerConfig.
Variable m_ShaderMetadata : ShaderMetadata.
Variable m_SetupBuffers : SetupBuffers.
Variable FS : InterpolatedAttributes -> FragmentOutput.
Variable rcp : f32 -> f32.

Lemma ShadeCoverageMask_outside (pMask : CoverageMask) (st st' : FSState) :
  MaskFits m_RenderConfig (fs_Framebuffer st) pMask ->
  ShadeCoverageMask m_RenderConfig m_ShaderMetadata m_SetupBuffers FS rcp pMask st
    = Some st' ->
  OutsideKept (fs_Framebuffer st) (fs_Framebuffer st') (m_SampleX pMask) (m_SampleY pMask)
    (MaskWidth m_RenderConfig (m_Type pMask)) (MaskHeight m_RenderConfig (m_Type pMask)).
Proof.
  unfold MaskFits, ShadeCoverageMask.
  destruct (m_Type pMask); cbn [MaskWidth MaskHeight]; intros HF Hrun.
  - exact (FragmentShadeTile_outside _ _ _ _ _ _ _ _ _ _ HF Hrun).
  - apply (FragmentShadeBlock_outside _ _ _ _ _ _ _ _ _
             (m_SampleX pMask) (m_SampleY pMask) g_scPixelBlockSize g_scPixelBlockSize)
      in Hrun; [exact Hrun | exact HF | lia | lia | lia | lia].
  - apply FragmentShadeQuad_others in Hrun.
    destruct HF as (Hx & Hy & Hw & Hwrap).
    apply (OthersKept_outside _ _ _ _ _ _ _ _ Hx Hy Hw Hwrap) in Hrun;
      [exact Hrun | lia | change g_scSIMDWidth with 4; lia | lia].
Qed.

(** X24.  Two coverage masks whose rectangles are disjoint can be shaded in
    either order: if shading [a] and then [b] succeeds, so does shading [b]
    and then [a], and both orders leave the same framebuffer, color and
    depth.  (Both rectangles lie within the rows of the framebuffer and no
    byte address in them wraps around.)  The workers that shade different
    tiles at the same time therefore do not depend on each other's
    progress. *)
Theorem masks_with_disjoint_rectangles_commute (a b : CoverageMask)
    (st sA sAB : FSState) :
  0 < m_Width (fs_Framebuffer st) ->
  MaskFits m_RenderConfig (fs_Framebuffer st) a ->
  MaskFits m_RenderConfig (fs_Framebuffer st) b ->
  MasksDisjoint m_RenderConfig a b ->
  ShadeCoverageMask m_RenderConfig m_ShaderMetadata m_SetupBuffers FS rcp a st = Some sA ->
  ShadeCoverageMask m_RenderConfig m_ShaderMetadata m_SetupBuffers FS rcp b sA = Some sAB ->
  exists sB sBA : FSState,
    ShadeCoverageMask m_RenderConfig m_ShaderMetadata m_SetupBuffers FS rcp b st = Some sB
    /\ ShadeCoverageMask m_RenderConfig m_ShaderMetadata m_SetupBuffers FS rcp a sB
       = Some sBA
    /\ fs_Framebuffer sBA = fs_Framebuffer sAB.
Proof.
  intros Hpos HFa HFb Hdis HA HAB. unfold MaskFits in HFa, HFb.
  set (aw := MaskWidth m_RenderConfig (m_Type a)) in *.
  set (ah := MaskHeight m_RenderConfig (m_Type a)) in *.
  set (bw := MaskWidth m_RenderConfig (m_Type b)) in *.
  set (bh := MaskHeight m_RenderConfig (m_Type b)) in *.
  (* a on the initial framebuffer *)
  pose proof (ShadeCoverageMask_outside a st sA HFa HA) as OA.
  pose proof OA as (WA & _).
  destruct (OutsideKept_disjoint _ _ _ _ _ _ _ _ _ _ OA HFb Hdis) as [_ SA].
  assert (HFb' : MaskFits m_RenderConfig (fs_Framebuffer sA) b)
    by (unfold MaskFits, RectFits; rewrite WA; exact HFb).
  (* b on the initial framebuffer *)
  destruct (ShadeCoverageMask_same _ _ _ _ _ b sA sAB st HFb' SA HAB) as (sB & HB & SB).
  pose proof (ShadeCoverageMask_outside b st sB HFb HB) as OB.
  pose proof OB as (WB & _).
  destruct (OutsideKept_disjoint _ _ _ _ _ _ _ _ _ _ OB HFa
              ltac:(unfold MasksDisjoint in Hdis; fold aw ah bw bh in Hdis; lia))
    as [SB' _].
  (* a after b *)
  destruct (ShadeCoverageMask_same _ _ _ _ _ a st sA sB HFa SB' HA) as (sBA & HBA & SBA).
  exists sB, sBA. split; [exact HB |]. split; [exact HBA |].
  assert (HFa' : MaskFits m_RenderConfig (fs_Framebuffer sB) a)
    by (unfold MaskFits, RectFits; rewrite WB; exact HFa).
  pose proof (ShadeCoverageMask_outside b sA sAB HFb' HAB) as OAB.
  pose proof (ShadeCoverageMask_outside a sB sBA HFa' HBA) as OBA.
  fold aw ah in OA, OBA, SBA. fold bw bh in OB, OAB, SB.
  destruct OAB as (WAB & HAB' & _ & _ & KAB).
  destruct OBA as (WBA & HBA' & _ & _ & KBA).
  destruct OA as (_ & HHA & _ & _ & KA). destruct OB as (_ & HHB & _ & _ & KB).
  destruct SB as (_ & _ & _ & _ & IB). destruct SBA as (_ & _ & _ & _ & IA).
  rewrite ?WA, ?WB, ?WAB in *.
  pose proof HFa as (Hax & Hay & Haw & _). pose proof HFb as (Hbx & Hby & Hbw & _).
  unfold MasksDisjoint in Hdis. fold aw ah bw bh in Hdis.
  apply Framebuffer_ext.
  - lia.
  - congruence.
  - congruence.
  - rewrite WAB. intros x y Hx Hy.
    assert (Hcases :
      (m_SampleX a <= x < m_SampleX a + aw /\ m_SampleY a <= y < m_SampleY a + ah)
      \/ (m_SampleX b <= x < m_SampleX b + bw /\ m_SampleY b <= y < m_SampleY b + bh)
      \/ (~ (m_SampleX a <= x < m_SampleX a + aw /\ m_SampleY a <= y < m_SampleY a + ah)
          /\ ~ (m_SampleX b <= x < m_SampleX b + bw
                /\ m_SampleY b <= y < m_SampleY b + bh))) by lia.
    destruct Hcases as [[Hxa Hya] | [[Hxb Hyb] | [Hna Hnb]]].
    + destruct (IA x y Hxa Hya) as [Id Ic].
      destruct (KAB x y Hx Hy ltac:(lia)) as [Kd Kc].
      split; [congruence |]. intros c Hc. rewrite (Ic c Hc), (Kc c Hc). reflexivity.
    + destruct (IB x y Hxb Hyb) as [Id Ic].
      destruct (KBA x y Hx Hy ltac:(lia)) as [Kd Kc].
      split; [congruence |]. intros c Hc. rewrite (Kc c Hc), (Ic c Hc). reflexivity.
    + destruct (KA x y Hx Hy Hna) as [Ad Ac]. destruct (KB x y Hx Hy Hnb) as [Bd Bc].
      destruct (KAB x y Hx Hy Hnb) as [ABd ABc]. destruct (KBA x y Hx Hy Hna) as [BAd BAc].
      split; [congruence |].
      intros c Hc. rewrite (BAc c Hc), (Bc c Hc), (ABc c Hc), (Ac c Hc). reflexivity.
Qed.

End DisjointMasks.

Lemma masks_with_disjoint_rectangles_commute_witness :
  let shade := ShadeCoverageMask Scene.config Scene.metadata Scene.shaded_setup_buffers
                 Scene.red_FS Scene.exact_rcp in
  let block := mk_CoverageMask 40 32 0 BLOCK 0 in
  exists sA sAB sB sBA : FSState,
    shade Scene.quad Scene.start = Some sA /\ shade block sA = Some sAB
    /\ shade block Scene.start = Some sB /\ shade Scene.quad sB = Some sBA
    /\ fs_Framebuffer sBA = fs_Framebuffer sAB.
Proof.
  intros shade block. subst shade.
  destruct (ShadeCoverageMask Scene.config Scene.metadata Scene.shaded_setup_buffers
              Scene.red_FS Scene.exact_rcp Scene.quad Scene.start) as [sA |] eqn:HA;
    [| vm_compute in HA; discriminate].
  destruct (ShadeCoverageMask Scene.config Scene.metadata Scene.shaded_setup_buffers
              Scene.red_FS Scene.exact_rcp block sA) as [sAB |] eqn:HAB.
  - destruct (masks_with_disjoint_rectangles_commute Scene.config Scene.metadata
                Scene.shaded_setup_buffers Scene.red_FS Scene.exact_rcp
                Scene.quad block Scene.start sA sAB) as (sB & sBA & HB & HBA & Hsame).
    + reflexivity.
    + unfold MaskFits, RectFits. repeat split; vm_compute; congruence.
    + unfold MaskFits, RectFits. repeat split; vm_compute; congruence.
    + left. vm_compute. discriminate.
    + exact HA.
    + exact HAB.
    + exists sA, sAB, sB, sBA. repeat (split; [assumption || reflexivity |]). exact Hsame.
  - vm_compute in HA. injection HA as <-. vm_compute in HAB. discriminate.
Defined.

(** ** Every sample of a block is depth-tested once *)

Lemma GroupSame_refl (fb : Framebuffer) (sampleX sampleY : Z) :
  GroupSame fb fb sampleX sampleY.
Proof. repeat (split; [reflexivity |]). split; intros; reflexivity. Qed.

Lemma GroupSame_trans (fb1 fb2 fb3 : Framebuffer) (sampleX sampleY : Z) :
  GroupSame fb1 fb2 sampleX sampleY -> GroupSame fb2 fb3 sampleX sampleY ->
  GroupSame fb1 fb3 sampleX sampleY.
Proof.
  intros (W1 & H1 & D1 & C1 & Sd1 & Sc1) (W2 & H2 & D2 & C2 & Sd2 & Sc2).
  destruct (GroupSame_addresses fb1 fb2 sampleX sampleY W1) as [Hda Hca].
  rewrite Hda in Sd2. rewrite Hca in Sc2.
  split; [congruence |]. split; [congruence |]. split; [congruence |].
  split; [congruence |]. split.
  - intros k Hk. rewrite Sd2, Sd1 by exact Hk. reflexivity.
  - intros j Hj. rewrite Sc2, Sc1 by exact Hj. reflexivity.
Qed.

(** Shading a group keeps every other group of the rectangle. *)
Lemma OthersKept_group (fb fb' : Framebuffer) (x0 y0 w h gx gy sampleX sampleY : Z) :
  RectFits fb x0 y0 w h ->
  x0 <= sampleX -> sampleX + 4 <= x0 + w -> y0 <= sampleY < y0 + h ->
  x0 <= gx -> gx + 4 <= x0 + w -> y0 <= gy < y0 + h ->
  gy <> sampleY \/ gx + 4 <= sampleX \/ sampleX + 4 <= gx ->
  OthersKept fb fb' sampleX sampleY ->
  GroupSame fb fb' gx gy.
Proof.
  intros HF Hsx Hsx' Hsy Hgx Hgx' Hgy Hne (HW & HH & HD & HC & Kd & Kc).
  destruct (rect_addresses _ _ _ _ _ _ _ HF Hsx Hsx' Hsy) as (Hpos & Hda & Hca).
  destruct (rect_addresses _ _ _ _ _ _ _ HF Hgx Hgx' Hgy) as (Hgpos & Hgda & Hgca).
  pose proof HF as (Hx0 & Hy0 & Hw & _).
  assert (Hidx : gx + gy * m_Width fb + 4 <= sampleX + sampleY * m_Width fb
                 \/ sampleX + sampleY * m_Width fb + 4 <= gx + gy * m_Width fb).
  { assert (Hcases : gy < sampleY \/ sampleY < gy
                     \/ (gy = sampleY /\ (gx + 4 <= sampleX \/ sampleX + 4 <= gx))) by lia.
    destruct Hcases as [Hlt | [Hgt | [-> Hx']]]; [left; nia | right; nia | lia]. }
  repeat (split; [assumption |]). rewrite Hgda, Hgca. split.
  - intros k Hk. apply Kd. rewrite Hda. lia.
  - intros j Hj. apply Kc. rewrite Hca. lia.
Qed.

Section EverySampleOnce.

Variable m_ShaderMetadata : ShaderMetadata.
Variable m_SetupBuffers : SetupBuffers.
Variable FS : InterpolatedAttributes -> FragmentOutput.
Variable rcp : f32 -> f32.

Let Shaded := GroupShaded m_ShaderMetadata m_SetupBuffers FS rcp.

(** The outcome of the body of the loops, on the framebuffer it ran on. *)
Lemma FragmentShadeBlockGroup_shaded (blockPosX blockPosY primIdx px py : Z)
    (st st' : FSState) :
  FragmentShadeBlockGroup m_ShaderMetadata m_SetupBuffers FS rcp
    blockPosX blockPosY primIdx px py st = Some st' ->
  Shaded primIdx (fs_Framebuffer st) (fs_Framebuffer st')
    (u32 (blockPosX + u32 (g_scSIMDWidth * px))) (u32 (blockPosY + py)).
Proof.
  intros Hrun.
  destruct (FragmentShadeBlockGroup_inv _ _ _ _ _ _ _ _ _ _ _ Hrun)
    as (f0 & f1 & z & cur & Hdt & Hload & Hcase).
  exists f0, f1, z, cur. split; [exact Hdt |]. split; [exact Hload |].
  destruct (existsb _ (seq 0 4)) eqn:Hany.
  - destruct Hcase as (attrs & fb' & Hattrs & Hstore & Hws & ->).
    destruct (shaded_group_outcome FS st _ _ z attrs _ _ fb' (block_write_mask z cur) Hws)
      as (_ & Hkept & Hwritten & _).
    intros k Hk. destruct (ps_lane z k <=? ps_lane cur k)%f32 eqn:Hpass.
    + exists attrs. split; [exact Hattrs |]. split; [exact Hstore |].
      exact (Hwritten k Hk Hpass).
    + exact (Hkept k Hk Hpass).
  - subst st'. intros k Hk.
    rewrite (existsb_lanes_false _ k Hany Hk).
    split; [reflexivity | intros c Hc; reflexivity].
Qed.

(** A group shaded on a framebuffer that agreed with [fb] on the group has
    been shaded from [fb]. *)
Lemma GroupShaded_before (primIdx : Z) (fb cur next : Framebuffer) (sampleX sampleY : Z) :
  GroupSame fb cur sampleX sampleY ->
  Shaded primIdx cur next sampleX sampleY ->
  Shaded primIdx fb next sampleX sampleY.
Proof.
  intros Hsame (f0 & f1 & z & old & Hdt & Hload & Hk).
  rewrite (DepthTest_same _ _ _ _ _ _ _ Hsame) in Hdt.
  destruct Hsame as (HW & HH & HD & HC & Sd & Sc).
  destruct (GroupSame_addresses fb cur sampleX sampleY HW) as [Hda Hca].
  exists f0, f1, z, old. split; [exact Hdt |]. split.
  - rewrite Hda in Hload. rewrite <- Hload. symmetry. apply load_ps_same. exact Sd.
  - intros k Hk4. specialize (Hk k Hk4).
    destruct (ps_lane z k <=? ps_lane old k)%f32.
    + destruct Hk as (attrs & Hattrs & Hstore & Hd & Hc).
      exists attrs. split; [exact Hattrs |]. split; [exact Hstore |].
      unfold SampleWritten in *. rewrite Hda, Hca in *. split; assumption.
    + destruct Hk as [Hd Hc]. unfold SampleKept in *. rewrite Hda, Hca in *. split.
      * rewrite Hd. apply Sd, Hk4.
      * intros c Hc4. rewrite (Hc c Hc4).
        replace (ColorAddress fb sampleX sampleY + 4 * k + c)%nat
          with (ColorAddress fb sampleX sampleY + (4 * k + c))%nat by lia.
        apply Sc. lia.
Qed.

(** A group shaded from [fb] stays so when the framebuffer changes
    elsewhere. *)
Lemma GroupShaded_after (primIdx : Z) (fb cur next : Framebuffer) (sampleX sampleY : Z) :
  m_Width cur = m_Width fb ->
  Shaded primIdx fb cur sampleX sampleY ->
  GroupSame cur next sampleX sampleY ->
  Shaded primIdx fb next sampleX sampleY.
Proof.
  intros HWc (f0 & f1 & z & old & Hdt & Hload & Hk) (HW & HH & HD & HC & Sd & Sc).
  destruct (GroupSame_addresses fb cur sampleX sampleY HWc) as [Hda Hca].
  rewrite Hda in Sd. rewrite Hca in Sc.
  exists f0, f1, z, old. split; [exact Hdt |]. split; [exact Hload |].
  intros k Hk4. specialize (Hk k Hk4).
  destruct (ps_lane z k <=? ps_lane old k)%f32.
  - destruct Hk as (attrs & Hattrs & Hstore & Hd & Hc).
    exists attrs. split; [exact Hattrs |]. split; [exact Hstore |].
    split.
    + rewrite Sd by exact Hk4. exact Hd.
    + intros c Hc4.
      replace (ColorAddress fb sampleX sampleY + 4 * k + c)%nat
        with (ColorAddress fb sampleX sampleY + (4 * k + c))%nat by lia.
      rewrite Sc by lia.
      replace (ColorAddress fb sampleX sampleY + (4 * k + c))%nat
        with (ColorAddress fb sampleX sampleY + 4 * k + c)%nat by lia.
      exact (Hc c Hc4).
  - destruct Hk as [Hd Hc]. split.
    + rewrite Sd by exact Hk4. exact Hd.
    + intros c Hc4.
      replace (ColorAddress fb sampleX sampleY + 4 * k + c)%nat
        with (ColorAddress fb sampleX sampleY + (4 * k + c))%nat by lia.
      rewrite Sc by lia.
      replace (ColorAddress fb sampleX sampleY + (4 * k + c))%nat
        with (ColorAddress fb sampleX sampleY + 4 * k + c)%nat by lia.
      exact (Hc c Hc4).
Qed.

(** After [n] groups of the block, in the order of the two loops: the
    groups gone through are shaded from the framebuffer at the start and
    the others are as they were. *)
Let Progress (blockPosX blockPosY primIdx : Z) (fb : Framebuffer) (n : nat)
    (cur : FSState) : Prop :=
  m_Width (fs_Framebuffer cur) = m_Width fb
  /\ forall px py : nat, (px < 2)%nat -> (py < 8)%nat ->
       let gx := blockPosX + 4 * Z.of_nat px in
       let gy := blockPosY + Z.of_nat py in
       if (2 * py + px <? n)%nat
       then Shaded primIdx fb (fs_Framebuffer cur) gx gy
       else GroupSame fb (fs_Framebuffer cur) gx gy.

Lemma Progress_step (blockPosX blockPosY primIdx : Z) (fb : Framebuffer)
    (px py : nat) (cur next : FSState) :
  RectFits fb blockPosX blockPosY 8 8 ->
  (px < 2)%nat -> (py < 8)%nat ->
  Progress blockPosX blockPosY primIdx fb (2 * py + px) cur ->
  FragmentShadeBlockGroup m_ShaderMetadata m_SetupBuffers FS rcp
    blockPosX blockPosY primIdx (Z.of_nat px) (Z.of_nat py) cur = Some next ->
  Progress blockPosX blockPosY primIdx fb (S (2 * py + px)) next.
Proof.
  intros HF Hpx Hpy [HW Hall] Hrun.
  pose proof HF as (Hx0 & Hy0 & Hw & Hwrap).
  destruct (RectFits_small _ _ _ _ _ (blockPosX + 8) (blockPosY + 8) HF
              ltac:(lia) ltac:(lia) ltac:(lia) ltac:(lia)) as [Hsx Hsy].
  assert (HFc : RectFits (fs_Framebuffer cur) blockPosX blockPosY 8 8)
    by (unfold RectFits; rewrite HW; exact HF).
  pose proof (FragmentShadeBlockGroup_shaded _ _ _ _ _ _ _ Hrun) as Hshaded.
  pose proof (FragmentShadeBlockGroup_others _ _ _ _ _ _ _ _ _ _ _ Hrun) as Hothers.
  change g_scSIMDWidth with 4 in Hshaded, Hothers.
  rewrite (u32_small (4 * Z.of_nat px)) in Hshaded, Hothers by (unfold u32_mod; lia).
  rewrite !u32_small in Hshaded, Hothers by lia.
  split; [destruct Hothers as (-> & _); exact HW |].
  intros qx qy Hqx Hqy gx gy. specialize (Hall qx qy Hqx Hqy). cbv zeta in Hall.
  fold gx gy in Hall.
  destruct (decide (qx = px /\ qy = py)) as [[-> ->] | Hne].
  - rewrite (proj2 (Nat.ltb_lt _ _)) by lia.
    rewrite (proj2 (Nat.ltb_ge _ _)) in Hall by lia.
    exact (GroupShaded_before _ _ _ _ _ _ Hall Hshaded).
  - assert (Hother : qy <> py \/ qx <> px).
    { destruct (Nat.eq_dec qy py) as [-> | Hy]; [right | left; exact Hy].
      intros ->. apply Hne. split; reflexivity. }
    assert (Hkept : GroupSame (fs_Framebuffer cur) (fs_Framebuffer next) gx gy).
    { apply (OthersKept_group _ _ blockPosX blockPosY 8 8 gx gy
               (blockPosX + 4 * Z.of_nat px) (blockPosY + Z.of_nat py) HFc);
        [lia | lia | lia | subst gx; lia | subst gx; lia | subst gy; lia
        | subst gx gy; lia | exact Hothers]. }
    destruct (2 * qy + qx <? 2 * py + px)%nat eqn:Hdone.
    + apply Nat.ltb_lt in Hdone. rewrite (proj2 (Nat.ltb_lt _ _)) by lia.
      exact (GroupShaded_after _ _ _ _ _ _ HW Hall Hkept).
    + apply Nat.ltb_ge in Hdone. rewrite (proj2 (Nat.ltb_ge _ _)) by lia.
      exact (GroupSame_trans _ _ _ _ _ Hall Hkept).
Qed.

(** Every group of the block has been shaded from the framebuffer at the
    start. *)
Lemma FragmentShadeBlock_shaded
    (blockPosX blockPosY primIdx : Z) (st st' : FSState) :
  RectFits (fs_Framebuffer st) blockPosX blockPosY g_scPixelBlockSize g_scPixelBlockSize ->
  FragmentShadeBlock m_ShaderMetadata m_SetupBuffers FS rcp blockPosX blockPosY primIdx st
    = Some st' ->
  forall px py : nat, (px < 2)%nat -> (py < 8)%nat ->
    Shaded primIdx (fs_Framebuffer st) (fs_Framebuffer st')
      (blockPosX + 4 * Z.of_nat px) (blockPosY + Z.of_nat py).
Proof.
  intros HF Hrun.
  assert (Hend : Progress blockPosX blockPosY primIdx (fs_Framebuffer st) 16 st').
  { revert Hrun. unfold FragmentShadeBlock.
    change g_scPixelBlockSize with 8 in *. change g_scNumEdgeTestsPerRow with 2.
    intros Hrun.
    apply (for_u32_run (fun j s =>
             Progress blockPosX blockPosY primIdx (fs_Framebuffer st) (2 * j) s))
      in Hrun; [exact Hrun | |].
    - split; [reflexivity |]. intros px py Hpx Hpy gx gy.
      apply GroupSame_refl.
    - intros py s s' Hpy Hs Hrow. change (Z.to_nat 8) with 8%nat in Hpy.
      apply (for_u32_run (fun i t =>
               Progress blockPosX blockPosY primIdx (fs_Framebuffer st) (2 * py + i) t))
        in Hrow.
      + change (Z.to_nat 2) with 2%nat in Hrow.
        replace (2 * S py)%nat with (2 * py + 2)%nat by lia. exact Hrow.
      + rewrite Nat.add_0_r. exact Hs.
      + intros px t t' Hpx Ht Hgroup. change (Z.to_nat 2) with 2%nat in Hpx.
        replace (2 * py + S px)%nat with (S (2 * py + px)) by lia.
        exact (Progress_step _ _ _ _ _ _ _ _ HF Hpx Hpy Ht Hgroup). }
  destruct Hend as [_ Hall].
  intros px py Hpx Hpy. specialize (Hall px py Hpx Hpy). cbv zeta in Hall.
  rewrite (proj2 (Nat.ltb_lt _ _)) in Hall by lia. exact Hall.
Qed.

(** What is kept outside a rectangle is kept for a group outside of it. *)
Lemma OutsideKept_group (fb fb' : Framebuffer) (x0 y0 w h rx ry rw rh gx gy : Z) :
  RectFits fb x0 y0 w h ->
  x0 <= gx -> gx + 4 <= x0 + w -> y0 <= gy < y0 + h ->
  gy < ry \/ ry + rh <= gy \/ gx + 4 <= rx \/ rx + rw <= gx ->
  OutsideKept fb fb' rx ry rw rh ->
  GroupSame fb fb' gx gy.
Proof.
  intros HF Hgx Hgx' Hgy Hout (HW & HH & HD & HC & Hkept).
  destruct (rect_addresses _ _ _ _ _ _ _ HF Hgx Hgx' Hgy) as (Hpos & Hda & Hca).
  pose proof HF as (Hx0 & Hy0 & Hw & _).
  repeat (split; [assumption |]). rewrite Hda, Hca. split.
  - intros k Hk.
    destruct (Hkept (gx + Z.of_nat k) gy ltac:(lia) ltac:(lia) ltac:(lia)) as [Hd _].
    replace (Z.to_nat (gx + gy * m_Width fb) + k)%nat
      with (Z.to_nat (gx + Z.of_nat k + gy * m_Width fb)) by lia.
    exact Hd.
  - intros j Hj.
    assert (Hj4 : j = (4 * (j / 4) + j mod 4)%nat) by (apply Nat.div_mod_eq).
    assert (Hq : (j / 4 < 4)%nat) by (apply Nat.Div0.div_lt_upper_bound; lia).
    assert (Hr : (j mod 4 < 4)%nat) by (apply Nat.mod_upper_bound; lia).
    set (k := (j / 4)%nat) in *. set (c := (j mod 4)%nat) in *.
    destruct (Hkept (gx + Z.of_nat k) gy ltac:(lia) ltac:(lia) ltac:(lia)) as [_ Hc].
    specialize (Hc (Z.of_nat c) ltac:(lia)).
    replace (Z.to_nat (4 * (gx + gy * m_Width fb)) + j)%nat
      with (Z.to_nat (4 * (gx + Z.of_nat k + gy * m_Width fb) + Z.of_nat c)) by lia.
    exact Hc.
Qed.

Variable m_RenderConfig : RasterizerConfig.

(** After [m] blocks of the tile, in the order of the two loops. *)
Let TileProgress (tilePosX tilePosY primIdx : Z) (N : nat) (fb : Framebuffer) (m : nat)
    (cur : FSState) : Prop :=
  m_Width (fs_Framebuffer cur) = m_Width fb
  /\ forall bx by_ px py : nat, (bx < N)%nat -> (by_ < N)%nat -> (px < 2)%nat -> (py < 8)%nat ->
       let gx := tilePosX + 8 * Z.of_nat bx + 4 * Z.of_nat px in
       let gy := tilePosY + 8 * Z.of_nat by_ + Z.of_nat py in
       if (by_ * N + bx <? m)%nat
       then Shaded primIdx fb (fs_Framebuffer cur) gx gy
       else GroupSame fb (fs_Framebuffer cur) gx gy.

Lemma TileProgress_step (tilePosX tilePosY primIdx : Z) (N : nat) (fb : Framebuffer)
    (bx by_ : nat) (cur next : FSState) :
  RectFits fb tilePosX tilePosY (8 * Z.of_nat N) (8 * Z.of_nat N) ->
  (bx < N)%nat -> (by_ < N)%nat ->
  TileProgress tilePosX tilePosY primIdx N fb (by_ * N + bx) cur ->
  FragmentShadeBlock m_ShaderMetadata m_SetupBuffers FS rcp
    (tilePosX + 8 * Z.of_nat bx) (tilePosY + 8 * Z.of_nat by_) primIdx cur = Some next ->
  TileProgress tilePosX tilePosY primIdx N fb (S (by_ * N + bx)) next.
Proof.
  intros HF Hbx Hby [HW Hall] Hrun.
  pose proof HF as (Hx0 & Hy0 & Hw & Hwrap).
  assert (HFc : RectFits (fs_Framebuffer cur) tilePosX tilePosY
                  (8 * Z.of_nat N) (8 * Z.of_nat N))
    by (unfold RectFits; rewrite HW; exact HF).
  assert (HFb : RectFits (fs_Framebuffer cur) (tilePosX + 8 * Z.of_nat bx)
                  (tilePosY + 8 * Z.of_nat by_) g_scPixelBlockSize g_scPixelBlockSize).
  { change g_scPixelBlockSize with 8. unfold RectFits. rewrite HW.
    split; [lia |]. split; [lia |]. split; [lia |].
    assert (0 < m_Width fb) by lia.
    assert ((tilePosY + 8 * Z.of_nat by_ + 8) * m_Width fb
            <= (tilePosY + 8 * Z.of_nat N) * m_Width fb)
      by (apply Z.mul_le_mono_nonneg_r; lia).
    lia. }
  pose proof (FragmentShadeBlock_shaded _ _ _ _ _ HFb Hrun) as Hshaded.
  pose proof (FragmentShadeBlock_outside m_ShaderMetadata m_SetupBuffers FS rcp
                (tilePosX + 8 * Z.of_nat bx) (tilePosY + 8 * Z.of_nat by_) primIdx cur next
                (tilePosX + 8 * Z.of_nat bx) (tilePosY + 8 * Z.of_nat by_)
                g_scPixelBlockSize g_scPixelBlockSize HFb
                ltac:(lia) ltac:(lia) ltac:(lia) ltac:(lia) Hrun) as Hothers.
  change g_scPixelBlockSize with 8 in Hothers.
  split; [destruct Hothers as (-> & _); exact HW |].
  intros qx qy px py Hqx Hqy Hpx Hpy gx gy.
  specialize (Hall qx qy px py Hqx Hqy Hpx Hpy). cbv zeta in Hall. fold gx gy in Hall.
  destruct (decide (qx = bx /\ qy = by_)) as [[-> ->] | Hne].
  - rewrite (proj2 (Nat.ltb_lt _ _)) by lia.
    rewrite (proj2 (Nat.ltb_ge _ _)) in Hall by lia.
    specialize (Hshaded px py Hpx Hpy).
    replace (tilePosX + 8 * Z.of_nat bx + 4 * Z.of_nat px) with gx in Hshaded
      by (subst gx; lia).
    exact (GroupShaded_before _ _ _ _ _ _ Hall Hshaded).
  - assert (Hother : qy <> by_ \/ qx <> bx).
    { destruct (Nat.eq_dec qy by_) as [-> | Hy]; [right | left; exact Hy].
      intros ->. apply Hne. split; reflexivity. }
    assert (Hkept : GroupSame (fs_Framebuffer cur) (fs_Framebuffer next) gx gy).
    { apply (OutsideKept_group _ _ tilePosX tilePosY (8 * Z.of_nat N) (8 * Z.of_nat N)
               (tilePosX + 8 * Z.of_nat bx) (tilePosY + 8 * Z.of_nat by_) 8 8 gx gy HFc);
        [subst gx; lia | subst gx; lia | subst gy; lia | subst gx gy; lia | exact Hothers]. }
    assert (Hidx : (qy * N + qx)%nat <> (by_ * N + bx)%nat).
    { destruct (Nat.lt_trichotomy qy by_) as [Hlt | [-> | Hgt]].
      - assert ((qy + 1) * N <= by_ * N)%nat by (apply Nat.mul_le_mono_r; lia). lia.
      - lia.
      - assert ((by_ + 1) * N <= qy * N)%nat by (apply Nat.mul_le_mono_r; lia). lia. }
    destruct (qy * N + qx <? by_ * N + bx)%nat eqn:Hdone.
    + apply Nat.ltb_lt in Hdone. rewrite (proj2 (Nat.ltb_lt _ _)) by lia.
      exact (GroupShaded_after _ _ _ _ _ _ HW Hall Hkept).
    + apply Nat.ltb_ge in Hdone. rewrite (proj2 (Nat.ltb_ge _ _)) by lia.
      exact (GroupSame_trans _ _ _ _ _ Hall Hkept).
Qed.

Lemma FragmentShadeTile_shaded (tilePosX tilePosY primIdx : Z) (st st' : FSState) :
  let N := Z.to_nat (m_TileSize m_RenderConfig / g_scPixelBlockSize) in
  RectFits (fs_Framebuffer st) tilePosX tilePosY (8 * Z.of_nat N) (8 * Z.of_nat N) ->
  FragmentShadeTile m_RenderConfig m_ShaderMetadata m_SetupBuffers FS rcp
    tilePosX tilePosY primIdx st = Some st' ->
  forall bx by_ px py : nat, (bx < N)%nat -> (by_ < N)%nat -> (px < 2)%nat -> (py < 8)%nat ->
    Shaded primIdx (fs_Framebuffer st) (fs_Framebuffer st')
      (tilePosX + 8 * Z.of_nat bx + 4 * Z.of_nat px)
      (tilePosY + 8 * Z.of_nat by_ + Z.of_nat py).
Proof.
  intros N HF Hrun.
  assert (Hend : TileProgress tilePosX tilePosY primIdx N (fs_Framebuffer st) (N * N) st').
  { revert Hrun. unfold FragmentShadeTile. cbv zeta.
    change g_scPixelBlockSize with 8 in *. fold N. intros Hrun.
    pose proof HF as (Hx0 & Hy0 & Hw & Hwrap).
    apply (for_u32_run (fun j s =>
             TileProgress tilePosX tilePosY primIdx N (fs_Framebuffer st) (j * N) s))
      in Hrun; [exact Hrun | |].
    - split; [reflexivity |]. intros bx by_ px py Hbx Hby Hpx Hpy gx gy.
      apply GroupSame_refl.
    - intros by_ s s' Hby Hs Hrow. fold N in Hby.
      apply (for_u32_run (fun i t =>
               TileProgress tilePosX tilePosY primIdx N (fs_Framebuffer st)
                 (by_ * N + i) t)) in Hrow.
      + fold N in Hrow. replace (S by_ * N)%nat with (by_ * N + N)%nat by lia. exact Hrow.
      + rewrite Nat.add_0_r. exact Hs.
      + intros bx t t' Hbx Ht Hblock. fold N in Hbx.
        replace (by_ * N + S bx)%nat with (S (by_ * N + bx)) by lia.
        destruct (RectFits_small _ _ _ _ _ (tilePosX + 8 * Z.of_nat N)
                    (tilePosY + 8 * Z.of_nat N) HF
                    ltac:(lia) ltac:(lia) ltac:(lia) ltac:(lia)) as [Hsx Hsy].
        rewrite (u32_small (Z.of_nat bx * 8)) in Hblock by lia.
        rewrite (u32_small (Z.of_nat by_ * 8)) in Hblock by lia.
        rewrite !u32_small in Hblock by lia.
        replace (Z.of_nat bx * 8) with (8 * Z.of_nat bx) in Hblock by lia.
        replace (Z.of_nat by_ * 8) with (8 * Z.of_nat by_) in Hblock by lia.
        exact (TileProgress_step _ _ _ _ _ _ _ _ _ HF Hbx Hby Ht Hblock). }
  destruct Hend as [_ Hall].
  intros bx by_ px py Hbx Hby Hpx Hpy. specialize (Hall bx by_ px py Hbx Hby Hpx Hpy).
  cbv zeta in Hall.
  assert (Hlast : (by_ * N + bx < N * N)%nat).
  { assert ((by_ + 1) * N <= N * N)%nat by (apply Nat.mul_le_mono_r; lia). lia. }
  rewrite (proj2 (Nat.ltb_lt _ _)) in Hall by exact Hlast. exact Hall.
Qed.

(** X25.  Fragment shading of a TILE or BLOCK coverage mask depth-tests every
    sample of the mask's rectangle once, against the depth the sample had
    before the call: for each group of four samples of the rectangle (the
    [i]-th group of its row [j]), with [z] the depth interpolated for the
    group and [cur] the depth stored for it at the start, a sample with
    [z <= cur] ends with the depth [z] and the color that the fragment
    shader returns for it on the record of the shading function, which
    holds the interpolated attributes of the group, and every other sample
    ends as it started.  (The rectangle lies within the rows of the
    framebuffer and no byte address in it wraps around; the shading returns
    only when every store of the interpolation lands in that record, which
    has room for one attribute of each width.) *)
Theorem full_masks_test_every_sample_once (pMask : CoverageMask) (st st' : FSState) :
  m_Type pMask <> QUAD ->
  MaskFits m_RenderConfig (fs_Framebuffer st) pMask ->
  ShadeCoverageMask m_RenderConfig m_ShaderMetadata m_SetupBuffers FS rcp pMask st
    = Some st' ->
  forall i j : Z,
    0 <= i -> g_scSIMDWidth * i + g_scSIMDWidth <= MaskWidth m_RenderConfig (m_Type pMask) ->
    0 <= j < MaskHeight m_RenderConfig (m_Type pMask) ->
    GroupShaded m_ShaderMetadata m_SetupBuffers FS rcp (m_PrimIdx pMask)
      (fs_Framebuffer st) (fs_Framebuffer st')
      (m_SampleX pMask + g_scSIMDWidth * i) (m_SampleY pMask + j).
Proof.
  unfold MaskFits, ShadeCoverageMask. intros Hquad HF Hrun i j Hi Hi' Hj.
  change g_scSIMDWidth with 4 in *.
  destruct (m_Type pMask); cbn [MaskWidth MaskHeight] in *; [| | congruence].
  - change g_scPixelBlockSize with 8 in *.
    set (n := m_TileSize m_RenderConfig / 8) in *.
    assert (Hn : 0 < n) by lia.
    assert (HF' : RectFits (fs_Framebuffer st) (m_SampleX pMask) (m_SampleY pMask)
                    (8 * Z.of_nat (Z.to_nat n)) (8 * Z.of_nat (Z.to_nat n)))
      by (rewrite Z2Nat.id by lia; exact HF).
    pose proof (FragmentShadeTile_shaded _ _ _ _ _ HF' Hrun
                  (Z.to_nat (i / 2)) (Z.to_nat (j / 8))
                  (Z.to_nat (i mod 2)) (Z.to_nat (j mod 8))) as Hshaded.
    cbv zeta in Hshaded. change g_scPixelBlockSize with 8 in Hshaded.
    pose proof (Z.div_mod i 2 ltac:(lia)).
    pose proof (Z.mod_pos_bound i 2 ltac:(lia)).
    pose proof (Z.div_mod j 8 ltac:(lia)).
    pose proof (Z.mod_pos_bound j 8 ltac:(lia)).
    assert (0 <= i / 2) by (apply Z.div_pos; lia).
    assert (0 <= j / 8) by (apply Z.div_pos; lia).
    fold n in Hshaded.
    specialize (Hshaded ltac:(lia) ltac:(lia) ltac:(lia) ltac:(lia)).
    rewrite !Z2Nat.id in Hshaded by lia.
    replace (m_SampleX pMask + 8 * (i / 2) + 4 * (i mod 2))
      with (m_SampleX pMask + 4 * i) in Hshaded by lia.
    replace (m_SampleY pMask + 8 * (j / 8) + j mod 8)
      with (m_SampleY pMask + j) in Hshaded by lia.
    exact Hshaded.
  - pose proof (FragmentShadeBlock_shaded _ _ _ _ _ HF Hrun (Z.to_nat i) (Z.to_nat j)
                  ltac:(change g_scPixelBlockSize with 8 in *; lia)
                  ltac:(change g_scPixelBlockSize with 8 in *; lia)) as Hshaded.
    rewrite !Z2Nat.id in Hshaded by lia. exact Hshaded.
Qed.

End EverySampleOnce.

Lemma full_masks_test_every_sample_once_witness :
  exists st' : FSState,
    ShadeCoverageMask Scene.config Scene.vec4_metadata Scene.attribute_setup_buffers
      Scene.attribute_FS Scene.exact_rcp (mk_CoverageMask 32 32 0 BLOCK 0) Scene.start
      = Some st'
    /\ GroupShaded Scene.vec4_metadata Scene.attribute_setup_buffers Scene.attribute_FS
         Scene.exact_rcp 0 (fs_Framebuffer Scene.start) (fs_Framebuffer st')
         (32 + g_scSIMDWidth * 1) (32 + 3).
Proof.
  destruct (ShadeCoverageMask Scene.config Scene.vec4_metadata Scene.attribute_setup_buffers
              Scene.attribute_FS Scene.exact_rcp (mk_CoverageMask 32 32 0 BLOCK 0)
              Scene.start)
    as [st' |] eqn:Hrun; [| vm_compute in Hrun; discriminate].
  exists st'. split; [reflexivity |].
  refine (full_masks_test_every_sample_once Scene.vec4_metadata
            Scene.attribute_setup_buffers Scene.attribute_FS Scene.exact_rcp Scene.config
            (mk_CoverageMask 32 32 0 BLOCK 0) Scene.start st' _ _ Hrun 1 3 _ _ _).
  - discriminate.
  - unfold MaskFits, RectFits. repeat split; vm_compute; congruence.
  - discriminate.
  - discriminate.
  - split; [discriminate | reflexivity].
Defined.

(** ** The tile grid of [SetRenderTargets] *)

Lemma grid_length {A} (f : nat -> nat -> A) (n m : nat) :
  length (flat_map (fun y => map (f y) (seq 0 n)) (seq 0 m)) = (m * n)%nat.
Proof.
  induction m as [| m IH]; [reflexivity |].
  rewrite seq_S, flat_map_app, length_app, IH. simpl.
  rewrite length_app, length_map, length_seq. simpl. lia.
Qed.

Lemma grid_lookup {A} (f : nat -> nat -> A) (n m x y : nat) :
  (x < n)%nat -> (y < m)%nat ->
  flat_map (fun y => map (f y) (seq 0 n)) (seq 0 m) !! (y * n + x)%nat = Some (f y x).
Proof.
  intros Hx. induction m as [| m IH]; intros Hy; [lia |].
  rewrite seq_S, flat_map_app. simpl. rewrite app_nil_r.
  destruct (decide (y = m)) as [-> | Hne].
  - rewrite lookup_app_r by (rewrite grid_length; lia).
    rewrite grid_length. replace (m * n + x - m * n)%nat with x by lia.
    rewrite list_lookup_fmap, lookup_seq_lt by exact Hx. reflexivity.
  - assert ((y + 1) * n <= m * n)%nat by (apply Nat.mul_le_mono_r; lia).
    rewrite lookup_app_l by (rewrite grid_length; lia).
    apply IH. lia.
Qed.

Lemma u32_of_float_nonneg (x : f32) : 0 <= u32_of_float x.
Proof.
  unfold u32_of_float. destruct (F32.to_Z_trunc x); [| lia].
  unfold u32, u32_mod. apply Z.mod_pos_bound. lia.
Qed.

(** X26.  The first [SetRenderTargets] of an engine lays the tiles out row
    by row: with [numTileX * numTileY] below [2^32], the tile that
    [GetGlobalTileIndex] names for the column [x] and the row [y] is the
    tile whose origin is the pixel
    [(min(width, x * m_TileSize), min(height, y * m_TileSize))].  Its queued
    flag is as the constructor of [Tile] left it, and it is clear, with the
    tile at the same origin, once [ApplyPreDrawIterationStateInvalidations]
    has run at the start of a draw iteration.  The engine then has one bin
    and one coverage mask buffer for every tile and thread, each bin is
    empty with [m_MaxDrawIterationSize / m_NumPipelineThreads] elements
    reserved, and each coverage mask buffer and the rasterizer queue are
    empty. *)
Theorem SetRenderTargets_lays_out_the_tiles (cfg : RasterizerConfig) (constructed : bool)
    (width height : Z) :
  let numTileX := NumTiles cfg width in
  let numTileY := NumTiles cfg height in
  let e := SetRenderTargets cfg constructed width height in
  numTileX * numTileY < u32_mod ->
  EngineShape e (Z.to_nat (numTileX * numTileY)) (Z.to_nat (m_NumPipelineThreads cfg))
  /\ (forall x y : Z, 0 <= x < numTileX -> 0 <= y < numTileY ->
        let posX := float_of_u32 (Z.min width (u32 (x * m_TileSize cfg))) in
        let posY := float_of_u32 (Z.min height (u32 (y * m_TileSize cfg))) in
        array_get (m_TileList e) (GetGlobalTileIndex numTileX x y)
        = Some (mk_Tile posX posY constructed)
        /\ array_get (m_TileList (ApplyPreDrawIterationStateInvalidations e))
             (GetGlobalTileIndex numTileX x y)
           = Some (mk_Tile posX posY false))
  /\ (forall (t k : nat) (b : Vector),
        get2 (m_BinList e) t k = Some b -> b = mk_Vector [] (ReservedBinCapacity cfg))
  /\ (forall (t k : nat) (masks : list CoverageMask),
        get2 (m_CoverageMasks e) t k = Some masks -> masks = [])
  /\ m_RasterizerQueue e = [].
Proof.
  intros numTileX numTileY e Hsmall.
  assert (Hx : 0 <= numTileX) by apply u32_of_float_nonneg.
  assert (Hy : 0 <= numTileY) by apply u32_of_float_nonneg.
  assert (Hprod : 0 <= numTileX * numTileY) by (apply Z.mul_nonneg_nonneg; assumption).
  subst e. unfold ApplyPreDrawIterationStateInvalidations, SetRenderTargets. cbv zeta.
  cbn [m_TileList m_BinList m_CoverageMasks m_RasterizerQueue].
  fold numTileX numTileY. rewrite (u32_small (numTileX * numTileY)) by lia.
  split; [| split; [| split; [| split]]].
  - constructor; cbn [m_TileList m_BinList m_CoverageMasks].
    + unfold InitialTiles. fold numTileX numTileY. rewrite grid_length. lia.
    + intros t k Ht Hk. unfold get2.
      rewrite lookup_replicate_2 by exact Ht. cbn [mbind option_bind].
      rewrite lookup_replicate_2 by exact Hk. eexists. reflexivity.
    + intros t k Ht Hk. unfold get2.
      rewrite lookup_replicate_2 by exact Ht. cbn [mbind option_bind].
      rewrite lookup_replicate_2 by exact Hk. eexists. reflexivity.
  - intros x y Hxr Hyr.
    set (posX := float_of_u32 (Z.min width (u32 (x * m_TileSize cfg)))).
    set (posY := float_of_u32 (Z.min height (u32 (y * m_TileSize cfg)))).
    assert (Htile : array_get (InitialTiles cfg constructed width height)
                      (GetGlobalTileIndex numTileX x y)
                    = Some (mk_Tile posX posY constructed)).
    { subst posX posY. unfold array_get, GetGlobalTileIndex, InitialTiles.
      fold numTileX numTileY.
      assert (Hrow : (y + 1) * numTileX <= numTileY * numTileX)
        by (apply Z.mul_le_mono_nonneg_r; lia).
      assert (Hrow0 : 0 <= y * numTileX) by (apply Z.mul_nonneg_nonneg; lia).
      rewrite u32_small by lia.
      replace (Z.to_nat (y * numTileX + x))
        with (Z.to_nat y * Z.to_nat numTileX + Z.to_nat x)%nat by lia.
      rewrite (grid_lookup
                 (fun y x => mk_Tile
                    (float_of_u32 (Z.min width (u32 (Z.of_nat x * m_TileSize cfg))))
                    (float_of_u32 (Z.min height (u32 (Z.of_nat y * m_TileSize cfg))))
                    constructed))
        by lia.
      rewrite !Z2Nat.id by lia. reflexivity. }
    split; [exact Htile |].
    unfold array_get in *. rewrite list_lookup_fmap, Htile. reflexivity.
  - intros t k b Hb. unfold get2 in Hb.
    destruct (replicate _ _ !! t) as [row |] eqn:Hrow; [| discriminate].
    apply lookup_replicate in Hrow as [-> _]. cbn [mbind option_bind] in Hb.
    apply lookup_replicate in Hb as [-> _]. reflexivity.
  - intros t k masks Hm. unfold get2 in Hm.
    destruct (replicate _ _ !! t) as [row |] eqn:Hrow; [| discriminate].
    apply lookup_replicate in Hrow as [-> _]. cbn [mbind option_bind] in Hm.
    apply lookup_replicate in Hm as [-> _]. reflexivity.
  - reflexivity.
Qed.

Lemma SetRenderTargets_lays_out_the_tiles_witness :
  array_get (m_TileList (ApplyPreDrawIterationStateInvalidations Scene.wide_engine))
    (GetGlobalTileIndex 4 2 3)
  = Some (mk_Tile (float_of_u32 128) (float_of_u32 192) false).
Proof.
  assert (Hsmall : NumTiles Scene.wide_config 256 * NumTiles Scene.wide_config 256 < u32_mod)
    by (vm_compute; reflexivity).
  destruct (SetRenderTargets_lays_out_the_tiles Scene.wide_config Scene.constructed_flag
              256 256 Hsmall) as (_ & Htiles & _).
  exact (proj2 (Htiles 2 3 ltac:(vm_compute; split; congruence)
                  ltac:(vm_compute; split; congruence))).
Defined.
